(** * ipc_uds: a shallow embedding of the frame codec, the handler registry,
      the connection server's request path, the client channel and the
      calculator service, with the properties of the transport proved on it.

    Conventions.
    - [size_t] is a 64-bit unsigned integer: a [Z] with the wrap-around of
      every addition and subtraction written out ([size_add], [size_sub]).
    - [uint8_t], [uint16_t], [uint32_t] are [Z] in their ranges; a cast to
      one of them is [_ mod 2^w]; [int64_t] is a [Z] in the signed range.
    - Memory is [list byte]; an object of [n] bytes is stored in the host's
      byte order ([object_bytes]); the host is a parameter of the model.
    - A C++ exception is a value of [exception]; an operation that can throw
      returns an [outcome] together with the state it leaves behind. *)

From Stdlib Require Import ZArith Lia List.
From Stdlib Require Import Strings.String Strings.Byte Strings.Ascii.
From Stdlib Require Import Floats.PrimFloat Floats.FloatOps Floats.SpecFloat
  Floats.FloatAxioms.
From stdpp Require Import gmap strings list.

Local Open Scope Z_scope.

(* ------------------------------------------------------------------ *)
(** ** Bytes and machine integers *)

Definition byte_of_Z (z : Z) : byte :=
  match Byte.of_N (Z.to_N (z mod 256)) with
  | Some b => b
  | None => x00
  end.

Definition Z_of_byte (b : byte) : Z := Z.of_N (Byte.to_N b).

Definition SIZE_MOD : Z := 2 ^ 64.
Definition UINT32_MOD : Z := 2 ^ 32.
Definition UINT16_MOD : Z := 2 ^ 16.

(** [size_t] arithmetic. *)
Definition size_add (a b : Z) : Z := (a + b) mod SIZE_MOD.
Definition size_sub (a b : Z) : Z := (a - b) mod SIZE_MOD.

(** [static_cast<uint32_t>] and [static_cast<int64_t>] of an integer. *)
Definition to_uint32 (z : Z) : Z := z mod UINT32_MOD.
Definition to_int64 (z : Z) : Z := (z + 2 ^ 63) mod 2 ^ 64 - 2 ^ 63.

(** Little-endian and big-endian digits of a value. *)
Fixpoint le_bytes (n : nat) (v : Z) : list byte :=
  match n with
  | O => []
  | S n' => byte_of_Z v :: le_bytes n' (v / 256)
  end.

Fixpoint le_value (l : list byte) : Z :=
  match l with
  | [] => 0
  | b :: l' => Z_of_byte b + 256 * le_value l'
  end.

Definition be_bytes (n : nat) (v : Z) : list byte := rev (le_bytes n v).
Definition be_value (l : list byte) : Z := le_value (rev l).

(** The byte order of the machine the code runs on. *)
Inductive Host := LittleEndian | BigEndian.

(** The object representation of an [n]-byte integer, and the value an
    [n]-byte object holds. *)
Definition object_bytes (h : Host) (n : nat) (v : Z) : list byte :=
  match h with
  | LittleEndian => le_bytes n v
  | BigEndian => be_bytes n v
  end.

Definition object_value (h : Host) (l : list byte) : Z :=
  match h with
  | LittleEndian => le_value l
  | BigEndian => be_value l
  end.

(** <arpa/inet.h>: [htonl x] is the value whose object representation is
    [x] in network (big-endian) order; [ntohl] is its inverse. *)
Definition htonl (h : Host) (x : Z) : Z := object_value h (be_bytes 4 x).
Definition ntohl (h : Host) (x : Z) : Z := be_value (object_bytes h 4 x).
Definition htons (h : Host) (x : Z) : Z := object_value h (be_bytes 2 x).
Definition ntohs (h : Host) (x : Z) : Z := be_value (object_bytes h 2 x).

(* ------------------------------------------------------------------ *)
(** ** Exceptions and outcomes *)

(** The exceptions the code throws, all derived from [std::exception];
    [bad_alloc] is the one the allocator of the C++ library throws. *)
Inductive exception :=
| invalid_argument (msg : string)
| overflow_error (msg : string)
| underflow_error (msg : string)
| out_of_range_error (msg : string)
| bad_alloc.

(** [e.what()] *)
Definition what (e : exception) : string :=
  match e with
  | invalid_argument m | overflow_error m | underflow_error m
  | out_of_range_error m => m
  | bad_alloc => "std::bad_alloc"
  end.

(** How a call ends: it returns, it throws, or it touches memory outside
    the region it was given (undefined behaviour). *)
Inductive outcome (A : Type) :=
| Normal (a : A)
| Throw (e : exception)
| Undefined.
Arguments Normal {A} a.
Arguments Throw {A} e.
Arguments Undefined {A}.

Definition is_overflow {A} (o : outcome A) : bool :=
  match o with Throw (overflow_error _) => true | _ => false end.
Definition is_underflow {A} (o : outcome A) : bool :=
  match o with Throw (underflow_error _) => true | _ => false end.
Definition is_undefined {A} (o : outcome A) : bool :=
  match o with Undefined => true | _ => false end.

(** [memcpy] from and to a region: defined only inside it. *)
Definition mem_read (mem : list byte) (pos n : Z) : option (list byte) :=
  if (0 <=? pos) && (0 <=? n) && (pos + n <=? Z.of_nat (length mem))
  then Some (take (Z.to_nat n) (drop (Z.to_nat pos) mem))
  else None.

Definition mem_write (mem : list byte) (pos : Z) (src : list byte) : option (list byte) :=
  if (0 <=? pos) && (pos + Z.of_nat (length src) <=? Z.of_nat (length mem))
  then Some (take (Z.to_nat pos) mem ++ src
             ++ drop (Z.to_nat pos + length src) mem)
  else None.

(* ------------------------------------------------------------------ *)
(** ** Protocol.hpp *)

Module Protocol.
Definition START_BYTE : Z := 0x7E.
Definition END_BYTE : Z := 0x7F.
Definition VERSION : Z := 0x01.
Definition MAX_PACKET_SIZE : Z := 8 * 1024.
Definition MIN_PACKET_SIZE : Z := 11.
Definition INACTIVITY_TIMEOUT_SEC : Z := 300.
Definition GetMinFrameSize : Z := 11.
End Protocol.

(* ------------------------------------------------------------------ *)
(** ** ByteBuffer.cpp *)

Module ByteBuffer.

(** The external region [buffer_] (not owned), its declared capacity
    [length_] and the cursor [position_]. *)
Record t := mk { buffer_ : list byte; length_ : Z; position_ : Z }.

(** A member function: it runs on the object and leaves it changed,
    also when it throws. *)
Definition M (A : Type) : Type := t -> outcome A * t.

Definition ret {A} (a : A) : M A := fun b => (Normal a, b).
Definition throw {A} (e : exception) : M A := fun b => (Throw e, b).
Definition bind {A B} (m : M A) (k : A -> M B) : M B :=
  fun b =>
    match m b with
    | (Normal a, b') => k a b'
    | (Throw e, b') => (Throw e, b')
    | (Undefined, b') => (Undefined, b')
    end.

Declare Scope bb_scope.
Delimit Scope bb_scope with bb.
Notation "'let*' x := m 'in' k" := (bind m (fun x => k))
  (at level 10, x name, m at level 100, k at level 200) : bb_scope.
Notation "m ;; k" := (bind m (fun _ => k))
  (at level 100, k at level 200, right associativity) : bb_scope.
Local Open Scope bb_scope.

(** [ByteBuffer::ByteBuffer(buffer, length)]; [None] is a null pointer. *)
Definition new (buffer : option (list byte)) (length : Z) : outcome t :=
  match buffer with
  | None => Throw (invalid_argument "ByteBuffer: buffer cannot be null")
  | Some mem =>
      if length =? 0
      then Throw (invalid_argument "ByteBuffer: length must be > 0")
      else Normal {| buffer_ := mem; length_ := length; position_ := 0 |}
  end.

Definition CheckBoundary (size : Z) (b : t) : bool :=
  size_add (position_ b) size <=? length_ b.

Definition WriteBytes (data : list byte) (size : Z) : M unit := fun b =>
  if negb (CheckBoundary size b)
  then (Throw (overflow_error "ByteBuffer: write would exceed buffer bounds"), b)
  else
    match mem_read data 0 size with
    | None => (Undefined, b)
    | Some src =>
        match mem_write (buffer_ b) (position_ b) src with
        | None => (Undefined, b)
        | Some mem' =>
            (Normal tt, {| buffer_ := mem'; length_ := length_ b;
                           position_ := size_add (position_ b) size |})
        end
    end.

Definition ReadBytes (size : Z) : M (list byte) := fun b =>
  if negb (CheckBoundary size b)
  then (Throw (underflow_error "ByteBuffer: read would exceed buffer bounds"), b)
  else
    match mem_read (buffer_ b) (position_ b) size with
    | None => (Undefined, b)
    | Some bytes =>
        (Normal bytes, {| buffer_ := buffer_ b; length_ := length_ b;
                          position_ := size_add (position_ b) size |})
    end.

(** Buffer management *)
Definition Reset : M unit := fun b =>
  (Normal tt, {| buffer_ := buffer_ b; length_ := length_ b; position_ := 0 |}).
Definition Position (b : t) : Z := position_ b.
Definition Capacity (b : t) : Z := length_ b.
Definition SetPosition (pos : Z) : M unit := fun b =>
  if length_ b <? pos
  then (Throw (out_of_range_error
                 "ByteBuffer::SetPosition: position exceeds buffer length"), b)
  else (Normal tt, {| buffer_ := buffer_ b; length_ := length_ b; position_ := pos |}).

Section WithHost.
Variable host : Host.

(** Write operations *)
Definition PutByte (data : Z) : M unit :=
  WriteBytes (object_bytes host 1 data) 1.

Definition PutInt (data : Z) : M unit :=
  let net_data := htonl host data in
  WriteBytes (object_bytes host 4 net_data) 4.

Definition PutShort (data : Z) : M unit :=
  let net_data := htons host data in
  WriteBytes (object_bytes host 2 net_data) 2.

Definition PutLong (data : Z) : M unit :=
  let high := htonl host (to_uint32 (Z.shiftr data 32)) in
  let low := htonl host (to_uint32 (Z.land data 0xFFFFFFFF)) in
  WriteBytes (object_bytes host 4 high) 4 ;;
  WriteBytes (object_bytes host 4 low) 4.

(** A [float] and a [double] are their IEEE-754 bit patterns; the
    object representation is written as it is. *)
Definition PutFloat (data : Z) : M unit :=
  WriteBytes (object_bytes host 4 data) 4.

Definition PutDouble (data : Z) : M unit :=
  WriteBytes (object_bytes host 8 data) 8.

Definition PutString (data : string) : M unit :=
  let len := to_uint32 (Z.of_nat (String.length data)) in
  PutInt len ;;
  if 0 <? len then WriteBytes (list_byte_of_string data) len else ret tt.

(** The loop of [PutMap] over the entries in the order the map's
    iterator yields them. *)
Fixpoint PutMap_loop (entries : list (string * string)) : M unit :=
  match entries with
  | [] => ret tt
  | (key, value) :: rest =>
      PutString key ;; PutString value ;; PutMap_loop rest
  end.

(** [iteration] lists the entries of [data] in iterator order. *)
Definition PutMap (iteration : gmap string string -> list (string * string))
    (data : gmap string string) : M unit :=
  PutInt (to_uint32 (Z.of_nat (size data))) ;;
  PutMap_loop (iteration data).

(** [data = None] is a null pointer. *)
Definition PutArray (data : option (list byte)) (len : Z) : M unit :=
  PutInt len ;;
  if 0 <? len then
    match data with
    | None => throw (invalid_argument "ByteBuffer::PutArray: data cannot be null")
    | Some d => WriteBytes d len
    end
  else ret tt.

(** Read operations *)
Definition GetByte : M Z :=
  let* data := ReadBytes 1 in ret (object_value host data).

Definition GetInt : M Z :=
  let* net_data := ReadBytes 4 in ret (ntohl host (object_value host net_data)).

Definition GetShort : M Z :=
  let* net_data := ReadBytes 2 in ret (ntohs host (object_value host net_data)).

Definition GetLong : M Z :=
  let* high := ReadBytes 4 in
  let* low := ReadBytes 4 in
  let high := ntohl host (object_value host high) in
  let low := ntohl host (object_value host low) in
  ret (to_int64 (Z.lor (Z.shiftl high 32) low)).

Definition GetFloat : M Z :=
  let* data := ReadBytes 4 in ret (object_value host data).

Definition GetDouble : M Z :=
  let* data := ReadBytes 8 in ret (object_value host data).

Definition GetString : M string :=
  let* len := GetInt in
  if len =? 0 then ret EmptyString
  else fun b =>
    if negb (CheckBoundary len b)
    then (Throw (underflow_error
                   "ByteBuffer::GetString: string length exceeds buffer"), b)
    else
      match mem_read (buffer_ b) (position_ b) len with
      | None => (Undefined, b)
      | Some bytes =>
          (Normal (string_of_list_byte bytes),
           {| buffer_ := buffer_ b; length_ := length_ b;
              position_ := size_add (position_ b) len |})
      end.

(** The loop of [GetMap]: [count] more entries to read into [result]. *)
Fixpoint GetMap_loop (count : nat) (result : gmap string string)
    : M (gmap string string) :=
  match count with
  | O => ret result
  | S count' =>
      let* key := GetString in
      let* value := GetString in
      GetMap_loop count' (<[key := value]> result)
  end.

(** [GetMap()]. [result.reserve(count)] allocates the table for [count]
    entries before any entry is read; [reserve] says for which counts the
    allocator grants it, and [std::bad_alloc] leaves the call for the
    others. *)
Definition GetMap (reserve : Z -> bool) : M (gmap string string) :=
  let* count := GetInt in
  if negb (reserve count) then throw bad_alloc
  else GetMap_loop (Z.to_nat count) ∅.

(** [data_null] says the destination pointer is null; the result is
    the length and the bytes copied to the destination. *)
Definition GetArray (data_null : bool) (max_len : Z) : M (Z * list byte) :=
  let* len := GetInt in
  if data_null && (0 <? len)
  then throw (invalid_argument "ByteBuffer::GetArray: data cannot be null")
  else if max_len <? len
  then throw (overflow_error
                "ByteBuffer::GetArray: array size exceeds destination buffer")
  else if 0 <? len
  then (let* bytes := ReadBytes len in ret (len, bytes))
  else ret (len, []).

End WithHost.

(** A buffer the constructor can have built over a real region, with the
    cursor where the operations leave it. *)
Definition wf (b : t) : Prop :=
  0 <= position_ b <= length_ b /\
  length_ b <= Z.of_nat (length (buffer_ b)) /\
  length_ b < 2 ^ 63.

(** Bytes left between the cursor and the capacity. *)
Definition remaining (b : t) : Z := length_ b - position_ b.

End ByteBuffer.

(* ------------------------------------------------------------------ *)
(** ** The [double] type

    A [double] object is its 64-bit IEEE-754 pattern; arithmetic and
    comparisons read the pattern as a binary64 number. *)

Module Double.

Definition SIGN_BIT : Z := 2 ^ 63.
Definition QUIET_NAN : Z := 0x7FF8000000000000.

(** The NaN that an invalid operation on numbers yields ([inf - inf],
    [0 * inf], [0 / 0], [inf / inf]), and the bit that makes a NaN a
    quiet one. *)
Definition INDEFINITE_NAN : Z := 0xFFF8000000000000.
Definition QUIET_BIT : Z := 2 ^ 51.

Definition to_spec (w : Z) : spec_float :=
  let s := Z.testbit w 63 in
  let e := Z.land (Z.shiftr w 52) 0x7FF in
  let m := Z.land w (2 ^ 52 - 1) in
  if e =? 0 then
    (if m =? 0 then S754_zero s else S754_finite s (Z.to_pos m) (-1074))
  else if e =? 0x7FF then
    (if m =? 0 then S754_infinity s else S754_nan)
  else S754_finite s (Z.to_pos (m + 2 ^ 52)) (e - 1075).

(** The pattern of a value; [nan] is the pattern to take when the value
    is a NaN, whose sign and payload [spec_float] does not carry. *)
Definition of_spec (nan : Z) (f : spec_float) : Z :=
  let sign (s : bool) : Z := if s then SIGN_BIT else 0 in
  match f with
  | S754_zero s => sign s
  | S754_infinity s => sign s + 0x7FF0000000000000
  | S754_nan => nan
  | S754_finite s m e =>
      if Z.pos m <? 2 ^ 52 then sign s + Z.pos m
      else sign s + (e + 1075) * 2 ^ 52 + (Z.pos m - 2 ^ 52)
  end.

Definition to_float (w : Z) : float := SF2Prim (to_spec w).

(** The pattern of a literal of the source; none of them is a NaN. *)
Definition of_float (f : float) : Z := of_spec QUIET_NAN (Prim2SF f).

Definition is_nan (x : Z) : bool := PrimFloat.is_nan (to_float x).

(** The NaN of a result. IEEE 754 leaves its sign and payload to the
    arithmetic unit; they are taken here as the SSE2 unit of x86-64
    gives them for [addsd], [subsd], [mulsd] and [divsd]: the first
    operand that is a NaN, made quiet and otherwise kept, and
    [INDEFINITE_NAN] when no operand is a NaN. *)
Definition quiet (x : Z) : Z := Z.lor (x mod 2 ^ 64) QUIET_BIT.

Definition nan_of (a b : Z) : Z :=
  if is_nan a then quiet a
  else if is_nan b then quiet b
  else INDEFINITE_NAN.

Definition add (a b : Z) : Z :=
  of_spec (nan_of a b) (Prim2SF (to_float a + to_float b)%float).
Definition sub (a b : Z) : Z :=
  of_spec (nan_of a b) (Prim2SF (to_float a - to_float b)%float).
Definition mul (a b : Z) : Z :=
  of_spec (nan_of a b) (Prim2SF (to_float a * to_float b)%float).
Definition div (a b : Z) : Z :=
  of_spec (nan_of a b) (Prim2SF (to_float a / to_float b)%float).

(** [std::abs(x) < y] and [x >= y] on doubles. *)
Definition abs_lt (x : Z) (y : float) : bool :=
  PrimFloat.ltb (PrimFloat.abs (to_float x)) y.
Definition abs_ge (x : Z) (y : float) : bool :=
  PrimFloat.leb y (PrimFloat.abs (to_float x)).

(** The literal [0.0]. *)
Definition zero : Z := 0.

End Double.

(* ------------------------------------------------------------------ *)
(** ** CalculatorService.hpp, CalculatorService.cpp *)

Module CalculatorService.
Import ByteBuffer.
Local Open Scope bb_scope.

(** [enum class Operation : uint8_t]; a cast can produce a value that
    names no enumerator. *)
Inductive Operation := Add | Subtract | Multiply | Divide | Unnamed (code : Z).

Definition Operation_of_byte (b : Z) : Operation :=
  if b =? 0x01 then Add
  else if b =? 0x02 then Subtract
  else if b =? 0x03 then Multiply
  else if b =? 0x04 then Divide
  else Unnamed b.

Definition Operation_code (op : Operation) : Z :=
  match op with
  | Add => 0x01 | Subtract => 0x02 | Multiply => 0x03 | Divide => 0x04
  | Unnamed c => c
  end.

(** [enum class Status : uint8_t] *)
Inductive Status := Success | DivisionByZero | InvalidOperation | InvalidInput.

Definition Status_code (s : Status) : Z :=
  match s with
  | Success => 0x00
  | DivisionByZero => 0x01
  | InvalidOperation => 0x02
  | InvalidInput => 0x03
  end.

Definition GetRequestRoutineId : Z := 0x1000.
Definition GetResponseRoutineId : Z := 0x1001.
Definition GetName : string := "CalculatorService".

(** The divisor threshold, the literal [1e-10]. *)
#[warnings="-inexact-float"]
Definition DIVISOR_EPSILON : float := 1e-10%float.

(** [ExecuteOperation(op, a, b, result, error)]: the status, with the
    values left in the [result] and [error] references. *)
Definition ExecuteOperation (op : Operation) (a b : Z) : Status * Z * string :=
  match op with
  | Add => (Success, Double.add a b, EmptyString)
  | Subtract => (Success, Double.sub a b, EmptyString)
  | Multiply => (Success, Double.mul a b, EmptyString)
  | Divide =>
      if Double.abs_lt b DIVISOR_EPSILON
      then (DivisionByZero, Double.zero, "Division by zero"%string)
      else (Success, Double.div a b, EmptyString)
  | Unnamed _ => (InvalidOperation, Double.zero, "Invalid operation code"%string)
  end.

Section WithHost.
Variable host : Host.

(** The request fields read in the [try] block of [Execute]. *)
Definition parse_request : M (Z * Z * Z) :=
  let* op_byte := GetByte host in
  let* operand_a := GetDouble host in
  let* operand_b := GetDouble host in
  ret (op_byte, operand_a, operand_b).

(** The response frame as both branches of [Execute] write it: the frame
    with a placeholder length, then the length patched at offset 1. *)
Definition write_response (status : Status) (result : Z) (error_msg : string)
    : M Z :=
  PutByte host Protocol.START_BYTE ;;
  PutInt host 0 ;;
  PutInt host GetResponseRoutineId ;;
  PutByte host Protocol.VERSION ;;
  PutByte host (Status_code status) ;;
  PutDouble host result ;;
  PutString host error_msg ;;
  PutByte host Protocol.END_BYTE ;;
  fun response =>
    let total_len := Position response in
    (SetPosition 1 ;;
     PutInt host (to_uint32 total_len) ;;
     ret total_len) response.

(** A [ByteBuffer] built over [region] and used for [body]; the result
    and the region as the body leaves it. *)
Definition with_buffer {A} (region : list byte) (length : Z) (body : M A)
    : outcome A * list byte :=
  match ByteBuffer.new (Some region) length with
  | Normal b => let '(o, b') := body b in (o, buffer_ b')
  | Throw e => (Throw e, region)
  | Undefined => (Undefined, region)
  end.

(** [Execute(input, input_len, output, output_len)]: the value returned
    (or the exception that escapes) and the output region afterwards. *)
Definition Execute (input : list byte) (input_len : Z)
    (output : list byte) (output_len : Z) : outcome Z * list byte :=
  let try_block :=
    match fst (with_buffer input input_len parse_request) with
    | Normal (op_byte, operand_a, operand_b) =>
        let op := Operation_of_byte op_byte in
        let '(status, result, error_msg) :=
          ExecuteOperation op operand_a operand_b in
        with_buffer output output_len (write_response status result error_msg)
    | Throw e => (Throw e, output)
    | Undefined => (Undefined, output)
    end in
  match try_block with
  | (Throw e, output') =>
      with_buffer output' output_len
        (write_response InvalidInput Double.zero
           (String.append "Exception: " (what e)))
  | done => done
  end.

End WithHost.
End CalculatorService.

(* ------------------------------------------------------------------ *)
(** ** The operating system, as the code sees it

    A system call is recorded in [trace]; a call whose result the code
    inspects takes its answer from [script]. A world with no answer left
    fails the call with [EPIPE]. *)

Module OS.

Inductive syscall :=
| sys_socket
| sys_close (fd : Z)
| sys_unlink (path : string)
| sys_fcntl_getfl (fd : Z)
| sys_fcntl_setfl (fd : Z) (nonblocking : bool)
| sys_connect (fd : Z) (path : string)
| sys_poll (fd : Z) (timeout_ms : Z)
| sys_getsockopt_so_error (fd : Z)
| sys_setsockopt_rcvtimeo (fd : Z) (tv_sec tv_usec : Z)
| sys_setsockopt_sndtimeo (fd : Z) (tv_sec tv_usec : Z)
| sys_epoll_ctl_del (epoll_fd fd : Z)
| sys_send (fd : Z) (data : list byte)
| sys_recv (fd : Z) (len : Z).

(** The value returned, [errno] when it is negative, and the bytes a
    [recv] delivers. *)
Record answer := { ret : Z; errno : Z; data : list byte }.

Record World := { script : list answer; trace : list syscall }.

Definition EINTR : Z := 4.
Definition EAGAIN : Z := 11.
Definition EWOULDBLOCK : Z := 11.
Definition EPIPE : Z := 32.
Definition EINPROGRESS : Z := 115.

Definition exhausted : answer := {| ret := -1; errno := EPIPE; data := [] |}.

(** A call whose result is read. *)
Definition call (c : syscall) (w : World) : answer * World :=
  match script w with
  | [] => (exhausted, {| script := []; trace := trace w ++ [c] |})
  | a :: rest => (a, {| script := rest; trace := trace w ++ [c] |})
  end.

(** A call whose result is ignored. *)
Definition note (c : syscall) (w : World) : World :=
  {| script := script w; trace := trace w ++ [c] |}.

Definition is_send (c : syscall) : bool :=
  match c with sys_send _ _ => true | _ => false end.
Definition is_recv (c : syscall) : bool :=
  match c with sys_recv _ _ => true | _ => false end.
Definition is_close (c : syscall) : bool :=
  match c with sys_close _ => true | _ => false end.

End OS.

(* ------------------------------------------------------------------ *)
(** ** IService.hpp, ServiceManager.cpp *)

Module ServiceManager.

(** A handler: its routine ids, its name and [Execute(input, input_len,
    output, output_len)], which returns the bytes written (or throws) and
    leaves the output region changed. *)
Record IService := {
  GetRequestRoutineId : Z;
  GetResponseRoutineId : Z;
  GetName : string;
  Execute : list byte -> Z -> list byte -> Z -> outcome Z * list byte
}.

(** What the registry does to [services_] and to a handler, each step
    paired with whether [mutex_] was held when it happened. *)
Inductive action :=
| ActFind (routine_id : Z)
| ActInsert (routine_id : Z)
| ActExecute (routine_id : Z) (input : list byte) (input_len : Z).

Record t := { services_ : gmap Z IService; mutex_ : bool }.

Definition lock (sm : t) : t := {| services_ := services_ sm; mutex_ := true |}.
Definition unlock (sm : t) : t := {| services_ := services_ sm; mutex_ := false |}.
Definition observe (a : action) (sm : t) : action * bool := (a, mutex_ sm).

(** [RegisterService(service)]; [None] is a null [shared_ptr]. *)
Definition RegisterService (service : option IService) (sm : t)
    : outcome bool * t * list (action * bool) :=
  match service with
  | None => (Normal false, sm, [])
  | Some s =>
      let sm1 := lock sm in
      let routine_id := GetRequestRoutineId s in
      let log := [observe (ActFind routine_id) sm1] in
      match services_ sm1 !! routine_id with
      | Some _ => (Normal false, unlock sm1, log)
      | None =>
          let sm2 := {| services_ := <[routine_id := s]> (services_ sm1);
                        mutex_ := mutex_ sm1 |} in
          (Normal true, unlock sm2, log ++ [observe (ActInsert routine_id) sm1])
      end
  end.

Definition IsRoutinePresent (routine_id : Z) (sm : t) : bool :=
  bool_decide (is_Some (services_ sm !! routine_id)).

(** [ExecuteService(routine_id, input, input_len, output, output_len)]:
    the value returned, the output region afterwards and the steps taken. *)
Definition ExecuteService (routine_id : Z) (input : list byte) (input_len : Z)
    (output : list byte) (output_len : Z) (sm : t)
    : outcome Z * list byte * list (action * bool) :=
  let sm1 := lock sm in
  let log := [observe (ActFind routine_id) sm1] in
  match services_ sm1 !! routine_id with
  | None => (Normal 0, output, log)
  | Some service =>
      let sm2 := unlock sm1 in
      let log := log ++ [observe (ActExecute routine_id input input_len) sm2] in
      match Execute service input input_len output output_len with
      | (Normal n, output') => (Normal n, output', log)
      | (Throw e, output') => (Normal 0, output', log)
      | (Undefined, output') => (Undefined, output', log)
      end
  end.

(** [GetAllServices()]: the handlers, in the order in which the iteration
    over [services_] yields them. *)
Definition GetAllServices (sm : t) : list IService :=
  map snd (map_to_list (services_ sm)).

Definition GetServiceCount (sm : t) : Z := Z.of_nat (size (services_ sm)).

Definition Clear (sm : t) : t := {| services_ := ∅; mutex_ := mutex_ sm |}.

(** The handler the calculator service is, on a given host. *)
Definition calculator (host : Host) : IService :=
  {| GetRequestRoutineId := CalculatorService.GetRequestRoutineId;
     GetResponseRoutineId := CalculatorService.GetResponseRoutineId;
     GetName := CalculatorService.GetName;
     Execute := CalculatorService.Execute host |}.

End ServiceManager.

(* ------------------------------------------------------------------ *)
(** ** UDSServer.hpp, UDSServer.cpp *)

Module UDSServer.
Import ByteBuffer.
Local Open Scope bb_scope.

Record ClientInfo := { fd : Z; last_activity : Z; recv_buffer : list byte }.

(** [server_thread_]: no thread, a thread inside [ServerThreadFunc], or a
    thread whose function has returned and which was not joined yet. *)
Inductive thread := NoThread | Running | Finished.

Definition joinable (th : thread) : bool :=
  match th with NoThread => false | _ => true end.

Record t := {
  socket_path_ : string;
  service_manager_ : ServiceManager.t;
  running_ : bool;
  server_thread_ : thread;
  server_fd_ : Z;
  epoll_fd_ : Z;
  timer_fd_ : Z;
  clients_ : gmap Z ClientInfo
}.

Definition RemoveSocketFile (s : t) (w : OS.World) : OS.World :=
  OS.note (OS.sys_unlink (socket_path_ s)) w.

(** [CloseAllClients]: every client is removed from epoll and closed. *)
Definition CloseAllClients (s : t) (w : OS.World) : t * OS.World :=
  let w' :=
    fold_left
      (fun w (c : Z * ClientInfo) =>
         OS.note (OS.sys_close (fst c))
           (OS.note (OS.sys_epoll_ctl_del (epoll_fd_ s) (fst c)) w))
      (map_to_list (clients_ s)) w in
  ({| socket_path_ := socket_path_ s; service_manager_ := service_manager_ s;
      running_ := running_ s; server_thread_ := server_thread_ s;
      server_fd_ := server_fd_ s; epoll_fd_ := epoll_fd_ s;
      timer_fd_ := timer_fd_ s; clients_ := ∅ |}, w').

(** [HandleCleanup]: the state it leaves; it always answers [Exit]. *)
Definition HandleCleanup (s : t) (w : OS.World) : t * OS.World :=
  let '(s, w) := CloseAllClients s w in
  let w := if 0 <=? timer_fd_ s then OS.note (OS.sys_close (timer_fd_ s)) w else w in
  let w := if 0 <=? epoll_fd_ s then OS.note (OS.sys_close (epoll_fd_ s)) w else w in
  let w := if 0 <=? server_fd_ s then OS.note (OS.sys_close (server_fd_ s)) w else w in
  let s := {| socket_path_ := socket_path_ s; service_manager_ := service_manager_ s;
              running_ := running_ s; server_thread_ := server_thread_ s;
              server_fd_ := -1; epoll_fd_ := -1; timer_fd_ := -1;
              clients_ := clients_ s |} in
  (s, RemoveSocketFile s w).

(** [server_thread_.join()] once [running_] is false, on the state that
    the thread has reached by then: a thread inside the loop of
    [ServerThreadFunc] leaves it at the next test of [running_] and runs
    the final [HandleCleanup] on the descriptors and clients it holds; a
    finished one has done so already. *)
Definition join (s : t) (w : OS.World) : t * OS.World :=
  let '(s', w') :=
    match server_thread_ s with
    | Running => HandleCleanup s w
    | _ => (s, w)
    end in
  ({| socket_path_ := socket_path_ s'; service_manager_ := service_manager_ s';
      running_ := running_ s'; server_thread_ := NoThread;
      server_fd_ := server_fd_ s'; epoll_fd_ := epoll_fd_ s';
      timer_fd_ := timer_fd_ s'; clients_ := clients_ s' |}, w').

Definition set_running (r : bool) (s : t) : t :=
  {| socket_path_ := socket_path_ s; service_manager_ := service_manager_ s;
     running_ := r; server_thread_ := server_thread_ s;
     server_fd_ := server_fd_ s; epoll_fd_ := epoll_fd_ s;
     timer_fd_ := timer_fd_ s; clients_ := clients_ s |}.

(** [Start()], as far as the calling thread goes: a running server is
    refused, otherwise [running_] is set and the thread created. What
    the thread then does in [ServerThreadFunc], the descriptors it opens
    and the clients it accepts, is no part of this function; it is in
    the state that a later call receives. *)
Definition Start (s : t) : bool * t :=
  if running_ s then (false, s)
  else
    (true,
     {| socket_path_ := socket_path_ s; service_manager_ := service_manager_ s;
        running_ := true; server_thread_ := Running;
        server_fd_ := server_fd_ s; epoll_fd_ := epoll_fd_ s;
        timer_fd_ := timer_fd_ s; clients_ := clients_ s |}).

(** [Stop()] *)
Definition Stop (s : t) (w : OS.World) : t * OS.World :=
  if negb (running_ s) then (s, w)
  else
    let s := set_running false s in
    if joinable (server_thread_ s) then join s w else (s, w).

Definition IsRunning (s : t) : bool := running_ s.

Definition GetClientCount (s : t) : Z := Z.of_nat (size (clients_ s)).

Definition set_clients (clients : gmap Z ClientInfo) (s : t) : t :=
  {| socket_path_ := socket_path_ s; service_manager_ := service_manager_ s;
     running_ := running_ s; server_thread_ := server_thread_ s;
     server_fd_ := server_fd_ s; epoll_fd_ := epoll_fd_ s;
     timer_fd_ := timer_fd_ s; clients_ := clients |}.

(** [HandleClientClose(client_fd)] *)
Definition HandleClientClose (client_fd : Z) (s : t) (w : OS.World) : t * OS.World :=
  match clients_ s !! client_fd with
  | None => (s, w)
  | Some _ =>
      let w := OS.note (OS.sys_epoll_ctl_del (epoll_fd_ s) client_fd) w in
      let w := OS.note (OS.sys_close client_fd) w in
      (set_clients (delete client_fd (clients_ s)) s, w)
  end.

(** The first loop of [HandleInactivityTimer]: the descriptors of the
    clients idle for more than [INACTIVITY_TIMEOUT_SEC] at time [now], in
    the order in which the iteration over [clients_] yields them. The
    times are [time_t] values that [time()] returned, so that their
    difference is exact. *)
Definition inactive_clients (now : Z) (s : t) : list Z :=
  map fst
    (List.filter
       (fun c : Z * ClientInfo =>
          Protocol.INACTIVITY_TIMEOUT_SEC <? now - last_activity (snd c))
       (map_to_list (clients_ s))).

(** [HandleInactivityTimer()] when [time(nullptr)] gives [now]. The [read]
    of the expiration count from [timer_fd_], whose result is not used,
    is not recorded. *)
Definition HandleInactivityTimer (now : Z) (s : t) (w : OS.World) : t * OS.World :=
  fold_left (fun sw fd => HandleClientClose fd (fst sw) (snd sw))
    (inactive_clients now s) (s, w).

Section WithHost.
Variable host : Host.

(** The header fields [ProcessClientRequest] reads before it dispatches:
    the routine id, or [None] when the start byte or the version is
    refused. [frame_len] is read and not used. *)
Definition parse_frame : M (option Z) :=
  let* start := GetByte host in
  if negb (start =? Protocol.START_BYTE) then ret None
  else
    let* frame_len := GetInt host in
    let* routine_id := GetInt host in
    let* version := GetByte host in
    if negb (version =? Protocol.VERSION) then ret None
    else ret (Some routine_id).

(** The end of [ProcessClientRequest]: what [ExecuteService] returned is
    sent when it is not empty. *)
Definition send_response (client_fd : Z)
    (executed : outcome Z * list byte * list (ServiceManager.action * bool))
    (w : OS.World)
    : outcome Z * list (ServiceManager.action * bool) * OS.World :=
  match executed with
  | (Undefined, _, log) => (Undefined, log, w)
  | (Throw _, _, log) => (Normal 0, log, w)
  | (Normal response_len, response, log) =>
      if 0 <? response_len then
        match mem_read response 0 response_len with
        | None => (Undefined, log, w)
        | Some bytes =>
            let '(a, w') := OS.call (OS.sys_send client_fd bytes) w in
            if OS.ret a <? 0 then (Normal 0, log, w')
            else (Normal response_len, log, w')
        end
      else (Normal 0, log, w)
  end.

(** [ProcessClientRequest(client_fd, data, len)]; [response] is what the
    local response array holds before the handler writes to it. The
    result is the value returned, the registry's steps and the world. *)
Definition ProcessClientRequest (s : t) (client_fd : Z) (data : list byte)
    (len : Z) (response : list byte) (w : OS.World)
    : outcome Z * list (ServiceManager.action * bool) * OS.World :=
  if len <? Protocol.GetMinFrameSize then (Normal 0, [], w)
  else
    match ByteBuffer.new (Some data) len with
    | Throw _ => (Normal 0, [], w)
    | Undefined => (Undefined, [], w)
    | Normal request =>
        match parse_frame request with
        | (Throw _, _) => (Normal 0, [], w)
        | (Undefined, _) => (Undefined, [], w)
        | (Normal None, _) => (Normal 0, [], w)
        | (Normal (Some routine_id), request) =>
            let payload_start := Position request in
            let payload_len := size_sub (size_sub len payload_start) 1 in
            send_response client_fd
              (ServiceManager.ExecuteService routine_id
                 (drop (Z.to_nat payload_start) data) payload_len
                 response Protocol.MAX_PACKET_SIZE (service_manager_ s))
              w
        end
    end.

(** [HandleClientData(client_fd)] at time [now]; [buffer] and [response]
    are the initial contents of the two local arrays. The boolean says
    whether the connection is kept. *)
Definition HandleClientData (s : t) (client_fd : Z) (now : Z)
    (buffer response : list byte) (w : OS.World)
    : outcome bool * t * list (ServiceManager.action * bool) * OS.World :=
  match clients_ s !! client_fd with
  | None => (Normal false, s, [], w)
  | Some client =>
      let '(a, w) := OS.call (OS.sys_recv client_fd Protocol.MAX_PACKET_SIZE) w in
      if OS.ret a <? 0 then
        if negb (OS.errno a =? OS.EAGAIN) && negb (OS.errno a =? OS.EWOULDBLOCK)
        then (Normal false, s, [], w)
        else (Normal true, s, [], w)
      else
        let received := take (Z.to_nat Protocol.MAX_PACKET_SIZE) (OS.data a) in
        let bytes_read := Z.of_nat (length received) in
        if bytes_read =? 0 then (Normal false, s, [], w)
        else
          let buffer := received ++ drop (length received) buffer in
          let client := {| fd := fd client; last_activity := now;
                           recv_buffer := recv_buffer client |} in
          let s := {| socket_path_ := socket_path_ s;
                      service_manager_ := service_manager_ s;
                      running_ := running_ s; server_thread_ := server_thread_ s;
                      server_fd_ := server_fd_ s; epoll_fd_ := epoll_fd_ s;
                      timer_fd_ := timer_fd_ s;
                      clients_ := <[client_fd := client]> (clients_ s) |} in
          match ProcessClientRequest s client_fd buffer bytes_read response w with
          | (Undefined, log, w) => (Undefined, s, log, w)
          | (_, log, w) => (Normal true, s, log, w)
          end
  end.

End WithHost.
End UDSServer.

(* ------------------------------------------------------------------ *)
(** ** Channel.cpp *)

Module Channel.
Import ByteBuffer.
Local Open Scope bb_scope.

(** [Channel::Impl]; [mutex_] is true while a [lock_guard] holds it. *)
Record Impl := {
  socket_path_ : string;
  timeout_ms_ : Z;
  socket_fd_ : Z;
  connected_ : bool;
  last_error_ : string;
  mutex_ : bool;
  buffer_ : list byte
}.

Definition with_fd (fd : Z) (im : Impl) : Impl :=
  {| socket_path_ := socket_path_ im; timeout_ms_ := timeout_ms_ im;
     socket_fd_ := fd; connected_ := connected_ im;
     last_error_ := last_error_ im; mutex_ := mutex_ im; buffer_ := buffer_ im |}.
Definition with_connected (c : bool) (im : Impl) : Impl :=
  {| socket_path_ := socket_path_ im; timeout_ms_ := timeout_ms_ im;
     socket_fd_ := socket_fd_ im; connected_ := c;
     last_error_ := last_error_ im; mutex_ := mutex_ im; buffer_ := buffer_ im |}.
Definition with_error (e : string) (im : Impl) : Impl :=
  {| socket_path_ := socket_path_ im; timeout_ms_ := timeout_ms_ im;
     socket_fd_ := socket_fd_ im; connected_ := connected_ im;
     last_error_ := e; mutex_ := mutex_ im; buffer_ := buffer_ im |}.
Definition with_mutex (m : bool) (im : Impl) : Impl :=
  {| socket_path_ := socket_path_ im; timeout_ms_ := timeout_ms_ im;
     socket_fd_ := socket_fd_ im; connected_ := connected_ im;
     last_error_ := last_error_ im; mutex_ := m; buffer_ := buffer_ im |}.
Definition with_buffer (b : list byte) (im : Impl) : Impl :=
  {| socket_path_ := socket_path_ im; timeout_ms_ := timeout_ms_ im;
     socket_fd_ := socket_fd_ im; connected_ := connected_ im;
     last_error_ := last_error_ im; mutex_ := mutex_ im; buffer_ := b |}.

(** How a member function ends: it returns, or it waits for ever on a
    [std::mutex] its own thread already holds. *)
Inductive completion (A : Type) := Returns (a : A) | Deadlock.
Arguments Returns {A} a.
Arguments Deadlock {A}.

(** [Impl(socket_path, timeout_ms)] *)
Definition Impl_new (socket_path : string) (timeout_ms : Z) : Impl :=
  {| socket_path_ := socket_path; timeout_ms_ := timeout_ms; socket_fd_ := -1;
     connected_ := false; last_error_ := EmptyString; mutex_ := false;
     buffer_ := repeat x00 (Z.to_nat Protocol.MAX_PACKET_SIZE) |}.

(** [std::lock_guard<std::mutex> lock(mutex_)] around [body]. *)
Definition locked {A} (body : Impl -> OS.World -> A * Impl * OS.World)
    (im : Impl) (w : OS.World) : completion A * Impl * OS.World :=
  if mutex_ im then (Deadlock, im, w)
  else
    let '(a, im', w') := body (with_mutex true im) w in
    (Returns a, with_mutex false im', w').

Section WithLibc.
Variable host : Host.
(** [strerror] of the C library. *)
Variable strerror : Z -> string.

(** [close(socket_fd_); socket_fd_ = -1] *)
Definition close_socket (im : Impl) (w : OS.World) : Impl * OS.World :=
  (with_fd (-1) im, OS.note (OS.sys_close (socket_fd_ im)) w).

(** The path as [strncpy] leaves it in [sun_path] (108 bytes). *)
Definition sun_path (p : string) : string := String.substring 0 107 p.

(** The end of [Connect]: blocking mode again, timeouts, connected. *)
Definition Connect_finish (im : Impl) (w : OS.World) : bool * Impl * OS.World :=
  let fd := socket_fd_ im in
  let w := OS.note (OS.sys_fcntl_setfl fd false) w in
  let tv_sec := Z.quot (timeout_ms_ im) 1000 in
  let tv_usec := Z.rem (timeout_ms_ im) 1000 * 1000 in
  let w := OS.note (OS.sys_setsockopt_rcvtimeo fd tv_sec tv_usec) w in
  let w := OS.note (OS.sys_setsockopt_sndtimeo fd tv_sec tv_usec) w in
  (true, with_error EmptyString (with_connected true im), w).

(** The body of [Connect], under the lock. *)
Definition Connect_body (im : Impl) (w : OS.World) : bool * Impl * OS.World :=
  if connected_ im && (0 <=? socket_fd_ im) then (true, im, w)
  else
    let '(im, w) :=
      if 0 <=? socket_fd_ im then close_socket im w else (im, w) in
    let '(a, w) := OS.call OS.sys_socket w in
    let im := with_fd (OS.ret a) im in
    if socket_fd_ im <? 0 then
      (false,
       with_error (String.append "Failed to create socket: " (strerror (OS.errno a))) im,
       w)
    else
      let fd := socket_fd_ im in
      let w := OS.note (OS.sys_fcntl_getfl fd) w in
      let w := OS.note (OS.sys_fcntl_setfl fd true) w in
      let '(c, w) := OS.call (OS.sys_connect fd (sun_path (socket_path_ im))) w in
      if OS.ret c <? 0 then
        if negb (OS.errno c =? OS.EINPROGRESS) then
          let im :=
            with_error (String.append "Connect failed: " (strerror (OS.errno c))) im in
          let '(im, w) := close_socket im w in
          (false, im, w)
        else
          let '(p, w) := OS.call (OS.sys_poll fd (timeout_ms_ im)) w in
          if OS.ret p <=? 0 then
            let im :=
              with_error
                (if OS.ret p =? 0 then "Connection timeout"%string
                 else String.append "Poll failed: " (strerror (OS.errno p))) im in
            let '(im, w) := close_socket im w in
            (false, im, w)
          else
            let '(e, w) := OS.call (OS.sys_getsockopt_so_error fd) w in
            if negb (OS.ret e =? 0) then
              let im :=
                with_error (String.append "Connection failed: " (strerror (OS.ret e))) im in
              let '(im, w) := close_socket im w in
              (false, im, w)
            else Connect_finish im w
      else Connect_finish im w.

Definition Connect : Impl -> OS.World -> completion bool * Impl * OS.World :=
  locked Connect_body.

Definition Disconnect_body (im : Impl) (w : OS.World) : unit * Impl * OS.World :=
  let '(im, w) :=
    if 0 <=? socket_fd_ im then close_socket im w else (im, w) in
  (tt, with_connected false im, w).

Definition Disconnect : Impl -> OS.World -> completion unit * Impl * OS.World :=
  locked Disconnect_body.

Definition IsConnected (im : Impl) : bool := connected_ im.

Definition EnsureConnected (im : Impl) (w : OS.World)
    : completion bool * Impl * OS.World :=
  if connected_ im && (0 <=? socket_fd_ im) then (Returns true, im, w)
  else Connect im w.

(** The loop of [SendData]: one [send] per answer of the world. *)
Fixpoint SendData_loop (script : list OS.answer) (trace : list OS.syscall)
    (im : Impl) (data : list byte) (len total_sent : Z)
    : bool * Impl * OS.World :=
  if total_sent <? len then
    let rest := size_sub len total_sent in
    let c := OS.sys_send (socket_fd_ im)
               (take (Z.to_nat rest) (drop (Z.to_nat total_sent) data)) in
    match script with
    | [] =>
        (false,
         with_error (String.append "send failed: " (strerror OS.EPIPE)) im,
         {| OS.script := []; OS.trace := trace ++ [c] |})
    | a :: script' =>
        let sent := Z.min (OS.ret a) rest in
        if sent <? 0 then
          if OS.errno a =? OS.EINTR
          then SendData_loop script' (trace ++ [c]) im data len total_sent
          else
            (false,
             with_error (String.append "send failed: " (strerror (OS.errno a))) im,
             {| OS.script := script'; OS.trace := trace ++ [c] |})
        else if sent =? 0 then
          (false, with_error "Connection closed by server" im,
           {| OS.script := script'; OS.trace := trace ++ [c] |})
        else
          SendData_loop script' (trace ++ [c]) im data len
            (size_add total_sent sent)
    end
  else (true, im, {| OS.script := script; OS.trace := trace |}).

Definition SendData (data : list byte) (len : Z) (im : Impl) (w : OS.World)
    : bool * Impl * OS.World :=
  SendData_loop (OS.script w) (OS.trace w) im data len 0.

(** What one [recv(socket_fd_, data + received, max_len - received, 0)]
    delivers. *)
Definition delivered (a : OS.answer) (max_len received : Z) : list byte :=
  take (Z.to_nat (size_sub max_len received)) (OS.data a).

(** How [ReceiveData] ends: the region and the count it reached, with
    the value returned; or a [recv] outside the region it was given. *)
Inductive received_data :=
| Received (ok : bool) (data : list byte) (received : Z)
| ReceivedUndefined.

(** The first loop of [ReceiveData]: until the minimum frame is there. *)
Fixpoint ReceiveData_min (script : list OS.answer) (trace : list OS.syscall)
    (im : Impl) (data : list byte) (max_len received : Z)
    : received_data * Impl * OS.World :=
  if received <? Protocol.GetMinFrameSize then
    let c := OS.sys_recv (socket_fd_ im) (size_sub max_len received) in
    match script with
    | [] =>
        (Received false data received,
         with_error (String.append "recv failed: " (strerror OS.EPIPE)) im,
         {| OS.script := []; OS.trace := trace ++ [c] |})
    | a :: script' =>
        let w' := {| OS.script := script'; OS.trace := trace ++ [c] |} in
        if OS.ret a <? 0 then
          if OS.errno a =? OS.EINTR
          then ReceiveData_min script' (trace ++ [c]) im data max_len received
          else if (OS.errno a =? OS.EAGAIN) || (OS.errno a =? OS.EWOULDBLOCK)
          then (Received false data received, with_error "Receive timeout" im, w')
          else
            (Received false data received,
             with_error (String.append "recv failed: " (strerror (OS.errno a))) im,
             w')
        else
          let bytes := delivered a max_len received in
          let n := Z.of_nat (length bytes) in
          if n =? 0 then
            (Received false data received,
             with_error "Connection closed by server" im, w')
          else
            match mem_write data received bytes with
            | None => (ReceivedUndefined, im, w')
            | Some data' =>
                ReceiveData_min script' (trace ++ [c]) im data' max_len
                  (size_add received n)
            end
    end
  else (Received true data received, im,
        {| OS.script := script; OS.trace := trace |}).

(** The second loop: until [frame_len] bytes or the buffer is full. *)
Fixpoint ReceiveData_rest (script : list OS.answer) (trace : list OS.syscall)
    (im : Impl) (data : list byte) (max_len received frame_len : Z)
    : received_data * Impl * OS.World :=
  if (received <? frame_len) && (received <? max_len) then
    let c := OS.sys_recv (socket_fd_ im) (size_sub max_len received) in
    match script with
    | [] =>
        (Received false data received,
         with_error (String.append "recv failed: " (strerror OS.EPIPE)) im,
         {| OS.script := []; OS.trace := trace ++ [c] |})
    | a :: script' =>
        let w' := {| OS.script := script'; OS.trace := trace ++ [c] |} in
        if OS.ret a <? 0 then
          if OS.errno a =? OS.EINTR
          then ReceiveData_rest script' (trace ++ [c]) im data max_len received frame_len
          else
            (Received false data received,
             with_error (String.append "recv failed: " (strerror (OS.errno a))) im,
             w')
        else
          let bytes := delivered a max_len received in
          let n := Z.of_nat (length bytes) in
          if n =? 0 then (Received true data received, im, w')
          else
            match mem_write data received bytes with
            | None => (ReceivedUndefined, im, w')
            | Some data' =>
                ReceiveData_rest script' (trace ++ [c]) im data' max_len
                  (size_add received n) frame_len
            end
    end
  else (Received true data received, im,
        {| OS.script := script; OS.trace := trace |}).

(** [ReceiveData(data, max_len, received)] *)
Definition ReceiveData (data : list byte) (max_len : Z) (im : Impl) (w : OS.World)
    : received_data * Impl * OS.World :=
  match ReceiveData_min (OS.script w) (OS.trace w) im data max_len 0 with
  | (Received true data received, im, w) =>
      match ByteBuffer.new (Some data) received with
      | Normal buf =>
          match fst ((GetByte host ;; GetInt host) buf) with
          | Normal frame_len =>
              ReceiveData_rest (OS.script w) (OS.trace w) im data max_len
                received frame_len
          | Throw e =>
              (Received false data received,
               with_error (String.append "Error parsing response: " (what e)) im, w)
          | Undefined => (ReceivedUndefined, im, w)
          end
      | Throw e =>
          (Received false data received,
           with_error (String.append "Error parsing response: " (what e)) im, w)
      | Undefined => (ReceivedUndefined, im, w)
      end
  | failed => failed
  end.

(** The request frame as [ExecuteRPC] builds it in [buffer_]: [inl] is the
    error return, [inr] the buffer and the frame length. A null
    [request_data] is [None]. *)
Definition build_frame (routine_id : Z) (request_data : option (list byte))
    (request_len : Z) (buffer : list byte)
    : outcome (string + Z) * list byte :=
  let buffer_size := Z.of_nat (length buffer) in
  CalculatorService.with_buffer buffer buffer_size
    (PutByte host Protocol.START_BYTE ;;
     PutInt host 0 ;;
     PutInt host routine_id ;;
     PutByte host Protocol.VERSION ;;
     fun request_buf =>
       let payload :=
         match request_data with
         | Some d =>
             if 0 <? request_len then
               let pos := Position request_buf in
               if buffer_size <=? size_add pos request_len then inl tt
               else
                 match mem_read d 0 request_len with
                 | None => inr (Undefined, request_buf)
                 | Some src =>
                     match mem_write (ByteBuffer.buffer_ request_buf) pos src with
                     | None => inr (Undefined, request_buf)
                     | Some mem' =>
                         inr (SetPosition (size_add pos request_len)
                                (ByteBuffer.mk mem' (length_ request_buf)
                                   (position_ request_buf)))
                     end
                 end
             else inr (Normal tt, request_buf)
         | None => inr (Normal tt, request_buf)
         end in
       match payload with
       | inl _ => (Normal (inl "Request payload too large"%string), request_buf)
       | inr (Normal _, request_buf) =>
           (PutByte host Protocol.END_BYTE ;;
            fun request_buf =>
              let frame_len := Position request_buf in
              (SetPosition 1 ;;
               PutInt host (to_uint32 frame_len) ;;
               ret (inr frame_len)) request_buf) request_buf
       | inr (Throw e, request_buf) => (Throw e, request_buf)
       | inr (Undefined, request_buf) => (Undefined, request_buf)
       end).

(** What an exception leaving [ExecuteRPC] does is the caller's business:
    the result carries it. *)
Inductive rpc_result :=
| RpcReturn (ok : bool) (response : list byte) (response_len : Z)
| RpcThrow (e : exception)
| RpcUndefined.

(** The part of [ExecuteRPC] after the frame is built. *)
Definition transmit (frame_len : Z) (response_buffer : list byte)
    (response_buffer_size response_len : Z) (im : Impl) (w : OS.World)
    : completion rpc_result * Impl * OS.World :=
  let receive (im : Impl) (w : OS.World) :=
    match ReceiveData response_buffer response_buffer_size im w with
    | (Received true response received, im, w) =>
        (Returns (RpcReturn true response received), im, w)
    | (Received false response received, im, w) =>
        (Returns (RpcReturn false response received),
         with_error "Failed to receive response" (with_connected false im), w)
    | (ReceivedUndefined, im, w) => (Returns RpcUndefined, im, w)
    end in
  match SendData (buffer_ im) frame_len im w with
  | (true, im, w) => receive im w
  | (false, im, w) =>
      let im := with_connected false im in
      match Connect im w with
      | (Deadlock, im, w) => (Deadlock, im, w)
      | (Returns true, im, w) =>
          match SendData (buffer_ im) frame_len im w with
          | (true, im, w) => receive im w
          | (false, im, w) =>
              (Returns (RpcReturn false response_buffer response_len),
               with_error "Failed to send after reconnect attempt" im, w)
          end
      | (Returns false, im, w) =>
          (Returns (RpcReturn false response_buffer response_len),
           with_error "Failed to send after reconnect attempt" im, w)
      end
  end.

(** [ExecuteRPC(routine_id, request_data, request_len, response_buffer,
    response_buffer_size, response_len)]; [response_len] is the value the
    caller's variable holds before the call. *)
Definition ExecuteRPC (routine_id : Z) (request_data : option (list byte))
    (request_len : Z) (response_buffer : list byte)
    (response_buffer_size response_len : Z) (im : Impl) (w : OS.World)
    : completion rpc_result * Impl * OS.World :=
  match EnsureConnected im w with
  | (Deadlock, im, w) => (Deadlock, im, w)
  | (Returns false, im, w) =>
      (Returns (RpcReturn false response_buffer response_len),
       with_error "Failed to establish connection" im, w)
  | (Returns true, im, w) =>
      if mutex_ im then (Deadlock, im, w)
      else
        let im := with_mutex true im in
        let '(r, im, w) :=
          match build_frame routine_id request_data request_len (buffer_ im) with
          | (Normal (inl err), buffer) =>
              (Returns (RpcReturn false response_buffer response_len),
               with_error err (with_buffer buffer im), w)
          | (Normal (inr frame_len), buffer) =>
              transmit frame_len response_buffer response_buffer_size
                response_len (with_buffer buffer im) w
          | (Throw e, buffer) => (Returns (RpcThrow e), with_buffer buffer im, w)
          | (Undefined, buffer) => (Returns RpcUndefined, with_buffer buffer im, w)
          end in
        match r with
        | Deadlock => (Deadlock, im, w)
        | Returns r => (Returns r, with_mutex false im, w)
        end
  end.

(** [Channel(socket_path, timeout_ms)]: the connection is tried at once,
    and a failure is not an error of the constructor. *)
Definition Channel_new (socket_path : string) (timeout_ms : Z) (w : OS.World)
    : Impl * OS.World :=
  let '(_, im, w) := Connect (Impl_new socket_path timeout_ms) w in (im, w).

Definition GetLastError (im : Impl) : string := last_error_ im.

End WithLibc.
End Channel.

(* ------------------------------------------------------------------ *)
(** ** Calculator.hpp, Calculator.cpp (the client proxy) *)

Module Calculator.
Import ByteBuffer.
Local Open Scope bb_scope.

Inductive Operation := Add | Subtract | Multiply | Divide.

Definition Operation_code (op : Operation) : Z :=
  match op with
  | Add => 0x01 | Subtract => 0x02 | Multiply => 0x03 | Divide => 0x04
  end.

Record Result := { success : bool; value : Z; error_message : string }.

Definition REQUEST_ROUTINE_ID : Z := 0x00001000.
Definition RESPONSE_ROUTINE_ID : Z := 0x00001001.

(** [result] as [ExecuteOperation] initialises it, with a message. *)
Definition failure (msg : string) : Result :=
  {| success := false; value := Double.zero; error_message := msg |}.

Section WithLibc.
Variable host : Host.
Variable strerror : Z -> string.

(** The request payload: [request_buf] over the 17-byte local array. *)
Definition build_request (op : Operation) (a b : Z) : outcome Z * list byte :=
  CalculatorService.with_buffer (repeat x00 17) 17
    (PutByte host (Operation_code op) ;;
     PutDouble host a ;;
     PutDouble host b ;;
     fun request_buf => (Normal (Position request_buf), request_buf)).

(** The response as [ExecuteOperation] reads it from [response_buf]. *)
Definition parse_response : M Result :=
  let* start := GetByte host in
  if negb (start =? Protocol.START_BYTE) then ret (failure "Invalid response frame")
  else
    let* frame_len := GetInt host in
    let* routine_id := GetInt host in
    if negb (routine_id =? RESPONSE_ROUTINE_ID)
    then ret (failure "Unexpected routine ID in response")
    else
      let* version := GetByte host in
      let* status := GetByte host in
      let* value := GetDouble host in
      let* error_msg := GetString host in
      if status =? 0x00
      then ret {| success := true; value := value; error_message := EmptyString |}
      else ret {| success := false; value := Double.zero; error_message := error_msg |}.

(** The [catch] clause of [ExecuteOperation]; [None] is undefined
    behaviour. *)
Definition caught {A} (o : outcome A) (k : A -> option Result) : option Result :=
  match o with
  | Normal a => k a
  | Throw e => Some (failure (String.append "Exception: " (what e)))
  | Undefined => None
  end.

(** [ExecuteOperation(op, a, b)] on the channel [im]; [response_data] is
    what the local response array holds before the call. *)
Definition ExecuteOperation (op : Operation) (a b : Z) (response_data : list byte)
    (im : Channel.Impl) (w : OS.World)
    : Channel.completion (option Result) * Channel.Impl * OS.World :=
  match build_request op a b with
  | (Normal request_len, request_data) =>
      match Channel.ExecuteRPC host strerror REQUEST_ROUTINE_ID
              (Some request_data) request_len response_data
              Protocol.MAX_PACKET_SIZE 0 im w with
      | (Channel.Deadlock, im, w) => (Channel.Deadlock, im, w)
      | (Channel.Returns (Channel.RpcReturn false _ _), im, w) =>
          (Channel.Returns
             (Some (failure (String.append "RPC failed: " (Channel.GetLastError im)))),
           im, w)
      | (Channel.Returns (Channel.RpcReturn true response_data response_len), im, w) =>
          (Channel.Returns
             (caught (fst (CalculatorService.with_buffer response_data response_len
                             parse_response)) Some),
           im, w)
      | (Channel.Returns (Channel.RpcThrow e), im, w) =>
          (Channel.Returns (caught (Throw e) (fun r : Result => Some r)), im, w)
      | (Channel.Returns Channel.RpcUndefined, im, w) =>
          (Channel.Returns None, im, w)
      end
  | (o, _) => (Channel.Returns (caught o (fun _ => None)), im, w)
  end.

End WithLibc.
End Calculator.

(* ================================================================== *)
(** * TimeService (server side) *)

Module TimeService.
Import ByteBuffer.
Local Open Scope bb_scope.

(** [enum class Operation : uint8_t]; a cast can produce a value that
    names no enumerator. *)
Inductive Operation := GetTimestamp | Unnamed (code : Z).

Definition Operation_of_byte (b : Z) : Operation :=
  if b =? 0x01 then GetTimestamp else Unnamed b.

(** [enum class Status : uint8_t] *)
Inductive Status := Success | InvalidOperation | InvalidInput.

Definition Status_code (s : Status) : Z :=
  match s with
  | Success => 0x00
  | InvalidOperation => 0x01
  | InvalidInput => 0x02
  end.

Definition GetRequestRoutineId : Z := 0x2000.
Definition GetResponseRoutineId : Z := 0x2001.
Definition GetName : string := "TimeService".

(** What the [try] block of [GetCurrentTimestamp] gets from the system
    clock and the stream library: the local time formatted as
    [YYYY-MM-DD HH:MM:SS.mmm] with the [time_t] it was formatted from, or
    the exception one of the calls threw. *)
Inductive clock_reading :=
| Reading (formatted : string) (time_t_now : Z)
| Failed (e : exception).

(** [GetCurrentTimestamp(timestamp, unix_timestamp, error)]: the status,
    with the values left in the three references. *)
Definition GetCurrentTimestamp (clock : clock_reading)
    : Status * string * Z * string :=
  match clock with
  | Reading formatted time_t_now =>
      (Success, formatted, to_int64 time_t_now, EmptyString)
  | Failed e =>
      (InvalidInput, EmptyString, 0,
       String.append "Failed to get timestamp: " (what e))
  end.

Section WithHost.
Variable host : Host.

(** The response frame as both branches of [Execute] write it. *)
Definition write_response (status : Status) (timestamp : string)
    (unix_timestamp : Z) (error_msg : string) : M Z :=
  PutByte host Protocol.START_BYTE ;;
  PutInt host 0 ;;
  PutInt host GetResponseRoutineId ;;
  PutByte host Protocol.VERSION ;;
  PutByte host (Status_code status) ;;
  PutString host timestamp ;;
  PutLong host unix_timestamp ;;
  PutString host error_msg ;;
  PutByte host Protocol.END_BYTE ;;
  fun response =>
    let total_len := Position response in
    (SetPosition 1 ;;
     PutInt host (to_uint32 total_len) ;;
     ret total_len) response.

(** [Execute(input, input_len, output, output_len)] when the clock gives
    [clock]: the value returned (or the exception that escapes) and the
    output region afterwards. *)
Definition Execute (clock : clock_reading) (input : list byte) (input_len : Z)
    (output : list byte) (output_len : Z) : outcome Z * list byte :=
  let try_block :=
    match fst (CalculatorService.with_buffer input input_len (GetByte host)) with
    | Normal op_byte =>
        let '(status, timestamp, unix_timestamp, error_msg) :=
          match Operation_of_byte op_byte with
          | GetTimestamp => GetCurrentTimestamp clock
          | Unnamed _ =>
              (InvalidOperation, EmptyString, 0, "Invalid operation code"%string)
          end in
        CalculatorService.with_buffer output output_len
          (write_response status timestamp unix_timestamp error_msg)
    | Throw e => (Throw e, output)
    | Undefined => (Undefined, output)
    end in
  match try_block with
  | (Throw e, output') =>
      CalculatorService.with_buffer output' output_len
        (write_response InvalidInput EmptyString 0
           (String.append "Exception: " (what e)))
  | done => done
  end.

End WithHost.
End TimeService.

(* ================================================================== *)
(** * TimeClient (client side) *)

Module TimeClient.
Import ByteBuffer.
Local Open Scope bb_scope.

Definition GetTimestamp : Z := 0x01.

Record TimeResult := {
  success : bool;
  timestamp : string;
  unix_timestamp : Z;
  error_message : string
}.

Definition REQUEST_ROUTINE_ID : Z := 0x00002000.
Definition RESPONSE_ROUTINE_ID : Z := 0x00002001.

(** [result] as [GetCurrentTime] initialises it, with a message. *)
Definition failure (msg : string) : TimeResult :=
  {| success := false; timestamp := EmptyString; unix_timestamp := 0;
     error_message := msg |}.

Section WithLibc.
Variable host : Host.
Variable strerror : Z -> string.

(** The request payload: [request_buf] over the one-byte local array. *)
Definition build_request : outcome Z * list byte :=
  CalculatorService.with_buffer (repeat x00 1) 1
    (PutByte host GetTimestamp ;;
     fun request_buf => (Normal (Position request_buf), request_buf)).

(** The response as [GetCurrentTime] reads it from [response_buf]. *)
Definition parse_response : M TimeResult :=
  let* start := GetByte host in
  if negb (start =? Protocol.START_BYTE) then ret (failure "Invalid response frame")
  else
    let* frame_len := GetInt host in
    let* routine_id := GetInt host in
    if negb (routine_id =? RESPONSE_ROUTINE_ID)
    then ret (failure "Unexpected routine ID in response")
    else
      let* version := GetByte host in
      let* status := GetByte host in
      let* timestamp := GetString host in
      let* unix_timestamp := GetLong host in
      let* error_msg := GetString host in
      if status =? 0x00
      then ret {| success := true; timestamp := timestamp;
                  unix_timestamp := unix_timestamp; error_message := EmptyString |}
      else ret (failure error_msg).

(** The [catch] clause of [GetCurrentTime]; [None] is undefined
    behaviour. *)
Definition caught {A} (o : outcome A) (k : A -> option TimeResult)
    : option TimeResult :=
  match o with
  | Normal a => k a
  | Throw e => Some (failure (String.append "Exception: " (what e)))
  | Undefined => None
  end.

(** [GetCurrentTime()] on the channel [im]; [response_data] is what the
    local response array holds before the call. *)
Definition GetCurrentTime (response_data : list byte)
    (im : Channel.Impl) (w : OS.World)
    : Channel.completion (option TimeResult) * Channel.Impl * OS.World :=
  match build_request with
  | (Normal request_len, request_data) =>
      match Channel.ExecuteRPC host strerror REQUEST_ROUTINE_ID
              (Some request_data) request_len response_data
              Protocol.MAX_PACKET_SIZE 0 im w with
      | (Channel.Deadlock, im, w) => (Channel.Deadlock, im, w)
      | (Channel.Returns (Channel.RpcReturn false _ _), im, w) =>
          (Channel.Returns
             (Some (failure (String.append "RPC failed: " (Channel.GetLastError im)))),
           im, w)
      | (Channel.Returns (Channel.RpcReturn true response_data response_len), im, w) =>
          (Channel.Returns
             (caught (fst (CalculatorService.with_buffer response_data response_len
                             parse_response)) Some),
           im, w)
      | (Channel.Returns (Channel.RpcThrow e), im, w) =>
          (Channel.Returns (caught (Throw e) (fun r : TimeResult => Some r)), im, w)
      | (Channel.Returns Channel.RpcUndefined, im, w) =>
          (Channel.Returns None, im, w)
      end
  | (o, _) => (Channel.Returns (caught o (fun _ => None)), im, w)
  end.

End WithLibc.
End TimeClient.

(* ================================================================== *)
(** * Properties *)

(** ** Facts about bytes and digits *)

Lemma Z_of_byte_range (b : byte) : 0 <= Z_of_byte b < 256.
Proof.
  unfold Z_of_byte. pose proof (Byte.to_N_bounded b) as Hb.
  lia.
Qed.

Lemma byte_of_Z_of_byte (b : byte) : byte_of_Z (Z_of_byte b) = b.
Proof.
  unfold byte_of_Z. pose proof (Z_of_byte_range b) as Hr.
  rewrite Z.mod_small by lia. unfold Z_of_byte.
  rewrite N2Z.id, Byte.of_to_N. reflexivity.
Qed.

Lemma Z_of_byte_of_Z (z : Z) : Z_of_byte (byte_of_Z z) = z mod 256.
Proof.
  unfold byte_of_Z, Z_of_byte.
  assert (Hr : 0 <= z mod 256 < 256) by (apply Z.mod_pos_bound; lia).
  destruct (Byte.of_N (Z.to_N (z mod 256))) as [b|] eqn:E.
  - apply Byte.to_of_N in E. rewrite E. lia.
  - apply Byte.of_N_None_iff in E. lia.
Qed.

Lemma length_le_bytes (n : nat) (v : Z) : length (le_bytes n v) = n.
Proof. revert v. induction n as [|n IH]; intros v; simpl; [done|]. by rewrite IH. Qed.

Lemma length_be_bytes (n : nat) (v : Z) : length (be_bytes n v) = n.
Proof. unfold be_bytes. by rewrite length_rev, length_le_bytes. Qed.

Lemma le_value_range (l : list byte) : 0 <= le_value l < 256 ^ Z.of_nat (length l).
Proof.
  induction l as [|b l IH]; [simpl; lia|].
  cbn [le_value length]. pose proof (Z_of_byte_range b) as Hb.
  rewrite Nat2Z.inj_succ, Z.pow_succ_r by lia. lia.
Qed.

Lemma le_value_le_bytes (n : nat) (v : Z) :
  le_value (le_bytes n v) = v mod 256 ^ Z.of_nat n.
Proof.
  revert v. induction n as [|n IH]; intros v.
  - simpl. by rewrite Z.mod_1_r.
  - cbn [le_bytes le_value]. rewrite IH, Z_of_byte_of_Z.
    rewrite Nat2Z.inj_succ, Z.pow_succ_r by lia.
    assert (Hp : 0 < 256 ^ Z.of_nat n) by (apply Z.pow_pos_nonneg; lia).
    rewrite (Z.rem_mul_r v 256 (256 ^ Z.of_nat n)) by lia. lia.
Qed.

Lemma digit_mod (b x : Z) : 0 <= b < 256 -> (b + 256 * x) mod 256 = b.
Proof. intros Hb. symmetry. apply (Z.mod_unique_pos _ _ x); lia. Qed.

Lemma digit_div (b x : Z) : 0 <= b < 256 -> (b + 256 * x) / 256 = x.
Proof. intros Hb. symmetry. apply (Z.div_unique_pos _ _ x b); lia. Qed.

Lemma le_bytes_le_value (l : list byte) : le_bytes (length l) (le_value l) = l.
Proof.
  induction l as [|b l IH]; [done|].
  cbn [length le_bytes le_value]. pose proof (Z_of_byte_range b) as Hb.
  rewrite digit_div by done. rewrite IH. f_equal.
  rewrite <- (byte_of_Z_of_byte b) at 2. unfold byte_of_Z.
  rewrite digit_mod by done. by rewrite Z.mod_small.
Qed.

Lemma be_value_be_bytes (n : nat) (v : Z) :
  be_value (be_bytes n v) = v mod 256 ^ Z.of_nat n.
Proof. unfold be_value, be_bytes. by rewrite rev_involutive, le_value_le_bytes. Qed.

Lemma be_bytes_be_value (l : list byte) : be_bytes (length l) (be_value l) = l.
Proof.
  unfold be_value, be_bytes. rewrite <- (length_rev l), le_bytes_le_value.
  apply rev_involutive.
Qed.

Lemma length_object_bytes (h : Host) (n : nat) (v : Z) :
  length (object_bytes h n v) = n.
Proof. destruct h; simpl; [apply length_le_bytes | apply length_be_bytes]. Qed.

Lemma object_bytes_value (h : Host) (l : list byte) :
  object_bytes h (length l) (object_value h l) = l.
Proof. destruct h; simpl; [apply le_bytes_le_value | apply be_bytes_be_value]. Qed.

Lemma object_value_bytes (h : Host) (n : nat) (v : Z) :
  object_value h (object_bytes h n v) = v mod 256 ^ Z.of_nat n.
Proof. destruct h; simpl; [apply le_value_le_bytes | apply be_value_be_bytes]. Qed.

(** Whatever the host, the bytes of [htonl x] in memory are [x] big-endian. *)
Lemma object_bytes_htonl (h : Host) (x : Z) :
  object_bytes h 4 (htonl h x) = be_bytes 4 x.
Proof.
  unfold htonl. rewrite <- (length_be_bytes 4 x) at 1. apply object_bytes_value.
Qed.

Lemma object_bytes_htons (h : Host) (x : Z) :
  object_bytes h 2 (htons h x) = be_bytes 2 x.
Proof.
  unfold htons. rewrite <- (length_be_bytes 2 x) at 1. apply object_bytes_value.
Qed.

Lemma ntohl_object_value (h : Host) (l : list byte) :
  length l = 4%nat -> ntohl h (object_value h l) = be_value l.
Proof. intros Hl. unfold ntohl. by rewrite <- Hl, object_bytes_value. Qed.

Lemma ntohs_object_value (h : Host) (l : list byte) :
  length l = 2%nat -> ntohs h (object_value h l) = be_value l.
Proof. intros Hl. unfold ntohs. by rewrite <- Hl, object_bytes_value. Qed.

Lemma length_list_byte_of_string (s : string) :
  length (list_byte_of_string s) = String.length s.
Proof.
  unfold list_byte_of_string. rewrite length_map.
  induction s as [|a s IH]; simpl; [done|]. by rewrite IH.
Qed.

(** ** Memory *)

Import ByteBuffer.
Local Open Scope bb_scope.

Lemma size_add_small (a b : Z) :
  0 <= a -> 0 <= b -> a + b < 2 ^ 64 -> size_add a b = a + b.
Proof. intros. unfold size_add, SIZE_MOD. apply Z.mod_small. lia. Qed.

Lemma size_sub_small (a b : Z) :
  0 <= b <= a -> a < 2 ^ 64 -> size_sub a b = a - b.
Proof. intros. unfold size_sub, SIZE_MOD. apply Z.mod_small. lia. Qed.

Lemma mem_read_Some (mem : list byte) (pos n : Z) :
  0 <= pos -> 0 <= n -> pos + n <= Z.of_nat (length mem) ->
  mem_read mem pos n = Some (take (Z.to_nat n) (drop (Z.to_nat pos) mem)).
Proof.
  intros Hp Hn Hb. unfold mem_read.
  destruct (0 <=? pos) eqn:E1; [|lia].
  destruct (0 <=? n) eqn:E2; [|lia].
  destruct (pos + n <=? Z.of_nat (length mem)) eqn:E3; [done|lia].
Qed.

Lemma mem_read_all (l : list byte) : mem_read l 0 (Z.of_nat (length l)) = Some l.
Proof.
  rewrite mem_read_Some by lia. rewrite Nat2Z.id. simpl.
  by rewrite firstn_all.
Qed.

Lemma mem_write_Some (mem : list byte) (pos : Z) (src : list byte) :
  0 <= pos -> pos + Z.of_nat (length src) <= Z.of_nat (length mem) ->
  mem_write mem pos src =
    Some (take (Z.to_nat pos) mem ++ src
          ++ drop (Z.to_nat pos + length src) mem).
Proof.
  intros Hp Hb. unfold mem_write.
  destruct (0 <=? pos) eqn:E1; [|lia].
  destruct (pos + Z.of_nat (length src) <=? Z.of_nat (length mem)) eqn:E2; [done|lia].
Qed.

Lemma mem_write_inv (mem : list byte) (pos : Z) (src mem' : list byte) :
  mem_write mem pos src = Some mem' ->
  0 <= pos /\ pos + Z.of_nat (length src) <= Z.of_nat (length mem) /\
  mem' = take (Z.to_nat pos) mem ++ src ++ drop (Z.to_nat pos + length src) mem /\
  length mem' = length mem.
Proof.
  unfold mem_write. intros H.
  destruct (0 <=? pos) eqn:E1; [|done].
  destruct (pos + Z.of_nat (length src) <=? Z.of_nat (length mem)) eqn:E2; [|done].
  simpl in H. injection H as <-.
  repeat split; try lia.
  rewrite !length_app, length_take, length_drop. lia.
Qed.

(** ** The cursor *)

(** The buffer with [bytes] stored at the cursor and the cursor moved
    behind them. *)
Definition write_at (b : ByteBuffer.t) (bytes : list byte) : ByteBuffer.t :=
  {| buffer_ := take (Z.to_nat (position_ b)) (buffer_ b) ++ bytes
                ++ drop (Z.to_nat (position_ b) + length bytes) (buffer_ b);
     length_ := length_ b;
     position_ := position_ b + Z.of_nat (length bytes) |}.

(** The buffer with the cursor moved [n] bytes on. *)
Definition advance (b : ByteBuffer.t) (n : Z) : ByteBuffer.t :=
  {| buffer_ := buffer_ b; length_ := length_ b; position_ := position_ b + n |}.

(** The region holds [bytes] at the cursor, inside the capacity. *)
Definition starts_with (b : ByteBuffer.t) (bytes : list byte) : Prop :=
  position_ b + Z.of_nat (length bytes) <= length_ b /\
  take (length bytes) (drop (Z.to_nat (position_ b)) (buffer_ b)) = bytes.

Lemma CheckBoundary_spec (b : ByteBuffer.t) (size : Z) :
  wf b -> 0 <= size < 2 ^ 63 ->
  CheckBoundary size b = (size <=? remaining b).
Proof.
  intros (Hp & Hl & Hc) Hs. unfold CheckBoundary, remaining.
  rewrite size_add_small by lia.
  destruct (position_ b + size <=? length_ b) eqn:E1;
    destruct (size <=? length_ b - position_ b) eqn:E2; lia.
Qed.

Lemma wf_write_at (b : ByteBuffer.t) (bytes : list byte) :
  wf b -> Z.of_nat (length bytes) <= remaining b -> wf (write_at b bytes).
Proof.
  intros (Hp & Hl & Hc) Hr. unfold wf, write_at, remaining in *. simpl.
  repeat split; try lia.
  rewrite !length_app, length_take, length_drop. lia.
Qed.

Lemma wf_advance (b : ByteBuffer.t) (n : Z) :
  wf b -> 0 <= n <= remaining b -> wf (advance b n).
Proof. intros (Hp & Hl & Hc) Hr. unfold wf, advance, remaining in *. simpl. lia. Qed.

Lemma splice_app (buf l1 l2 : list byte) (p : nat) :
  (p + length l1 + length l2 <= length buf)%nat ->
  take (p + length l1) (take p buf ++ l1 ++ drop (p + length l1) buf) ++ l2
    ++ drop (p + length l1 + length l2)
         (take p buf ++ l1 ++ drop (p + length l1) buf)
  = take p buf ++ (l1 ++ l2) ++ drop (p + length (l1 ++ l2)) buf.
Proof.
  intros H.
  assert (Hlt : length (take p buf) = p) by (rewrite length_take; lia).
  rewrite (take_app_add' (take p buf)) by done.
  rewrite (take_app_length' l1) by done.
  rewrite <- Nat.add_assoc.
  rewrite (drop_app_add' (take p buf)) by done.
  rewrite (drop_app_add' l1) by done.
  rewrite drop_drop, length_app, <- !app_assoc.
  do 4 f_equal. lia.
Qed.

Lemma write_at_app (b : ByteBuffer.t) (l1 l2 : list byte) :
  wf b -> Z.of_nat (length l1 + length l2) <= remaining b ->
  write_at (write_at b l1) l2 = write_at b (l1 ++ l2).
Proof.
  intros (Hp & Hl & Hc) Hr. unfold write_at, remaining in *. simpl.
  f_equal; [|rewrite length_app; lia].
  replace (Z.to_nat (position_ b + Z.of_nat (length l1)))
    with (Z.to_nat (position_ b) + length l1)%nat by lia.
  apply splice_app. lia.
Qed.

Lemma advance_0 (b : ByteBuffer.t) : advance b 0 = b.
Proof. destruct b as [m l p]. unfold advance. simpl. f_equal. lia. Qed.

Lemma advance_advance (b : ByteBuffer.t) (n m : Z) :
  advance (advance b n) m = advance b (n + m).
Proof. unfold advance. simpl. f_equal. lia. Qed.

Lemma starts_with_nil (b : ByteBuffer.t) : wf b -> starts_with b [].
Proof. intros (Hp & _). split; simpl; [lia|done]. Qed.

Lemma starts_with_app (b : ByteBuffer.t) (l1 l2 : list byte) :
  wf b -> starts_with b (l1 ++ l2) ->
  starts_with b l1 /\ starts_with (advance b (Z.of_nat (length l1))) l2.
Proof.
  intros (Hp & Hl & Hc) [Hr Ht]. rewrite length_app in Hr, Ht.
  unfold starts_with, advance. simpl.
  assert (H1 : take (length l1) (drop (Z.to_nat (position_ b)) (buffer_ b)) = l1).
  { pose proof (f_equal (take (length l1)) Ht) as Ht1.
    rewrite take_take, take_app_length in Ht1.
    by replace (length l1 `min` (length l1 + length l2))%nat
      with (length l1) in Ht1 by lia. }
  repeat split; [lia|done|lia|].
  replace (Z.to_nat (position_ b + Z.of_nat (length l1)))
    with (Z.to_nat (position_ b) + length l1)%nat by lia.
  rewrite <- drop_drop, take_drop_commute, Ht.
  apply drop_app_length.
Qed.

(** Seeking back to where [bytes] were written finds them there. *)
Lemma starts_with_written (b : ByteBuffer.t) (bytes : list byte) :
  wf b -> Z.of_nat (length bytes) <= remaining b ->
  starts_with
    {| buffer_ := buffer_ (write_at b bytes); length_ := length_ b;
       position_ := position_ b |} bytes.
Proof.
  intros (Hp & Hl & Hc) Hr. unfold starts_with, write_at, remaining in *. simpl.
  split; [lia|].
  rewrite drop_app_length' by (rewrite length_take; lia).
  by rewrite take_app_length.
Qed.

Lemma SetPosition_ok (b : ByteBuffer.t) (pos : Z) :
  pos <= length_ b ->
  SetPosition pos b =
    (Normal tt, {| buffer_ := buffer_ b; length_ := length_ b; position_ := pos |}).
Proof.
  intros H. unfold SetPosition. destruct (length_ b <? pos) eqn:E; [lia|done].
Qed.

Lemma WriteBytes_overflow (b : ByteBuffer.t) (data : list byte) (size : Z) :
  wf b -> 0 <= size < 2 ^ 63 -> remaining b < size ->
  WriteBytes data size b =
    (Throw (overflow_error "ByteBuffer: write would exceed buffer bounds"), b).
Proof.
  intros Hwf Hs Hr. unfold WriteBytes. rewrite CheckBoundary_spec by done.
  destruct (size <=? remaining b) eqn:E; [lia|done].
Qed.

Lemma WriteBytes_ok (b : ByteBuffer.t) (data : list byte) (size : Z) :
  wf b -> size = Z.of_nat (length data) -> size <= remaining b ->
  WriteBytes data size b = (Normal tt, write_at b data).
Proof.
  intros Hwf -> Hr. pose proof Hwf as (Hp & Hl & Hc). unfold remaining in Hr.
  unfold WriteBytes. rewrite CheckBoundary_spec by (done || lia).
  unfold remaining.
  destruct (Z.of_nat (length data) <=? length_ b - position_ b) eqn:E; [|lia].
  simpl. rewrite mem_read_all, mem_write_Some by lia.
  rewrite size_add_small by lia. done.
Qed.

Lemma ReadBytes_underflow (b : ByteBuffer.t) (size : Z) :
  wf b -> 0 <= size < 2 ^ 63 -> remaining b < size ->
  ReadBytes size b =
    (Throw (underflow_error "ByteBuffer: read would exceed buffer bounds"), b).
Proof.
  intros Hwf Hs Hr. unfold ReadBytes. rewrite CheckBoundary_spec by done.
  destruct (size <=? remaining b) eqn:E; [lia|done].
Qed.

Lemma ReadBytes_ok (b : ByteBuffer.t) (size : Z) :
  wf b -> 0 <= size <= remaining b ->
  ReadBytes size b =
    (Normal (take (Z.to_nat size) (drop (Z.to_nat (position_ b)) (buffer_ b))),
     advance b size).
Proof.
  intros Hwf Hr. pose proof Hwf as (Hp & Hl & Hc). unfold remaining in Hr.
  unfold ReadBytes. rewrite CheckBoundary_spec by (done || lia).
  unfold remaining.
  destruct (size <=? length_ b - position_ b) eqn:E; [|lia].
  simpl. rewrite mem_read_Some by lia.
  rewrite size_add_small by lia. done.
Qed.

Lemma ReadBytes_starts_with (b : ByteBuffer.t) (bytes : list byte) :
  wf b -> starts_with b bytes ->
  ReadBytes (Z.of_nat (length bytes)) b =
    (Normal bytes, advance b (Z.of_nat (length bytes))).
Proof.
  intros Hwf [Hr Ht]. rewrite ReadBytes_ok by (unfold remaining; done || lia).
  by rewrite Nat2Z.id, Ht.
Qed.

(** ** What an operation writes and what it reads *)

(** [put] stores [bytes] at the cursor whenever they fit. *)
Definition writes (put : M unit) (bytes : list byte) : Prop :=
  forall b, wf b -> Z.of_nat (length bytes) <= remaining b ->
    put b = (Normal tt, write_at b bytes).

(** [get] decodes [bytes] at the cursor to [v] and moves behind them. *)
Definition reads {A} (get : M A) (bytes : list byte) (v : A) : Prop :=
  forall b, wf b -> starts_with b bytes ->
    get b = (Normal v, advance b (Z.of_nat (length bytes))).

Lemma write_at_nil (b : ByteBuffer.t) : wf b -> write_at b [] = b.
Proof.
  intros (Hp & Hl & Hc). destruct b as [m l p]. unfold write_at. simpl in *.
  f_equal; [|lia]. rewrite Nat.add_0_r. apply take_drop.
Qed.

Lemma writes_ret : writes (ret tt) [].
Proof. intros b Hwf _. unfold ret. by rewrite write_at_nil. Qed.

Lemma writes_bind (p1 p2 : M unit) (l1 l2 : list byte) :
  writes p1 l1 -> writes p2 l2 -> writes (p1 ;; p2) (l1 ++ l2).
Proof.
  intros H1 H2 b Hwf Hr. rewrite length_app in Hr. unfold bind.
  rewrite H1 by (done || lia).
  rewrite H2.
  - by rewrite write_at_app by (done || lia).
  - apply wf_write_at; [done|lia].
  - unfold remaining, write_at in *. simpl. lia.
Qed.

Lemma reads_ret {A} (v : A) : reads (ret v) [] v.
Proof. intros b Hwf _. unfold ret. simpl. by rewrite advance_0. Qed.

Lemma reads_bind {A B} (g : M A) (k : A -> M B) (l1 l2 : list byte) (v : A) (r : B) :
  reads g l1 v -> reads (k v) l2 r -> reads (let* x := g in k x) (l1 ++ l2) r.
Proof.
  intros H1 H2 b Hwf Hs.
  destruct (starts_with_app b l1 l2 Hwf Hs) as [Hs1 Hs2].
  unfold bind. rewrite H1 by done.
  rewrite H2; [|apply wf_advance; [done|]|done].
  - by rewrite advance_advance, length_app, Nat2Z.inj_add.
  - destruct Hs1 as [Hr _]. unfold remaining. lia.
Qed.

Lemma writes_WriteBytes (data : list byte) (size : Z) :
  size = Z.of_nat (length data) -> writes (WriteBytes data size) data.
Proof. intros -> b Hwf Hr. by apply WriteBytes_ok. Qed.

Lemma reads_ReadBytes (bytes : list byte) :
  reads (ReadBytes (Z.of_nat (length bytes))) bytes bytes.
Proof. intros b Hwf Hs. by apply ReadBytes_starts_with. Qed.

(** ** The wire format of each operation *)

(** A string on the wire: its length in four bytes, then its bytes. *)
Definition wire_string (s : string) : list byte :=
  be_bytes 4 (Z.of_nat (String.length s)) ++ list_byte_of_string s.

(** The entries of a map on the wire, in the order they are visited. *)
Definition wire_entries (entries : list (string * string)) : list byte :=
  flat_map (fun kv => wire_string (fst kv) ++ wire_string (snd kv)) entries.

(** The two words [PutLong] writes. *)
Definition wire_long (v : Z) : list byte :=
  be_bytes 4 (to_uint32 (Z.shiftr v 32)) ++ be_bytes 4 (to_uint32 (Z.land v 0xFFFFFFFF)).

(** Every string of the entries has a length a [uint32_t] holds. *)
Definition short_strings (entries : list (string * string)) : Prop :=
  Forall (fun kv => Z.of_nat (String.length (fst kv)) < 2 ^ 32 /\
                    Z.of_nat (String.length (snd kv)) < 2 ^ 32) entries.

Section Codec.
Variable host : Host.

Lemma object_bytes_1 (v : Z) : object_bytes host 1 v = be_bytes 1 v.
Proof. by destruct host. Qed.

Lemma object_value_1 (l : list byte) :
  length l = 1%nat -> object_value host l = be_value l.
Proof.
  intros Hl. destruct l as [|x [|y l]]; simpl in Hl; try lia. by destruct host.
Qed.

Lemma writes_PutByte (v : Z) : writes (PutByte host v) (be_bytes 1 v).
Proof.
  unfold PutByte. rewrite object_bytes_1. apply writes_WriteBytes.
  by rewrite length_be_bytes.
Qed.

Lemma writes_PutShort (v : Z) : writes (PutShort host v) (be_bytes 2 v).
Proof.
  unfold PutShort. cbv zeta. rewrite object_bytes_htons. apply writes_WriteBytes.
  by rewrite length_be_bytes.
Qed.

Lemma writes_PutInt (v : Z) : writes (PutInt host v) (be_bytes 4 v).
Proof.
  unfold PutInt. cbv zeta. rewrite object_bytes_htonl. apply writes_WriteBytes.
  by rewrite length_be_bytes.
Qed.

Lemma writes_PutLong (v : Z) : writes (PutLong host v) (wire_long v).
Proof.
  unfold PutLong, wire_long. cbv zeta. rewrite !object_bytes_htonl.
  apply writes_bind; apply writes_WriteBytes; by rewrite length_be_bytes.
Qed.

Lemma writes_PutFloat (v : Z) : writes (PutFloat host v) (object_bytes host 4 v).
Proof. apply writes_WriteBytes. by rewrite length_object_bytes. Qed.

Lemma writes_PutDouble (v : Z) : writes (PutDouble host v) (object_bytes host 8 v).
Proof. apply writes_WriteBytes. by rewrite length_object_bytes. Qed.

Lemma to_uint32_small (z : Z) : 0 <= z < 2 ^ 32 -> to_uint32 z = z.
Proof. intros. unfold to_uint32, UINT32_MOD. by apply Z.mod_small. Qed.

Lemma writes_PutString (s : string) :
  Z.of_nat (String.length s) < 2 ^ 32 -> writes (PutString host s) (wire_string s).
Proof.
  intros Hs. unfold PutString, wire_string. cbv zeta.
  rewrite to_uint32_small by lia.
  apply writes_bind; [apply writes_PutInt|].
  destruct (0 <? Z.of_nat (String.length s)) eqn:E.
  - apply writes_WriteBytes. by rewrite length_list_byte_of_string.
  - assert (Hn : String.length s = 0%nat) by lia.
    destruct s; [|done]. apply writes_ret.
Qed.

Lemma wire_entries_cons (k v : string) (entries : list (string * string)) :
  wire_entries ((k, v) :: entries) = wire_string k ++ wire_string v ++ wire_entries entries.
Proof. unfold wire_entries. cbn [flat_map fst snd]. by rewrite <- app_assoc. Qed.

Lemma writes_PutMap_loop (entries : list (string * string)) :
  short_strings entries -> writes (PutMap_loop host entries) (wire_entries entries).
Proof.
  induction 1 as [|[k v] entries [Hk Hv] _ IH]; [apply writes_ret|].
  rewrite wire_entries_cons. cbn [PutMap_loop].
  apply writes_bind; [by apply writes_PutString|].
  apply writes_bind; [by apply writes_PutString|done].
Qed.

Lemma reads_GetByte (l : list byte) :
  length l = 1%nat -> reads (GetByte host) l (be_value l).
Proof.
  intros Hl. unfold GetByte. rewrite <- (app_nil_r l) at 1.
  eapply reads_bind.
  - replace 1 with (Z.of_nat (length l)) by lia. apply reads_ReadBytes.
  - rewrite object_value_1 by done. apply reads_ret.
Qed.

Lemma reads_GetShort (l : list byte) :
  length l = 2%nat -> reads (GetShort host) l (be_value l).
Proof.
  intros Hl. unfold GetShort. rewrite <- (app_nil_r l) at 1.
  eapply reads_bind.
  - replace 2 with (Z.of_nat (length l)) by lia. apply reads_ReadBytes.
  - rewrite ntohs_object_value by done. apply reads_ret.
Qed.

Lemma reads_GetInt (l : list byte) :
  length l = 4%nat -> reads (GetInt host) l (be_value l).
Proof.
  intros Hl. unfold GetInt. rewrite <- (app_nil_r l) at 1.
  eapply reads_bind.
  - replace 4 with (Z.of_nat (length l)) by lia. apply reads_ReadBytes.
  - rewrite ntohl_object_value by done. apply reads_ret.
Qed.

Lemma reads_GetLong (h l : list byte) :
  length h = 4%nat -> length l = 4%nat ->
  reads (GetLong host) (h ++ l)
    (to_int64 (Z.lor (Z.shiftl (be_value h) 32) (be_value l))).
Proof.
  intros Hh Hl. unfold GetLong.
  eapply reads_bind.
  - replace 4 with (Z.of_nat (length h)) by lia. apply reads_ReadBytes.
  - rewrite <- (app_nil_r l) at 1. eapply reads_bind.
    + replace 4 with (Z.of_nat (length l)) by lia. apply reads_ReadBytes.
    + cbv zeta. rewrite !ntohl_object_value by done. apply reads_ret.
Qed.

Lemma reads_GetFloat (l : list byte) :
  length l = 4%nat -> reads (GetFloat host) l (object_value host l).
Proof.
  intros Hl. unfold GetFloat. rewrite <- (app_nil_r l) at 1.
  eapply reads_bind; [|apply reads_ret].
  replace 4 with (Z.of_nat (length l)) by lia. apply reads_ReadBytes.
Qed.

Lemma reads_GetDouble (l : list byte) :
  length l = 8%nat -> reads (GetDouble host) l (object_value host l).
Proof.
  intros Hl. unfold GetDouble. rewrite <- (app_nil_r l) at 1.
  eapply reads_bind; [|apply reads_ret].
  replace 8 with (Z.of_nat (length l)) by lia. apply reads_ReadBytes.
Qed.

Lemma be_value_be_bytes_4 (v : Z) : 0 <= v < 2 ^ 32 -> be_value (be_bytes 4 v) = v.
Proof. intros. rewrite be_value_be_bytes. by apply Z.mod_small. Qed.

Lemma reads_GetString (s : string) :
  Z.of_nat (String.length s) < 2 ^ 32 -> reads (GetString host) (wire_string s) s.
Proof.
  intros Hs. unfold GetString, wire_string.
  eapply reads_bind; [apply reads_GetInt, length_be_bytes|].
  rewrite be_value_be_bytes_4 by lia.
  destruct (Z.of_nat (String.length s) =? 0) eqn:E.
  - assert (Hn : String.length s = 0%nat) by lia.
    destruct s; [|done]. apply reads_ret.
  - intros b Hwf [Hr Ht]. rewrite length_list_byte_of_string in Hr, Ht.
    pose proof Hwf as (Hp & Hl & Hc).
    rewrite CheckBoundary_spec by (done || lia). unfold remaining.
    destruct (Z.of_nat (String.length s) <=? length_ b - position_ b) eqn:E2; [|lia].
    simpl. rewrite mem_read_Some by lia. rewrite Nat2Z.id, Ht.
    rewrite string_of_list_byte_of_string, size_add_small by lia.
    by rewrite length_list_byte_of_string.
Qed.

Lemma reads_GetMap_loop (entries : list (string * string)) (result : gmap string string) :
  short_strings entries ->
  reads (GetMap_loop host (length entries) result) (wire_entries entries)
    (fold_left (fun acc kv => <[fst kv := snd kv]> acc) entries result).
Proof.
  intros H. revert result.
  induction H as [|[k v] entries [Hk Hv] _ IH]; intros result;
    [apply reads_ret|].
  rewrite wire_entries_cons. cbn [GetMap_loop length fold_left fst snd].
  eapply reads_bind; [by apply reads_GetString|].
  eapply reads_bind; [by apply reads_GetString|]. apply IH.
Qed.

End Codec.

(** ** Round trips *)

(** [put] at the cursor succeeds and, after seeking back to where it
    started, [get] returns [v] and leaves the buffer as [put] left it. *)
Definition round_trip {A} (put : M unit) (get : M A) (v : A) (b : ByteBuffer.t) : Prop :=
  exists b1, put b = (Normal tt, b1) /\
             (SetPosition (position_ b) ;; get) b1 = (Normal v, b1).

Lemma round_trip_wire {A} (put : M unit) (get : M A) (bytes : list byte) (v : A)
    (b : ByteBuffer.t) :
  writes put bytes -> reads get bytes v ->
  wf b -> Z.of_nat (length bytes) <= remaining b ->
  round_trip put get v b.
Proof.
  intros Hw Hg Hwf Hr. exists (write_at b bytes). split; [by apply Hw|].
  pose proof Hwf as (Hp & Hl & Hc). unfold bind.
  rewrite SetPosition_ok by (simpl; lia). cbn [buffer_ length_ write_at].
  rewrite Hg.
  - unfold advance, write_at. by simpl.
  - pose proof (wf_write_at b bytes Hwf Hr) as (Hp' & Hl' & Hc').
    unfold wf, write_at in *. simpl in *. lia.
  - by apply starts_with_written.
Qed.

Lemma land_low_word (v : Z) : Z.land v 0xFFFFFFFF = v mod 2 ^ 32.
Proof. change 0xFFFFFFFF with (Z.ones 32). apply Z.land_ones. lia. Qed.

Lemma lor_words (h l : Z) :
  0 <= l < 2 ^ 32 -> Z.lor (Z.shiftl h 32) l = h * 2 ^ 32 + l.
Proof.
  intros Hl. pose proof (Z.add_lor_land (Z.shiftl h 32) l) as Hadd.
  assert (H0 : Z.land (Z.shiftl h 32) l = 0); [|rewrite Z.shiftl_mul_pow2 in * by lia; lia].
  clear Hadd. apply Z.bits_inj'. intros n Hn.
  rewrite Z.land_spec, Z.bits_0.
  destruct (Z.lt_ge_cases n 32) as [Hlt|Hge].
  - rewrite Z.shiftl_spec_low by lia. done.
  - replace (Z.testbit l n) with false; [by rewrite andb_false_r|].
    symmetry. destruct (Z.eq_dec l 0) as [->|Hne]; [apply Z.bits_0|].
    apply Z.bits_above_log2; [lia|].
    apply Z.log2_lt_pow2; [lia|].
    apply Z.lt_le_trans with (2 ^ 32); [lia|].
    apply Z.pow_le_mono_r; lia.
Qed.

(** The two 32-bit halves of a 64-bit value put together again. *)
Lemma long_words (v : Z) :
  - 2 ^ 63 <= v < 2 ^ 63 ->
  to_int64 (Z.lor (Z.shiftl (to_uint32 (Z.shiftr v 32)) 32)
                  (to_uint32 (Z.land v 0xFFFFFFFF))) = v.
Proof.
  intros Hv. rewrite land_low_word. unfold to_uint32, UINT32_MOD.
  rewrite Z.mod_mod by lia. rewrite Z.shiftr_div_pow2 by lia.
  assert (Hl : 0 <= v mod 2 ^ 32 < 2 ^ 32) by (apply Z.mod_pos_bound; lia).
  rewrite lor_words by done.
  pose proof (Z.div_mod v (2 ^ 32) ltac:(lia)) as Hdm.
  assert (Hq : - 2 ^ 31 <= v / 2 ^ 32 < 2 ^ 31).
  { split; [apply Z.div_le_lower_bound|apply Z.div_lt_upper_bound]; lia. }
  unfold to_int64.
  destruct (Z.lt_ge_cases (v / 2 ^ 32) 0) as [Hneg|Hpos].
  - replace ((v / 2 ^ 32) mod 2 ^ 32) with (v / 2 ^ 32 + 2 ^ 32).
    + replace ((v / 2 ^ 32 + 2 ^ 32) * 2 ^ 32 + v mod 2 ^ 32 + 2 ^ 63)
        with (v + 2 ^ 63 + 1 * 2 ^ 64) by lia.
      rewrite Z.mod_add by lia. rewrite Z.mod_small by lia. lia.
    + apply (Z.mod_unique_pos _ _ (-1)); lia.
  - rewrite (Z.mod_small (v / 2 ^ 32)) by lia.
    replace (v / 2 ^ 32 * 2 ^ 32 + v mod 2 ^ 32) with v by lia.
    rewrite Z.mod_small by lia. lia.
Qed.

(** Reading the entries back in any visiting order rebuilds the map. *)
Lemma fold_left_insert_entries (m : gmap string string) (entries : list (string * string)) :
  entries ≡ₚ map_to_list m ->
  fold_left (fun acc kv => <[fst kv := snd kv]> acc) entries ∅ = m.
Proof.
  intros Hp.
  rewrite <- fold_left_rev_right.
  change (fold_right (fun y x => <[y.1 := y.2]> x) ∅ (rev entries))
    with (list_to_map (M := gmap string string) (rev entries)).
  assert (Hrev : rev entries ≡ₚ map_to_list m).
  { etrans; [|exact Hp]. symmetry. apply Permutation_rev. }
  transitivity (list_to_map (M := gmap string string) (map_to_list m));
    [|apply list_to_map_to_list].
  apply list_to_map_proper; [|done].
  rewrite Hrev. apply NoDup_fst_map_to_list.
Qed.

(** A map on the wire: the number of entries, then the entries. *)
Definition wire_map (entries : list (string * string)) : list byte :=
  be_bytes 4 (Z.of_nat (length entries)) ++ wire_entries entries.

Lemma writes_PutMap (host : Host)
    (iteration : gmap string string -> list (string * string))
    (m : gmap string string) :
  iteration m ≡ₚ map_to_list m ->
  short_strings (iteration m) -> Z.of_nat (size m) < 2 ^ 32 ->
  writes (PutMap host iteration m) (wire_map (iteration m)).
Proof.
  intros Hp Hs Hn. unfold PutMap, wire_map.
  rewrite to_uint32_small by lia.
  rewrite Hp at 1. rewrite length_map_to_list.
  apply writes_bind; [apply writes_PutInt|by apply writes_PutMap_loop].
Qed.

Lemma reads_GetMap (host : Host) (reserve : Z -> bool)
    (entries : list (string * string)) :
  short_strings entries -> Z.of_nat (length entries) < 2 ^ 32 ->
  reserve (Z.of_nat (length entries)) = true ->
  reads (GetMap host reserve) (wire_map entries)
    (fold_left (fun acc kv => <[fst kv := snd kv]> acc) entries ∅).
Proof.
  intros Hs Hn Hreserve. unfold GetMap, wire_map.
  eapply reads_bind; [apply reads_GetInt, length_be_bytes|].
  rewrite be_value_be_bytes_4 by lia. rewrite Hreserve, Nat2Z.id.
  by apply reads_GetMap_loop.
Qed.

(** C3. Round-trip laws of the codec. In a well-formed buffer with room
    for the encoding, each value written by its [Put] operation is
    returned unchanged by the matching [Get] operation after seeking back
    to where the write started: a byte, a 16-bit and a 32-bit unsigned
    integer, a signed 64-bit integer over its whole range, a double as a
    64-bit pattern, a string (the empty one included) and a string map
    (the empty one and empty values included), whatever order the map's
    iterator visits the entries in. Lengths and counts are those a
    [uint32_t] prefix holds, and the allocator grants [GetMap] the table
    for the entries of the map. *)
Theorem put_get_round_trip (host : Host) (b : ByteBuffer.t) :
  wf b ->
  (forall v, 0 <= v < 2 ^ 8 -> 1 <= remaining b ->
     round_trip (PutByte host v) (GetByte host) v b) /\
  (forall v, 0 <= v < 2 ^ 16 -> 2 <= remaining b ->
     round_trip (PutShort host v) (GetShort host) v b) /\
  (forall v, 0 <= v < 2 ^ 32 -> 4 <= remaining b ->
     round_trip (PutInt host v) (GetInt host) v b) /\
  (forall v, - 2 ^ 63 <= v < 2 ^ 63 -> 8 <= remaining b ->
     round_trip (PutLong host v) (GetLong host) v b) /\
  (forall v, 0 <= v < 2 ^ 64 -> 8 <= remaining b ->
     round_trip (PutDouble host v) (GetDouble host) v b) /\
  (forall s, Z.of_nat (String.length s) < 2 ^ 32 ->
     4 + Z.of_nat (String.length s) <= remaining b ->
     round_trip (PutString host s) (GetString host) s b) /\
  (forall reserve iteration (m : gmap string string),
     iteration m ≡ₚ map_to_list m ->
     short_strings (iteration m) -> Z.of_nat (size m) < 2 ^ 32 ->
     Z.of_nat (length (wire_map (iteration m))) <= remaining b ->
     reserve (Z.of_nat (size m)) = true ->
     round_trip (PutMap host iteration m) (GetMap host reserve) m b).
Proof.
  intros Hwf. repeat split.
  - intros v Hv Hr.
    apply (round_trip_wire _ _ (be_bytes 1 v));
      [| | exact Hwf |].
    + apply writes_PutByte.
    + replace v with (be_value (be_bytes 1 v)) at 2.
      * apply reads_GetByte, length_be_bytes.
      * rewrite be_value_be_bytes. apply Z.mod_small. lia.
    + by rewrite length_be_bytes.
  - intros v Hv Hr.
    apply (round_trip_wire _ _ (be_bytes 2 v));
      [| | exact Hwf |].
    + apply writes_PutShort.
    + replace v with (be_value (be_bytes 2 v)) at 2.
      * apply reads_GetShort, length_be_bytes.
      * rewrite be_value_be_bytes. apply Z.mod_small. lia.
    + by rewrite length_be_bytes.
  - intros v Hv Hr.
    apply (round_trip_wire _ _ (be_bytes 4 v));
      [| | exact Hwf |].
    + apply writes_PutInt.
    + replace v with (be_value (be_bytes 4 v)) at 2.
      * apply reads_GetInt, length_be_bytes.
      * by apply be_value_be_bytes_4.
    + by rewrite length_be_bytes.
  - intros v Hv Hr.
    apply (round_trip_wire _ _ (wire_long v));
      [| | exact Hwf |].
    + apply writes_PutLong.
    + rewrite <- (long_words v Hv) at 2. unfold wire_long.
      assert (Hu : forall z, 0 <= to_uint32 z < 2 ^ 32)
        by (intros z; apply Z.mod_pos_bound; unfold UINT32_MOD; lia).
      rewrite <- (be_value_be_bytes_4 (to_uint32 (Z.shiftr v 32))) at 2 by apply Hu.
      rewrite <- (be_value_be_bytes_4 (to_uint32 (Z.land v 0xFFFFFFFF))) at 2 by apply Hu.
      apply reads_GetLong; apply length_be_bytes.
    + unfold wire_long. by rewrite length_app, !length_be_bytes.
  - intros v Hv Hr.
    apply (round_trip_wire _ _ (object_bytes host 8 v));
      [| | exact Hwf |].
    + apply writes_PutDouble.
    + replace v with (object_value host (object_bytes host 8 v)) at 2.
      * apply reads_GetDouble, length_object_bytes.
      * rewrite object_value_bytes. apply Z.mod_small. lia.
    + by rewrite length_object_bytes.
  - intros s Hs Hr.
    apply (round_trip_wire _ _ (wire_string s));
      [| | exact Hwf |].
    + by apply writes_PutString.
    + by apply reads_GetString.
    + unfold wire_string.
      rewrite length_app, length_be_bytes, length_list_byte_of_string. lia.
  - intros reserve iteration m Hp Hs Hn Hr Hreserve.
    apply (round_trip_wire _ _ (wire_map (iteration m)));
      [| | exact Hwf |].
    + by apply writes_PutMap.
    + rewrite <- (fold_left_insert_entries m (iteration m) Hp) at 2.
      apply reads_GetMap; [done| |].
      * by rewrite Hp, length_map_to_list.
      * by rewrite Hp, length_map_to_list.
    + exact Hr.
Qed.

(** ** Bounds: what every operation guarantees *)

Definition WRITE_MESSAGE : string := "ByteBuffer: write would exceed buffer bounds".
Definition READ_MESSAGE : string := "ByteBuffer: read would exceed buffer bounds".

Definition overflow_exn (e : exception) : Prop :=
  match e with overflow_error _ => True | _ => False end.
Definition underflow_exn (e : exception) : Prop :=
  match e with underflow_error _ => True | _ => False end.

(** [op] on [b] touches no memory outside the region, ends with the cursor
    no further than the capacity and no earlier than it was, keeps the
    capacity, changes the contents only as [frame] allows, and throws only
    what [allowed] admits. *)
Definition within {A} (allowed : exception -> Prop)
    (frame : list byte -> list byte -> Prop) (op : M A) (b : ByteBuffer.t) : Prop :=
  wf (snd (op b)) /\
  length_ (snd (op b)) = length_ b /\
  position_ b <= position_ (snd (op b)) /\
  frame (buffer_ b) (buffer_ (snd (op b))) /\
  match fst (op b) with
  | Normal _ => True
  | Throw e => allowed e
  | Undefined => False
  end.

(** The two frames: a read leaves the contents as they are, a write keeps
    their size. *)
Definition same_contents (m m' : list byte) : Prop := m' = m.
Definition same_size (m m' : list byte) : Prop := length m' = length m.

Section Within.
Context {allowed : exception -> Prop} {frame : list byte -> list byte -> Prop}.
Hypothesis frame_refl : forall m, frame m m.
Hypothesis frame_trans : forall m1 m2 m3, frame m1 m2 -> frame m2 m3 -> frame m1 m3.

Lemma within_ret {A} (a : A) (b : ByteBuffer.t) :
  wf b -> within allowed frame (ret a) b.
Proof.
  intros Hwf. unfold within, ret. simpl.
  split; [done|]. split; [done|]. split; [lia|]. split; [apply frame_refl|done].
Qed.

Lemma within_throw {A} (e : exception) (b : ByteBuffer.t) :
  wf b -> allowed e -> within allowed frame (@throw A e) b.
Proof.
  intros Hwf He. unfold within, throw. simpl.
  split; [done|]. split; [done|]. split; [lia|]. split; [apply frame_refl|done].
Qed.

Lemma within_bind {A B} (m : M A) (k : A -> M B) (b : ByteBuffer.t) :
  within allowed frame m b ->
  (forall a b', m b = (Normal a, b') -> within allowed frame (k a) b') ->
  within allowed frame (let* x := m in k x) b.
Proof.
  unfold within, bind. intros (Hwf & Hl & Hp & Hf & Ho) Hk.
  destruct (m b) as [[a|e|] b'] eqn:E; simpl in *; try done.
  destruct (Hk a b' eq_refl) as (Hwf' & Hl' & Hp' & Hf' & Ho').
  split; [exact Hwf'|]. split; [lia|]. split; [lia|].
  split; [by eapply frame_trans|exact Ho'].
Qed.

Lemma within_if {A} (c : bool) (m1 m2 : M A) (b : ByteBuffer.t) :
  (c = true -> within allowed frame m1 b) ->
  (c = false -> within allowed frame m2 b) ->
  within allowed frame (if c then m1 else m2) b.
Proof. destruct c; auto. Qed.

End Within.

Lemma within_weaken {A} (P Q : exception -> Prop) (frame : list byte -> list byte -> Prop)
    (op : M A) (b : ByteBuffer.t) :
  (forall e, P e -> Q e) -> within P frame op b -> within Q frame op b.
Proof.
  unfold within. intros HPQ (Hwf & Hl & Hp & Hf & Ho).
  split; [done|]. split; [done|]. split; [done|]. split; [done|].
  destruct (fst (op b)); auto.
Qed.

Lemma same_contents_refl (m : list byte) : same_contents m m.
Proof. done. Qed.
Lemma same_contents_trans (m1 m2 m3 : list byte) :
  same_contents m1 m2 -> same_contents m2 m3 -> same_contents m1 m3.
Proof. unfold same_contents. congruence. Qed.
Lemma same_size_refl (m : list byte) : same_size m m.
Proof. done. Qed.
Lemma same_size_trans (m1 m2 m3 : list byte) :
  same_size m1 m2 -> same_size m2 m3 -> same_size m1 m3.
Proof. unfold same_size. congruence. Qed.

Lemma within_ReadBytes (size : Z) (b : ByteBuffer.t) :
  wf b -> 0 <= size < 2 ^ 63 ->
  within underflow_exn same_contents (ReadBytes size) b.
Proof.
  intros Hwf Hs. destruct (Z.lt_ge_cases (remaining b) size) as [Hlt|Hge].
  - unfold within. rewrite ReadBytes_underflow by done. simpl.
    split; [done|]. split; [done|]. split; [lia|]. done.
  - unfold within. rewrite ReadBytes_ok; [|done|lia]. simpl.
    pose proof (wf_advance b size Hwf ltac:(lia)) as Hwf'.
    split; [done|]. split; [done|]. split; [lia|]. done.
Qed.

Lemma within_WriteBytes (data : list byte) (size : Z) (b : ByteBuffer.t) :
  wf b -> 0 <= size < 2 ^ 63 -> size <= Z.of_nat (length data) ->
  within overflow_exn same_size (WriteBytes data size) b.
Proof.
  intros Hwf Hs Hd. destruct (Z.lt_ge_cases (remaining b) size) as [Hlt|Hge].
  - unfold within. rewrite WriteBytes_overflow by done. simpl.
    split; [done|]. split; [done|]. split; [lia|]. done.
  - pose proof Hwf as (Hp & Hl & Hc). unfold remaining in Hge.
    unfold within, WriteBytes. rewrite CheckBoundary_spec; [|done|lia].
    unfold remaining. destruct (size <=? length_ b - position_ b) eqn:E; [|lia].
    cbn [negb]. rewrite mem_read_Some by lia.
    assert (Hlen : length (take (Z.to_nat size) (drop (Z.to_nat 0) data)) = Z.to_nat size).
    { rewrite length_take, length_drop. simpl. lia. }
    rewrite mem_write_Some by lia. rewrite size_add_small by lia.
    cbn [fst snd buffer_ length_ position_]. unfold wf, same_size.
    cbn [buffer_ length_ position_].
    rewrite !length_app, length_take, length_drop, Hlen.
    repeat split; try done; lia.
Qed.

Lemma ntohl_range (host : Host) (x : Z) : 0 <= ntohl host x < 2 ^ 32.
Proof.
  unfold ntohl, be_value.
  pose proof (le_value_range (rev (object_bytes host 4 x))) as H.
  rewrite length_rev, length_object_bytes in H. exact H.
Qed.

Lemma GetInt_range (host : Host) (b b' : ByteBuffer.t) (v : Z) :
  GetInt host b = (Normal v, b') -> 0 <= v < 2 ^ 32.
Proof.
  unfold GetInt, bind, ret. destruct (ReadBytes 4 b) as [[l| |] b1]; try done.
  intros [= <- _]. apply ntohl_range.
Qed.

Lemma to_uint32_range (z : Z) : 0 <= to_uint32 z < 2 ^ 32.
Proof. unfold to_uint32, UINT32_MOD. apply Z.mod_pos_bound. lia. Qed.

Section Bounds.
Variable host : Host.

Local Abbreviation put_within := (within overflow_exn same_size).
Local Abbreviation get_within := (within underflow_exn same_contents).

Local Ltac put_bind :=
  apply (within_bind same_size_trans); [|intros ? ? ?].
Local Ltac get_bind :=
  apply (within_bind same_contents_trans); [|intros ? ? ?].

(** The state a successful step leaves is well formed. *)
Lemma within_step {A} (P : exception -> Prop) (F : list byte -> list byte -> Prop)
    (op : M A) (b b' : ByteBuffer.t) (a : A) :
  within P F op b -> op b = (Normal a, b') -> wf b'.
Proof. intros (Hwf & _) E. by rewrite E in Hwf. Qed.

Lemma within_PutByte (v : Z) (b : ByteBuffer.t) :
  wf b -> put_within (PutByte host v) b.
Proof.
  intros Hwf. apply within_WriteBytes; [done|lia|].
  rewrite length_object_bytes. lia.
Qed.

Lemma within_PutShort (v : Z) (b : ByteBuffer.t) :
  wf b -> put_within (PutShort host v) b.
Proof.
  intros Hwf. apply within_WriteBytes; [done|lia|].
  rewrite length_object_bytes. lia.
Qed.

Lemma within_PutInt (v : Z) (b : ByteBuffer.t) :
  wf b -> put_within (PutInt host v) b.
Proof.
  intros Hwf. apply within_WriteBytes; [done|lia|].
  rewrite length_object_bytes. lia.
Qed.

Lemma within_PutFloat (v : Z) (b : ByteBuffer.t) :
  wf b -> put_within (PutFloat host v) b.
Proof.
  intros Hwf. apply within_WriteBytes; [done|lia|].
  rewrite length_object_bytes. lia.
Qed.

Lemma within_PutDouble (v : Z) (b : ByteBuffer.t) :
  wf b -> put_within (PutDouble host v) b.
Proof.
  intros Hwf. apply within_WriteBytes; [done|lia|].
  rewrite length_object_bytes. lia.
Qed.

Lemma within_PutLong (v : Z) (b : ByteBuffer.t) :
  wf b -> put_within (PutLong host v) b.
Proof.
  intros Hwf. unfold PutLong. cbv zeta.
  assert (H4 : forall x b0, wf b0 ->
             put_within (WriteBytes (object_bytes host 4 x) 4) b0).
  { intros x b0 Hb0. apply within_WriteBytes; [done|lia|].
    rewrite length_object_bytes. lia. }
  put_bind; [by apply H4|]. apply H4. by eapply within_step; [apply H4|].
Qed.

Lemma within_PutString (s : string) (b : ByteBuffer.t) :
  wf b -> put_within (PutString host s) b.
Proof.
  intros Hwf. unfold PutString. cbv zeta.
  pose proof (to_uint32_range (Z.of_nat (String.length s))) as Hr.
  put_bind; [by apply within_PutInt|].
  assert (Hwf' : wf b') by (by eapply within_step; [apply within_PutInt|]).
  apply within_if; intros _.
  - apply within_WriteBytes; [done|lia|].
    rewrite length_list_byte_of_string. unfold to_uint32, UINT32_MOD in *.
    pose proof (Z.mod_le (Z.of_nat (String.length s)) (2 ^ 32)). lia.
  - by apply (within_ret same_size_refl).
Qed.

Lemma within_PutMap_loop (entries : list (string * string)) (b : ByteBuffer.t) :
  wf b -> put_within (PutMap_loop host entries) b.
Proof.
  revert b. induction entries as [|[k v] entries IH]; intros b Hwf.
  - by apply (within_ret same_size_refl).
  - cbn [PutMap_loop]. put_bind; [by apply within_PutString|].
    assert (Hwf1 : wf b') by (by eapply within_step; [apply within_PutString|]).
    put_bind; [by apply within_PutString|].
    apply IH. by eapply within_step; [apply within_PutString|].
Qed.

Lemma within_PutMap (iteration : gmap string string -> list (string * string))
    (m : gmap string string) (b : ByteBuffer.t) :
  wf b -> put_within (PutMap host iteration m) b.
Proof.
  intros Hwf. unfold PutMap. put_bind; [by apply within_PutInt|].
  apply within_PutMap_loop. by eapply within_step; [apply within_PutInt|].
Qed.

Lemma within_PutArray (d : list byte) (len : Z) (b : ByteBuffer.t) :
  wf b -> 0 <= len < 2 ^ 32 -> len <= Z.of_nat (length d) ->
  put_within (PutArray host (Some d) len) b.
Proof.
  intros Hwf Hl Hd. unfold PutArray. put_bind; [by apply within_PutInt|].
  assert (Hwf' : wf b') by (by eapply within_step; [apply within_PutInt|]).
  apply within_if; intros _.
  - apply within_WriteBytes; [done|lia|done].
  - by apply (within_ret same_size_refl).
Qed.

Lemma within_read_then {A} (size : Z) (f : list byte -> A) (b : ByteBuffer.t) :
  wf b -> 0 <= size < 2 ^ 63 ->
  get_within (let* data := ReadBytes size in ret (f data)) b.
Proof.
  intros Hwf Hs. get_bind; [by apply within_ReadBytes|].
  apply (within_ret same_contents_refl).
  by eapply within_step; [apply within_ReadBytes|].
Qed.

Lemma within_GetByte (b : ByteBuffer.t) : wf b -> get_within (GetByte host) b.
Proof. intros. apply within_read_then; [done|lia]. Qed.

Lemma within_GetShort (b : ByteBuffer.t) : wf b -> get_within (GetShort host) b.
Proof. intros. apply within_read_then; [done|lia]. Qed.

Lemma within_GetInt (b : ByteBuffer.t) : wf b -> get_within (GetInt host) b.
Proof. intros. apply within_read_then; [done|lia]. Qed.

Lemma within_GetFloat (b : ByteBuffer.t) : wf b -> get_within (GetFloat host) b.
Proof. intros. apply within_read_then; [done|lia]. Qed.

Lemma within_GetDouble (b : ByteBuffer.t) : wf b -> get_within (GetDouble host) b.
Proof. intros. apply within_read_then; [done|lia]. Qed.

Lemma within_GetLong (b : ByteBuffer.t) : wf b -> get_within (GetLong host) b.
Proof.
  intros Hwf. unfold GetLong.
  assert (H4 : get_within (ReadBytes 4) b) by (apply within_ReadBytes; [done|lia]).
  get_bind; [exact H4|].
  apply within_read_then; [|lia]. by eapply within_step.
Qed.

Lemma within_GetString (b : ByteBuffer.t) : wf b -> get_within (GetString host) b.
Proof.
  intros Hwf. unfold GetString. get_bind; [by apply within_GetInt|].
  assert (Hwf' : wf b') by (by eapply within_step; [apply within_GetInt|]).
  assert (Ha : 0 <= a < 2 ^ 32) by (by eapply GetInt_range).
  apply within_if; intros _; [by apply (within_ret same_contents_refl)|].
  unfold within. rewrite CheckBoundary_spec; [|done|lia].
  pose proof Hwf' as (Hp & Hl & Hc). unfold remaining.
  destruct (a <=? length_ b' - position_ b') eqn:E; cbn [negb].
  - rewrite mem_read_Some by lia. rewrite size_add_small by lia.
    cbn [fst snd buffer_ length_ position_]. unfold wf. cbn [buffer_ length_ position_].
    repeat split; try done; lia.
  - simpl. repeat split; try done; lia.
Qed.

Lemma within_GetMap_loop (count : nat) (result : gmap string string) (b : ByteBuffer.t) :
  wf b -> get_within (GetMap_loop host count result) b.
Proof.
  revert result b. induction count as [|count IH]; intros result b Hwf.
  - by apply (within_ret same_contents_refl).
  - cbn [GetMap_loop]. get_bind; [by apply within_GetString|].
    assert (Hwf1 : wf b') by (by eapply within_step; [apply within_GetString|]).
    get_bind; [by apply within_GetString|].
    apply IH. by eapply within_step; [apply within_GetString|].
Qed.

(** What [GetMap] may throw: underflow, or the allocator's exception. *)
Definition map_exn (e : exception) : Prop :=
  match e with
  | underflow_error _ | bad_alloc => True
  | _ => False
  end.

Lemma within_GetMap (reserve : Z -> bool) (b : ByteBuffer.t) :
  wf b -> within map_exn same_contents (GetMap host reserve) b.
Proof.
  intros Hwf. unfold GetMap.
  assert (Hweak : forall e, underflow_exn e -> map_exn e) by (by intros []).
  apply (within_bind same_contents_trans);
    [by apply (within_weaken underflow_exn), within_GetInt|intros a b' E].
  assert (Hwf' : wf b') by (by eapply within_step; [apply within_GetInt|]).
  apply within_if; intros _; [by apply (within_throw same_contents_refl)|].
  apply (within_weaken underflow_exn); [done|].
  by apply within_GetMap_loop.
Qed.

(** What [GetArray] may throw: underflow, or one of its own two checks. *)
Definition array_exn (e : exception) : Prop :=
  match e with
  | underflow_error _ | overflow_error _ | invalid_argument _ => True
  | _ => False
  end.

Lemma within_GetArray (data_null : bool) (max_len : Z) (b : ByteBuffer.t) :
  wf b -> within array_exn same_contents (GetArray host data_null max_len) b.
Proof.
  intros Hwf. unfold GetArray.
  assert (Hweak : forall e, underflow_exn e -> array_exn e) by (by intros []).
  apply (within_bind same_contents_trans);
    [by apply (within_weaken underflow_exn), within_GetInt|intros a b' E].
  assert (Hwf' : wf b') by (by eapply within_step; [apply within_GetInt|]).
  assert (Ha : 0 <= a < 2 ^ 32) by (by eapply GetInt_range).
  apply within_if; intros _; [by apply (within_throw same_contents_refl)|].
  apply within_if; intros _; [by apply (within_throw same_contents_refl)|].
  apply within_if; intros _; [|by apply (within_ret same_contents_refl)].
  apply (within_weaken underflow_exn); [done|].
  apply within_read_then; [done|lia].
Qed.

End Bounds.

(** ** Failures, step by step *)

Definition STRING_MESSAGE : string :=
  "ByteBuffer::GetString: string length exceeds buffer".

Lemma remaining_write_at (b : ByteBuffer.t) (bytes : list byte) :
  remaining (write_at b bytes) = remaining b - Z.of_nat (length bytes).
Proof. unfold remaining, write_at. simpl. lia. Qed.

Lemma remaining_advance (b : ByteBuffer.t) (n : Z) :
  remaining (advance b n) = remaining b - n.
Proof. unfold remaining, advance. simpl. lia. Qed.

Section Failures.
Variable host : Host.

Lemma PutInt_overflow (v : Z) (b : ByteBuffer.t) :
  wf b -> remaining b < 4 ->
  PutInt host v b = (Throw (overflow_error WRITE_MESSAGE), b).
Proof. intros. apply WriteBytes_overflow; [done|lia|done]. Qed.

Lemma PutInt_ok (v : Z) (b : ByteBuffer.t) :
  wf b -> 4 <= remaining b ->
  PutInt host v b = (Normal tt, write_at b (be_bytes 4 v)).
Proof. intros. apply writes_PutInt; [done|]. by rewrite length_be_bytes. Qed.

Lemma PutLong_overflow (v : Z) (b : ByteBuffer.t) :
  wf b -> remaining b < 8 ->
  PutLong host v b =
    (Throw (overflow_error WRITE_MESSAGE),
     if remaining b <? 4 then b
     else write_at b (be_bytes 4 (to_uint32 (Z.shiftr v 32)))).
Proof.
  intros Hwf Hr. unfold PutLong, bind. cbv zeta.
  destruct (remaining b <? 4) eqn:E.
  - rewrite WriteBytes_overflow; [done|done|lia|lia].
  - rewrite object_bytes_htonl.
    rewrite (WriteBytes_ok b (be_bytes 4 _) 4);
      [|done|by rewrite length_be_bytes|lia].
    rewrite WriteBytes_overflow; [done| |lia|].
    + apply wf_write_at; [done|]. rewrite length_be_bytes. lia.
    + rewrite remaining_write_at, length_be_bytes. lia.
Qed.

Lemma PutString_overflow (s : string) (b : ByteBuffer.t) :
  wf b -> Z.of_nat (String.length s) < 2 ^ 32 ->
  remaining b < 4 + Z.of_nat (String.length s) ->
  PutString host s b =
    (Throw (overflow_error WRITE_MESSAGE),
     if remaining b <? 4 then b
     else write_at b (be_bytes 4 (Z.of_nat (String.length s)))).
Proof.
  intros Hwf Hs Hr. unfold PutString, bind. cbv zeta.
  rewrite to_uint32_small by lia.
  destruct (remaining b <? 4) eqn:E.
  - rewrite PutInt_overflow; [done|done|lia].
  - rewrite PutInt_ok; [|done|lia].
    destruct (0 <? Z.of_nat (String.length s)) eqn:E0; [|lia].
    rewrite WriteBytes_overflow; [done| |lia|].
    + apply wf_write_at; [done|]. rewrite length_be_bytes. lia.
    + rewrite remaining_write_at, length_be_bytes. lia.
Qed.

Lemma PutArray_overflow (d : list byte) (b : ByteBuffer.t) :
  wf b -> Z.of_nat (length d) < 2 ^ 32 ->
  remaining b < 4 + Z.of_nat (length d) ->
  PutArray host (Some d) (Z.of_nat (length d)) b =
    (Throw (overflow_error WRITE_MESSAGE),
     if remaining b <? 4 then b
     else write_at b (be_bytes 4 (Z.of_nat (length d)))).
Proof.
  intros Hwf Hs Hr. unfold PutArray, bind.
  destruct (remaining b <? 4) eqn:E.
  - rewrite PutInt_overflow; [done|done|lia].
  - rewrite PutInt_ok; [|done|lia].
    destruct (0 <? Z.of_nat (length d)) eqn:E0; [|lia].
    rewrite WriteBytes_overflow; [done| |lia|].
    + apply wf_write_at; [done|]. rewrite length_be_bytes. lia.
    + rewrite remaining_write_at, length_be_bytes. lia.
Qed.

Lemma length_wire_string (s : string) :
  Z.of_nat (length (wire_string s)) = 4 + Z.of_nat (String.length s).
Proof.
  unfold wire_string.
  rewrite length_app, length_be_bytes, length_list_byte_of_string. lia.
Qed.

(** A string either fits and is written whole, or overflows. *)
Lemma PutString_cases (s : string) (b : ByteBuffer.t) :
  wf b -> Z.of_nat (String.length s) < 2 ^ 32 ->
  (Z.of_nat (length (wire_string s)) <= remaining b /\
   PutString host s b = (Normal tt, write_at b (wire_string s))) \/
  (remaining b < Z.of_nat (length (wire_string s)) /\
   fst (PutString host s b) = Throw (overflow_error WRITE_MESSAGE)).
Proof.
  intros Hwf Hs.
  destruct (Z.lt_ge_cases (remaining b) (Z.of_nat (length (wire_string s)))) as [Hlt|Hge].
  - right. split; [done|]. rewrite length_wire_string in Hlt.
    by rewrite PutString_overflow.
  - left. split; [lia|]. by apply writes_PutString.
Qed.

Lemma PutMap_loop_overflow (entries : list (string * string)) (b : ByteBuffer.t) :
  wf b -> short_strings entries ->
  remaining b < Z.of_nat (length (wire_entries entries)) ->
  fst (PutMap_loop host entries b) = Throw (overflow_error WRITE_MESSAGE).
Proof.
  intros Hwf Hs. revert b Hwf.
  induction Hs as [|[k v] entries [Hk Hv] _ IH]; intros b Hwf Hr.
  - simpl in Hr. destruct Hwf as (Hp & _). unfold remaining in Hr. lia.
  - rewrite wire_entries_cons, !length_app in Hr. cbn [PutMap_loop fst snd] in *.
    unfold bind at 1.
    destruct (PutString_cases k b Hwf Hk) as [[Hfit ->]|[Hno Hthrow]].
    2:{ destruct (PutString host k b) as [o b']. simpl in Hthrow. by subst o. }
    pose proof (wf_write_at b _ Hwf Hfit) as Hwf1.
    unfold bind at 1.
    destruct (PutString_cases v _ Hwf1 Hv) as [[Hfit2 ->]|[Hno Hthrow]].
    2:{ destruct (PutString host v _) as [o b']. simpl in Hthrow. by subst o. }
    apply IH; [by apply wf_write_at|].
    rewrite !remaining_write_at. lia.
Qed.

Lemma PutMap_overflow (iteration : gmap string string -> list (string * string))
    (m : gmap string string) (b : ByteBuffer.t) :
  wf b -> short_strings (iteration m) ->
  remaining b < Z.of_nat (length (wire_map (iteration m))) ->
  fst (PutMap host iteration m b) = Throw (overflow_error WRITE_MESSAGE).
Proof.
  intros Hwf Hs Hr. unfold wire_map in Hr. rewrite length_app, length_be_bytes in Hr.
  unfold PutMap, bind.
  destruct (remaining b <? 4) eqn:E.
  - rewrite PutInt_overflow; [done|done|lia].
  - rewrite PutInt_ok; [|done|lia].
    apply PutMap_loop_overflow; [|done|].
    + apply wf_write_at; [done|]. rewrite length_be_bytes. lia.
    + rewrite remaining_write_at, length_be_bytes. lia.
Qed.

Lemma read_then_underflow {A} (size : Z) (f : list byte -> A) (b : ByteBuffer.t) :
  wf b -> 0 <= size < 2 ^ 63 -> remaining b < size ->
  (let* data := ReadBytes size in ret (f data)) b =
    (Throw (underflow_error READ_MESSAGE), b).
Proof. intros. unfold bind. by rewrite ReadBytes_underflow. Qed.

Lemma GetInt_underflow (b : ByteBuffer.t) :
  wf b -> remaining b < 4 ->
  GetInt host b = (Throw (underflow_error READ_MESSAGE), b).
Proof. intros. apply read_then_underflow; [done|lia|done]. Qed.

Lemma GetInt_ok (b : ByteBuffer.t) (len : Z) :
  wf b -> starts_with b (be_bytes 4 len) -> 0 <= len < 2 ^ 32 ->
  GetInt host b = (Normal len, advance b 4).
Proof.
  intros Hwf Hs Hl.
  rewrite (reads_GetInt host (be_bytes 4 len) (length_be_bytes 4 len) b Hwf Hs).
  by rewrite be_value_be_bytes_4, length_be_bytes.
Qed.

Lemma GetLong_underflow (b : ByteBuffer.t) :
  wf b -> remaining b < 8 ->
  GetLong host b =
    (Throw (underflow_error READ_MESSAGE),
     if remaining b <? 4 then b else advance b 4).
Proof.
  intros Hwf Hr. unfold GetLong. unfold bind at 1.
  destruct (remaining b <? 4) eqn:E.
  - rewrite ReadBytes_underflow; [done|done|lia|lia].
  - rewrite ReadBytes_ok; [|done|lia].
    apply read_then_underflow; [|lia|].
    + apply wf_advance; [done|lia].
    + rewrite remaining_advance. lia.
Qed.

Lemma GetString_underflow (b : ByteBuffer.t) (len : Z) :
  wf b -> starts_with b (be_bytes 4 len) -> 0 < len < 2 ^ 32 ->
  remaining b < 4 + len ->
  GetString host b = (Throw (underflow_error STRING_MESSAGE), advance b 4).
Proof.
  intros Hwf Hs Hl Hr. unfold GetString, bind.
  rewrite (GetInt_ok b len); [|done|done|lia].
  destruct (len =? 0) eqn:E; [lia|].
  assert (Hwf' : wf (advance b 4)).
  { apply wf_advance; [done|]. destruct Hs as [Hs _].
    rewrite length_be_bytes in Hs. unfold remaining. destruct Hwf. lia. }
  rewrite CheckBoundary_spec; [|done|lia]. rewrite remaining_advance.
  destruct (len <=? remaining b - 4) eqn:E2; [lia|done].
Qed.

Lemma GetArray_underflow (b : ByteBuffer.t) (len max_len : Z) :
  wf b -> starts_with b (be_bytes 4 len) -> 0 < len < 2 ^ 32 ->
  len <= max_len -> remaining b < 4 + len ->
  GetArray host false max_len b =
    (Throw (underflow_error READ_MESSAGE), advance b 4).
Proof.
  intros Hwf Hs Hl Hm Hr. unfold GetArray. unfold bind at 1.
  rewrite (GetInt_ok b len); [|done|done|lia].
  cbn [andb]. destruct (max_len <? len) eqn:E1; [lia|].
  destruct (0 <? len) eqn:E2; [|lia].
  apply read_then_underflow; [|lia|rewrite remaining_advance; lia].
  apply wf_advance; [done|]. destruct Hs as [Hs _].
  rewrite length_be_bytes in Hs. unfold remaining. destruct Hwf. lia.
Qed.

(** When the declared length exceeds the destination, [GetArray] reports
    an overflow, whether or not the bytes are there. *)
Lemma GetArray_too_long (b : ByteBuffer.t) (len max_len : Z) :
  wf b -> starts_with b (be_bytes 4 len) -> 0 < len < 2 ^ 32 ->
  max_len < len ->
  GetArray host false max_len b =
    (Throw (overflow_error
              "ByteBuffer::GetArray: array size exceeds destination buffer"),
     advance b 4).
Proof.
  intros Hwf Hs Hl Hm. unfold GetArray. unfold bind at 1.
  rewrite (GetInt_ok b len); [|done|done|lia].
  cbn [andb]. destruct (max_len <? len) eqn:E1; [done|lia].
Qed.

End Failures.

(** ** Writers and readers that work in steps *)

(** [PutString] writes a string in two steps, each with a bounds check of
    its own: the length prefix, then the characters; [GetString] reads
    it the same way. A map is its count followed by the two strings of
    each entry. *)
Definition string_steps (s : string) : list (list byte) :=
  [be_bytes 4 (Z.of_nat (String.length s)); list_byte_of_string s].

Definition entries_steps (entries : list (string * string)) : list (list byte) :=
  flat_map (fun kv => string_steps (fst kv) ++ string_steps (snd kv)) entries.

Definition map_steps (count : Z) (entries : list (string * string))
    : list (list byte) :=
  be_bytes 4 count :: entries_steps entries.

(** The bytes of the steps that fit into [room] bytes, taken one after
    the other up to the first that does not. *)
Fixpoint fitting (room : Z) (steps : list (list byte)) : list byte :=
  match steps with
  | [] => []
  | step :: rest =>
      if Z.of_nat (length step) <=? room
      then step ++ fitting (room - Z.of_nat (length step)) rest
      else []
  end.

Lemma fitting_app (room : Z) (steps1 steps2 : list (list byte)) :
  Z.of_nat (length (concat steps1)) <= room ->
  fitting room (steps1 ++ steps2)
  = concat steps1 ++ fitting (room - Z.of_nat (length (concat steps1))) steps2.
Proof.
  revert room. induction steps1 as [|step steps1 IH]; intros room Hr.
  - cbn [concat app length]. by rewrite Z.sub_0_r.
  - cbn [concat app fitting] in *. rewrite length_app in Hr.
    destruct (Z.leb_spec (Z.of_nat (length step)) room); [|lia].
    rewrite IH by lia. rewrite <- app_assoc, length_app. do 3 f_equal. lia.
Qed.

Lemma fitting_stuck (room : Z) (steps1 steps2 : list (list byte)) :
  room < Z.of_nat (length (concat steps1)) ->
  fitting room (steps1 ++ steps2) = fitting room steps1.
Proof.
  revert room. induction steps1 as [|step steps1 IH]; intros room Hr.
  - cbn [concat length] in Hr. cbn [app]. destruct steps2 as [|step rest]; [done|].
    cbn [fitting]. destruct (Z.leb_spec (Z.of_nat (length step)) room); [lia|done].
  - cbn [concat app fitting] in *. rewrite length_app in Hr.
    destruct (Z.leb_spec (Z.of_nat (length step)) room); [|done].
    rewrite IH by lia. done.
Qed.

Lemma length_fitting (room : Z) (steps : list (list byte)) :
  0 <= room -> 0 <= Z.of_nat (length (fitting room steps)) <= room.
Proof.
  revert room. induction steps as [|step steps IH]; intros room Hr; cbn [fitting].
  - cbn [length]. lia.
  - destruct (Z.leb_spec (Z.of_nat (length step)) room); [|cbn [length]; lia].
    rewrite length_app. specialize (IH (room - Z.of_nat (length step)) ltac:(lia)). lia.
Qed.

Lemma concat_string_steps (s : string) : concat (string_steps s) = wire_string s.
Proof. unfold string_steps, wire_string. cbn [concat]. by rewrite app_nil_r. Qed.

Lemma entries_steps_cons (k v : string) (entries : list (string * string)) :
  entries_steps ((k, v) :: entries)
  = string_steps k ++ string_steps v ++ entries_steps entries.
Proof. unfold entries_steps. cbn [flat_map fst snd]. by rewrite <- app_assoc. Qed.

(** The region holds at the cursor, up to its end, the first bytes of
    [encoding]. *)
Definition holds_start_of (b : ByteBuffer.t) (encoding : list byte) : Prop :=
  take (Z.to_nat (remaining b)) (drop (Z.to_nat (position_ b)) (buffer_ b))
  = take (Z.to_nat (remaining b)) encoding.

Lemma holds_start_of_app (b : ByteBuffer.t) (l1 l2 : list byte) :
  wf b -> holds_start_of b (l1 ++ l2) -> Z.of_nat (length l1) <= remaining b ->
  starts_with b l1 /\ holds_start_of (advance b (Z.of_nat (length l1))) l2.
Proof.
  intros (Hp & Hl & Hc) H Hr. unfold holds_start_of, starts_with, remaining, advance in *.
  cbn [buffer_ length_ position_]. split; [split; [lia|]|].
  - apply (f_equal (take (length l1))) in H.
    rewrite !take_take in H.
    replace (length l1 `min` Z.to_nat (length_ b - position_ b))%nat
      with (length l1) in H by lia.
    rewrite H. by rewrite take_app_length.
  - apply (f_equal (drop (length l1))) in H.
    rewrite !skipn_firstn_comm in H. rewrite drop_drop in H.
    rewrite drop_app_length in H.
    replace (Z.to_nat (position_ b + Z.of_nat (length l1)))
      with (Z.to_nat (position_ b) + length l1)%nat by lia.
    replace (Z.to_nat (length_ b - (position_ b + Z.of_nat (length l1))))
      with (Z.to_nat (length_ b - position_ b) - length l1)%nat by lia.
    exact H.
Qed.

Section Steps.
Variable host : Host.

Lemma PutString_steps (s : string) (b : ByteBuffer.t) :
  wf b -> Z.of_nat (String.length s) < 2 ^ 32 ->
  remaining b < 4 + Z.of_nat (String.length s) ->
  PutString host s b
  = (Throw (overflow_error WRITE_MESSAGE),
     write_at b (fitting (remaining b) (string_steps s))).
Proof.
  intros Hwf Hs Hr. rewrite PutString_overflow by done. f_equal.
  unfold string_steps. cbn [fitting]. rewrite length_be_bytes.
  change (Z.of_nat 4) with 4.
  destruct (Z.ltb_spec (remaining b) 4), (Z.leb_spec 4 (remaining b)); try lia.
  - by rewrite write_at_nil.
  - rewrite length_list_byte_of_string.
    destruct (Z.leb_spec (Z.of_nat (String.length s)) (remaining b - 4)); [lia|].
    by rewrite app_nil_r.
Qed.

Lemma PutMap_loop_steps (entries : list (string * string)) (b : ByteBuffer.t) :
  wf b -> short_strings entries ->
  remaining b < Z.of_nat (length (wire_entries entries)) ->
  PutMap_loop host entries b
  = (Throw (overflow_error WRITE_MESSAGE),
     write_at b (fitting (remaining b) (entries_steps entries))).
Proof.
  intros Hwf Hs. revert b Hwf.
  induction Hs as [|[k v] entries [Hk Hv] _ IH]; intros b Hwf Hr.
  - simpl in Hr. destruct Hwf as (Hp & _). unfold remaining in Hr. lia.
  - rewrite wire_entries_cons, !length_app in Hr. cbn [PutMap_loop fst snd] in *.
    rewrite entries_steps_cons.
    pose proof (length_wire_string k) as Hlk. pose proof (length_wire_string v) as Hlv.
    unfold bind at 1.
    destruct (Z.lt_ge_cases (remaining b) (4 + Z.of_nat (String.length k))) as [Hno|Hfit].
    { rewrite PutString_steps by done.
      rewrite fitting_stuck by (rewrite concat_string_steps; lia). done. }
    rewrite (writes_PutString host k Hk b Hwf) by lia.
    pose proof (wf_write_at b (wire_string k) Hwf ltac:(lia)) as Hwf1.
    rewrite fitting_app by (rewrite concat_string_steps; lia).
    rewrite concat_string_steps.
    unfold bind at 1.
    destruct (Z.lt_ge_cases (remaining (write_at b (wire_string k)))
                (4 + Z.of_nat (String.length v))) as [Hno|Hfit2].
    { rewrite PutString_steps by done.
      rewrite remaining_write_at in *.
      rewrite fitting_stuck by (rewrite concat_string_steps; lia).
      rewrite write_at_app; [done|done|].
      pose proof (length_fitting (remaining b - Z.of_nat (length (wire_string k)))
                    (string_steps v) ltac:(lia)). lia. }
    rewrite (writes_PutString host v Hv _ Hwf1) by lia.
    rewrite remaining_write_at in Hfit2.
    rewrite fitting_app by (rewrite concat_string_steps; lia).
    rewrite concat_string_steps.
    rewrite IH;
      [|apply wf_write_at; [done|rewrite remaining_write_at; lia]
       |rewrite !remaining_write_at; lia].
    rewrite !remaining_write_at. f_equal.
    set (rest := fitting _ (entries_steps entries)).
    pose proof (length_fitting
                  (remaining b - Z.of_nat (length (wire_string k))
                   - Z.of_nat (length (wire_string v)))
                  (entries_steps entries) ltac:(lia)) as Hrest. fold rest in Hrest.
    rewrite (write_at_app b (wire_string k) (wire_string v)) by (done || lia).
    rewrite write_at_app by (done || rewrite length_app; lia).
    by rewrite <- app_assoc.
Qed.

Lemma PutMap_steps (iteration : gmap string string -> list (string * string))
    (m : gmap string string) (b : ByteBuffer.t) :
  wf b -> short_strings (iteration m) ->
  remaining b < 4 + Z.of_nat (length (wire_entries (iteration m))) ->
  PutMap host iteration m b
  = (Throw (overflow_error WRITE_MESSAGE),
     write_at b (fitting (remaining b)
                   (map_steps (to_uint32 (Z.of_nat (size m))) (iteration m)))).
Proof.
  intros Hwf Hs Hr. unfold PutMap, bind, map_steps. cbn [fitting].
  rewrite length_be_bytes. change (Z.of_nat 4) with 4.
  destruct (Z.leb_spec 4 (remaining b)) as [Hfit|Hno].
  - rewrite PutInt_ok by done.
    rewrite PutMap_loop_steps;
      [|apply wf_write_at; [done|rewrite length_be_bytes; lia]|done
       |rewrite remaining_write_at, length_be_bytes; lia].
    rewrite remaining_write_at, length_be_bytes. change (Z.of_nat 4) with 4. f_equal.
    pose proof (length_fitting (remaining b - 4) (entries_steps (iteration m))
                  ltac:(lia)).
    rewrite write_at_app; [done|done|rewrite length_be_bytes; lia].
  - rewrite PutInt_overflow by done. by rewrite write_at_nil.
Qed.

(** [GetString] on a string that is there in full, and on one that is
    cut off by the end of the region. *)
Lemma GetString_held (s : string) (rest : list byte) (b : ByteBuffer.t) :
  wf b -> Z.of_nat (String.length s) < 2 ^ 32 ->
  holds_start_of b (wire_string s ++ rest) ->
  4 + Z.of_nat (String.length s) <= remaining b ->
  GetString host b = (Normal s, advance b (4 + Z.of_nat (String.length s))) /\
  holds_start_of (advance b (4 + Z.of_nat (String.length s))) rest.
Proof.
  intros Hwf Hs Hh Hr. pose proof (length_wire_string s) as Hl.
  destruct (holds_start_of_app b _ _ Hwf Hh ltac:(lia)) as [Hstart Hrest].
  rewrite Hl in Hrest. split; [|done].
  rewrite (reads_GetString host s Hs b Hwf Hstart). by rewrite Hl.
Qed.

Lemma GetString_cut (s : string) (rest : list byte) (b : ByteBuffer.t) :
  wf b -> Z.of_nat (String.length s) < 2 ^ 32 ->
  holds_start_of b (wire_string s ++ rest) ->
  remaining b < 4 + Z.of_nat (String.length s) ->
  exists msg,
    GetString host b
    = (Throw (underflow_error msg),
       advance b (Z.of_nat (length (fitting (remaining b) (string_steps s))))).
Proof.
  intros Hwf Hs Hh Hr. unfold string_steps. cbn [fitting].
  rewrite length_be_bytes. change (Z.of_nat 4) with 4.
  destruct (Z.leb_spec 4 (remaining b)) as [Hfit|Hno].
  - unfold wire_string in Hh. rewrite <- app_assoc in Hh.
    destruct (holds_start_of_app b _ _ Hwf Hh ltac:(rewrite length_be_bytes; lia))
      as [Hstart _].
    exists STRING_MESSAGE.
    rewrite (GetString_underflow host b (Z.of_nat (String.length s))) by (done || lia).
    rewrite length_list_byte_of_string.
    destruct (Z.leb_spec (Z.of_nat (String.length s)) (remaining b - 4)); [lia|].
    by rewrite app_nil_r, length_be_bytes.
  - exists READ_MESSAGE. unfold GetString, bind.
    rewrite GetInt_underflow by done. cbn [length]. by rewrite advance_0.
Qed.

Lemma GetMap_loop_cut (entries : list (string * string)) :
  forall (result : gmap string string) (b : ByteBuffer.t),
  wf b -> short_strings entries ->
  holds_start_of b (wire_entries entries) ->
  remaining b < Z.of_nat (length (wire_entries entries)) ->
  exists msg,
    GetMap_loop host (length entries) result b
    = (Throw (underflow_error msg),
       advance b (Z.of_nat (length (fitting (remaining b) (entries_steps entries))))).
Proof.
  induction entries as [|[k v] entries IH]; intros result b Hwf Hs Hh Hr.
  - simpl in Hr. destruct Hwf as (Hp & _). unfold remaining in Hr. lia.
  - apply Forall_cons in Hs as [[Hk Hv] Hs]. cbn [fst snd] in Hk, Hv.
    rewrite wire_entries_cons in Hh, Hr. rewrite !length_app in Hr.
    rewrite entries_steps_cons.
    pose proof (length_wire_string k) as Hlk. pose proof (length_wire_string v) as Hlv.
    cbn [length GetMap_loop]. unfold bind at 1.
    destruct (Z.lt_ge_cases (remaining b) (4 + Z.of_nat (String.length k))) as [Hno|Hfit].
    { destruct (GetString_cut k _ b Hwf Hk Hh Hno) as [msg ->]. exists msg.
      rewrite fitting_stuck by (rewrite concat_string_steps; lia). done. }
    destruct (GetString_held k _ b Hwf Hk Hh Hfit) as [-> Hh1].
    set (b1 := advance b (4 + Z.of_nat (String.length k))) in *.
    assert (Hwf1 : wf b1) by (apply wf_advance; [done|lia]).
    assert (Hr1 : remaining b1 = remaining b - (4 + Z.of_nat (String.length k)))
      by apply remaining_advance.
    rewrite fitting_app by (rewrite concat_string_steps; lia).
    rewrite concat_string_steps, Hlk, <- Hr1.
    unfold bind at 1.
    destruct (Z.lt_ge_cases (remaining b1) (4 + Z.of_nat (String.length v))) as [Hno|Hfit2].
    { destruct (GetString_cut v _ b1 Hwf1 Hv Hh1 Hno) as [msg ->]. exists msg.
      rewrite fitting_stuck by (rewrite concat_string_steps; lia).
      unfold b1. rewrite advance_advance, length_app. do 2 f_equal. lia. }
    destruct (GetString_held v _ b1 Hwf1 Hv Hh1 Hfit2) as [-> Hh2].
    set (b2 := advance b1 (4 + Z.of_nat (String.length v))) in *.
    assert (Hwf2 : wf b2) by (apply wf_advance; [done|lia]).
    assert (Hr2 : remaining b2 = remaining b1 - (4 + Z.of_nat (String.length v)))
      by apply remaining_advance.
    rewrite fitting_app by (rewrite concat_string_steps; lia).
    rewrite concat_string_steps, Hlv, <- Hr2.
    destruct (IH (<[k := v]> result) b2 Hwf2 Hs Hh2 ltac:(lia)) as [msg ->].
    exists msg. unfold b2, b1. rewrite !advance_advance, !length_app.
    do 2 f_equal. lia.
Qed.

(** [GetMap] on a map that is cut off by the end of the region: the
    cursor stays behind the last length or string that was there in
    full. *)
Lemma GetMap_cut (reserve : Z -> bool) (entries : list (string * string))
    (b : ByteBuffer.t) :
  wf b -> short_strings entries -> Z.of_nat (length entries) < 2 ^ 32 ->
  reserve (Z.of_nat (length entries)) = true ->
  holds_start_of b (wire_map entries) ->
  remaining b < Z.of_nat (length (wire_map entries)) ->
  exists msg,
    GetMap host reserve b
    = (Throw (underflow_error msg),
       advance b (Z.of_nat (length (fitting (remaining b)
                                      (map_steps (Z.of_nat (length entries)) entries))))).
Proof.
  intros Hwf Hs Hn Hreserve Hh Hr. unfold wire_map in Hh, Hr.
  rewrite length_app, length_be_bytes in Hr.
  unfold map_steps. cbn [fitting]. rewrite length_be_bytes. change (Z.of_nat 4) with 4.
  unfold GetMap. unfold bind at 1.
  destruct (Z.leb_spec 4 (remaining b)) as [Hfit|Hno].
  - destruct (holds_start_of_app b _ _ Hwf Hh ltac:(rewrite length_be_bytes; lia))
      as [Hstart Hrest].
    rewrite length_be_bytes in Hrest. change (Z.of_nat 4) with 4 in Hrest.
    rewrite (GetInt_ok host b (Z.of_nat (length entries))) by (done || lia).
    rewrite Hreserve, Nat2Z.id. cbn [negb].
    assert (Hwf1 : wf (advance b 4)) by (apply wf_advance; [done|lia]).
    destruct (GetMap_loop_cut entries ∅ (advance b 4) Hwf1 Hs Hrest
                ltac:(rewrite remaining_advance; lia)) as [msg ->].
    exists msg. rewrite remaining_advance, advance_advance, length_app, length_be_bytes.
    do 2 f_equal. lia.
  - exists READ_MESSAGE. rewrite GetInt_underflow by done. cbn [length].
    by rewrite advance_0.
Qed.

(** When the allocator refuses the table, [GetMap] ends with its
    exception once the count is read, whether or not the entries are
    there. *)
Lemma GetMap_refused (reserve : Z -> bool) (count : Z) (b : ByteBuffer.t) :
  wf b -> starts_with b (be_bytes 4 count) -> 0 <= count < 2 ^ 32 ->
  reserve count = false ->
  GetMap host reserve b = (Throw bad_alloc, advance b 4).
Proof.
  intros Hwf Hs Hc Hreserve. unfold GetMap, bind.
  rewrite (GetInt_ok host b count) by done. by rewrite Hreserve.
Qed.

End Steps.

(** ** C2 and C3: the codec's boundary behaviour and its round trips *)

(** A five-byte buffer, cursor at the start. *)
Definition five_bytes : ByteBuffer.t :=
  {| buffer_ := repeat x00 5; length_ := 5; position_ := 0 |}.

(** A 64-byte buffer, cursor at the start. *)
Definition sixty_four_bytes : ByteBuffer.t :=
  {| buffer_ := repeat x00 64; length_ := 64; position_ := 0 |}.

(** C2, as stated, fails: a string that does not fit a five-byte buffer
    makes [PutString] throw the overflow error, yet the length prefix is
    written and the cursor has moved behind it. *)
Lemma PutString_overflow_keeps_prefix :
  wf five_bytes /\
  remaining five_bytes < 4 + Z.of_nat (String.length "AB") /\
  fst (PutString LittleEndian "AB" five_bytes) = Throw (overflow_error WRITE_MESSAGE) /\
  snd (PutString LittleEndian "AB" five_bytes) <> five_bytes /\
  position_ (snd (PutString LittleEndian "AB" five_bytes)) = 4 /\
  buffer_ (snd (PutString LittleEndian "AB" five_bytes)) = [x00; x00; x00; x02; x00].
Proof.
  split; [unfold wf; simpl; lia|].
  split; [unfold remaining; simpl; lia|].
  split; [reflexivity|]. split; [|split; reflexivity].
  intros H. apply (f_equal position_) in H. vm_compute in H. discriminate H.
Qed.

(** C2, amended. In a well-formed buffer:
    - [PutByte], [PutShort], [PutInt], [PutFloat] and [PutDouble] are one
      write: when the value does not fit they throw the overflow error and
      leave contents and cursor as they were;
    - [PutLong], [PutString], [PutArray] and [PutMap] write in steps: when
      the whole encoding does not fit they throw the overflow error, and
      the steps that fitted stay (the high word of a long, the length
      prefix of a string or an array, the count of a map with the lengths
      and strings of its entries up to the first that does not fit), with
      the cursor behind them;
    - every write stays inside the region and ends with the cursor within
      the capacity;
    - [GetByte], [GetShort], [GetInt], [GetFloat] and [GetDouble] throw the
      underflow error and leave the cursor when too few bytes remain;
      [GetLong], [GetString], [GetMap] and [GetArray] throw it too, with
      the cursor behind the part already read: for a map that the end of
      the region cuts off, behind the last length or string that was
      there in full; [GetArray] checks the declared length against its
      destination first and reports that as an overflow; [GetMap] asks
      the allocator for a table of the declared count before it reads an
      entry, and ends with [std::bad_alloc], the cursor behind the count,
      when that is refused;
    - every read touches no byte outside the region, changes none, throws
      nothing but underflow ([GetArray]: or its own two errors; [GetMap]:
      or the allocator's) and ends with the cursor within the capacity. *)
Theorem put_get_bounds (host : Host) (b : ByteBuffer.t) :
  wf b ->
  ((forall v, remaining b < 1 ->
      PutByte host v b = (Throw (overflow_error WRITE_MESSAGE), b)) /\
   (forall v, remaining b < 2 ->
      PutShort host v b = (Throw (overflow_error WRITE_MESSAGE), b)) /\
   (forall v, remaining b < 4 ->
      PutInt host v b = (Throw (overflow_error WRITE_MESSAGE), b)) /\
   (forall v, remaining b < 4 ->
      PutFloat host v b = (Throw (overflow_error WRITE_MESSAGE), b)) /\
   (forall v, remaining b < 8 ->
      PutDouble host v b = (Throw (overflow_error WRITE_MESSAGE), b))) /\
  ((forall v, remaining b < 8 ->
      PutLong host v b =
        (Throw (overflow_error WRITE_MESSAGE),
         if remaining b <? 4 then b
         else write_at b (be_bytes 4 (to_uint32 (Z.shiftr v 32))))) /\
   (forall s, Z.of_nat (String.length s) < 2 ^ 32 ->
      remaining b < 4 + Z.of_nat (String.length s) ->
      PutString host s b =
        (Throw (overflow_error WRITE_MESSAGE),
         if remaining b <? 4 then b
         else write_at b (be_bytes 4 (Z.of_nat (String.length s))))) /\
   (forall d, Z.of_nat (length d) < 2 ^ 32 ->
      remaining b < 4 + Z.of_nat (length d) ->
      PutArray host (Some d) (Z.of_nat (length d)) b =
        (Throw (overflow_error WRITE_MESSAGE),
         if remaining b <? 4 then b
         else write_at b (be_bytes 4 (Z.of_nat (length d))))) /\
   (forall iteration (m : gmap string string),
      short_strings (iteration m) ->
      remaining b < Z.of_nat (length (wire_map (iteration m))) ->
      PutMap host iteration m b =
        (Throw (overflow_error WRITE_MESSAGE),
         write_at b (fitting (remaining b)
                       (map_steps (to_uint32 (Z.of_nat (size m)))
                          (iteration m)))))) /\
  ((forall v, within overflow_exn same_size (PutByte host v) b) /\
   (forall v, within overflow_exn same_size (PutShort host v) b) /\
   (forall v, within overflow_exn same_size (PutInt host v) b) /\
   (forall v, within overflow_exn same_size (PutLong host v) b) /\
   (forall v, within overflow_exn same_size (PutFloat host v) b) /\
   (forall v, within overflow_exn same_size (PutDouble host v) b) /\
   (forall s, within overflow_exn same_size (PutString host s) b) /\
   (forall d len, 0 <= len < 2 ^ 32 -> len <= Z.of_nat (length d) ->
      within overflow_exn same_size (PutArray host (Some d) len) b) /\
   (forall iteration (m : gmap string string),
      within overflow_exn same_size (PutMap host iteration m) b)) /\
  ((remaining b < 1 ->
      GetByte host b = (Throw (underflow_error READ_MESSAGE), b)) /\
   (remaining b < 2 ->
      GetShort host b = (Throw (underflow_error READ_MESSAGE), b)) /\
   (remaining b < 4 ->
      GetInt host b = (Throw (underflow_error READ_MESSAGE), b)) /\
   (remaining b < 4 ->
      GetFloat host b = (Throw (underflow_error READ_MESSAGE), b)) /\
   (remaining b < 8 ->
      GetDouble host b = (Throw (underflow_error READ_MESSAGE), b))) /\
  ((remaining b < 8 ->
      GetLong host b =
        (Throw (underflow_error READ_MESSAGE),
         if remaining b <? 4 then b else advance b 4)) /\
   (remaining b < 4 ->
      GetString host b = (Throw (underflow_error READ_MESSAGE), b)) /\
   (forall len, starts_with b (be_bytes 4 len) -> 0 < len < 2 ^ 32 ->
      remaining b < 4 + len ->
      GetString host b = (Throw (underflow_error STRING_MESSAGE), advance b 4)) /\
   (forall reserve, remaining b < 4 ->
      GetMap host reserve b = (Throw (underflow_error READ_MESSAGE), b)) /\
   (forall reserve entries,
      short_strings entries -> Z.of_nat (length entries) < 2 ^ 32 ->
      reserve (Z.of_nat (length entries)) = true ->
      holds_start_of b (wire_map entries) ->
      remaining b < Z.of_nat (length (wire_map entries)) ->
      exists msg,
        GetMap host reserve b =
          (Throw (underflow_error msg),
           advance b (Z.of_nat (length (fitting (remaining b)
                                          (map_steps (Z.of_nat (length entries))
                                             entries)))))) /\
   (forall reserve count, starts_with b (be_bytes 4 count) -> 0 <= count < 2 ^ 32 ->
      reserve count = false ->
      GetMap host reserve b = (Throw bad_alloc, advance b 4)) /\
   (forall data_null max_len, remaining b < 4 ->
      GetArray host data_null max_len b =
        (Throw (underflow_error READ_MESSAGE), b)) /\
   (forall len max_len, starts_with b (be_bytes 4 len) -> 0 < len < 2 ^ 32 ->
      len <= max_len -> remaining b < 4 + len ->
      GetArray host false max_len b =
        (Throw (underflow_error READ_MESSAGE), advance b 4)) /\
   (forall len max_len, starts_with b (be_bytes 4 len) -> 0 < len < 2 ^ 32 ->
      max_len < len -> is_overflow (fst (GetArray host false max_len b)) = true)) /\
  (within underflow_exn same_contents (GetByte host) b /\
   within underflow_exn same_contents (GetShort host) b /\
   within underflow_exn same_contents (GetInt host) b /\
   within underflow_exn same_contents (GetLong host) b /\
   within underflow_exn same_contents (GetFloat host) b /\
   within underflow_exn same_contents (GetDouble host) b /\
   within underflow_exn same_contents (GetString host) b /\
   (forall reserve, within map_exn same_contents (GetMap host reserve) b) /\
   (forall data_null max_len,
      within array_exn same_contents (GetArray host data_null max_len) b)).
Proof.
  intros Hwf.
  split; [|split; [|split; [|split; [|split]]]].
  - repeat split; intros v Hr; apply WriteBytes_overflow; done || lia.
  - split; [|split; [|split]].
    + intros v Hr. by apply PutLong_overflow.
    + intros s Hs Hr. by apply PutString_overflow.
    + intros d Hd Hr. by apply PutArray_overflow.
    + intros iteration m Hs Hr. apply PutMap_steps; [done..|].
      unfold wire_map in Hr. rewrite length_app, length_be_bytes in Hr. lia.
  - split; [intros; by apply within_PutByte|].
    split; [intros; by apply within_PutShort|].
    split; [intros; by apply within_PutInt|].
    split; [intros; by apply within_PutLong|].
    split; [intros; by apply within_PutFloat|].
    split; [intros; by apply within_PutDouble|].
    split; [intros; by apply within_PutString|].
    split; [intros; by apply within_PutArray|].
    intros. by apply within_PutMap.
  - repeat split; intros Hr; apply read_then_underflow; done || lia.
  - split; [intros; by apply GetLong_underflow|].
    split; [intros Hr; unfold GetString, bind; by rewrite GetInt_underflow|].
    split; [intros len Hs Hl Hr; by apply (GetString_underflow host b len)|].
    split; [intros reserve Hr; unfold GetMap, bind; by rewrite GetInt_underflow|].
    split; [intros reserve entries Hs Hn Hreserve Hh Hr; by apply GetMap_cut|].
    split; [intros reserve count Hs Hc Hreserve; by apply (GetMap_refused host reserve count)|].
    split; [intros ? ? Hr; unfold GetArray, bind; by rewrite GetInt_underflow|].
    split; [intros len max_len Hs Hl Hm Hr; by apply (GetArray_underflow host b len)|].
    intros len max_len Hs Hl Hm. by rewrite (GetArray_too_long host b len).
  - split; [by apply within_GetByte|].
    split; [by apply within_GetShort|].
    split; [by apply within_GetInt|].
    split; [by apply within_GetLong|].
    split; [by apply within_GetFloat|].
    split; [by apply within_GetDouble|].
    split; [by apply within_GetString|].
    split; [intros; by apply within_GetMap|].
    intros. by apply within_GetArray.
Qed.

Lemma put_get_bounds_witness :
  wf five_bytes /\
  PutDouble LittleEndian 0 five_bytes = (Throw (overflow_error WRITE_MESSAGE), five_bytes) /\
  GetDouble LittleEndian five_bytes = (Throw (underflow_error READ_MESSAGE), five_bytes) /\
  within overflow_exn same_size (PutString LittleEndian "AB") five_bytes.
Proof.
  assert (Hwf : wf five_bytes) by (unfold wf; simpl; lia).
  assert (Hr : remaining five_bytes < 8) by (unfold remaining; simpl; lia).
  destruct (put_get_bounds LittleEndian five_bytes Hwf)
    as ((_ & _ & _ & _ & Hput) & _ & (_ & _ & _ & _ & _ & _ & Hstr & _)
        & (_ & _ & _ & _ & Hget) & _).
  split; [exact Hwf|]. split; [exact (Hput 0 Hr)|].
  split; [exact (Hget Hr)|exact (Hstr "AB"%string)].
Defined.

Lemma put_get_round_trip_witness :
  wf sixty_four_bytes /\
  round_trip (PutByte LittleEndian 0xFF) (GetByte LittleEndian) 0xFF sixty_four_bytes /\
  round_trip (PutInt BigEndian 0xFFFFFFFF) (GetInt BigEndian) 0xFFFFFFFF sixty_four_bytes /\
  round_trip (PutLong LittleEndian (- 2 ^ 63)) (GetLong LittleEndian) (- 2 ^ 63)
    sixty_four_bytes /\
  round_trip (PutString LittleEndian EmptyString) (GetString LittleEndian) EmptyString
    sixty_four_bytes /\
  round_trip (PutMap LittleEndian map_to_list ∅)
    (GetMap LittleEndian (fun count => count <? 1024)) ∅ sixty_four_bytes.
Proof.
  assert (Hwf : wf sixty_four_bytes) by (unfold wf; simpl; lia).
  assert (Hr : remaining sixty_four_bytes = 64) by reflexivity.
  destruct (put_get_round_trip LittleEndian sixty_four_bytes Hwf)
    as (Hbyte & _ & _ & Hlong & _ & Hstring & Hmap).
  destruct (put_get_round_trip BigEndian sixty_four_bytes Hwf)
    as (_ & _ & Hint & _).
  split; [exact Hwf|].
  split; [apply Hbyte; rewrite ?Hr; lia|].
  split; [apply Hint; rewrite ?Hr; lia|].
  split; [apply Hlong; rewrite ?Hr; lia|].
  split; [apply Hstring; rewrite ?Hr; simpl; lia|].
  apply Hmap.
  - reflexivity.
  - rewrite map_to_list_empty. constructor.
  - rewrite map_size_empty. simpl. lia.
  - rewrite map_to_list_empty, Hr. simpl. lia.
  - rewrite map_size_empty. reflexivity.
Defined.

(* ------------------------------------------------------------------ *)
(** ** C4 and C5: the handler registry *)

(** Every step on [services_] happened with [mutex_] held, every call of
    a handler's [Execute] with [mutex_] free. *)
Definition lock_discipline (log : list (ServiceManager.action * bool)) : Prop :=
  Forall
    (fun entry : ServiceManager.action * bool =>
       match fst entry with
       | ServiceManager.ActFind _ | ServiceManager.ActInsert _ => snd entry = true
       | ServiceManager.ActExecute _ _ _ => snd entry = false
       end) log.

(** C4. [ExecuteService] returns 0 when no handler is registered for the
    routine id, and returns 0 when the handler found throws: the value
    returned is the same in both cases. The lookup in [services_] happens
    with the mutex held and the handler's [Execute] is called after the
    mutex is released. *)
Theorem ExecuteService_contract (sm : ServiceManager.t) (routine_id : Z)
    (input : list byte) (input_len : Z) (output : list byte) (output_len : Z) :
  let executed :=
    ServiceManager.ExecuteService routine_id input input_len output output_len sm in
  lock_discipline (snd executed) /\
  match ServiceManager.services_ sm !! routine_id with
  | None =>
      executed = (Normal 0, output, [(ServiceManager.ActFind routine_id, true)])
  | Some service =>
      snd executed =
        [(ServiceManager.ActFind routine_id, true);
         (ServiceManager.ActExecute routine_id input input_len, false)] /\
      match ServiceManager.Execute service input input_len output output_len with
      | (Normal n, output') => fst executed = (Normal n, output')
      | (Throw e, output') => fst executed = (Normal 0, output')
      | (Undefined, _) => fst (fst executed) = Undefined
      end
  end.
Proof.
  cbv zeta. unfold ServiceManager.ExecuteService. cbn [ServiceManager.lock
    ServiceManager.unlock ServiceManager.observe ServiceManager.services_
    ServiceManager.mutex_].
  destruct (ServiceManager.services_ sm !! routine_id) as [service|].
  - destruct (ServiceManager.Execute service input input_len output output_len)
      as [[n|e|] output']; cbn [fst snd app];
      (split; [repeat constructor|split; reflexivity]).
  - cbn [fst snd]. split; [repeat constructor|reflexivity].
Qed.

(** C5. [RegisterService] never raises. A null handler is refused and the
    registry is left as it was. A handler whose request routine id is
    registered already is refused and the handler registered first stays.
    Any other handler is accepted and becomes the one registered for its
    id, the other registrations staying as they were. *)
Theorem RegisterService_contract (sm : ServiceManager.t)
    (service : option ServiceManager.IService) :
  let registered := ServiceManager.RegisterService service sm in
  let sm' := snd (fst registered) in
  (exists ok, fst (fst registered) = Normal ok) /\
  lock_discipline (snd registered) /\
  match service with
  | None => fst (fst registered) = Normal false /\ sm' = sm
  | Some s =>
      let id := ServiceManager.GetRequestRoutineId s in
      match ServiceManager.services_ sm !! id with
      | Some first =>
          fst (fst registered) = Normal false /\
          ServiceManager.services_ sm' = ServiceManager.services_ sm /\
          ServiceManager.services_ sm' !! id = Some first
      | None =>
          fst (fst registered) = Normal true /\
          ServiceManager.services_ sm' !! id = Some s /\
          (forall other, other <> id ->
             ServiceManager.services_ sm' !! other =
             ServiceManager.services_ sm !! other)
      end
  end.
Proof.
  cbv zeta. unfold ServiceManager.RegisterService.
  destruct service as [s|];
    [|cbn [fst snd]; split; [by eexists|]; split; [constructor|done]].
  cbn [ServiceManager.lock ServiceManager.unlock ServiceManager.observe
       ServiceManager.services_ ServiceManager.mutex_].
  destruct (ServiceManager.services_ sm !! ServiceManager.GetRequestRoutineId s)
    as [first|] eqn:E; cbn [fst snd ServiceManager.services_].
  - split; [by eexists|]. split; [repeat constructor|]. repeat split; done.
  - split; [by eexists|]. split; [repeat constructor|].
    split; [done|]. split; [apply lookup_insert_eq|].
    intros other Hne. by apply lookup_insert_ne.
Qed.

(* ------------------------------------------------------------------ *)
(** ** C1 and C6: the server's frame parsing *)

(** The byte and the big-endian 32-bit field at an offset of a frame. *)
Definition byte_at (data : list byte) (i : nat) : Z := Z_of_byte (nth i data x00).
Definition uint32_at (data : list byte) (i : nat) : Z := be_value (take 4 (drop i data)).

(** The fields of the frame layout. *)
Definition frame_start (data : list byte) : Z := byte_at data 0.
Definition frame_total_length (data : list byte) : Z := uint32_at data 1.
Definition frame_routine_id (data : list byte) : Z := uint32_at data 5.
Definition frame_version (data : list byte) : Z := byte_at data 9.

Lemma be_value_singleton (x : byte) : be_value [x] = Z_of_byte x.
Proof. unfold be_value. simpl. lia. Qed.

Lemma frame_header (data : list byte) :
  (10 <= length data)%nat ->
  take 10 data =
    [nth 0 data x00] ++ take 4 (drop 1 data) ++ take 4 (drop 5 data)
    ++ [nth 9 data x00].
Proof.
  intros H.
  do 10 (destruct data as [|? data]; [simpl in H; lia|]). reflexivity.
Qed.

Section Server.
Variable host : Host.

(** The cursor and the verdict after the header of a frame of at least
    eleven bytes is parsed. *)
Lemma parse_frame_spec (data : list byte) (len : Z) :
  11 <= len <= Z.of_nat (length data) -> len < 2 ^ 63 ->
  UDSServer.parse_frame host {| buffer_ := data; length_ := len; position_ := 0 |} =
    if negb (frame_start data =? Protocol.START_BYTE)
    then (Normal None, {| buffer_ := data; length_ := len; position_ := 1 |})
    else
      (Normal (if negb (frame_version data =? Protocol.VERSION) then None
               else Some (frame_routine_id data)),
       {| buffer_ := data; length_ := len; position_ := 10 |}).
Proof.
  intros Hlen Hmax.
  set (b := {| buffer_ := data; length_ := len; position_ := 0 |}).
  assert (Hwf : wf b) by (unfold wf, b; simpl; lia).
  assert (Hs : starts_with b (take 10 data)).
  { unfold starts_with, b. cbn [buffer_ length_ position_].
    rewrite length_take. change (Z.to_nat 0) with 0%nat. rewrite drop_0.
    split; [lia|]. f_equal. lia. }
  rewrite frame_header in Hs by lia.
  apply starts_with_app in Hs as [Hs0 Hs]; [|done].
  change (Z.of_nat (length [nth 0 data x00])) with 1 in Hs.
  assert (Hwf1 : wf (advance b 1)) by (unfold wf, advance, b; simpl; lia).
  apply starts_with_app in Hs as [Hs1 Hs]; [|done].
  assert (Hl1 : length (take 4 (drop 1 data)) = 4%nat)
    by (rewrite length_take, length_drop; lia).
  assert (Hl5 : length (take 4 (drop 5 data)) = 4%nat)
    by (rewrite length_take, length_drop; lia).
  rewrite Hl1, advance_advance in Hs. change (Z.of_nat 4) with 4 in Hs.
  assert (Hwf5 : wf (advance b (1 + 4))) by (unfold wf, advance, b; simpl; lia).
  apply starts_with_app in Hs as [Hs5 Hs9]; [|done].
  rewrite Hl5, advance_advance in Hs9. change (Z.of_nat 4) with 4 in Hs9.
  assert (Hwf9 : wf (advance b (1 + 4 + 4))) by (unfold wf, advance, b; simpl; lia).
  unfold UDSServer.parse_frame. unfold bind at 1.
  rewrite (reads_GetByte host [nth 0 data x00] eq_refl b Hwf Hs0).
  change (Z.of_nat (length [nth 0 data x00])) with 1.
  rewrite be_value_singleton. fold (byte_at data 0). fold (frame_start data).
  destruct (negb (frame_start data =? Protocol.START_BYTE)); [reflexivity|].
  unfold bind at 1.
  rewrite (reads_GetInt host _ Hl1 _ Hwf1 Hs1), Hl1, advance_advance.
  change (Z.of_nat 4) with 4.
  unfold bind at 1.
  rewrite (reads_GetInt host _ Hl5 _ Hwf5 Hs5), Hl5, advance_advance.
  change (Z.of_nat 4) with 4.
  unfold bind at 1.
  rewrite (reads_GetByte host [nth 9 data x00] eq_refl _ Hwf9 Hs9), advance_advance.
  change (Z.of_nat (length [nth 9 data x00])) with 1.
  rewrite be_value_singleton. fold (byte_at data 9). fold (frame_version data).
  fold (uint32_at data 5). fold (frame_routine_id data).
  by destruct (negb (frame_version data =? Protocol.VERSION)).
Qed.

(** What [ProcessClientRequest] does with a frame of at least eleven
    bytes. *)
Lemma ProcessClientRequest_spec (s : UDSServer.t) (client_fd : Z) (data : list byte)
    (len : Z) (response : list byte) (w : OS.World) :
  11 <= len <= Z.of_nat (length data) -> len < 2 ^ 63 ->
  UDSServer.ProcessClientRequest host s client_fd data len response w =
    if negb (frame_start data =? Protocol.START_BYTE)
       || negb (frame_version data =? Protocol.VERSION)
    then (Normal 0, [], w)
    else
      UDSServer.send_response client_fd
        (ServiceManager.ExecuteService (frame_routine_id data)
           (drop 10 data) (len - 10 - 1) response Protocol.MAX_PACKET_SIZE
           (UDSServer.service_manager_ s)) w.
Proof.
  intros Hlen Hmax. unfold UDSServer.ProcessClientRequest.
  unfold Protocol.GetMinFrameSize.
  destruct (len <? 11) eqn:E; [lia|].
  unfold ByteBuffer.new. destruct (len =? 0) eqn:E0; [lia|].
  rewrite parse_frame_spec by done.
  destruct (negb (frame_start data =? Protocol.START_BYTE)); [done|].
  destruct (negb (frame_version data =? Protocol.VERSION)); [done|].
  cbn [orb Position position_].
  rewrite (size_sub_small len 10) by lia.
  rewrite size_sub_small by lia. done.
Qed.

End Server.

(** C6. [ProcessClientRequest] checks the minimum frame size of 11 bytes,
    the START byte 0x7E and the VERSION byte 0x01 before anything is
    dispatched: when one of the checks fails it returns 0, no handler is
    looked up or run and nothing is sent. When they pass, the registry is
    asked to run the routine id read from the frame on the bytes that
    start behind the VERSION byte (offset 10) with length [len - 10 - 1],
    which leaves the END byte out. A data packet that fails a check does
    not end the connection: [HandleClientData] keeps it. *)
Theorem ProcessClientRequest_validates (host : Host) (s : UDSServer.t)
    (client_fd : Z) (data : list byte) (len : Z) (response : list byte)
    (w : OS.World) :
  len <= Z.of_nat (length data) -> len < 2 ^ 63 ->
  let processed :=
    UDSServer.ProcessClientRequest host s client_fd data len response w in
  let refused :=
    len < Protocol.GetMinFrameSize \/
    frame_start data <> Protocol.START_BYTE \/
    frame_version data <> Protocol.VERSION in
  (refused -> processed = (Normal 0, [], w)) /\
  (~ refused ->
     processed =
       UDSServer.send_response client_fd
         (ServiceManager.ExecuteService (frame_routine_id data)
            (drop 10 data) (len - 10 - 1) response Protocol.MAX_PACKET_SIZE
            (UDSServer.service_manager_ s)) w) /\
  (forall now buffer client a rest,
     UDSServer.clients_ s !! client_fd = Some client ->
     OS.script w = a :: rest -> 0 <= OS.ret a ->
     take (Z.to_nat Protocol.MAX_PACKET_SIZE) (OS.data a) = take (Z.to_nat len) data ->
     0 < len -> data = take (Z.to_nat len) data ++ drop (Z.to_nat len) buffer ->
     refused ->
     fst (fst (fst (UDSServer.HandleClientData host s client_fd now buffer response w)))
     = Normal true).
Proof.
  intros Hlen Hmax. cbv zeta. unfold Protocol.GetMinFrameSize.
  assert (Hrefused :
    forall s' w',
      len < 11 \/ frame_start data <> Protocol.START_BYTE \/
      frame_version data <> Protocol.VERSION ->
      UDSServer.ProcessClientRequest host s' client_fd data len response w'
      = (Normal 0, [], w')).
  { intros s' w' Hr. destruct (Z.lt_ge_cases len 11) as [Hshort|Hlong].
    - unfold UDSServer.ProcessClientRequest, Protocol.GetMinFrameSize.
      destruct (len <? 11) eqn:E; [done|lia].
    - rewrite ProcessClientRequest_spec by lia.
      destruct Hr as [Hr|[Hr|Hr]]; [lia| |].
      + destruct (frame_start data =? Protocol.START_BYTE) eqn:E; [lia|done].
      + destruct (frame_version data =? Protocol.VERSION) eqn:E; [lia|].
        by rewrite orb_true_r. }
  split; [apply Hrefused|]. split.
  - intros Hok. rewrite ProcessClientRequest_spec by lia.
    destruct (frame_start data =? Protocol.START_BYTE) eqn:E1; [|lia].
    destruct (frame_version data =? Protocol.VERSION) eqn:E2; [done|lia].
  - intros now buffer client a rest Hclient Hscript Hret Hdata Hpos Hsplit Hr.
    unfold UDSServer.HandleClientData. rewrite Hclient.
    unfold OS.call. rewrite Hscript.
    destruct (OS.ret a <? 0) eqn:E; [lia|].
    rewrite Hdata.
    assert (Hl : length (take (Z.to_nat len) data) = Z.to_nat len)
      by (rewrite length_take; lia).
    rewrite Hl, Z2Nat.id by lia.
    destruct (len =? 0) eqn:E0; [lia|].
    rewrite <- Hsplit. by rewrite Hrefused.
Qed.

(** A 64-byte stand-in for received data: all zero. *)
Definition zero_packet : list byte := repeat x00 64.

Lemma ProcessClientRequest_validates_witness :
  UDSServer.ProcessClientRequest LittleEndian
    {| UDSServer.socket_path_ := "/tmp/ipc_demo.sock";
       UDSServer.service_manager_ :=
         {| ServiceManager.services_ := ∅; ServiceManager.mutex_ := false |};
       UDSServer.running_ := true; UDSServer.server_thread_ := UDSServer.Running;
       UDSServer.server_fd_ := 3; UDSServer.epoll_fd_ := 4;
       UDSServer.timer_fd_ := 5; UDSServer.clients_ := ∅ |}
    9 zero_packet 64 [] {| OS.script := []; OS.trace := [] |}
  = (Normal 0, [], {| OS.script := []; OS.trace := [] |}).
Proof.
  apply ProcessClientRequest_validates.
  - simpl. lia.
  - lia.
  - right. left. vm_compute. discriminate.
Defined.

(** A server whose registry holds the calculator service. *)
Definition calculator_server (host : Host) : UDSServer.t :=
  {| UDSServer.socket_path_ := "/tmp/ipc_demo.sock";
     UDSServer.service_manager_ :=
       {| ServiceManager.services_ :=
            {[ CalculatorService.GetRequestRoutineId := ServiceManager.calculator host ]};
          ServiceManager.mutex_ := false |};
     UDSServer.running_ := true; UDSServer.server_thread_ := UDSServer.Running;
     UDSServer.server_fd_ := 3; UDSServer.epoll_fd_ := 4;
     UDSServer.timer_fd_ := 5; UDSServer.clients_ := ∅ |}.

(** The patterns of the doubles 1.0, 2.0, 3.0 and 42.0. *)
Definition double_1 : Z := 0x3FF0000000000000.
Definition double_2 : Z := 0x4000000000000000.
Definition double_3 : Z := 0x4008000000000000.
Definition double_42 : Z := 0x4045000000000000.

(** A calculator request frame [op a b] that declares [total_length]. *)
Definition request_frame (host : Host) (total_length op a b : Z) : list byte :=
  [byte_of_Z Protocol.START_BYTE] ++ be_bytes 4 total_length
  ++ be_bytes 4 CalculatorService.GetRequestRoutineId
  ++ [byte_of_Z Protocol.VERSION]
  ++ [byte_of_Z op] ++ object_bytes host 8 a ++ object_bytes host 8 b
  ++ [byte_of_Z Protocol.END_BYTE].

(** A calculator response frame. *)
Definition response_frame (host : Host) (status : CalculatorService.Status)
    (result : Z) (error_msg : string) : list byte :=
  [byte_of_Z Protocol.START_BYTE]
  ++ be_bytes 4 (24 + Z.of_nat (String.length error_msg))
  ++ be_bytes 4 CalculatorService.GetResponseRoutineId
  ++ [byte_of_Z Protocol.VERSION]
  ++ [byte_of_Z (CalculatorService.Status_code status)]
  ++ object_bytes host 8 result ++ wire_string error_msg
  ++ [byte_of_Z Protocol.END_BYTE].

(** The local arrays of the server, before they are written. *)
Definition blank_packet : list byte := repeat x00 (Z.to_nat Protocol.MAX_PACKET_SIZE).

(** A world in which the next call (a [send]) succeeds. *)
Definition one_answer (n : Z) : OS.World :=
  {| OS.script := [ {| OS.ret := n; OS.errno := 0; OS.data := [] |} ]; OS.trace := [] |}.

(** C1, the code at the failing input. A request frame of 28 bytes that
    declares a total length of 999 is not dropped: the calculator handler
    is run on its payload and the 24-byte response (1.0 + 2.0 = 3.0) is
    sent, exactly as for the frame that declares 28. *)
Lemma mismatched_length_is_dispatched :
  length (request_frame LittleEndian 999 1 double_1 double_2) = 28%nat /\
  frame_total_length (request_frame LittleEndian 999 1 double_1 double_2) = 999 /\
  UDSServer.ProcessClientRequest LittleEndian (calculator_server LittleEndian) 9
    (request_frame LittleEndian 999 1 double_1 double_2) 28 blank_packet (one_answer 24)
  = (Normal 24,
     [(ServiceManager.ActFind 0x1000, true);
      (ServiceManager.ActExecute 0x1000
         (drop 10 (request_frame LittleEndian 999 1 double_1 double_2)) 17, false)],
     {| OS.script := [];
        OS.trace :=
          [OS.sys_send 9
             (response_frame LittleEndian CalculatorService.Success double_3 EmptyString)] |}) /\
  UDSServer.ProcessClientRequest LittleEndian (calculator_server LittleEndian) 9
    (request_frame LittleEndian 999 1 double_1 double_2) 28 blank_packet (one_answer 24)
  = UDSServer.ProcessClientRequest LittleEndian (calculator_server LittleEndian) 9
      (request_frame LittleEndian 28 1 double_1 double_2) 28 blank_packet (one_answer 24).
Proof. repeat split; vm_compute; reflexivity. Qed.

Lemma ProcessClientRequest_ignores_total_length (host : Host) (s : UDSServer.t)
    (client_fd : Z) (b0 : byte) (declared declared' tail : list byte) (len : Z)
    (response : list byte) (w : OS.World) :
  length declared = 4%nat -> length declared' = 4%nat ->
  11 <= len <= Z.of_nat (length (b0 :: declared ++ tail)) -> len < 2 ^ 63 ->
  UDSServer.ProcessClientRequest host s client_fd (b0 :: declared ++ tail) len response w
  = UDSServer.ProcessClientRequest host s client_fd (b0 :: declared' ++ tail) len response w.
Proof.
  intros H1 H2 Hlen Hmax.
  do 5 (destruct declared as [|? declared]; simpl in H1; try lia).
  do 5 (destruct declared' as [|? declared']; simpl in H2; try lia).
  rewrite !ProcessClientRequest_spec by (simpl in *; lia). reflexivity.
Qed.

(* ------------------------------------------------------------------ *)
(** ** C9 and C10: the calculator's divide routine *)

(** Whether [needle] occurs in [text]. *)
Definition mentions (needle text : string) : bool :=
  match String.index 0 needle text with Some _ => true | None => false end.

Lemma Prim2SF_DIVISOR_EPSILON :
  Prim2SF CalculatorService.DIVISOR_EPSILON = S754_finite false 7737125245533627 (-86).
Proof. vm_compute. reflexivity. Qed.

Lemma SFcompare_not_lt_finite (x : spec_float) (m : positive) (e : Z) :
  SFltb (SFabs x) (S754_finite false m e) = false ->
  SFleb (S754_finite false m e) (SFabs x) = true \/ x = S754_nan.
Proof.
  unfold SFltb, SFleb.
  destruct x as [s|s| |s m' e']; cbn [SFabs SFcompare]; try (by auto); try done.
  destruct (Z.compare e' e) eqn:Ee.
  - apply Z.compare_eq in Ee. subst e'. rewrite Z.compare_refl.
    rewrite !Pos.compare_cont_spec. cbn [Pos.switch_Eq].
    rewrite (Pos.compare_antisym m' m).
    destruct (Pos.compare m' m); cbn [CompOpp]; auto; done.
  - done.
  - rewrite Z.compare_antisym, Ee. cbn [CompOpp]. auto.
Qed.

(** A double is below the threshold, or at least the threshold, or no
    number at all. *)
Lemma abs_lt_false (b : Z) :
  Double.abs_lt b CalculatorService.DIVISOR_EPSILON = false ->
  Double.abs_ge b CalculatorService.DIVISOR_EPSILON = true \/ Double.is_nan b = true.
Proof.
  unfold Double.abs_lt, Double.abs_ge, Double.is_nan.
  rewrite ltb_spec, leb_spec, abs_spec, Prim2SF_DIVISOR_EPSILON.
  intros H. apply SFcompare_not_lt_finite in H as [H|H]; [by left|right].
  unfold is_nan. rewrite FloatAxioms.eqb_spec, H. reflexivity.
Qed.

Lemma abs_ge_true (b : Z) :
  Double.abs_ge b CalculatorService.DIVISOR_EPSILON = true ->
  Double.abs_lt b CalculatorService.DIVISOR_EPSILON = false.
Proof.
  unfold Double.abs_lt, Double.abs_ge.
  rewrite ltb_spec, leb_spec, abs_spec, Prim2SF_DIVISOR_EPSILON.
  generalize 7737125245533627%positive (-86). intros m e.
  unfold SFltb, SFleb.
  destruct (Prim2SF (Double.to_float b)) as [s|s| |s m' e'];
    cbn [SFabs SFcompare]; try done.
  rewrite (Z.compare_antisym e' e).
  destruct (Z.compare e' e) eqn:Ee; cbn [CompOpp]; try done.
  rewrite !Pos.compare_cont_spec. cbn [Pos.switch_Eq].
  rewrite (Pos.compare_antisym m' m).
  by destruct (Pos.compare m' m).
Qed.

Lemma is_nan_true (b : Z) :
  Double.is_nan b = true ->
  Double.abs_lt b CalculatorService.DIVISOR_EPSILON = false.
Proof.
  unfold Double.abs_lt, Double.is_nan.
  unfold is_nan. rewrite FloatAxioms.eqb_spec, ltb_spec, abs_spec. unfold SFeqb, SFltb.
  destruct (Prim2SF (Double.to_float b)) as [s|s| |s m' e'];
    cbn [SFabs SFcompare]; intros H; try reflexivity; exfalso.
  all: destruct s;
    rewrite ?Z.compare_refl, ?Pos.compare_cont_spec, ?Pos.compare_refl in H;
    simpl in H; congruence.
Qed.

(** The pattern of the double [1e-11]. *)
#[warnings="-inexact-float"]
Definition double_1e_11 : Z := Double.of_float 1e-11%float.

(** C10, as stated, fails at a divisor that is not a number: [|b| >= 1e-10]
    is false for it, and the division is carried out all the same. *)
Lemma Divide_by_nan_divides :
  Double.is_nan Double.QUIET_NAN = true /\
  Double.abs_ge Double.QUIET_NAN CalculatorService.DIVISOR_EPSILON = false /\
  CalculatorService.ExecuteOperation CalculatorService.Divide double_1 Double.QUIET_NAN
  = (CalculatorService.Success, Double.div double_1 Double.QUIET_NAN, EmptyString).
Proof. repeat split; vm_compute; reflexivity. Qed.

(** C10, amended. For every pair of doubles, the divide operation answers
    [DivisionByZero] with the text "Division by zero" and the result 0.0
    exactly when the comparison [|b| < 1e-10] holds, which it does for
    0.0 and for 1e-11; otherwise it carries out [a / b] and answers
    [Success]: that is when [|b| >= 1e-10], and also when [b] is not a
    number. *)
Theorem Divide_threshold (a b : Z) :
  CalculatorService.ExecuteOperation CalculatorService.Divide a b =
    (if Double.abs_lt b CalculatorService.DIVISOR_EPSILON
     then (CalculatorService.DivisionByZero, Double.zero, "Division by zero"%string)
     else (CalculatorService.Success, Double.div a b, EmptyString)) /\
  (Double.abs_lt b CalculatorService.DIVISOR_EPSILON = false <->
   Double.abs_ge b CalculatorService.DIVISOR_EPSILON = true \/ Double.is_nan b = true) /\
  Double.abs_lt Double.zero CalculatorService.DIVISOR_EPSILON = true /\
  Double.abs_lt double_1e_11 CalculatorService.DIVISOR_EPSILON = true.
Proof.
  split; [reflexivity|]. split; [|split; vm_compute; reflexivity].
  split; [apply abs_lt_false|]. intros [H|H]; [by apply abs_ge_true|by apply is_nan_true].
Qed.

(** A response that carries a failure status is read as a failure with
    the text the response carries. *)
Lemma reads_parse_response_failure (host : Host)
    (total_length version status value : Z) (msg : string) :
  0 < status < 256 -> Z.of_nat (String.length msg) < 2 ^ 32 ->
  reads (Calculator.parse_response host)
    (be_bytes 1 Protocol.START_BYTE ++ be_bytes 4 total_length
     ++ be_bytes 4 Calculator.RESPONSE_ROUTINE_ID ++ be_bytes 1 version
     ++ be_bytes 1 status ++ object_bytes host 8 value ++ wire_string msg)
    (Calculator.failure msg).
Proof.
  intros Hstatus Hmsg. unfold Calculator.parse_response.
  eapply reads_bind; [apply reads_GetByte, length_be_bytes|].
  rewrite be_value_be_bytes. change (Protocol.START_BYTE mod 256 ^ Z.of_nat 1) with 0x7E.
  cbn [Z.eqb Protocol.START_BYTE Pos.eqb negb].
  eapply reads_bind; [apply reads_GetInt, length_be_bytes|].
  eapply reads_bind; [apply reads_GetInt, length_be_bytes|].
  rewrite be_value_be_bytes.
  change (Calculator.RESPONSE_ROUTINE_ID mod 256 ^ Z.of_nat 4)
    with Calculator.RESPONSE_ROUTINE_ID.
  rewrite Z.eqb_refl. cbn [negb].
  eapply reads_bind; [apply reads_GetByte, length_be_bytes|].
  eapply reads_bind; [apply reads_GetByte, length_be_bytes|].
  rewrite (be_value_be_bytes 1 status).
  change (256 ^ Z.of_nat 1) with 256. rewrite (Z.mod_small status) by lia.
  eapply reads_bind; [apply reads_GetDouble, length_object_bytes|].
  rewrite <- (app_nil_r (wire_string msg)).
  eapply reads_bind; [by apply reads_GetString|].
  destruct (status =? 0) eqn:E; [lia|]. apply reads_ret.
Qed.

(** The payload of the request [42.0 / 0.0]. *)
Definition divide_by_zero_payload (host : Host) : list byte :=
  be_bytes 1 (Calculator.Operation_code Calculator.Divide)
  ++ object_bytes host 8 double_42 ++ object_bytes host 8 Double.zero.

(** A connected channel. *)
Definition connected_channel : Channel.Impl :=
  Channel.with_connected true
    (Channel.with_fd 7 (Channel.Impl_new "/tmp/ipc_demo.sock" 5000)).

(** The frame the server sends back for [42.0 / 0.0]. *)
Definition divide_by_zero_response (host : Host) : list byte :=
  response_frame host CalculatorService.DivisionByZero Double.zero "Division by zero".

(** A world in which the [send] of the 28-byte request succeeds and the
    [recv] that follows delivers the server's response. *)
Definition answering_world (host : Host) : OS.World :=
  {| OS.script :=
       [ {| OS.ret := 28; OS.errno := 0; OS.data := [] |};
         {| OS.ret := 40; OS.errno := 0; OS.data := divide_by_zero_response host |} ];
     OS.trace := [] |}.

(** C9. Dividing 42.0 by 0.0: the service's operation answers
    [DivisionByZero] (status byte 0x01) with the result 0.0 and the text
    "Division by zero", which mentions "zero"; its [Execute] writes these
    into a 40-byte response frame; the server sends that frame for the
    request frame the client proxy builds; and the proxy, given that
    response, returns a result with [success = false] and that text. The
    proxy does so for every response that carries a non-zero status. *)
Theorem divide_by_zero_fails (host : Host) (strerror : Z -> string) :
  CalculatorService.ExecuteOperation CalculatorService.Divide double_42 Double.zero
  = (CalculatorService.DivisionByZero, Double.zero, "Division by zero"%string) /\
  CalculatorService.Status_code CalculatorService.DivisionByZero = 0x01 /\
  mentions "zero" "Division by zero" = true /\
  CalculatorService.Execute host (divide_by_zero_payload host) 17 blank_packet
    Protocol.MAX_PACKET_SIZE
  = (Normal 40, divide_by_zero_response host ++ drop 40 blank_packet) /\
  (exists request,
     length request = 28%nat /\
     take 28 (snd (Channel.build_frame host Calculator.REQUEST_ROUTINE_ID
                     (Some (divide_by_zero_payload host)) 17 blank_packet)) = request /\
     UDSServer.ProcessClientRequest host (calculator_server host) 9 request 28
       blank_packet (one_answer 40)
     = (Normal 40,
        [(ServiceManager.ActFind 0x1000, true);
         (ServiceManager.ActExecute 0x1000 (drop 10 request) 17, false)],
        {| OS.script := [];
           OS.trace := [OS.sys_send 9 (divide_by_zero_response host)] |})) /\
  fst (fst (Calculator.ExecuteOperation host strerror Calculator.Divide
              double_42 Double.zero blank_packet connected_channel
              (answering_world host)))
  = Channel.Returns
      (Some {| Calculator.success := false; Calculator.value := Double.zero;
               Calculator.error_message := "Division by zero" |}) /\
  (forall total_length version status value msg rest response_len,
     0 < status < 256 -> Z.of_nat (String.length msg) < 2 ^ 32 ->
     let frame :=
       be_bytes 1 Protocol.START_BYTE ++ be_bytes 4 total_length
       ++ be_bytes 4 Calculator.RESPONSE_ROUTINE_ID ++ be_bytes 1 version
       ++ be_bytes 1 status ++ object_bytes host 8 value ++ wire_string msg in
     Z.of_nat (length frame) <= response_len <= Z.of_nat (length (frame ++ rest)) ->
     response_len < 2 ^ 63 ->
     Calculator.caught
       (fst (CalculatorService.with_buffer (frame ++ rest) response_len
               (Calculator.parse_response host))) Some
     = Some {| Calculator.success := false; Calculator.value := Double.zero;
               Calculator.error_message := msg |}).
Proof.
  split; [vm_compute; reflexivity|]. split; [reflexivity|].
  split; [vm_compute; reflexivity|].
  split; [destruct host; vm_compute; reflexivity|].
  split; [eexists; split; [|split; [reflexivity|]];
          destruct host; vm_compute; reflexivity|].
  split; [destruct host; vm_compute; reflexivity|].
  intros total_length version status value msg rest response_len Hstatus Hmsg
    frame Hlen Hmax.
  unfold CalculatorService.with_buffer, ByteBuffer.new.
  assert (Hpos : 0 < Z.of_nat (length frame)).
  { unfold frame. rewrite length_app, length_be_bytes. lia. }
  destruct (response_len =? 0) eqn:E; [lia|].
  set (b := {| buffer_ := frame ++ rest; length_ := response_len; position_ := 0 |}).
  rewrite (reads_parse_response_failure host total_length version status value msg
             Hstatus Hmsg b).
  - reflexivity.
  - unfold wf, b. cbn [buffer_ length_ position_]. lia.
  - unfold starts_with, b. cbn [buffer_ length_ position_].
    change (Z.to_nat 0) with 0%nat. rewrite drop_0. split; [fold frame; lia|].
    apply take_app_length.
Qed.


(* ------------------------------------------------------------------ *)
(** ** C8: shutting down twice *)

(** C8. On a channel whose mutex is free, [Disconnect] returns, leaves the
    channel disconnected with no socket, and a second [Disconnect] returns
    too, makes no system call and changes nothing. [Stop] leaves the
    server not running, and a second [Stop] changes nothing and makes no
    system call. *)
Theorem shutdown_idempotent (im : Channel.Impl) (s : UDSServer.t) (w : OS.World) :
  Channel.mutex_ im = false ->
  (let disconnected := Channel.Disconnect im w in
   let im1 := snd (fst disconnected) in
   let w1 := snd disconnected in
   fst (fst disconnected) = Channel.Returns tt /\
   Channel.connected_ im1 = false /\ Channel.socket_fd_ im1 < 0 /\
   Channel.Disconnect im1 w1 = (Channel.Returns tt, im1, w1)) /\
  (let stopped := UDSServer.Stop s w in
   UDSServer.running_ (fst stopped) = false /\
   UDSServer.Stop (fst stopped) (snd stopped) = stopped).
Proof.
  intros Hm. split.
  - cbv zeta. unfold Channel.Disconnect, Channel.locked, Channel.Disconnect_body,
      Channel.close_socket. rewrite Hm.
    destruct im as [path timeout fd connected err mutex buffer]. simpl in *.
    destruct (0 <=? fd) eqn:E; simpl.
    + repeat split; try done; lia.
    + rewrite E. simpl. subst mutex. repeat split; try done; lia.
  - cbv zeta. unfold UDSServer.Stop.
    destruct s as [path sm running th sfd efd tfd clients].
    cbn [UDSServer.running_].
    destruct running; [|split; reflexivity].
    destruct th; split; reflexivity.
Qed.

Lemma shutdown_idempotent_witness :
  Channel.Disconnect
    (snd (fst (Channel.Disconnect
                 (Channel.with_connected true
                    (Channel.with_fd 7 (Channel.Impl_new "/tmp/ipc_demo.sock" 5000)))
                 {| OS.script := []; OS.trace := [] |})))
    {| OS.script := []; OS.trace := [OS.sys_close 7] |}
  = (Channel.Returns tt,
     Channel.with_connected false
       (Channel.with_fd (-1) (Channel.Impl_new "/tmp/ipc_demo.sock" 5000)),
     {| OS.script := []; OS.trace := [OS.sys_close 7] |}).
Proof.
  exact (proj2 (proj2 (proj2 (proj1
    (shutdown_idempotent
       (Channel.with_connected true
          (Channel.with_fd 7 (Channel.Impl_new "/tmp/ipc_demo.sock" 5000)))
       (calculator_server LittleEndian)
       {| OS.script := []; OS.trace := [] |} eq_refl))))).
Defined.

(* ------------------------------------------------------------------ *)
(** ** C7: the request frame of [ExecuteRPC] *)

(** The frame layout: START, TOTAL_LENGTH, ROUTINE_ID, VERSION, PAYLOAD,
    END. *)
Definition frame_layout (total_length routine_id : Z) (payload : list byte)
    : list byte :=
  be_bytes 1 Protocol.START_BYTE ++ be_bytes 4 total_length
  ++ be_bytes 4 routine_id ++ be_bytes 1 Protocol.VERSION
  ++ payload ++ be_bytes 1 Protocol.END_BYTE.

Lemma length_frame_layout (total_length routine_id : Z) (payload : list byte) :
  length (frame_layout total_length routine_id payload) = (11 + length payload)%nat.
Proof.
  unfold frame_layout. rewrite !length_app, !length_be_bytes. lia.
Qed.

(** Patching the length field of a frame written with another length. *)
Lemma patch_total_length (b : ByteBuffer.t) (l l' routine_id : Z) (payload : list byte) :
  wf b -> position_ b = 0 ->
  Z.of_nat (length (frame_layout l routine_id payload)) <= remaining b ->
  buffer_
    (write_at
       {| buffer_ := buffer_ (write_at b (frame_layout l routine_id payload));
          length_ := length_ b; position_ := 1 |} (be_bytes 4 l'))
  = frame_layout l' routine_id payload
    ++ drop (length (frame_layout l' routine_id payload)) (buffer_ b).
Proof.
  intros Hwf Hp Hr. rewrite !length_frame_layout in *.
  unfold write_at. cbn [buffer_ length_ position_]. rewrite Hp.
  change (Z.to_nat 0) with 0%nat. change (Z.to_nat 1) with 1%nat.
  rewrite take_0, length_be_bytes, length_frame_layout. cbn [app plus].
  unfold frame_layout.
  change (be_bytes 1 Protocol.START_BYTE) with [byte_of_Z Protocol.START_BYTE].
  cbn [app take drop].
  rewrite <- !app_assoc.
  rewrite (drop_app_length' (be_bytes 4 l)) by (by rewrite length_be_bytes).
  reflexivity.
Qed.

Section Frame.
Variable host : Host.
Variable strerror : Z -> string.

Lemma PutByte_ok (v : Z) (b : ByteBuffer.t) :
  wf b -> 1 <= remaining b ->
  PutByte host v b = (Normal tt, write_at b (be_bytes 1 v)).
Proof. intros. apply writes_PutByte; [done|]. by rewrite length_be_bytes. Qed.

(** The four header fields, as [ExecuteRPC] writes them first. *)
Definition frame_header_bytes (routine_id : Z) : list byte :=
  be_bytes 1 Protocol.START_BYTE ++ be_bytes 4 0 ++ be_bytes 4 routine_id
  ++ be_bytes 1 Protocol.VERSION.

Lemma writes_frame_header (routine_id : Z) (b : ByteBuffer.t) :
  wf b -> 10 <= remaining b ->
  (PutByte host Protocol.START_BYTE ;; PutInt host 0 ;; PutInt host routine_id ;;
   PutByte host Protocol.VERSION) b
  = (Normal tt, write_at b (frame_header_bytes routine_id)).
Proof.
  intros Hwf Hr. unfold frame_header_bytes.
  apply (writes_bind _ _ _ _ (writes_PutByte host _)
           (writes_bind _ _ _ _ (writes_PutInt host _)
              (writes_bind _ _ _ _ (writes_PutInt host _) (writes_PutByte host _))));
    [done|].
  rewrite !length_app, !length_be_bytes. simpl. lia.
Qed.

End Frame.

Section BuildFrame.
Variable host : Host.

Lemma header_then {A} (routine_id : Z) (k : M A) (b : ByteBuffer.t) :
  wf b -> 10 <= remaining b ->
  (PutByte host Protocol.START_BYTE ;; PutInt host 0 ;; PutInt host routine_id ;;
   PutByte host Protocol.VERSION ;; k) b
  = k (write_at b (frame_header_bytes routine_id)).
Proof.
  intros Hwf Hr.
  pose proof (writes_frame_header host routine_id b Hwf Hr) as H.
  unfold bind in *.
  destruct (PutByte host Protocol.START_BYTE b) as [[[]| |] b1]; try done.
  destruct (PutInt host 0 b1) as [[[]| |] b2]; try done.
  destruct (PutInt host routine_id b2) as [[[]| |] b3]; try done.
  destruct (PutByte host Protocol.VERSION b3) as [[[]| |] b4]; try done.
  by injection H as ->.
Qed.

(** The last steps of the encoding: END, then the length patched in. *)
Lemma finish_frame (b0 : ByteBuffer.t) (routine_id : Z) (payload : list byte) :
  wf b0 -> position_ b0 = 0 -> length_ b0 = Z.of_nat (length (buffer_ b0)) ->
  length_ b0 < 2 ^ 32 ->
  11 + Z.of_nat (length payload) <= length_ b0 ->
  (PutByte host Protocol.END_BYTE ;;
   fun request_buf =>
     let frame_len := Position request_buf in
     (SetPosition 1 ;; PutInt host (to_uint32 frame_len) ;;
      ret (inr frame_len : string + Z)) request_buf)
    (write_at b0 (frame_header_bytes routine_id ++ payload))
  = (Normal (inr (11 + Z.of_nat (length payload))),
     {| buffer_ :=
          frame_layout (11 + Z.of_nat (length payload)) routine_id payload
          ++ drop (11 + length payload) (buffer_ b0);
        length_ := length_ b0; position_ := 5 |}).
Proof.
  intros Hwf Hp Hfull Hmax Hfit.
  assert (Hr : remaining b0 = length_ b0) by (unfold remaining; lia).
  assert (Hh : length (frame_header_bytes routine_id ++ payload)
               = (10 + length payload)%nat).
  { unfold frame_header_bytes. rewrite !length_app, !length_be_bytes. lia. }
  assert (Hwf1 : wf (write_at b0 (frame_header_bytes routine_id ++ payload)))
    by (apply wf_write_at; [done|lia]).
  unfold bind at 1.
  rewrite PutByte_ok; [|done|rewrite remaining_write_at; lia].
  rewrite write_at_app by (done || rewrite length_be_bytes; lia).
  replace ((frame_header_bytes routine_id ++ payload) ++ be_bytes 1 Protocol.END_BYTE)
    with (frame_layout 0 routine_id payload)
    by (unfold frame_layout, frame_header_bytes; by rewrite <- !app_assoc).
  cbv zeta. unfold Position. cbn [write_at position_].
  rewrite length_frame_layout, Hp.
  replace (0 + Z.of_nat (11 + length payload)) with (11 + Z.of_nat (length payload)) by lia.
  unfold bind.
  rewrite SetPosition_ok by (cbn [length_ write_at]; lia).
  cbn [length_ write_at].
  rewrite to_uint32_small by lia.
  set (b1 := {| buffer_ := _; length_ := length_ b0; position_ := 1 |}).
  assert (Hwf' : wf b1).
  { pose proof (wf_write_at b0 (frame_layout 0 routine_id payload) Hwf) as Hw.
    rewrite length_frame_layout in Hw. destruct Hw as (_ & Hl & _); [lia|].
    unfold wf, b1, write_at in *. cbn [buffer_ length_ position_] in *. lia. }
  rewrite PutInt_ok; [|done|unfold remaining, b1; simpl; lia].
  unfold ret. f_equal.
  pose proof (patch_total_length b0 0 (11 + Z.of_nat (length payload)) routine_id
                payload Hwf Hp) as Hpatch.
  rewrite !length_frame_layout in Hpatch.
  unfold write_at at 1. cbn [position_ length_]. rewrite length_be_bytes.
  f_equal. unfold write_at at 1 in Hpatch. cbn [buffer_ position_] in Hpatch.
  rewrite length_be_bytes in Hpatch. apply Hpatch. lia.
Qed.

End BuildFrame.

Section ExecuteRPC.
Variable host : Host.
Variable strerror : Z -> string.

(** The scratch buffer is a region of its own size below 4 GiB (it is
    8192 bytes in [Impl]). *)
Definition scratch (buffer : list byte) : Prop :=
  11 <= Z.of_nat (length buffer) < 2 ^ 32.

Lemma build_frame_fits (routine_id : Z) (payload buffer : list byte) :
  scratch buffer ->
  10 + Z.of_nat (length payload) < Z.of_nat (length buffer) ->
  Channel.build_frame host routine_id (Some payload) (Z.of_nat (length payload)) buffer
  = (Normal (inr (11 + Z.of_nat (length payload))),
     frame_layout (11 + Z.of_nat (length payload)) routine_id payload
     ++ drop (11 + length payload) buffer).
Proof.
  intros [Hmin Hmax] Hfit. unfold Channel.build_frame. cbv zeta.
  unfold CalculatorService.with_buffer, ByteBuffer.new.
  destruct (Z.of_nat (length buffer) =? 0) eqn:E0; [lia|].
  set (b0 := {| buffer_ := buffer; length_ := Z.of_nat (length buffer);
                position_ := 0 |}).
  assert (Hwf : wf b0) by (unfold wf, b0; simpl; lia).
  assert (Hr : remaining b0 = Z.of_nat (length buffer)) by (unfold remaining, b0; simpl; lia).
  rewrite header_then by (done || lia).
  assert (Hh : length (frame_header_bytes routine_id) = 10%nat)
    by (unfold frame_header_bytes; rewrite !length_app, !length_be_bytes; lia).
  assert (Hwf1 : wf (write_at b0 (frame_header_bytes routine_id)))
    by (apply wf_write_at; [done|lia]).
  destruct (0 <? Z.of_nat (length payload)) eqn:Epos.
  - set (b1 := write_at b0 (frame_header_bytes routine_id)) in *.
    assert (Hpos1 : position_ b1 = 10)
      by (unfold b1, write_at; cbn [position_ b0]; rewrite Hh; reflexivity).
    assert (Hlen1 : length_ b1 = Z.of_nat (length buffer)) by reflexivity.
    assert (Hbuf1 : length (buffer_ b1) = length buffer).
    { destruct Hwf1 as (_ & Hl & _). unfold b1, write_at in *.
      cbn [buffer_ length_ position_ b0] in *.
      rewrite !length_app, length_take, length_drop in *. lia. }
    unfold Position. rewrite Hpos1, Hlen1.
    rewrite size_add_small by lia.
    destruct (Z.of_nat (length buffer) <=? 10 + Z.of_nat (length payload)) eqn:Ebig; [lia|].
    rewrite mem_read_all.
    rewrite mem_write_Some by lia.
    rewrite SetPosition_ok by (cbn [length_]; lia). cbn [buffer_ length_].
    replace {| buffer_ := _; length_ := _; position_ := 10 + Z.of_nat (length payload) |}
      with (write_at b1 payload)
      by (unfold write_at at 1; by rewrite Hpos1, Hlen1).
    unfold b1. rewrite write_at_app by (done || lia).
    assert (Hb0 : length_ b0 = Z.of_nat (length buffer)) by reflexivity.
    pose proof (finish_frame host b0 routine_id payload Hwf eq_refl eq_refl
                  ltac:(lia) ltac:(lia)) as Hfin.
    unfold Position in Hfin. cbv zeta in Hfin. rewrite Hfin. reflexivity.
  - assert (Hnil : payload = []).
    { destruct payload as [|x payload]; [done|].
      apply Z.ltb_ge in Epos. cbn [length] in Epos. lia. }
    subst payload.
    assert (Hb0 : length_ b0 = Z.of_nat (length buffer)) by reflexivity.
    pose proof (finish_frame host b0 routine_id [] Hwf eq_refl eq_refl
                  ltac:(lia) ltac:(cbn [length]; lia)) as Hfin.
    rewrite app_nil_r in Hfin. unfold Position in Hfin. cbv zeta in Hfin.
    unfold Position. rewrite Hfin. reflexivity.
Qed.
End ExecuteRPC.

(** System calls are added at the end of the trace; [grows P tr tr'] says
    that [tr'] is [tr] followed by calls which all satisfy [P]. *)
Definition grows (P : OS.syscall -> bool) (tr tr' : list OS.syscall) : Prop :=
  exists more, tr' = tr ++ more /\ forallb P more = true.

Lemma grows_refl (P : OS.syscall -> bool) (tr : list OS.syscall) : grows P tr tr.
Proof. exists []. by rewrite app_nil_r. Qed.

Lemma grows_one (P : OS.syscall -> bool) (tr : list OS.syscall) (c : OS.syscall) :
  P c = true -> grows P tr (tr ++ [c]).
Proof. intros H. exists [c]. simpl. by rewrite H. Qed.

Lemma grows_trans (P : OS.syscall -> bool) (tr1 tr2 tr3 : list OS.syscall) :
  grows P tr1 tr2 -> grows P tr2 tr3 -> grows P tr1 tr3.
Proof.
  intros (m1 & -> & H1) (m2 & -> & H2). exists (m1 ++ m2).
  rewrite app_assoc, forallb_app, H1, H2. done.
Qed.

Lemma grows_weaken (P Q : OS.syscall -> bool) (tr tr' : list OS.syscall) :
  (forall c, P c = true -> Q c = true) -> grows P tr tr' -> grows Q tr tr'.
Proof.
  intros HPQ (m & -> & H). exists m. split; [done|].
  apply forallb_forall. intros c Hc. apply HPQ.
  by apply (proj1 (forallb_forall P m) H).
Qed.

(** Neither [send] nor [recv]. *)
Definition no_transfer (c : OS.syscall) : bool :=
  negb (OS.is_send c || OS.is_recv c).

Definition any_call (c : OS.syscall) : bool := true.

Section ChannelCalls.
Variable host : Host.
Variable strerror : Z -> string.

(** [SendData] only sends, and of the channel it changes [last_error_]
    at most. *)
Lemma SendData_loop_calls (script : list OS.answer) :
  forall trace im data len total_sent ok im' w',
  Channel.SendData_loop strerror script trace im data len total_sent = (ok, im', w') ->
  grows OS.is_send trace (OS.trace w') /\
  im' = Channel.with_error (Channel.last_error_ im') im.
Proof.
  induction script as [|a script IH]; intros trace im data len total_sent ok im' w' H;
    cbn [Channel.SendData_loop] in H.
  - destruct (total_sent <? len); injection H as <- <- <-; cbn [OS.trace].
    + split; [by apply grows_one|by destruct im].
    + split; [apply grows_refl|by destruct im].
  - destruct (total_sent <? len).
    2:{ injection H as <- <- <-. split; [apply grows_refl|by destruct im]. }
    cbv zeta in H.
    destruct (Z.min (OS.ret a) (size_sub len total_sent) <? 0).
    { destruct (OS.errno a =? OS.EINTR).
      - apply IH in H as [Hg ->]. split; [|done].
        eapply grows_trans; [|exact Hg]; by apply grows_one.
      - injection H as <- <- <-. split; [by apply grows_one|by destruct im]. }
    destruct (Z.min (OS.ret a) (size_sub len total_sent) =? 0).
    { injection H as <- <- <-. split; [by apply grows_one|by destruct im]. }
    apply IH in H as [Hg ->]. split; [|done].
    eapply grows_trans; [|exact Hg]; by apply grows_one.
Qed.

(** The first call of [SendData] offers the whole frame. *)
Lemma SendData_first (data : list byte) (len : Z) (im im' : Channel.Impl)
    (w w' : OS.World) (ok : bool) :
  0 < len < SIZE_MOD ->
  Channel.SendData strerror data len im w = (ok, im', w') ->
  exists more,
    OS.trace w' = OS.trace w
                  ++ OS.sys_send (Channel.socket_fd_ im) (take (Z.to_nat len) data) :: more
    /\ forallb OS.is_send more = true.
Proof.
  intros Hlen H. unfold Channel.SendData in H.
  assert (Hsub : size_sub len 0 = len).
  { unfold size_sub. rewrite Z.sub_0_r. apply Z.mod_small. lia. }
  destruct (OS.script w) as [|a script]; cbn [Channel.SendData_loop] in H.
  - destruct (0 <? len) eqn:E; [|lia]. injection H as <- <- <-.
    exists []. cbn [OS.trace]. rewrite Hsub. done.
  - destruct (0 <? len) eqn:E; [|lia]. cbv zeta in H. rewrite Hsub in H.
    change (drop (Z.to_nat 0) data) with data in H.
    destruct (Z.min (OS.ret a) len <? 0).
    { destruct (OS.errno a =? OS.EINTR).
      - apply SendData_loop_calls in H as [(more & -> & Hm) _].
        exists more. by rewrite <- app_assoc.
      - injection H as <- <- <-. by exists []. }
    destruct (Z.min (OS.ret a) len =? 0).
    { injection H as <- <- <-. by exists []. }
    apply SendData_loop_calls in H as [(more & -> & Hm) _].
    exists more. by rewrite <- app_assoc.
Qed.

Lemma ReceiveData_min_calls (script : list OS.answer) :
  forall trace im data max_len received r im' w',
  Channel.ReceiveData_min strerror script trace im data max_len received = (r, im', w') ->
  grows OS.is_recv trace (OS.trace w') /\
  im' = Channel.with_error (Channel.last_error_ im') im.
Proof.
  induction script as [|a script IH]; intros trace im data max_len received r im' w' H;
    cbn [Channel.ReceiveData_min] in H.
  - destruct (received <? Protocol.GetMinFrameSize); injection H as <- <- <-; cbn [OS.trace].
    + split; [by apply grows_one|by destruct im].
    + split; [apply grows_refl|by destruct im].
  - destruct (received <? Protocol.GetMinFrameSize).
    2:{ injection H as <- <- <-. split; [apply grows_refl|by destruct im]. }
    cbv zeta in H.
    destruct (OS.ret a <? 0).
    { destruct (OS.errno a =? OS.EINTR).
      - apply IH in H as [Hg ->]. split; [|done].
        eapply grows_trans; [|exact Hg]; by apply grows_one.
      - destruct ((OS.errno a =? OS.EAGAIN) || (OS.errno a =? OS.EWOULDBLOCK));
          injection H as <- <- <-; (split; [by apply grows_one|by destruct im]). }
    destruct (Z.of_nat (length (Channel.delivered a max_len received)) =? 0).
    { injection H as <- <- <-. split; [by apply grows_one|by destruct im]. }
    destruct (mem_write data received (Channel.delivered a max_len received)).
    + apply IH in H as [Hg ->]. split; [|done].
      eapply grows_trans; [|exact Hg]; by apply grows_one.
    + injection H as <- <- <-. split; [by apply grows_one|by destruct im].
Qed.

Lemma ReceiveData_rest_calls (script : list OS.answer) :
  forall trace im data max_len received frame_len r im' w',
  Channel.ReceiveData_rest strerror script trace im data max_len received frame_len
  = (r, im', w') ->
  grows OS.is_recv trace (OS.trace w') /\
  im' = Channel.with_error (Channel.last_error_ im') im.
Proof.
  induction script as [|a script IH];
    intros trace im data max_len received frame_len r im' w' H;
    cbn [Channel.ReceiveData_rest] in H.
  - destruct ((received <? frame_len) && (received <? max_len));
      injection H as <- <- <-; cbn [OS.trace].
    + split; [by apply grows_one|by destruct im].
    + split; [apply grows_refl|by destruct im].
  - destruct ((received <? frame_len) && (received <? max_len)).
    2:{ injection H as <- <- <-. split; [apply grows_refl|by destruct im]. }
    cbv zeta in H.
    destruct (OS.ret a <? 0).
    { destruct (OS.errno a =? OS.EINTR).
      - apply IH in H as [Hg ->]. split; [|done].
        eapply grows_trans; [|exact Hg]; by apply grows_one.
      - injection H as <- <- <-; (split; [by apply grows_one|by destruct im]). }
    destruct (Z.of_nat (length (Channel.delivered a max_len received)) =? 0).
    { injection H as <- <- <-. split; [by apply grows_one|by destruct im]. }
    destruct (mem_write data received (Channel.delivered a max_len received)).
    + apply IH in H as [Hg ->]. split; [|done].
      eapply grows_trans; [|exact Hg]; by apply grows_one.
    + injection H as <- <- <-. split; [by apply grows_one|by destruct im].
Qed.

Lemma with_error_with_error (e e' : string) (im : Channel.Impl) :
  Channel.with_error e (Channel.with_error e' im) = Channel.with_error e im.
Proof. reflexivity. Qed.

(** [ReceiveData] only receives, and of the channel it changes
    [last_error_] at most. *)
Lemma ReceiveData_calls (data : list byte) (max_len : Z) (im im' : Channel.Impl)
    (w w' : OS.World) (r : Channel.received_data) :
  Channel.ReceiveData host strerror data max_len im w = (r, im', w') ->
  grows OS.is_recv (OS.trace w) (OS.trace w') /\
  im' = Channel.with_error (Channel.last_error_ im') im.
Proof.
  unfold Channel.ReceiveData. intros H.
  destruct (Channel.ReceiveData_min _ _ _ _ _ _ _) as [[r1 im1] w1] eqn:E1.
  apply ReceiveData_min_calls in E1 as [Hg1 Him1].
  destruct r1 as [[] data1 received1|].
  2,3: injection H as <- <- <-; done.
  destruct (ByteBuffer.new (Some data1) received1) as [buf|e|].
  2:{ injection H as <- <- <-. split; [done|]. rewrite Him1. reflexivity. }
  2:{ injection H as <- <- <-. done. }
  destruct (fst ((GetByte host;; GetInt host) buf)) as [frame_len|e|].
  - apply ReceiveData_rest_calls in H as [Hg2 ->]. split.
    + eapply grows_trans; eassumption.
    + rewrite Him1. reflexivity.
  - injection H as <- <- <-. split; [done|]. rewrite Him1. reflexivity.
  - injection H as <- <- <-. done.
Qed.

(** [Connect] under the lock: no [send], no [recv]; the scratch buffer
    and the lock are left alone; [connected_] is never cleared; [true]
    is returned with a usable descriptor, [false] without one. *)
Lemma Connect_body_calls (im im' : Channel.Impl) (w w' : OS.World) (ok : bool) :
  Channel.Connect_body strerror im w = (ok, im', w') ->
  grows no_transfer (OS.trace w) (OS.trace w') /\
  Channel.buffer_ im' = Channel.buffer_ im /\
  Channel.mutex_ im' = Channel.mutex_ im /\
  (if ok then Channel.connected_ im' = true /\ 0 <= Channel.socket_fd_ im'
   else Channel.connected_ im' = Channel.connected_ im /\ Channel.socket_fd_ im' < 0).
Proof.
  unfold Channel.Connect_body, Channel.Connect_finish, Channel.close_socket,
    OS.call, OS.note.
  destruct im as [path timeout fd connected err mutex buffer]. cbn.
  destruct w as [script trace]; cbn.
  intros H.
  repeat
    match type of H with
    | context [if ?c then _ else _] => destruct c eqn:?; cbn in H
    | context [match ?s with [] => _ | _ :: _ => _ end] =>
        destruct s as [|? ?]; cbn in H
    end.
  all: injection H as <- <- <-; cbn.
  all: split; [first [apply grows_refl
           |eexists; split; [rewrite <- ?app_assoc; reflexivity|reflexivity]]|].
  all: repeat split; try done; try lia.
  all: by destruct connected.
Qed.

(** [Connect] itself: it takes the lock, so it needs it free. *)
Lemma Connect_calls (im im' : Channel.Impl) (w w' : OS.World)
    (r : Channel.completion bool) :
  Channel.Connect strerror im w = (r, im', w') ->
  grows no_transfer (OS.trace w) (OS.trace w') /\
  Channel.buffer_ im' = Channel.buffer_ im /\
  match r with
  | Channel.Deadlock => Channel.mutex_ im = true /\ im' = im
  | Channel.Returns ok =>
      Channel.mutex_ im = false /\ Channel.mutex_ im' = false /\
      if ok then Channel.connected_ im' = true /\ 0 <= Channel.socket_fd_ im'
      else Channel.connected_ im' = Channel.connected_ im /\ Channel.socket_fd_ im' < 0
  end.
Proof.
  unfold Channel.Connect, Channel.locked. destruct (Channel.mutex_ im) eqn:Hm.
  - intros H. injection H as <- <- <-. split; [apply grows_refl|done].
  - destruct (Channel.Connect_body strerror (Channel.with_mutex true im) w)
      as [[ok im1] w1] eqn:E.
    intros H. injection H as <- <- <-.
    apply Connect_body_calls in E as (Hg & Hb & _ & Hok).
    split; [done|]. split; [done|]. split; [done|]. split; [done|].
    destruct ok; exact Hok.
Qed.

(** Once the frame is built, the first system call offers all of it to
    [send]. *)
Lemma transmit_sends_frame (frame_len : Z) (response_buffer : list byte)
    (response_buffer_size response_len : Z) (im im' : Channel.Impl) (w w' : OS.World)
    (r : Channel.completion Channel.rpc_result) :
  0 < frame_len < SIZE_MOD ->
  Channel.transmit host strerror frame_len response_buffer response_buffer_size
    response_len im w = (r, im', w') ->
  exists more,
    OS.trace w' = OS.trace w
                  ++ OS.sys_send (Channel.socket_fd_ im)
                       (take (Z.to_nat frame_len) (Channel.buffer_ im)) :: more.
Proof.
  intros Hlen. unfold Channel.transmit.
  assert (Hreceive : forall im1 w1 r im' w',
    match Channel.ReceiveData host strerror response_buffer response_buffer_size im1 w1 with
    | (Channel.Received true response received, im, w) =>
        (Channel.Returns (Channel.RpcReturn true response received), im, w)
    | (Channel.Received false response received, im, w) =>
        (Channel.Returns (Channel.RpcReturn false response received),
         Channel.with_error "Failed to receive response"
           (Channel.with_connected false im), w)
    | (Channel.ReceivedUndefined, im, w) => (Channel.Returns Channel.RpcUndefined, im, w)
    end = (r, im', w') -> grows any_call (OS.trace w1) (OS.trace w')).
  { intros im1 w1 r0 im0 w0 H.
    destruct (Channel.ReceiveData host strerror _ _ im1 w1) as [[rd im2] w2] eqn:E.
    apply ReceiveData_calls in E as [Hg _].
    apply (grows_weaken OS.is_recv any_call) in Hg; [|done].
    destruct rd as [[] ? ?|]; injection H as <- <- <-; exact Hg. }
  destruct (Channel.SendData strerror (Channel.buffer_ im) frame_len im w)
    as [[ok im1] w1] eqn:E1.
  apply SendData_first in E1 as (m1 & Ht1 & _); [|done].
  assert (Hrest : grows any_call (OS.trace w1) (OS.trace w') ->
          exists more, OS.trace w' = OS.trace w
            ++ OS.sys_send (Channel.socket_fd_ im)
                 (take (Z.to_nat frame_len) (Channel.buffer_ im)) :: more).
  { intros (m2 & -> & _). rewrite Ht1. exists (m1 ++ m2).
    by rewrite <- app_assoc. }
  intros H. apply Hrest. clear Hrest Ht1.
  destruct ok; [by eapply Hreceive|].
  destruct (Channel.Connect strerror (Channel.with_connected false im1) w1)
    as [[c im2] w2] eqn:E2.
  apply Connect_calls in E2 as (Hg2 & _).
  apply (grows_weaken no_transfer any_call) in Hg2; [|done].
  destruct c as [[]|].
  - destruct (Channel.SendData strerror (Channel.buffer_ im2) frame_len im2 w2)
      as [[ok3 im3] w3] eqn:E3.
    apply SendData_loop_calls in E3 as [Hg3 _].
    apply (grows_weaken OS.is_send any_call) in Hg3; [|done].
    destruct ok3.
    + apply Hreceive in H. eauto using grows_trans.
    + injection H as <- <- <-. eauto using grows_trans.
  - injection H as <- <- <-. exact Hg2.
  - injection H as <- <- <-. exact Hg2.
Qed.

(** A payload that leaves no room for END is refused once the header is
    written. *)
Lemma build_frame_too_large (routine_id : Z) (payload buffer : list byte) :
  scratch buffer ->
  Z.of_nat (length buffer) <= 10 + Z.of_nat (length payload) < SIZE_MOD ->
  Channel.build_frame host routine_id (Some payload) (Z.of_nat (length payload)) buffer
  = (Normal (inl "Request payload too large"%string),
     frame_header_bytes routine_id ++ drop 10 buffer).
Proof.
  intros [Hmin Hmax] Hbig. unfold SIZE_MOD in Hbig.
  unfold Channel.build_frame. cbv zeta.
  unfold CalculatorService.with_buffer, ByteBuffer.new.
  destruct (Z.of_nat (length buffer) =? 0) eqn:E0; [lia|].
  set (b0 := {| buffer_ := buffer; length_ := Z.of_nat (length buffer);
                position_ := 0 |}).
  assert (Hwf : wf b0) by (unfold wf, b0; simpl; lia).
  assert (Hr : remaining b0 = Z.of_nat (length buffer)) by (unfold remaining, b0; simpl; lia).
  rewrite header_then by (done || lia).
  assert (Hh : length (frame_header_bytes routine_id) = 10%nat)
    by (unfold frame_header_bytes; rewrite !length_app, !length_be_bytes; lia).
  destruct (0 <? Z.of_nat (length payload)) eqn:Epos; [|lia].
  set (b1 := write_at b0 (frame_header_bytes routine_id)).
  assert (Hpos1 : position_ b1 = 10)
    by (unfold b1, write_at; cbn [position_ b0]; rewrite Hh; reflexivity).
  unfold Position. rewrite Hpos1.
  rewrite size_add_small by lia.
  destruct (Z.of_nat (length buffer) <=? 10 + Z.of_nat (length payload)) eqn:Ebig; [|lia].
  unfold b1, write_at. cbn [buffer_ position_ b0]. rewrite Hh. reflexivity.
Qed.

End ChannelCalls.

(** How [ExecuteRPC] gives back the lock it took. *)
Definition unlocked
    (r : Channel.completion Channel.rpc_result * Channel.Impl * OS.World)
    : Channel.completion Channel.rpc_result * Channel.Impl * OS.World :=
  match r with
  | (Channel.Deadlock, im, w) => (Channel.Deadlock, im, w)
  | (Channel.Returns r, im, w) => (Channel.Returns r, Channel.with_mutex false im, w)
  end.

(** A channel that has never been connected, a payload of 8182 bytes,
    which with the eleven bytes around it exceeds the 8192 of a frame,
    and a world that grants the socket and the connection. *)
Definition fresh_channel : Channel.Impl := Channel.Impl_new "/tmp/ipc_demo.sock" 5000.

Definition oversize_payload : list byte := repeat x00 (Z.to_nat 8182).

Definition granting_world : OS.World :=
  {| OS.script := [ {| OS.ret := 3; OS.errno := 0; OS.data := [] |};
                    {| OS.ret := 0; OS.errno := 0; OS.data := [] |} ];
     OS.trace := [] |}.

(** C7, as stated, fails: on a channel that is not connected, a call
    whose payload does not fit creates a socket and connects it before
    the size is looked at. The call then returns [false] with
    [Request payload too large], and the channel is left connected. *)
Lemma oversize_request_connects_first :
  let called :=
    Channel.ExecuteRPC LittleEndian (fun _ => "error"%string) 0x1000
      (Some oversize_payload) 8182 [] 0 0 fresh_channel granting_world in
  Protocol.MAX_PACKET_SIZE < 11 + Z.of_nat (length oversize_payload) /\
  Channel.connected_ fresh_channel = false /\
  fst (fst called) = Channel.Returns (Channel.RpcReturn false [] 0) /\
  Channel.last_error_ (snd (fst called)) = "Request payload too large"%string /\
  OS.trace (snd called)
  = [OS.sys_socket; OS.sys_fcntl_getfl 3; OS.sys_fcntl_setfl 3 true;
     OS.sys_connect 3 "/tmp/ipc_demo.sock"; OS.sys_fcntl_setfl 3 false;
     OS.sys_setsockopt_rcvtimeo 3 5 0; OS.sys_setsockopt_sndtimeo 3 5 0] /\
  Channel.connected_ (snd (fst called)) = true /\
  Channel.socket_fd_ (snd (fst called)) = 3.
Proof. cbv zeta. repeat split; vm_compute; reflexivity. Qed.

(** C7, amended. [ExecuteRPC] on a channel whose lock is free and whose
    scratch buffer has the 8192 bytes of [MAX_PACKET_SIZE].
    - The connection comes first: a connected channel is left alone and
      no call is made for it; for any other [Connect] runs, with the
      calls it needs to create and connect a socket but no [send] and no
      [recv]; when it fails, [ExecuteRPC] returns [false] with [Failed to
      establish connection] and nothing is encoded.
    - When it holds a connection and the frame of [11 + request_len] bytes
      fits, the scratch buffer holds START, the frame length on four
      bytes, the routine id, VERSION, the payload and END, followed by
      what it held before; the rest of the call is the transfer of that
      buffer, and its first call is the [send] of exactly the frame on
      the channel's descriptor.
    - When it holds a connection and the frame does not fit, the call
      returns [false] once the header is written, with the caller's
      response untouched and [Request payload too large] as the error:
      no call follows the connection, the channel stays connected and
      the lock is free again.
    - A null request is a request without payload, whatever length comes
      with it. *)
Theorem ExecuteRPC_frames_request (host : Host) (strerror : Z -> string)
    (routine_id : Z) (payload response_buffer : list byte)
    (response_buffer_size response_len : Z) (im : Channel.Impl) (w : OS.World) :
  Channel.mutex_ im = false ->
  Z.of_nat (length (Channel.buffer_ im)) = Protocol.MAX_PACKET_SIZE ->
  10 + Z.of_nat (length payload) < SIZE_MOD ->
  let request_len := Z.of_nat (length payload) in
  let frame_len := 11 + request_len in
  let frame := frame_layout frame_len routine_id payload in
  let ensured := Channel.EnsureConnected strerror im w in
  let im1 := snd (fst ensured) in
  let w1 := snd ensured in
  let called :=
    Channel.ExecuteRPC host strerror routine_id (Some payload) request_len
      response_buffer response_buffer_size response_len im w in
  ((Channel.connected_ im && (0 <=? Channel.socket_fd_ im) = true ->
    ensured = (Channel.Returns true, im, w)) /\
   (Channel.connected_ im && (0 <=? Channel.socket_fd_ im) = false ->
    ensured = Channel.Connect strerror im w) /\
   (exists ok, fst (fst ensured) = Channel.Returns ok) /\
   grows no_transfer (OS.trace w) (OS.trace w1) /\
   Channel.buffer_ im1 = Channel.buffer_ im) /\
  (fst (fst ensured) = Channel.Returns false ->
   called
   = (Channel.Returns (Channel.RpcReturn false response_buffer response_len),
      Channel.with_error "Failed to establish connection" im1, w1)) /\
  (fst (fst ensured) = Channel.Returns true -> frame_len <= Protocol.MAX_PACKET_SIZE ->
   Channel.build_frame host routine_id (Some payload) request_len (Channel.buffer_ im1)
   = (Normal (inr frame_len), frame ++ drop (length frame) (Channel.buffer_ im)) /\
   called
   = unlocked
       (Channel.transmit host strerror frame_len response_buffer response_buffer_size
          response_len
          (Channel.with_buffer (frame ++ drop (length frame) (Channel.buffer_ im))
             (Channel.with_mutex true im1)) w1) /\
   exists more,
     OS.trace (snd called)
     = OS.trace w1 ++ OS.sys_send (Channel.socket_fd_ im1) frame :: more) /\
  (fst (fst ensured) = Channel.Returns true -> Protocol.MAX_PACKET_SIZE < frame_len ->
   called
   = (Channel.Returns (Channel.RpcReturn false response_buffer response_len),
      Channel.with_error "Request payload too large"
        (Channel.with_buffer
           (frame_header_bytes routine_id ++ drop 10 (Channel.buffer_ im)) im1),
      w1) /\
   Channel.connected_ (snd (fst called)) = true /\
   Channel.mutex_ (snd (fst called)) = false) /\
  (forall n,
     Channel.ExecuteRPC host strerror routine_id None n
       response_buffer response_buffer_size response_len im w
     = Channel.ExecuteRPC host strerror routine_id (Some []) 0
         response_buffer response_buffer_size response_len im w).
Proof.
  intros Hm Hsize Hwrap. cbv zeta. unfold SIZE_MOD in *.
  assert (Hscratch : scratch (Channel.buffer_ im))
    by (unfold scratch; rewrite Hsize; done).
  unfold Protocol.MAX_PACKET_SIZE in *.
  assert (Hensured :
    exists ok im1 w1,
      Channel.EnsureConnected strerror im w = (Channel.Returns ok, im1, w1) /\
      grows no_transfer (OS.trace w) (OS.trace w1) /\
      Channel.buffer_ im1 = Channel.buffer_ im /\ Channel.mutex_ im1 = false /\
      (ok = true -> Channel.connected_ im1 = true)).
  { unfold Channel.EnsureConnected.
    destruct (Channel.connected_ im && (0 <=? Channel.socket_fd_ im)) eqn:E0.
    - exists true, im, w. apply andb_prop in E0 as [Hc _].
      split; [done|]. split; [apply grows_refl|]. done.
    - destruct (Channel.Connect strerror im w) as [[c im1] w1] eqn:EC.
      apply Connect_calls in EC as (Hg & Hbuf & Hc).
      destruct c as [ok|]; [|destruct Hc; congruence].
      exists ok, im1, w1. destruct Hc as (_ & Hm1 & Hok).
      split; [done|]. split; [done|]. split; [done|]. split; [done|].
      intros ->. tauto. }
  destruct Hensured as (ok & im1 & w1 & Heq & Hg & Hbuf & Hm1 & Hcon).
  split; [|split; [|split; [|split]]].
  - split; [|split; [|split; [|split]]].
    + unfold Channel.EnsureConnected. by intros ->.
    + unfold Channel.EnsureConnected. by intros ->.
    + exists ok. by rewrite Heq.
    + by rewrite Heq.
    + by rewrite Heq.
  - unfold Channel.ExecuteRPC. rewrite Heq. cbn [fst snd]. by intros [= ->].
  - unfold Channel.ExecuteRPC. rewrite Heq. cbn [fst snd]. intros [= ->] Hfit.
    rewrite Hbuf, Hm1.
    pose proof (build_frame_fits host routine_id payload (Channel.buffer_ im)
                  Hscratch ltac:(lia)) as Hbuild.
    rewrite length_frame_layout. split; [exact Hbuild|].
    cbn [Channel.buffer_ Channel.with_mutex]. rewrite Hbuf, Hbuild.
    set (encoded := Channel.with_buffer _ _).
    change (Channel.with_buffer
              (frame_layout (11 + Z.of_nat (length payload)) routine_id payload
               ++ drop (11 + length payload) (Channel.buffer_ im))
              (Channel.with_mutex true im1)) with encoded.
    destruct (Channel.transmit host strerror _ _ _ _ encoded w1) as [[r im2] w2] eqn:E.
    split; [by destruct r|].
    apply transmit_sends_frame in E as (more & Ht); [|unfold SIZE_MOD; lia].
    unfold encoded in Ht.
    cbn [Channel.buffer_ Channel.with_buffer Channel.socket_fd_ Channel.with_mutex] in Ht.
    rewrite take_app_length' in Ht by (rewrite length_frame_layout; lia).
    exists more. destruct r; exact Ht.
  - unfold Channel.ExecuteRPC. rewrite Heq. cbn [fst snd]. intros [= ->] Hbig.
    specialize (Hcon eq_refl).
    pose proof (build_frame_too_large host routine_id payload (Channel.buffer_ im)
                  Hscratch ltac:(unfold SIZE_MOD; lia)) as Hbuild.
    rewrite Hm1. cbn [Channel.buffer_ Channel.with_mutex]. rewrite Hbuf, Hbuild.
    destruct im1 as [path timeout fd connected err mutex buffer].
    cbn in Hm1, Hcon |- *. subst mutex connected. done.
  - intros n. reflexivity.
Qed.

Lemma ExecuteRPC_frames_request_witness :
  Channel.ExecuteRPC LittleEndian (fun _ => "error"%string) 0x1000
    (Some oversize_payload) (Z.of_nat (length oversize_payload)) [] 0 0
    fresh_channel granting_world
  = (Channel.Returns (Channel.RpcReturn false [] 0),
     Channel.with_error "Request payload too large"
       (Channel.with_buffer
          (frame_header_bytes 0x1000 ++ drop 10 (Channel.buffer_ fresh_channel))
          (snd (fst (Channel.EnsureConnected (fun _ => "error"%string) fresh_channel
                       granting_world)))),
     snd (Channel.EnsureConnected (fun _ => "error"%string) fresh_channel
            granting_world)).
Proof.
  apply (ExecuteRPC_frames_request LittleEndian (fun _ => "error"%string) 0x1000
           oversize_payload [] 0 0 fresh_channel granting_world).
  - reflexivity.
  - reflexivity.
  - vm_compute. reflexivity.
  - reflexivity.
  - vm_compute. reflexivity.
Defined.

(* ================================================================== *)
(** * Further properties of the codec *)

Definition POSITION_MESSAGE : string :=
  "ByteBuffer::SetPosition: position exceeds buffer length".
Definition PUT_ARRAY_NULL : string := "ByteBuffer::PutArray: data cannot be null".
Definition GET_ARRAY_NULL : string := "ByteBuffer::GetArray: data cannot be null".
Definition GET_ARRAY_LONG : string :=
  "ByteBuffer::GetArray: array size exceeds destination buffer".

(** An array on the wire: its length in four bytes, then its bytes. *)
Definition wire_array (d : list byte) : list byte :=
  be_bytes 4 (Z.of_nat (length d)) ++ d.

Lemma writes_PutArray (host : Host) (d : list byte) :
  Z.of_nat (length d) < 2 ^ 32 ->
  writes (PutArray host (Some d) (Z.of_nat (length d))) (wire_array d).
Proof.
  intros Hd. unfold PutArray, wire_array.
  apply writes_bind; [apply writes_PutInt|].
  destruct (0 <? Z.of_nat (length d)) eqn:E.
  - by apply writes_WriteBytes.
  - destruct d; [apply writes_ret|].
    apply Z.ltb_ge in E. cbn [length] in E. lia.
Qed.

Lemma reads_GetArray (host : Host) (d : list byte) (data_null : bool) (max_len : Z) :
  Z.of_nat (length d) < 2 ^ 32 -> Z.of_nat (length d) <= max_len ->
  (data_null = true -> d = []) ->
  reads (GetArray host data_null max_len) (wire_array d) (Z.of_nat (length d), d).
Proof.
  intros Hd Hm Hnull. unfold GetArray, wire_array.
  eapply reads_bind; [apply reads_GetInt, length_be_bytes|].
  rewrite be_value_be_bytes_4 by lia.
  destruct (0 <? Z.of_nat (length d)) eqn:E.
  - destruct data_null; [rewrite Hnull in E by done; discriminate E|].
    cbn [andb]. destruct (max_len <? Z.of_nat (length d)) eqn:E1; [lia|].
    rewrite <- (app_nil_r d) at 2.
    eapply reads_bind; [apply reads_ReadBytes|apply reads_ret].
  - rewrite andb_false_r.
    destruct (max_len <? Z.of_nat (length d)) eqn:E1; [lia|].
    destruct d; [apply reads_ret|].
    apply Z.ltb_ge in E. cbn [length] in E. lia.
Qed.

(** [SetPosition] accepts every position up to the capacity, the
    capacity itself included, and refuses any other with [out_of_range],
    leaving the buffer as it was. It never touches the contents. With
    the cursor at the capacity nothing more is written or read. [Reset]
    is [SetPosition(0)]. *)
Theorem SetPosition_bounds (host : Host) (b : ByteBuffer.t) (pos : Z) :
  wf b -> 0 <= pos ->
  (Capacity b < pos ->
   SetPosition pos b = (Throw (out_of_range_error POSITION_MESSAGE), b)) /\
  (pos <= Capacity b ->
   exists b', SetPosition pos b = (Normal tt, b') /\ wf b' /\
     Position b' = pos /\ Capacity b' = Capacity b /\ buffer_ b' = buffer_ b) /\
  (forall v,
     (SetPosition (Capacity b) ;; PutByte host v) b
     = (Throw (overflow_error WRITE_MESSAGE),
        {| buffer_ := buffer_ b; length_ := length_ b; position_ := length_ b |}) /\
     (SetPosition (Capacity b) ;; GetByte host) b
     = (Throw (underflow_error READ_MESSAGE),
        {| buffer_ := buffer_ b; length_ := length_ b; position_ := length_ b |})) /\
  Reset b = SetPosition 0 b.
Proof.
  intros Hwf Hpos. pose proof Hwf as (Hp & Hl & Hc). unfold Capacity, Position.
  split; [|split; [|split]].
  - intros H. unfold SetPosition. by destruct (length_ b <? pos) eqn:E; [|lia].
  - intros H. eexists. split; [by apply SetPosition_ok|].
    split; [unfold wf; simpl; lia|done].
  - intros v.
    set (b' := {| buffer_ := buffer_ b; length_ := length_ b; position_ := length_ b |}).
    assert (Hwf' : wf b') by (unfold wf, b'; simpl; lia).
    assert (Hr : remaining b' = 0) by (unfold remaining, b'; simpl; lia).
    unfold bind. rewrite SetPosition_ok by lia. fold b'. split.
    + apply WriteBytes_overflow; [done|lia|lia].
    + apply (read_then_underflow 1); [done|lia|lia].
  - unfold Reset. rewrite SetPosition_ok by lia. done.
Qed.

Lemma SetPosition_bounds_witness :
  SetPosition 6 five_bytes = (Throw (out_of_range_error POSITION_MESSAGE), five_bytes).
Proof.
  apply (SetPosition_bounds LittleEndian five_bytes 6);
    [unfold wf; simpl; lia|lia|simpl; lia].
Defined.

(** A [float], as its 32-bit pattern, comes back unchanged from
    [GetFloat] on the host that wrote it. *)
Theorem PutFloat_GetFloat_round_trip (host : Host) (b : ByteBuffer.t) (v : Z) :
  wf b -> 0 <= v < 2 ^ 32 -> 4 <= remaining b ->
  round_trip (PutFloat host v) (GetFloat host) v b.
Proof.
  intros Hwf Hv Hr.
  apply (round_trip_wire _ _ (object_bytes host 4 v)); [| |done|].
  - apply writes_PutFloat.
  - replace v with (object_value host (object_bytes host 4 v)) at 2.
    + apply reads_GetFloat, length_object_bytes.
    + rewrite object_value_bytes. apply Z.mod_small. simpl. lia.
  - by rewrite length_object_bytes.
Qed.

Lemma PutFloat_GetFloat_round_trip_witness :
  round_trip (PutFloat BigEndian 0x3F800000) (GetFloat BigEndian) 0x3F800000
    sixty_four_bytes.
Proof.
  apply PutFloat_GetFloat_round_trip;
    [unfold wf; simpl; lia|lia|unfold remaining; simpl; lia].
Defined.

(** A byte array written by [PutArray] comes back from [GetArray] with
    its length, for every destination that is large enough; the empty
    array does so with null pointers on both sides. *)
Theorem PutArray_GetArray_round_trip (host : Host) (b : ByteBuffer.t)
    (d : list byte) (max_len : Z) :
  wf b -> Z.of_nat (length d) < 2 ^ 32 -> Z.of_nat (length d) <= max_len ->
  4 + Z.of_nat (length d) <= remaining b ->
  round_trip (PutArray host (Some d) (Z.of_nat (length d)))
    (GetArray host false max_len) (Z.of_nat (length d), d) b /\
  (d = [] ->
   round_trip (PutArray host None 0) (GetArray host true max_len) (0, []) b).
Proof.
  intros Hwf Hd Hm Hr.
  assert (Hlen : Z.of_nat (length (wire_array d)) = 4 + Z.of_nat (length d))
    by (unfold wire_array; rewrite length_app, length_be_bytes; lia).
  split.
  - apply (round_trip_wire _ _ (wire_array d)); [| |done|lia].
    + by apply writes_PutArray.
    + by apply reads_GetArray.
  - intros ->.
    apply (round_trip_wire _ _ (wire_array [])); [| |done|simpl in *; lia].
    + intros b0 Hwf0 Hr0.
      apply (writes_PutArray host [] ltac:(simpl; lia) b0 Hwf0 Hr0).
    + by apply (reads_GetArray host [] true max_len).
Qed.

Lemma PutArray_GetArray_round_trip_witness :
  round_trip (PutArray LittleEndian (Some [x01; x02; x03]) 3)
    (GetArray LittleEndian false 8) (3, [x01; x02; x03]) sixty_four_bytes.
Proof.
  apply (PutArray_GetArray_round_trip LittleEndian sixty_four_bytes [x01; x02; x03] 8);
    [unfold wf; simpl; lia|simpl; lia|simpl; lia|unfold remaining; simpl; lia].
Defined.

(** Null pointers. [PutArray] with a null source and a non-zero length
    throws [invalid_argument], after the length prefix is written.
    [GetArray] with a null destination throws [invalid_argument] for
    every non-zero length on the wire, before the length is compared with
    the destination size and whether or not the bytes are there; the
    cursor is left behind the length prefix. *)
Theorem array_null_pointers (host : Host) (b : ByteBuffer.t) (len max_len : Z) :
  wf b -> 0 < len < 2 ^ 32 ->
  (4 <= remaining b ->
   PutArray host None len b
   = (Throw (invalid_argument PUT_ARRAY_NULL), write_at b (be_bytes 4 len))) /\
  (starts_with b (be_bytes 4 len) ->
   GetArray host true max_len b
   = (Throw (invalid_argument GET_ARRAY_NULL), advance b 4)).
Proof.
  intros Hwf Hlen. split.
  - intros Hr. unfold PutArray, bind. rewrite PutInt_ok by done.
    destruct (0 <? len) eqn:E; [done|lia].
  - intros Hs. unfold GetArray. unfold bind at 1.
    rewrite (GetInt_ok host b len); [|done|done|lia].
    destruct (0 <? len) eqn:E; [done|lia].
Qed.

Lemma array_null_pointers_witness :
  PutArray LittleEndian None 3 sixty_four_bytes
  = (Throw (invalid_argument PUT_ARRAY_NULL),
     write_at sixty_four_bytes (be_bytes 4 3)).
Proof.
  apply (array_null_pointers LittleEndian sixty_four_bytes 3 0);
    [unfold wf; simpl; lia|lia|unfold remaining; simpl; lia].
Defined.

(** The value a little-endian host reads from the bytes a big-endian
    host stored, and the other way round. *)
Definition byte_swapped (n : nat) (v : Z) : Z := be_value (le_bytes n v).

(** Byte order on the wire. Integers, strings and maps are written in
    network byte order: the bytes do not depend on the host. Doubles are
    written as the host stores them: read on a host of the other byte
    order, a double comes back with its eight bytes reversed, so that
    1.0 does not come back as 1.0. *)
Theorem wire_byte_order (h1 h2 : Host) (b : ByteBuffer.t) :
  wf b ->
  (forall v, PutByte h1 v b = PutByte h2 v b) /\
  (forall v, PutShort h1 v b = PutShort h2 v b) /\
  (forall v, PutInt h1 v b = PutInt h2 v b) /\
  (forall v, PutLong h1 v b = PutLong h2 v b) /\
  (forall s, PutString h1 s b = PutString h2 s b) /\
  (forall v, h1 <> h2 -> 8 <= remaining b ->
     round_trip (PutDouble h1 v) (GetDouble h2) (byte_swapped 8 v) b) /\
  byte_swapped 8 double_1 = 0x000000000000F03F.
Proof.
  intros Hwf.
  assert (Hbyte : forall h v, PutByte h v = WriteBytes (be_bytes 1 v) 1).
  { intros h v. unfold PutByte. by rewrite object_bytes_1. }
  assert (Hshort : forall h v, PutShort h v = WriteBytes (be_bytes 2 v) 2).
  { intros h v. unfold PutShort. by rewrite object_bytes_htons. }
  assert (Hint : forall h v, PutInt h v = WriteBytes (be_bytes 4 v) 4).
  { intros h v. unfold PutInt. by rewrite object_bytes_htonl. }
  split; [intros v; by rewrite !Hbyte|].
  split; [intros v; by rewrite !Hshort|].
  split; [intros v; by rewrite !Hint|].
  split; [intros v; unfold PutLong; by rewrite !object_bytes_htonl|].
  split; [intros s; unfold PutString; by rewrite !Hint|].
  split; [|reflexivity].
  intros v Hne Hr.
  apply (round_trip_wire _ _ (object_bytes h1 8 v)); [| |done|].
  - apply writes_PutDouble.
  - replace (byte_swapped 8 v) with (object_value h2 (object_bytes h1 8 v))
      by (destruct h1, h2; done).
    apply reads_GetDouble, length_object_bytes.
  - by rewrite length_object_bytes.
Qed.

Lemma wire_byte_order_witness :
  round_trip (PutDouble BigEndian double_1) (GetDouble LittleEndian)
    0x000000000000F03F sixty_four_bytes.
Proof.
  apply (wire_byte_order BigEndian LittleEndian sixty_four_bytes);
    [unfold wf; simpl; lia|discriminate|unfold remaining; simpl; lia].
Defined.

Lemma lookup_fold_insert_kept (after : list (string * string)) :
  forall (m : gmap string string) (k v : string),
  k ∉ after.*1 -> m !! k = Some v ->
  fold_left (fun acc kv => <[fst kv := snd kv]> acc) after m !! k = Some v.
Proof.
  induction after as [|[k' v'] after IH]; intros m k v Hk Hm; [done|].
  cbn [fold_left fst snd]. rewrite fmap_cons in Hk.
  apply not_elem_of_cons in Hk as [Hne Hk].
  apply IH; [done|]. by rewrite lookup_insert_ne.
Qed.

Lemma size_fold_insert (entries : list (string * string)) :
  forall m : gmap string string,
  (size (fold_left (fun acc kv => <[fst kv := snd kv]> acc) entries m)
   <= size m + length entries)%nat.
Proof.
  induction entries as [|[k v] entries IH]; intros m; cbn [fold_left fst snd length].
  - lia.
  - specialize (IH (<[k := v]> m)).
    rewrite map_size_insert in IH. destruct (m !! k); simpl in IH; lia.
Qed.

(** [GetMap] stores each entry with [result[key] = value]: of two
    entries on the wire with the same key the later one stays, and the
    map returned can hold fewer entries than the count on the wire, for
    which the allocator has granted the table. *)
Theorem GetMap_keeps_last_duplicate (host : Host) (reserve : Z -> bool)
    (b : ByteBuffer.t) (entries : list (string * string)) :
  wf b -> short_strings entries -> Z.of_nat (length entries) < 2 ^ 32 ->
  reserve (Z.of_nat (length entries)) = true ->
  starts_with b (wire_map entries) ->
  exists m,
    GetMap host reserve b
    = (Normal m, advance b (Z.of_nat (length (wire_map entries)))) /\
    (forall before k v after,
       entries = before ++ (k, v) :: after -> k ∉ after.*1 -> m !! k = Some v) /\
    (forall k v1 v2 before between after,
       entries = before ++ (k, v1) :: between ++ (k, v2) :: after ->
       size m < length entries)%nat.
Proof.
  intros Hwf Hs Hn Hreserve Hstart.
  exists (fold_left (fun acc kv => <[fst kv := snd kv]> acc) entries ∅).
  split; [by apply reads_GetMap|]. split.
  - intros before k v after -> Hk. rewrite fold_left_app. cbn [fold_left fst snd].
    apply lookup_fold_insert_kept; [done|]. apply lookup_insert_eq.
  - intros k v1 v2 before between after ->.
    rewrite fold_left_app. cbn [fold_left fst snd].
    rewrite fold_left_app. cbn [fold_left fst snd].
    set (m0 := fold_left _ before ∅).
    set (m1 := fold_left _ between (<[k := v1]> m0)).
    pose proof (size_fold_insert after (<[k := v2]> m1)) as H3.
    pose proof (size_fold_insert between (<[k := v1]> m0)) as H2. fold m1 in H2.
    pose proof (size_fold_insert before ∅) as H1. fold m0 in H1.
    rewrite map_size_empty in H1.
    assert (Hin : is_Some (m1 !! k)).
    { destruct (decide (k ∈ between.*1)) as [Hin|Hout].
      - clear -Hin. subst m1. revert Hin. generalize (<[k := v1]> m0).
        induction between as [|[k' v'] between IH]; intros m Hin.
        + by apply elem_of_nil in Hin.
        + rewrite fmap_cons in Hin. cbn [fold_left fst snd] in *.
          destruct (decide (k ∈ between.*1)) as [Hin'|Hout'].
          * by apply IH.
          * apply elem_of_cons in Hin as [->|Hin]; [|done].
            exists v'. apply lookup_fold_insert_kept; [done|]. apply lookup_insert_eq.
      - exists v1. apply lookup_fold_insert_kept; [done|]. apply lookup_insert_eq. }
    rewrite map_size_insert in H3. destruct Hin as [x Hx]. rewrite Hx in H3.
    rewrite map_size_insert in H2.
    rewrite !length_app. cbn [length]. rewrite length_app. cbn [length].
    destruct (m0 !! k); simpl in *; lia.
Qed.

(** Two entries for the key [k] on the wire. *)
Definition duplicate_entries : list (string * string) :=
  [("k", "first"); ("k", "second")]%string.

Definition duplicate_buffer : ByteBuffer.t :=
  {| buffer_ := wire_map duplicate_entries;
     length_ := Z.of_nat (length (wire_map duplicate_entries)); position_ := 0 |}.

Lemma GetMap_keeps_last_duplicate_witness :
  exists m,
    GetMap LittleEndian (fun count => count <? 1024) duplicate_buffer
    = (Normal m, advance duplicate_buffer
                   (Z.of_nat (length (wire_map duplicate_entries)))) /\
    m !! "k"%string = Some "second"%string /\ (size m < 2)%nat.
Proof.
  destruct (GetMap_keeps_last_duplicate LittleEndian (fun count => count <? 1024)
              duplicate_buffer duplicate_entries)
    as (m & Hget & Hlast & Hsize).
  - unfold wf. simpl. lia.
  - repeat constructor; simpl; lia.
  - simpl. lia.
  - reflexivity.
  - split; [simpl; lia|reflexivity].
  - exists m. split; [exact Hget|]. split.
    + apply (Hlast [("k", "first")]%string "k"%string "second"%string []);
        [reflexivity|apply not_elem_of_nil].
    + exact (Hsize "k"%string "first"%string "second"%string [] [] [] eq_refl).
Defined.

(* ================================================================== *)
(** * Further properties of the handler registry *)

(** What [IsRoutinePresent] and [GetServiceCount] answer after
    [RegisterService]: an accepted handler makes the count one more; a
    refused one leaves the count and every answer as they were; after
    the call the routine id of a non-null handler is present in either
    case, and no id that was present has gone. *)
Theorem RegisterService_counts (sm : ServiceManager.t)
    (service : option ServiceManager.IService) :
  let registered := ServiceManager.RegisterService service sm in
  let sm' := snd (fst registered) in
  (fst (fst registered) = Normal true ->
   ServiceManager.GetServiceCount sm' = ServiceManager.GetServiceCount sm + 1) /\
  (fst (fst registered) = Normal false ->
   ServiceManager.GetServiceCount sm' = ServiceManager.GetServiceCount sm /\
   forall id, ServiceManager.IsRoutinePresent id sm'
              = ServiceManager.IsRoutinePresent id sm) /\
  (forall s, service = Some s ->
     ServiceManager.IsRoutinePresent (ServiceManager.GetRequestRoutineId s) sm' = true) /\
  (forall id, ServiceManager.IsRoutinePresent id sm = true ->
     ServiceManager.IsRoutinePresent id sm' = true).
Proof.
  cbv zeta. unfold ServiceManager.RegisterService, ServiceManager.GetServiceCount,
    ServiceManager.IsRoutinePresent.
  destruct service as [s|]; cbn [fst snd ServiceManager.lock ServiceManager.unlock
    ServiceManager.services_ ServiceManager.mutex_].
  2:{ repeat split; try done. }
  destruct (ServiceManager.services_ sm !! ServiceManager.GetRequestRoutineId s)
    as [first|] eqn:E;
    cbn [fst snd ServiceManager.services_ ServiceManager.lock ServiceManager.unlock].
  - split; [done|]. split; [done|]. split.
    + intros s0 [= <-]. apply bool_decide_eq_true. by rewrite E.
    + done.
  - split; [|split; [done|split]].
    + intros _. rewrite map_size_insert, E. simpl. lia.
    + intros s0 [= <-]. apply bool_decide_eq_true. rewrite lookup_insert_eq. done.
    + intros id Hid. apply bool_decide_eq_true. apply bool_decide_eq_true in Hid.
      destruct (decide (ServiceManager.GetRequestRoutineId s = id)) as [->|Hne].
      * by rewrite lookup_insert_eq.
      * by rewrite lookup_insert_ne.
Qed.

(** [Clear] empties the registry whatever it held: no routine is
    present, the count is zero, no handler is listed, every dispatch
    returns 0 and leaves the output alone, and a handler refused before
    as a duplicate is accepted again. *)
Theorem Clear_empties_registry (sm : ServiceManager.t) :
  let sm' := ServiceManager.Clear sm in
  ServiceManager.GetServiceCount sm' = 0 /\
  ServiceManager.GetAllServices sm' = [] /\
  (forall id, ServiceManager.IsRoutinePresent id sm' = false) /\
  (forall id input input_len output output_len,
     fst (ServiceManager.ExecuteService id input input_len output output_len sm')
     = (Normal 0, output)) /\
  (forall s, fst (fst (ServiceManager.RegisterService (Some s) sm')) = Normal true).
Proof.
  cbv zeta. unfold ServiceManager.Clear, ServiceManager.GetServiceCount,
    ServiceManager.GetAllServices, ServiceManager.IsRoutinePresent,
    ServiceManager.ExecuteService, ServiceManager.RegisterService.
  cbn [ServiceManager.services_ ServiceManager.lock ServiceManager.unlock
       ServiceManager.mutex_].
  split; [by rewrite map_size_empty|].
  split; [by rewrite map_to_list_empty|].
  split; [intros id; apply bool_decide_eq_false; rewrite lookup_empty; by intros []|].
  split; [intros; by rewrite lookup_empty|].
  intros s. by rewrite lookup_empty.
Qed.

(** [GetAllServices] lists the registered handlers and nothing else, one
    entry for each registered routine id. *)
Theorem GetAllServices_lists_registry (sm : ServiceManager.t) :
  Z.of_nat (length (ServiceManager.GetAllServices sm))
  = ServiceManager.GetServiceCount sm /\
  (forall s, In s (ServiceManager.GetAllServices sm) <->
             exists id, ServiceManager.services_ sm !! id = Some s) /\
  (forall s, fst (fst (ServiceManager.RegisterService (Some s) sm)) = Normal true ->
     In s (ServiceManager.GetAllServices
             (snd (fst (ServiceManager.RegisterService (Some s) sm))))).
Proof.
  unfold ServiceManager.GetAllServices, ServiceManager.GetServiceCount.
  assert (Hin : forall (m : gmap Z ServiceManager.IService) s,
            In s (map snd (map_to_list m)) <-> exists id, m !! id = Some s).
  { intros m s. rewrite in_map_iff. split.
    - intros ([id s'] & <- & Hin). exists id.
      apply elem_of_map_to_list. by apply list_elem_of_In.
    - intros (id & Hid). exists (id, s). split; [done|].
      apply list_elem_of_In. by apply elem_of_map_to_list. }
  split; [|split].
  - rewrite length_map. by rewrite length_map_to_list.
  - intros s. apply Hin.
  - intros s. unfold ServiceManager.RegisterService.
    cbn [ServiceManager.lock ServiceManager.unlock ServiceManager.services_].
    destruct (ServiceManager.services_ sm !! ServiceManager.GetRequestRoutineId s)
      eqn:E;
      cbn [fst snd ServiceManager.services_ ServiceManager.lock ServiceManager.unlock];
      [done|].
    intros _. apply Hin. exists (ServiceManager.GetRequestRoutineId s).
    apply lookup_insert_eq.
Qed.

(* ================================================================== *)
(** * Further properties of the calculator service and its client *)

Lemma writes_then {A} (p : M unit) (l : list byte) (k : M A) (b : ByteBuffer.t) :
  writes p l -> wf b -> Z.of_nat (length l) <= remaining b ->
  (p ;; k) b = k (write_at b l).
Proof. intros Hp Hwf Hr. unfold bind. by rewrite Hp. Qed.

Section Responses.
Variable host : Host.

(** The last steps of a response: END, then the length patched in and
    returned. *)
Lemma finish_response (b0 : ByteBuffer.t) (routine_id : Z) (payload : list byte) :
  wf b0 -> position_ b0 = 0 -> length_ b0 < 2 ^ 32 ->
  11 + Z.of_nat (length payload) <= length_ b0 ->
  (PutByte host Protocol.END_BYTE ;;
   fun response =>
     let total_len := Position response in
     (SetPosition 1 ;; PutInt host (to_uint32 total_len) ;; ret total_len) response)
    (write_at b0 (frame_header_bytes routine_id ++ payload))
  = (Normal (11 + Z.of_nat (length payload)),
     {| buffer_ :=
          frame_layout (11 + Z.of_nat (length payload)) routine_id payload
          ++ drop (11 + length payload) (buffer_ b0);
        length_ := length_ b0; position_ := 5 |}).
Proof.
  intros Hwf Hp Hmax Hfit.
  assert (Hr : remaining b0 = length_ b0) by (unfold remaining; lia).
  assert (Hh : length (frame_header_bytes routine_id ++ payload)
               = (10 + length payload)%nat).
  { unfold frame_header_bytes. rewrite !length_app, !length_be_bytes. lia. }
  assert (Hwf1 : wf (write_at b0 (frame_header_bytes routine_id ++ payload)))
    by (apply wf_write_at; [done|lia]).
  unfold bind at 1.
  rewrite PutByte_ok; [|done|rewrite remaining_write_at; lia].
  rewrite write_at_app by (done || rewrite length_be_bytes; lia).
  replace ((frame_header_bytes routine_id ++ payload) ++ be_bytes 1 Protocol.END_BYTE)
    with (frame_layout 0 routine_id payload)
    by (unfold frame_layout, frame_header_bytes; by rewrite <- !app_assoc).
  cbv zeta. unfold Position. cbn [write_at position_].
  rewrite length_frame_layout, Hp.
  replace (0 + Z.of_nat (11 + length payload)) with (11 + Z.of_nat (length payload)) by lia.
  unfold bind.
  rewrite SetPosition_ok by (cbn [length_ write_at]; lia).
  cbn [length_ write_at].
  rewrite to_uint32_small by lia.
  set (b1 := {| buffer_ := _; length_ := length_ b0; position_ := 1 |}).
  assert (Hwf' : wf b1).
  { pose proof (wf_write_at b0 (frame_layout 0 routine_id payload) Hwf) as Hw.
    rewrite length_frame_layout in Hw. destruct Hw as (_ & Hl & _); [lia|].
    unfold wf, b1, write_at in *. cbn [buffer_ length_ position_] in *. lia. }
  rewrite PutInt_ok; [|done|unfold remaining, b1; simpl; lia].
  unfold ret. f_equal.
  pose proof (patch_total_length b0 0 (11 + Z.of_nat (length payload)) routine_id
                payload Hwf Hp) as Hpatch.
  rewrite !length_frame_layout in Hpatch.
  unfold write_at at 1. cbn [position_ length_]. rewrite length_be_bytes.
  f_equal. unfold write_at at 1 in Hpatch. cbn [buffer_ position_] in Hpatch.
  rewrite length_be_bytes in Hpatch. apply Hpatch. lia.
Qed.

(** The payload of a calculator response. *)
Definition response_payload (status : CalculatorService.Status) (result : Z)
    (error_msg : string) : list byte :=
  be_bytes 1 (CalculatorService.Status_code status)
  ++ object_bytes host 8 result ++ wire_string error_msg.

Lemma length_response_payload (status : CalculatorService.Status) (result : Z)
    (error_msg : string) :
  Z.of_nat (length (response_payload status result error_msg))
  = 13 + Z.of_nat (String.length error_msg).
Proof.
  unfold response_payload.
  rewrite !length_app, length_be_bytes, length_object_bytes.
  pose proof (length_wire_string error_msg). lia.
Qed.

Lemma response_frame_layout (status : CalculatorService.Status) (result : Z)
    (error_msg : string) :
  response_frame host status result error_msg
  = frame_layout (24 + Z.of_nat (String.length error_msg))
      CalculatorService.GetResponseRoutineId
      (response_payload status result error_msg).
Proof.
  unfold response_frame, frame_layout, response_payload.
  rewrite <- !app_assoc. by destruct status.
Qed.

(** [write_response] in a fresh buffer with room for the frame. *)
Lemma write_response_ok (status : CalculatorService.Status) (result : Z)
    (error_msg : string) (b0 : ByteBuffer.t) :
  wf b0 -> position_ b0 = 0 -> length_ b0 < 2 ^ 32 ->
  24 + Z.of_nat (String.length error_msg) <= length_ b0 ->
  CalculatorService.write_response host status result error_msg b0
  = (Normal (24 + Z.of_nat (String.length error_msg)),
     {| buffer_ :=
          response_frame host status result error_msg
          ++ drop (24 + String.length error_msg) (buffer_ b0);
        length_ := length_ b0; position_ := 5 |}).
Proof.
  intros Hwf Hp Hmax Hfit. unfold CalculatorService.write_response.
  assert (Hr : remaining b0 = length_ b0) by (unfold remaining; lia).
  assert (Hh : length (frame_header_bytes CalculatorService.GetResponseRoutineId)
               = 10%nat)
    by (unfold frame_header_bytes; rewrite !length_app, !length_be_bytes; lia).
  rewrite header_then by (done || lia).
  set (hdr := frame_header_bytes CalculatorService.GetResponseRoutineId) in *.
  assert (Hwf1 : wf (write_at b0 hdr)) by (apply wf_write_at; [done|lia]).
  rewrite (writes_then _ _ _ _ (writes_PutByte host _) Hwf1)
    by (rewrite remaining_write_at, length_be_bytes; lia).
  rewrite write_at_app by (done || rewrite length_be_bytes; lia).
  assert (Hwf2 : wf (write_at b0 (hdr ++ be_bytes 1 (CalculatorService.Status_code status)))).
  { apply wf_write_at; [done|]. rewrite length_app, length_be_bytes. lia. }
  rewrite (writes_then _ _ _ _ (writes_PutDouble host _) Hwf2)
    by (rewrite remaining_write_at, length_app, length_object_bytes, length_be_bytes; lia).
  rewrite write_at_app
    by (done || rewrite length_app, length_object_bytes, length_be_bytes; lia).
  pose proof (length_wire_string error_msg) as Hws.
  assert (Hwf3 : wf (write_at b0 ((hdr ++ be_bytes 1 (CalculatorService.Status_code status))
                                  ++ object_bytes host 8 result))).
  { apply wf_write_at; [done|].
    rewrite !length_app, length_be_bytes, length_object_bytes. lia. }
  rewrite (writes_then _ _ _ _ (writes_PutString host error_msg ltac:(lia)) Hwf3)
    by (rewrite remaining_write_at, !length_app, length_object_bytes, length_be_bytes; lia).
  rewrite write_at_app
    by (done || rewrite !length_app, length_object_bytes, length_be_bytes; lia).
  replace (((hdr ++ be_bytes 1 (CalculatorService.Status_code status))
            ++ object_bytes host 8 result) ++ wire_string error_msg)
    with (hdr ++ response_payload status result error_msg)
    by (unfold response_payload; by rewrite <- !app_assoc).
  pose proof (length_response_payload status result error_msg) as Hlp.
  pose proof (finish_response b0 CalculatorService.GetResponseRoutineId
                (response_payload status result error_msg) Hwf Hp Hmax ltac:(lia))
    as Hfin.
  unfold Position in Hfin |- *. cbv zeta in Hfin |- *. fold hdr in Hfin.
  rewrite Hfin, response_frame_layout.
  replace (11 + Z.of_nat (length (response_payload status result error_msg)))
    with (24 + Z.of_nat (String.length error_msg)) by lia.
  replace (11 + length (response_payload status result error_msg))%nat
    with (24 + String.length error_msg)%nat by lia.
  reflexivity.
Qed.


(** The fields of a request payload as [Execute] reads them. *)
Definition request_op (input : list byte) : Z := byte_at input 0.
Definition request_a (input : list byte) : Z :=
  object_value host (take 8 (drop 1 input)).
Definition request_b (input : list byte) : Z :=
  object_value host (take 8 (drop 9 input)).

Lemma request_fields (input : list byte) :
  (17 <= length input)%nat ->
  take 17 input = [nth 0 input x00] ++ take 8 (drop 1 input) ++ take 8 (drop 9 input).
Proof.
  intros H.
  do 17 (destruct input as [|? input]; [simpl in H; lia|]). reflexivity.
Qed.

Lemma parse_request_ok (input : list byte) (input_len : Z) :
  17 <= input_len <= Z.of_nat (length input) -> input_len < 2 ^ 63 ->
  CalculatorService.parse_request host
    {| buffer_ := input; length_ := input_len; position_ := 0 |}
  = (Normal (request_op input, request_a input, request_b input),
     {| buffer_ := input; length_ := input_len; position_ := 17 |}).
Proof.
  intros Hlen Hmax.
  set (b := {| buffer_ := input; length_ := input_len; position_ := 0 |}).
  assert (Hwf : wf b) by (unfold wf, b; simpl; lia).
  assert (Hs : starts_with b (take 17 input)).
  { unfold starts_with, b. cbn [buffer_ length_ position_].
    rewrite length_take. change (Z.to_nat 0) with 0%nat. rewrite drop_0.
    split; [lia|]. f_equal. lia. }
  rewrite request_fields in Hs by lia.
  assert (Hl1 : length (take 8 (drop 1 input)) = 8%nat)
    by (rewrite length_take, length_drop; lia).
  assert (Hl9 : length (take 8 (drop 9 input)) = 8%nat)
    by (rewrite length_take, length_drop; lia).
  assert (Hreads : reads (CalculatorService.parse_request host)
            ([nth 0 input x00] ++ take 8 (drop 1 input) ++ take 8 (drop 9 input))
            (request_op input, request_a input, request_b input)).
  { unfold CalculatorService.parse_request.
    eapply reads_bind; [by apply reads_GetByte|].
    eapply reads_bind; [by apply reads_GetDouble|].
    rewrite <- (app_nil_r (take 8 (drop 9 input))).
    eapply reads_bind; [by apply reads_GetDouble|].
    rewrite be_value_singleton. apply reads_ret. }
  rewrite (Hreads b Hwf Hs). f_equal. unfold advance, b. cbn [buffer_ length_ position_].
  rewrite !length_app, Hl1, Hl9. reflexivity.
Qed.

Lemma parse_request_short (input : list byte) (input_len : Z) :
  0 < input_len < 17 -> input_len <= Z.of_nat (length input) ->
  fst (CalculatorService.parse_request host
         {| buffer_ := input; length_ := input_len; position_ := 0 |})
  = Throw (underflow_error READ_MESSAGE).
Proof.
  intros Hlen Hin.
  set (b := {| buffer_ := input; length_ := input_len; position_ := 0 |}).
  assert (Hwf : wf b) by (unfold wf, b; simpl; lia).
  assert (Hr : remaining b = input_len) by (unfold remaining, b; simpl; lia).
  unfold CalculatorService.parse_request. unfold bind at 1.
  unfold GetByte at 1. unfold bind at 1. rewrite ReadBytes_ok by (done || lia).
  cbn [ret].
  assert (Hwf1 : wf (advance b 1)) by (apply wf_advance; [done|lia]).
  assert (Hr1 : remaining (advance b 1) = input_len - 1)
    by (rewrite remaining_advance; lia).
  unfold bind at 1. unfold GetDouble at 1.
  destruct (Z.lt_ge_cases (input_len - 1) 8) as [Hlt|Hge].
  - rewrite (read_then_underflow 8); [done|done|lia|lia].
  - unfold bind at 1. rewrite ReadBytes_ok by (done || lia). cbn [ret].
    assert (Hwf9 : wf (advance (advance b 1) 8)) by (apply wf_advance; [done|lia]).
    unfold bind at 1. unfold GetDouble.
    rewrite (read_then_underflow 8); [done|done|lia|].
    rewrite remaining_advance. lia.
Qed.

(** What [Execute] answers to a request region of [input_len] bytes. *)
Definition answer (input : list byte) (input_len : Z)
    : CalculatorService.Status * Z * string :=
  if input_len =? 0 then
    (CalculatorService.InvalidInput, Double.zero,
     "Exception: ByteBuffer: length must be > 0"%string)
  else if input_len <? 17 then
    (CalculatorService.InvalidInput, Double.zero,
     "Exception: ByteBuffer: read would exceed buffer bounds"%string)
  else
    CalculatorService.ExecuteOperation
      (CalculatorService.Operation_of_byte (request_op input))
      (request_a input) (request_b input).

Lemma answer_text_length (input : list byte) (input_len : Z) :
  Z.of_nat (String.length (snd (answer input input_len))) <= 54.
Proof.
  unfold answer. destruct (input_len =? 0); [cbn [snd]; vm_compute; discriminate|].
  destruct (input_len <? 17); [cbn [snd]; vm_compute; discriminate|].
  unfold CalculatorService.ExecuteOperation.
  destruct (CalculatorService.Operation_of_byte _).
  4: destruct (Double.abs_lt _ _).
  all: cbn [snd]; vm_compute; discriminate.
Qed.

Lemma Execute_spec (input : list byte) (input_len : Z) (output : list byte) :
  0 <= input_len <= Z.of_nat (length input) -> input_len < 2 ^ 63 ->
  78 <= Z.of_nat (length output) < 2 ^ 32 ->
  CalculatorService.Execute host input input_len output (Z.of_nat (length output))
  = (Normal (24 + Z.of_nat (String.length (snd (answer input input_len)))),
     response_frame host (fst (fst (answer input input_len)))
       (snd (fst (answer input input_len))) (snd (answer input input_len))
     ++ drop (24 + String.length (snd (answer input input_len))) output).
Proof.
  intros Hin Hmax Hout.
  pose proof (answer_text_length input input_len) as Htext. revert Htext.
  assert (Hwrite : forall status result msg,
    Z.of_nat (String.length msg) <= 54 ->
    CalculatorService.with_buffer output (Z.of_nat (length output))
      (CalculatorService.write_response host status result msg)
    = (Normal (24 + Z.of_nat (String.length msg)),
       response_frame host status result msg
       ++ drop (24 + String.length msg) output)).
  { intros status result msg Hmsg. unfold CalculatorService.with_buffer, ByteBuffer.new.
    destruct (Z.of_nat (length output) =? 0) eqn:E; [lia|].
    rewrite write_response_ok; [done| |done|simpl; lia|simpl; lia].
    unfold wf. simpl. lia. }
  assert (Hparse :
    fst (CalculatorService.with_buffer input input_len
           (CalculatorService.parse_request host))
    = if input_len =? 0
      then Throw (invalid_argument "ByteBuffer: length must be > 0")
      else if input_len <? 17 then Throw (underflow_error READ_MESSAGE)
      else Normal (request_op input, request_a input, request_b input)).
  { unfold CalculatorService.with_buffer, ByteBuffer.new.
    destruct (input_len =? 0) eqn:E0; [done|].
    destruct (input_len <? 17) eqn:E17.
    - pose proof (parse_request_short input input_len ltac:(lia) ltac:(lia)) as Hshort.
      by destruct (CalculatorService.parse_request host _) as [o b'].
    - by rewrite parse_request_ok by lia. }
  unfold CalculatorService.Execute, answer. cbv zeta. rewrite Hparse.
  destruct (input_len =? 0) eqn:E0.
  { cbn [fst snd what]. intros Htext. rewrite Hwrite by exact Htext. reflexivity. }
  destruct (input_len <? 17) eqn:E17.
  { cbn [fst snd what]. intros Htext. rewrite Hwrite by exact Htext. reflexivity. }
  destruct (CalculatorService.ExecuteOperation _ _ _) as [[status result] msg].
  cbn [fst snd]. intros Htext. rewrite Hwrite by exact Htext. reflexivity.
Qed.

End Responses.

(** [Execute] answers every request region, however short or malformed,
    with a complete response frame when the output region has room for
    the longest one (78 bytes): it returns the frame length and never
    throws. An empty region and a region shorter than the 17 bytes of a
    request are answered with [InvalidInput] and the text of the codec's
    exception; any other region with what [ExecuteOperation] gives for
    the operation byte and the two operands read from it, bytes after
    the seventeenth being ignored. *)
Theorem Execute_answers_every_request (host : Host) (input : list byte)
    (input_len : Z) (output : list byte) :
  0 <= input_len <= Z.of_nat (length input) -> input_len < 2 ^ 63 ->
  78 <= Z.of_nat (length output) < 2 ^ 32 ->
  let '(status, result, text) :=
    if input_len =? 0 then
      (CalculatorService.InvalidInput, Double.zero,
       "Exception: ByteBuffer: length must be > 0"%string)
    else if input_len <? 17 then
      (CalculatorService.InvalidInput, Double.zero,
       "Exception: ByteBuffer: read would exceed buffer bounds"%string)
    else
      CalculatorService.ExecuteOperation
        (CalculatorService.Operation_of_byte (byte_at input 0))
        (object_value host (take 8 (drop 1 input)))
        (object_value host (take 8 (drop 9 input))) in
  CalculatorService.Execute host input input_len output (Z.of_nat (length output))
  = (Normal (24 + Z.of_nat (String.length text)),
     response_frame host status result text
     ++ drop (24 + String.length text) output).
Proof.
  intros Hin Hmax Hout.
  pose proof (Execute_spec host input input_len output Hin Hmax Hout) as H.
  unfold answer, request_op, request_a, request_b in H.
  destruct (if input_len =? 0 then _ else _) as [[status result] text].
  exact H.
Qed.

Lemma Execute_answers_every_request_witness :
  CalculatorService.Execute LittleEndian [x04; x00] 2 blank_packet
    (Z.of_nat (length blank_packet))
  = (Normal 78,
     response_frame LittleEndian CalculatorService.InvalidInput Double.zero
       "Exception: ByteBuffer: read would exceed buffer bounds"
     ++ drop 78 blank_packet).
Proof.
  apply (Execute_answers_every_request LittleEndian [x04; x00] 2 blank_packet);
    [simpl; lia|lia|].
  unfold blank_packet. rewrite repeat_length. vm_compute. split; discriminate || reflexivity.
Defined.

(** ** Doubles are 64-bit patterns *)

Lemma digits2_pos_bounds (m : positive) :
  2 ^ (Z.pos (digits2_pos m) - 1) <= Z.pos m < 2 ^ Z.pos (digits2_pos m).
Proof.
  induction m as [m IH|m IH|]; cbn [digits2_pos].
  - rewrite Pos2Z.inj_succ.
    replace (Z.succ (Z.pos (digits2_pos m)) - 1) with (Z.succ (Z.pos (digits2_pos m) - 1)) by lia.
    rewrite !Z.pow_succ_r by lia. lia.
  - rewrite Pos2Z.inj_succ.
    replace (Z.succ (Z.pos (digits2_pos m)) - 1) with (Z.succ (Z.pos (digits2_pos m) - 1)) by lia.
    rewrite !Z.pow_succ_r by lia. lia.
  - simpl. lia.
Qed.

(** The pattern of every [double] value lies in 64 bits. *)
Lemma of_spec_range (nan : Z) (f : spec_float) :
  0 <= nan < 2 ^ 64 -> SpecFloat.valid_binary prec emax f = true ->
  0 <= Double.of_spec nan f < 2 ^ 64.
Proof.
  intros Hnan Hv.
  destruct f as [s|s| |s m e]; cbn [Double.of_spec]; unfold Double.SIGN_BIT;
    try (destruct s; lia); try lia.
  cbn [SpecFloat.valid_binary] in Hv. unfold bounded, canonical_mantissa, fexp, emin,
    prec, emax in Hv.
  apply andb_prop in Hv as [Hc He]. apply Z.eqb_eq in Hc. apply Z.leb_le in He.
  pose proof (digits2_pos_bounds m) as Hd.
  destruct (Z.pos m <? 2 ^ 52) eqn:E.
  - apply Z.ltb_lt in E. destruct s; lia.
  - apply Z.ltb_ge in E.
    assert (Hdig : Z.pos (digits2_pos m) = 53).
    { destruct (Z.le_gt_cases (Z.pos (digits2_pos m)) 52) as [Hle|Hgt].
      - assert (2 ^ Z.pos (digits2_pos m) <= 2 ^ 52) by (apply Z.pow_le_mono_r; lia). lia.
      - lia. }
    rewrite Hdig in Hd. change (2 ^ (53 - 1)) with (2 ^ 52) in Hd.
    assert (- 1074 <= e) by lia.
    assert (0 <= (e + 1075) * 2 ^ 52 + (Z.pos m - 2 ^ 52)
            < 2 ^ 63) by nia.
    destruct s; lia.
Qed.

Lemma of_float_range (f : float) : 0 <= Double.of_float f < 2 ^ 64.
Proof.
  apply of_spec_range; [by vm_compute|apply Prim2SF_valid].
Qed.

Lemma quiet_range (x : Z) : 0 <= Double.quiet x < 2 ^ 64.
Proof.
  unfold Double.quiet, Double.QUIET_BIT.
  pose proof (Z.mod_pos_bound x (2 ^ 64) ltac:(lia)) as Hx.
  assert (H0 : 0 <= Z.lor (x mod 2 ^ 64) (2 ^ 51)) by (apply Z.lor_nonneg; lia).
  split; [done|].
  assert (Hpos : 0 < Z.lor (x mod 2 ^ 64) (2 ^ 51)).
  { destruct (Z.eq_dec (Z.lor (x mod 2 ^ 64) (2 ^ 51)) 0) as [E|E]; [|lia].
    apply Z.lor_eq_0_iff in E as [_ E]. lia. }
  apply Z.log2_lt_pow2; [done|].
  rewrite Z.log2_lor by lia.
  apply Z.max_lub_lt.
  - destruct (Z.eq_dec (x mod 2 ^ 64) 0) as [E|E]; [rewrite E; by vm_compute|].
    apply Z.log2_lt_pow2; lia.
  - by vm_compute.
Qed.

Lemma nan_of_range (a b : Z) : 0 <= Double.nan_of a b < 2 ^ 64.
Proof.
  unfold Double.nan_of.
  destruct (Double.is_nan a); [apply quiet_range|].
  destruct (Double.is_nan b); [apply quiet_range|].
  by vm_compute.
Qed.

Lemma ExecuteOperation_range (op : CalculatorService.Operation) (a b : Z) :
  0 <= snd (fst (CalculatorService.ExecuteOperation op a b)) < 2 ^ 64.
Proof.
  unfold CalculatorService.ExecuteOperation.
  destruct op.
  4: destruct (Double.abs_lt _ _).
  all: cbn [fst snd]; unfold Double.add, Double.sub, Double.mul, Double.div, Double.zero;
    try (apply of_spec_range; [apply nan_of_range|apply Prim2SF_valid]); lia.
Qed.

Section Client.
Variable host : Host.

(** The 17 bytes of a request payload. *)
Definition request_payload (op a b : Z) : list byte :=
  be_bytes 1 op ++ object_bytes host 8 a ++ object_bytes host 8 b.

Lemma build_request_ok (op : Calculator.Operation) (a b : Z) :
  Calculator.build_request host op a b
  = (Normal 17, request_payload (Calculator.Operation_code op) a b).
Proof.
  unfold Calculator.build_request, CalculatorService.with_buffer, ByteBuffer.new.
  cbn [Z.eqb].
  set (b0 := {| buffer_ := repeat x00 17; length_ := 17; position_ := 0 |}).
  assert (Hwf : wf b0) by (unfold wf, b0; simpl; lia).
  assert (Hw : writes (PutByte host (Calculator.Operation_code op) ;;
                       PutDouble host a ;; PutDouble host b)
                 (request_payload (Calculator.Operation_code op) a b)).
  { apply writes_bind; [apply writes_PutByte|].
    apply writes_bind; [apply writes_PutDouble|apply writes_PutDouble]. }
  assert (Hlen : length (request_payload (Calculator.Operation_code op) a b) = 17%nat).
  { unfold request_payload. by rewrite !length_app, length_be_bytes, !length_object_bytes. }
  specialize (Hw b0 Hwf ltac:(rewrite Hlen; unfold remaining, b0; simpl; lia)).
  unfold bind in Hw |- *.
  destruct (PutByte host _ b0) as [[[]| |] b1]; try done.
  destruct (PutDouble host a b1) as [[[]| |] b2]; try done.
  destruct (PutDouble host b b2) as [[[]| |] b3]; try done.
  injection Hw as ->. unfold Position, write_at. cbn [position_ buffer_ b0].
  rewrite Hlen. change (Z.to_nat 0) with 0%nat. rewrite take_0. cbn [app plus].
  rewrite drop_ge by (rewrite repeat_length; lia). by rewrite app_nil_r.
Qed.

(** The fields of the request the client builds, as the service reads
    them. *)
Lemma request_payload_fields (op : Calculator.Operation) (a b : Z) :
  0 <= a < 2 ^ 64 -> 0 <= b < 2 ^ 64 ->
  request_op (request_payload (Calculator.Operation_code op) a b)
  = Calculator.Operation_code op /\
  request_a host (request_payload (Calculator.Operation_code op) a b) = a /\
  request_b host (request_payload (Calculator.Operation_code op) a b) = b.
Proof.
  intros Ha Hb. unfold request_op, request_a, request_b, request_payload.
  split; [by destruct op|].
  change (be_bytes 1 (Calculator.Operation_code op))
    with [byte_of_Z (Calculator.Operation_code op)].
  cbn [app drop]. rewrite drop_0.
  split.
  - rewrite take_app_length' by (by rewrite length_object_bytes).
    rewrite object_value_bytes. apply Z.mod_small. simpl. lia.
  - change 9%nat with (1 + 8)%nat. cbn [plus drop].
    rewrite drop_app_length' by (by rewrite length_object_bytes).
    rewrite take_ge by (rewrite length_object_bytes; lia).
    rewrite object_value_bytes. apply Z.mod_small. simpl. lia.
Qed.

(** A response that carries the success status is read as a success with
    the value the response carries; its text is not kept. *)
Lemma reads_parse_response_success (total_length version value : Z) (msg : string) :
  0 <= value < 2 ^ 64 -> Z.of_nat (String.length msg) < 2 ^ 32 ->
  reads (Calculator.parse_response host)
    (be_bytes 1 Protocol.START_BYTE ++ be_bytes 4 total_length
     ++ be_bytes 4 Calculator.RESPONSE_ROUTINE_ID ++ be_bytes 1 version
     ++ be_bytes 1 0 ++ object_bytes host 8 value ++ wire_string msg)
    {| Calculator.success := true; Calculator.value := value;
       Calculator.error_message := EmptyString |}.
Proof.
  intros Hvalue Hmsg. unfold Calculator.parse_response.
  eapply reads_bind; [apply reads_GetByte, length_be_bytes|].
  rewrite be_value_be_bytes. change (Protocol.START_BYTE mod 256 ^ Z.of_nat 1) with 0x7E.
  cbn [Z.eqb Protocol.START_BYTE Pos.eqb negb].
  eapply reads_bind; [apply reads_GetInt, length_be_bytes|].
  eapply reads_bind; [apply reads_GetInt, length_be_bytes|].
  rewrite be_value_be_bytes.
  change (Calculator.RESPONSE_ROUTINE_ID mod 256 ^ Z.of_nat 4)
    with Calculator.RESPONSE_ROUTINE_ID.
  rewrite Z.eqb_refl. cbn [negb].
  eapply reads_bind; [apply reads_GetByte, length_be_bytes|].
  eapply reads_bind; [apply reads_GetByte, length_be_bytes|].
  rewrite (be_value_be_bytes 1 0).
  change (0 mod 256 ^ Z.of_nat 1) with 0.
  eapply reads_bind; [apply reads_GetDouble, length_object_bytes|].
  rewrite <- (app_nil_r (wire_string msg)).
  eapply reads_bind; [by apply reads_GetString|].
  cbn [Z.eqb]. rewrite object_value_bytes, Z.mod_small by (simpl; lia).
  apply reads_ret.
Qed.

(** What the client makes of a response frame of the service. *)
Lemma parse_response_frame (status : CalculatorService.Status) (result : Z)
    (text : string) (rest : list byte) :
  0 <= result < 2 ^ 64 -> Z.of_nat (String.length text) < 2 ^ 31 ->
  Calculator.caught
    (fst (CalculatorService.with_buffer (response_frame host status result text ++ rest)
            (24 + Z.of_nat (String.length text)) (Calculator.parse_response host)))
    Some
  = Some (match status with
          | CalculatorService.Success =>
              {| Calculator.success := true; Calculator.value := result;
                 Calculator.error_message := EmptyString |}
          | _ => Calculator.failure text
          end).
Proof.
  intros Hresult Htext.
  unfold CalculatorService.with_buffer, ByteBuffer.new.
  destruct (24 + Z.of_nat (String.length text) =? 0) eqn:E0; [lia|].
  set (frame := response_frame host status result text).
  assert (Hlen : Z.of_nat (length frame) = 24 + Z.of_nat (String.length text)).
  { unfold frame. rewrite response_frame_layout, length_frame_layout.
    pose proof (length_response_payload host status result text). lia. }
  set (b := {| buffer_ := frame ++ rest;
               length_ := 24 + Z.of_nat (String.length text); position_ := 0 |}).
  assert (Hwf : wf b).
  { unfold wf, b. cbn [buffer_ length_ position_]. rewrite length_app. lia. }
  set (body := be_bytes 1 Protocol.START_BYTE
       ++ be_bytes 4 (24 + Z.of_nat (String.length text))
       ++ be_bytes 4 Calculator.RESPONSE_ROUTINE_ID ++ be_bytes 1 Protocol.VERSION
       ++ be_bytes 1 (CalculatorService.Status_code status)
       ++ object_bytes host 8 result ++ wire_string text).
  assert (Hframe : frame = body ++ be_bytes 1 Protocol.END_BYTE).
  { unfold frame, body, response_frame. rewrite <- !app_assoc. by destruct status. }
  assert (Hs : starts_with b body).
  { assert (Hbl : Z.of_nat (length body) = 23 + Z.of_nat (String.length text)).
    { rewrite Hframe, length_app, length_be_bytes in Hlen. lia. }
    unfold starts_with, b. cbn [buffer_ length_ position_].
    split; [lia|]. change (Z.to_nat 0) with 0%nat. rewrite drop_0.
    rewrite Hframe, <- app_assoc. by rewrite take_app_length. }
  assert (Hreads : reads (Calculator.parse_response host) body
            (match status with
             | CalculatorService.Success =>
                 {| Calculator.success := true; Calculator.value := result;
                    Calculator.error_message := EmptyString |}
             | _ => Calculator.failure text
             end)).
  { unfold body. destruct status;
      [by apply reads_parse_response_success; [|lia]
      |by apply reads_parse_response_failure; [|lia]..]. }
  rewrite (Hreads b Hwf Hs). reflexivity.
Qed.

End Client.

(** The operation of the service that an operation of the client asks
    for. *)
Definition requested (op : Calculator.Operation) : CalculatorService.Operation :=
  CalculatorService.Operation_of_byte (Calculator.Operation_code op).

(** The client and the service agree. For every operation of the client
    and every pair of doubles, the client's request is 17 bytes; the
    service answers it with the frame that carries what its
    [ExecuteOperation] gives for the same operation and operands; and
    from that frame the client returns this very answer: the result with
    [success = true] when the status is [Success], and otherwise
    [success = false] with the value 0.0 and the service's error text. *)
Theorem Calculator_returns_service_answer (host : Host) (op : Calculator.Operation)
    (a b : Z) :
  0 <= a < 2 ^ 64 -> 0 <= b < 2 ^ 64 ->
  let request := Calculator.build_request host op a b in
  let executed :=
    CalculatorService.Execute host (snd request) 17 blank_packet
      Protocol.MAX_PACKET_SIZE in
  let '(status, result, text) := CalculatorService.ExecuteOperation (requested op) a b in
  fst request = Normal 17 /\
  executed
  = (Normal (24 + Z.of_nat (String.length text)),
     response_frame host status result text
     ++ drop (24 + String.length text) blank_packet) /\
  Calculator.caught
    (fst (CalculatorService.with_buffer (snd executed)
            (24 + Z.of_nat (String.length text)) (Calculator.parse_response host)))
    Some
  = Some (match status with
          | CalculatorService.Success =>
              {| Calculator.success := true; Calculator.value := result;
                 Calculator.error_message := EmptyString |}
          | _ => Calculator.failure text
          end).
Proof.
  intros Ha Hb. cbv zeta. rewrite build_request_ok. cbn [fst snd].
  set (payload := request_payload host (Calculator.Operation_code op) a b).
  assert (Hlen : length payload = 17%nat).
  { unfold payload, request_payload.
    by rewrite !length_app, length_be_bytes, !length_object_bytes. }
  assert (Hblank : Z.of_nat (length blank_packet) = Protocol.MAX_PACKET_SIZE)
    by (unfold blank_packet; by rewrite repeat_length).
  pose proof (Execute_spec host payload 17 blank_packet
                ltac:(rewrite Hlen; lia) ltac:(lia)
                ltac:(rewrite Hblank; unfold Protocol.MAX_PACKET_SIZE; lia)) as Hexec.
  rewrite Hblank in Hexec.
  pose proof (answer_text_length host payload 17) as Htext.
  unfold answer in Hexec, Htext. cbn [Z.eqb Z.ltb Z.compare Pos.compare Pos.compare_cont]
    in Hexec, Htext.
  destruct (request_payload_fields host op a b Ha Hb) as (Hop & Hfa & Hfb).
  fold payload in Hop, Hfa, Hfb. rewrite Hop, Hfa, Hfb in Hexec, Htext.
  fold (requested op) in Hexec, Htext.
  pose proof (ExecuteOperation_range (requested op) a b) as Hrange.
  destruct (CalculatorService.ExecuteOperation (requested op) a b)
    as [[status result] text].
  cbn [fst snd] in Hexec, Htext, Hrange.
  split; [done|]. split; [exact Hexec|].
  rewrite Hexec. cbn [snd]. apply parse_response_frame; [done|lia].
Qed.

Lemma Calculator_returns_service_answer_witness :
  Calculator.caught
    (fst (CalculatorService.with_buffer
            (snd (CalculatorService.Execute LittleEndian
                    (snd (Calculator.build_request LittleEndian Calculator.Add
                            double_1 double_2))
                    17 blank_packet Protocol.MAX_PACKET_SIZE))
            24 (Calculator.parse_response LittleEndian)))
    Some
  = Some {| Calculator.success := true; Calculator.value := Double.add double_1 double_2;
            Calculator.error_message := EmptyString |}.
Proof.
  exact (proj2 (proj2
    (Calculator_returns_service_answer LittleEndian Calculator.Add double_1 double_2
       ltac:(unfold double_1; lia) ltac:(unfold double_2; lia)))).
Defined.

(** ** Responses that do not fit *)

Lemma length_string_append (s1 s2 : string) :
  String.length (String.append s1 s2) = (String.length s1 + String.length s2)%nat.
Proof. induction s1 as [|c s1 IH]; simpl; [done|by rewrite IH]. Qed.

(** [p] keeps the region: afterwards the buffer is well formed, over a
    region of the same size, with the same capacity. *)
Definition region_kept {A} (p : M A) (b : ByteBuffer.t) : Prop :=
  wf (snd (p b)) /\ length_ (snd (p b)) = length_ b /\
  length (buffer_ (snd (p b))) = length (buffer_ b).

(** [p] keeps the region and, with fewer than [n] bytes left, throws the
    overflow error. *)
Definition needs {A} (p : M A) (n : Z) : Prop :=
  forall b, wf b ->
    region_kept p b /\
    (remaining b < n -> fst (p b) = Throw (overflow_error WRITE_MESSAGE)).

Lemma region_kept_within {A} (P : exception -> Prop) (p : M A) (b : ByteBuffer.t) :
  within P same_size p b -> region_kept p b.
Proof. intros (Hwf & Hl & _ & Hs & _). done. Qed.

Lemma needs_bind {A} (p : M unit) (k : M A) (l : list byte) (n : Z) :
  writes p l -> needs p (Z.of_nat (length l)) -> needs k n ->
  needs (p ;; k) (Z.of_nat (length l) + n).
Proof.
  intros Hw Hp Hk b Hwf. destruct (Hp b Hwf) as [(Hwf1 & Hl1 & Hs1) Ho1].
  unfold region_kept, bind.
  destruct (Z.lt_ge_cases (remaining b) (Z.of_nat (length l))) as [Hlt|Hge].
  - specialize (Ho1 Hlt). destruct (p b) as [o b1]. cbn [fst snd] in *. subst o.
    cbn [fst snd]. done.
  - rewrite (Hw b Hwf Hge) in *. cbn [fst snd] in *.
    destruct (Hk _ Hwf1) as [(Hwf2 & Hl2 & Hs2) Ho2].
    split; [split; [done|split; congruence]|].
    intros Hr. apply Ho2. rewrite remaining_write_at. lia.
Qed.

Lemma needs_first {A} (p : M unit) (k : M A) (n : Z) :
  needs p n -> (forall b, wf b -> region_kept k b) -> needs (p ;; k) n.
Proof.
  intros Hp Hk b Hwf. destruct (Hp b Hwf) as [(Hwf1 & Hl1 & Hs1) Ho1].
  unfold region_kept, bind.
  destruct (p b) as [[[]|e|] b1] eqn:E; cbn [fst snd] in *.
  - destruct (Hk b1 Hwf1) as (Hwf2 & Hl2 & Hs2).
    split; [split; [done|split; congruence]|].
    intros Hr. by specialize (Ho1 Hr).
  - split; [done|]. intros Hr. specialize (Ho1 Hr). by injection Ho1 as ->.
  - split; [done|]. intros Hr. by specialize (Ho1 Hr).
Qed.

Section Needs.
Variable host : Host.

Lemma needs_PutByte (v : Z) : needs (PutByte host v) (Z.of_nat (length (be_bytes 1 v))).
Proof.
  intros b Hwf. split; [by eapply region_kept_within, within_PutByte|].
  rewrite length_be_bytes. intros Hr. unfold PutByte.
  rewrite WriteBytes_overflow; [done|done|lia|lia].
Qed.

Lemma needs_PutInt (v : Z) : needs (PutInt host v) (Z.of_nat (length (be_bytes 4 v))).
Proof.
  intros b Hwf. split; [by eapply region_kept_within, within_PutInt|].
  rewrite length_be_bytes. intros Hr. by rewrite PutInt_overflow by (done || lia).
Qed.

Lemma needs_PutDouble (v : Z) :
  needs (PutDouble host v) (Z.of_nat (length (object_bytes host 8 v))).
Proof.
  intros b Hwf. split; [by eapply region_kept_within, within_PutDouble|].
  rewrite length_object_bytes. intros Hr. unfold PutDouble.
  rewrite WriteBytes_overflow; [done|done|lia|lia].
Qed.

Lemma needs_PutString (s : string) :
  Z.of_nat (String.length s) < 2 ^ 32 ->
  needs (PutString host s) (Z.of_nat (length (wire_string s))).
Proof.
  intros Hs b Hwf. split; [by eapply region_kept_within, within_PutString|].
  rewrite length_wire_string. intros Hr. by rewrite PutString_overflow.
Qed.

(** The length patch keeps the region, whatever it does. *)
Lemma region_kept_patch {A} (f : Z -> A) (b : ByteBuffer.t) :
  wf b ->
  region_kept
    (fun response =>
       let total_len := Position response in
       (SetPosition 1 ;; PutInt host (to_uint32 total_len) ;; ret (f total_len))
         response) b.
Proof.
  intros Hwf. unfold region_kept. cbv zeta. unfold bind, SetPosition.
  destruct (length_ b <? 1) eqn:E; [done|]. apply Z.ltb_ge in E.
  set (b1 := {| buffer_ := buffer_ b; length_ := length_ b; position_ := 1 |}).
  assert (Hwf1 : wf b1) by (destruct Hwf as (? & ? & ?); unfold wf, b1; simpl; lia).
  destruct (region_kept_within _ _ _ (within_PutInt host (to_uint32 (Position b)) b1 Hwf1))
    as (Hwf2 & Hl2 & Hs2).
  destruct (PutInt host (to_uint32 (Position b)) b1) as [[[]|e|] b2]; done.
Qed.

Lemma needs_write_response (status : CalculatorService.Status) (result : Z)
    (text : string) :
  Z.of_nat (String.length text) < 2 ^ 32 ->
  needs (CalculatorService.write_response host status result text)
    (24 + Z.of_nat (String.length text)).
Proof.
  intros Htext. unfold CalculatorService.write_response.
  replace (24 + Z.of_nat (String.length text))
    with (Z.of_nat (length (be_bytes 1 Protocol.START_BYTE))
          + (Z.of_nat (length (be_bytes 4 0))
             + (Z.of_nat (length (be_bytes 4 CalculatorService.GetResponseRoutineId))
                + (Z.of_nat (length (be_bytes 1 Protocol.VERSION))
                   + (Z.of_nat (length (be_bytes 1 (CalculatorService.Status_code status)))
                      + (Z.of_nat (length (object_bytes host 8 result))
                         + (Z.of_nat (length (wire_string text))
                            + Z.of_nat (length (be_bytes 1 Protocol.END_BYTE)))))))))
    by (rewrite length_wire_string, !length_be_bytes, length_object_bytes; lia).
  apply needs_bind; [apply writes_PutByte|apply needs_PutByte|].
  apply needs_bind; [apply writes_PutInt|apply needs_PutInt|].
  apply needs_bind; [apply writes_PutInt|apply needs_PutInt|].
  apply needs_bind; [apply writes_PutByte|apply needs_PutByte|].
  apply needs_bind; [apply writes_PutByte|apply needs_PutByte|].
  apply needs_bind; [apply writes_PutDouble|apply needs_PutDouble|].
  apply needs_bind; [by apply writes_PutString|by apply needs_PutString|].
  apply needs_first; [apply needs_PutByte|].
  intros b Hwf. by apply (region_kept_patch (fun n => n)).
Qed.

(** What the request parser gives for a region of [input_len] bytes. *)
Lemma parse_request_cases (input : list byte) (input_len : Z) :
  0 <= input_len <= Z.of_nat (length input) -> input_len < 2 ^ 63 ->
  fst (CalculatorService.with_buffer input input_len
         (CalculatorService.parse_request host))
  = if input_len =? 0
    then Throw (invalid_argument "ByteBuffer: length must be > 0")
    else if input_len <? 17 then Throw (underflow_error READ_MESSAGE)
    else Normal (request_op input, request_a host input, request_b host input).
Proof.
  intros Hin Hmax.
  unfold CalculatorService.with_buffer, ByteBuffer.new.
  destruct (input_len =? 0) eqn:E0; [done|].
  destruct (input_len <? 17) eqn:E17.
  - pose proof (parse_request_short host input input_len ltac:(lia) ltac:(lia)) as Hshort.
    by destruct (CalculatorService.parse_request host _) as [o b'].
  - by rewrite parse_request_ok by lia.
Qed.

(** A response written over a region too small for it. *)
Lemma with_buffer_write_response_small (status : CalculatorService.Status)
    (result : Z) (text : string) (output : list byte) (output_len : Z) :
  Z.of_nat (String.length text) < 2 ^ 32 ->
  0 <= output_len < 24 -> output_len <= Z.of_nat (length output) ->
  exists output',
    length output' = length output /\
    CalculatorService.with_buffer output output_len
      (CalculatorService.write_response host status result text)
    = (Throw (if output_len =? 0
              then invalid_argument "ByteBuffer: length must be > 0"
              else overflow_error WRITE_MESSAGE), output').
Proof.
  intros Htext Hlen Hout. unfold CalculatorService.with_buffer, ByteBuffer.new.
  destruct (output_len =? 0) eqn:E0; [by exists output|].
  set (b0 := {| buffer_ := output; length_ := output_len; position_ := 0 |}).
  assert (Hwf : wf b0) by (unfold wf, b0; simpl; lia).
  destruct (needs_write_response status result text Htext b0 Hwf)
    as [(Hwf1 & Hl1 & Hs1) Ho].
  specialize (Ho ltac:(unfold remaining, b0; simpl; lia)).
  destruct (CalculatorService.write_response host status result text b0) as [o b1].
  cbn [fst snd] in *. subst o. by exists (buffer_ b1).
Qed.

End Needs.

(** An output region of fewer than 24 bytes holds no response. Whatever
    the request, the [try] block of [Execute] throws, and so does the
    [catch] block that writes the error response to the same region: the
    exception leaves [Execute] ([invalid_argument] for an empty region,
    the overflow error otherwise), and [ExecuteService] returns 0
    for it. *)
Theorem Execute_throws_without_room (host : Host) (sm : ServiceManager.t)
    (input : list byte) (input_len : Z) (output : list byte) (output_len : Z) :
  0 <= input_len <= Z.of_nat (length input) -> input_len < 2 ^ 63 ->
  0 <= output_len < 24 -> output_len <= Z.of_nat (length output) ->
  fst (CalculatorService.Execute host input input_len output output_len)
  = Throw (if output_len =? 0
           then invalid_argument "ByteBuffer: length must be > 0"
           else overflow_error WRITE_MESSAGE) /\
  (ServiceManager.services_ sm !! CalculatorService.GetRequestRoutineId
   = Some (ServiceManager.calculator host) ->
   fst (fst (ServiceManager.ExecuteService CalculatorService.GetRequestRoutineId
               input input_len output output_len sm))
   = Normal 0).
Proof.
  intros Hin Hmax Hlen Hout.
  assert (Hexec : fst (CalculatorService.Execute host input input_len output output_len)
    = Throw (if output_len =? 0
             then invalid_argument "ByteBuffer: length must be > 0"
             else overflow_error WRITE_MESSAGE)).
  { assert (Hcatch : forall e output',
      Z.of_nat (String.length (what e)) < 100 -> length output' = length output ->
      fst (CalculatorService.with_buffer output' output_len
             (CalculatorService.write_response host CalculatorService.InvalidInput
                Double.zero (String.append "Exception: " (what e))))
      = Throw (if output_len =? 0
               then invalid_argument "ByteBuffer: length must be > 0"
               else overflow_error WRITE_MESSAGE)).
    { intros e output' He Ho.
      assert (Hlong : Z.of_nat (String.length (String.append "Exception: " (what e)))
                      < 2 ^ 32).
      { rewrite length_string_append. cbn [String.length]. lia. }
      destruct (with_buffer_write_response_small host CalculatorService.InvalidInput
                  Double.zero (String.append "Exception: " (what e)) output' output_len
                  Hlong Hlen ltac:(lia))
        as (out & _ & ->).
      reflexivity. }
    unfold CalculatorService.Execute. cbv zeta.
    rewrite (parse_request_cases host input input_len Hin Hmax).
    destruct (input_len =? 0) eqn:Ei.
    { cbv beta iota. apply Hcatch; [vm_compute; reflexivity|done]. }
    destruct (input_len <? 17) eqn:E17.
    { cbv beta iota. apply Hcatch; [vm_compute; reflexivity|done]. }
    destruct (CalculatorService.ExecuteOperation _ _ _) as [[status result] text] eqn:Eop.
    assert (Htext : Z.of_nat (String.length text) < 2 ^ 32).
    { pose proof (answer_text_length host input input_len) as Ha.
      unfold answer in Ha. rewrite Ei, E17, Eop in Ha. cbn [snd] in Ha. lia. }
    destruct (with_buffer_write_response_small host status result text output output_len
                Htext Hlen Hout) as (output' & Ho' & ->).
    cbv beta iota. apply Hcatch; [|done].
    destruct (output_len =? 0); vm_compute; reflexivity. }
  split; [exact Hexec|].
  intros Hreg. unfold ServiceManager.ExecuteService.
  cbn [ServiceManager.lock ServiceManager.services_]. rewrite Hreg.
  cbn [ServiceManager.Execute ServiceManager.calculator].
  destruct (CalculatorService.Execute host input input_len output output_len)
    as [o output']. cbn [fst] in Hexec. subst o. reflexivity.
Qed.

Lemma Execute_throws_without_room_witness :
  fst (CalculatorService.Execute LittleEndian
         (request_payload LittleEndian 1 double_1 double_2) 17 (repeat x00 23) 23)
  = Throw (overflow_error WRITE_MESSAGE).
Proof.
  refine (proj1 (Execute_throws_without_room LittleEndian
                   (UDSServer.service_manager_ (calculator_server LittleEndian))
                   (request_payload LittleEndian 1 double_1 double_2) 17
                   (repeat x00 23) 23 _ _ _ _)).
  - vm_compute. split; discriminate.
  - lia.
  - lia.
  - vm_compute. discriminate.
Defined.

(** The status [ExecuteOperation] gives for an operation byte: it is
    [InvalidOperation] exactly for the bytes other than 1, 2, 3 and 4;
    [DivisionByZero] only for the byte 4 with a divisor below the
    threshold; never [InvalidInput]. Addition, subtraction and
    multiplication succeed whatever the operands are. A failure comes
    with the result 0.0 and a text, a success with no text; the result
    is a 64-bit pattern in either case. *)
Theorem ExecuteOperation_status (c a b : Z) :
  let '(status, result, text) :=
    CalculatorService.ExecuteOperation (CalculatorService.Operation_of_byte c) a b in
  (status = CalculatorService.InvalidOperation <-> ~ 1 <= c <= 4) /\
  (status = CalculatorService.DivisionByZero <->
   c = 4 /\ Double.abs_lt b CalculatorService.DIVISOR_EPSILON = true) /\
  status <> CalculatorService.InvalidInput /\
  (1 <= c <= 3 -> status = CalculatorService.Success) /\
  (status = CalculatorService.Success -> text = EmptyString) /\
  (status <> CalculatorService.Success -> result = Double.zero /\ text <> EmptyString) /\
  0 <= result < 2 ^ 64.
Proof.
  pose proof (ExecuteOperation_range (CalculatorService.Operation_of_byte c) a b) as Hr.
  unfold CalculatorService.Operation_of_byte in *.
  destruct (Z.eqb_spec c 1) as [->|H1];
    [|destruct (Z.eqb_spec c 2) as [->|H2];
      [|destruct (Z.eqb_spec c 3) as [->|H3];
        [|destruct (Z.eqb_spec c 4) as [->|H4]]]];
    unfold CalculatorService.ExecuteOperation in *;
    try destruct (Double.abs_lt b CalculatorService.DIVISOR_EPSILON) eqn:Eb;
    cbn [fst snd] in Hr;
    repeat match goal with
           | |- _ /\ _ => split
           | |- _ <-> _ => split
           | |- ~ _ => intro
           | |- _ -> _ => intro
           | H : _ /\ _ |- _ => destruct H
           end;
    first [exact Hr | reflexivity | congruence | lia].
Qed.

(** ** What the client checks in a response *)

Section ClientChecks.
Variable host : Host.

Lemma within_parse_response (b : ByteBuffer.t) :
  wf b -> within underflow_exn same_contents (Calculator.parse_response host) b.
Proof.
  intros Hwf. unfold Calculator.parse_response.
  apply (within_bind same_contents_trans); [by apply within_GetByte|intros start b1 E1].
  assert (Hwf1 : wf b1) by (by eapply within_step; [apply within_GetByte|]).
  apply within_if; intros _; [by apply (within_ret same_contents_refl)|].
  apply (within_bind same_contents_trans); [by apply within_GetInt|intros fl b2 E2].
  assert (Hwf2 : wf b2) by (by eapply within_step; [apply within_GetInt|]).
  apply (within_bind same_contents_trans); [by apply within_GetInt|intros id b3 E3].
  assert (Hwf3 : wf b3) by (by eapply within_step; [apply within_GetInt|]).
  apply within_if; intros _; [by apply (within_ret same_contents_refl)|].
  apply (within_bind same_contents_trans); [by apply within_GetByte|intros v b4 E4].
  assert (Hwf4 : wf b4) by (by eapply within_step; [apply within_GetByte|]).
  apply (within_bind same_contents_trans); [by apply within_GetByte|intros st b5 E5].
  assert (Hwf5 : wf b5) by (by eapply within_step; [apply within_GetByte|]).
  apply (within_bind same_contents_trans); [by apply within_GetDouble|intros val b6 E6].
  assert (Hwf6 : wf b6) by (by eapply within_step; [apply within_GetDouble|]).
  apply (within_bind same_contents_trans); [by apply within_GetString|intros msg b7 E7].
  assert (Hwf7 : wf b7) by (by eapply within_step; [apply within_GetString|]).
  destruct (st =? 0); by apply (within_ret same_contents_refl).
Qed.

Lemma reads_parse_response_bad_start (x : byte) :
  Z_of_byte x <> Protocol.START_BYTE ->
  reads (Calculator.parse_response host) [x]
    (Calculator.failure "Invalid response frame").
Proof.
  intros Hx. unfold Calculator.parse_response.
  rewrite <- (app_nil_r [x]).
  eapply reads_bind; [by apply reads_GetByte|].
  rewrite be_value_singleton.
  destruct (Z.eqb_spec (Z_of_byte x) Protocol.START_BYTE); [done|]. apply reads_ret.
Qed.

Lemma reads_parse_response_bad_id (x : byte) (l1 l5 : list byte) :
  Z_of_byte x = Protocol.START_BYTE -> length l1 = 4%nat -> length l5 = 4%nat ->
  be_value l5 <> Calculator.RESPONSE_ROUTINE_ID ->
  reads (Calculator.parse_response host) ([x] ++ l1 ++ l5)
    (Calculator.failure "Unexpected routine ID in response").
Proof.
  intros Hx Hl1 Hl5 Hid. unfold Calculator.parse_response.
  eapply reads_bind; [by apply reads_GetByte|].
  rewrite be_value_singleton, Hx, Z.eqb_refl. cbn [negb].
  eapply reads_bind; [by apply reads_GetInt|].
  rewrite <- (app_nil_r l5).
  eapply reads_bind; [by apply reads_GetInt|].
  destruct (Z.eqb_spec (be_value l5) Calculator.RESPONSE_ROUTINE_ID); [done|].
  apply reads_ret.
Qed.

Lemma response_first_fields (response : list byte) :
  (9 <= length response)%nat ->
  take 9 response
  = [nth 0 response x00] ++ take 4 (drop 1 response) ++ take 4 (drop 5 response).
Proof.
  intros H.
  do 9 (destruct response as [|? response]; [simpl in H; lia|]). reflexivity.
Qed.

End ClientChecks.

(** The checks of the client on a response of [response_len] bytes. An
    empty response, a first byte other than START, a routine id other
    than 0x1001 and a response that ends before the routine id each give
    a failure with a text of its own; a frame that is complete up to its
    error text is accepted whatever its TOTAL_LENGTH and VERSION fields
    hold and whether or not END follows; and no byte outside the
    [response_len] bytes is read in any case. *)
Theorem parse_response_checks (host : Host) (response : list byte) (response_len : Z) :
  0 <= response_len <= Z.of_nat (length response) -> response_len < 2 ^ 63 ->
  let parsed :=
    Calculator.caught
      (fst (CalculatorService.with_buffer response response_len
              (Calculator.parse_response host))) Some in
  (response_len = 0 ->
   parsed = Some (Calculator.failure "Exception: ByteBuffer: length must be > 0")) /\
  (0 < response_len -> frame_start response <> Protocol.START_BYTE ->
   parsed = Some (Calculator.failure "Invalid response frame")) /\
  (0 < response_len < 9 -> frame_start response = Protocol.START_BYTE ->
   parsed = Some (Calculator.failure
                    "Exception: ByteBuffer: read would exceed buffer bounds")) /\
  (9 <= response_len -> frame_start response = Protocol.START_BYTE ->
   frame_routine_id response <> Calculator.RESPONSE_ROUTINE_ID ->
   parsed = Some (Calculator.failure "Unexpected routine ID in response")) /\
  (forall total_length version value msg rest,
     0 <= value < 2 ^ 64 -> Z.of_nat (String.length msg) < 2 ^ 32 ->
     response
     = (be_bytes 1 Protocol.START_BYTE ++ be_bytes 4 total_length
        ++ be_bytes 4 Calculator.RESPONSE_ROUTINE_ID ++ be_bytes 1 version
        ++ be_bytes 1 0 ++ object_bytes host 8 value ++ wire_string msg) ++ rest ->
     23 + Z.of_nat (String.length msg) <= response_len ->
     parsed = Some {| Calculator.success := true; Calculator.value := value;
                      Calculator.error_message := EmptyString |}) /\
  parsed <> None.
Proof.
  intros Hlen Hmax. cbv zeta.
  unfold CalculatorService.with_buffer, ByteBuffer.new.
  destruct (Z.eqb_spec response_len 0) as [->|Hne].
  { cbn [fst Calculator.caught]. repeat split; intros; try lia; done. }
  set (b := {| buffer_ := response; length_ := response_len; position_ := 0 |}).
  assert (Hwf : wf b) by (unfold wf, b; simpl; lia).
  assert (Hr : remaining b = response_len) by (unfold remaining, b; simpl; lia).
  assert (Hprefix : forall n, Z.of_nat n <= response_len ->
            starts_with b (take n response)).
  { intros n Hn. unfold starts_with, b. cbn [buffer_ length_ position_].
    rewrite length_take. change (Z.to_nat 0) with 0%nat. rewrite drop_0.
    split; [lia|]. f_equal. lia. }
  assert (Hfirst : take 1 response = [nth 0 response x00]).
  { destruct response as [|x response]; [simpl in Hlen; lia|reflexivity]. }
  split; [intros; lia|]. split; [|split; [|split; [|split]]].
  - intros _ Hstart.
    pose proof (Hprefix 1%nat ltac:(lia)) as Hs. rewrite Hfirst in Hs.
    by rewrite (reads_parse_response_bad_start host _ Hstart b Hwf Hs).
  - intros Hshort Hstart.
    pose proof (Hprefix 1%nat ltac:(lia)) as Hs. rewrite Hfirst in Hs.
    unfold Calculator.parse_response. unfold bind at 1.
    rewrite (reads_GetByte host [nth 0 response x00] eq_refl b Hwf Hs).
    rewrite be_value_singleton. fold (byte_at response 0). fold (frame_start response).
    rewrite Hstart, Z.eqb_refl. cbn [negb].
    change (Z.of_nat (length [nth 0 response x00])) with 1.
    assert (Hwf1 : wf (advance b 1)) by (apply wf_advance; [done|lia]).
    unfold bind at 1.
    destruct (Z.lt_ge_cases (response_len - 1) 4) as [Hlt|Hge].
    + rewrite GetInt_underflow; [done|done|rewrite remaining_advance; lia].
    + unfold GetInt at 1. unfold bind at 1.
      rewrite ReadBytes_ok by (done || rewrite remaining_advance; lia). cbn [ret].
      unfold bind at 1.
      rewrite GetInt_underflow; [done| |].
      * apply wf_advance; [done|rewrite remaining_advance; lia].
      * rewrite !remaining_advance. lia.
  - intros Hnine Hstart Hid.
    pose proof (Hprefix 9%nat ltac:(lia)) as Hs.
    rewrite response_first_fields in Hs by lia.
    assert (Hl1 : length (take 4 (drop 1 response)) = 4%nat)
      by (rewrite length_take, length_drop; lia).
    assert (Hl5 : length (take 4 (drop 5 response)) = 4%nat)
      by (rewrite length_take, length_drop; lia).
    rewrite (reads_parse_response_bad_id host _ _ _ Hstart Hl1 Hl5 Hid b Hwf Hs).
    reflexivity.
  - intros total_length version value msg rest Hvalue Hmsg Hresp Hfit.
    set (body := be_bytes 1 Protocol.START_BYTE ++ _) in Hresp.
    assert (Hbl : Z.of_nat (length body) = 23 + Z.of_nat (String.length msg)).
    { unfold body. rewrite !length_app, !length_be_bytes, length_object_bytes.
      pose proof (length_wire_string msg). lia. }
    assert (Hs : starts_with b body).
    { unfold starts_with, b. cbn [buffer_ length_ position_].
      split; [lia|]. change (Z.to_nat 0) with 0%nat. rewrite drop_0, Hresp.
      by rewrite take_app_length. }
    by rewrite (reads_parse_response_success host total_length version value msg
                  Hvalue Hmsg b Hwf Hs).
  - destruct (within_parse_response host b Hwf) as (_ & _ & _ & _ & Ho).
    destruct (Calculator.parse_response host b) as [[r|e|] b']; done.
Qed.

Lemma parse_response_checks_witness :
  Calculator.caught
    (fst (CalculatorService.with_buffer [x00; x01; x02] 3
            (Calculator.parse_response LittleEndian))) Some
  = Some (Calculator.failure "Invalid response frame").
Proof.
  refine (proj1 (proj2 (parse_response_checks LittleEndian [x00; x01; x02] 3 _ _)) _ _).
  - simpl. lia.
  - lia.
  - lia.
  - vm_compute. discriminate.
Defined.

(* ================================================================== *)
(** * Further properties of the channel *)

(** [Connect] in full. It waits for ever exactly when the lock is held.
    Otherwise it neither sends nor receives, leaves the scratch buffer
    alone and releases the lock; it returns [true] with the channel
    connected on a valid descriptor, and [false] with no descriptor and
    a non-empty error text, [connected_] being as it was. On a channel
    that is connected already it does nothing at all, and so does
    [EnsureConnected]. *)
Theorem Connect_outcome (strerror : Z -> string) (im : Channel.Impl) (w : OS.World) :
  let connecting := Channel.Connect strerror im w in
  let im' := snd (fst connecting) in
  grows no_transfer (OS.trace w) (OS.trace (snd connecting)) /\
  Channel.buffer_ im' = Channel.buffer_ im /\
  (fst (fst connecting) = Channel.Deadlock <-> Channel.mutex_ im = true) /\
  (fst (fst connecting) = Channel.Returns true ->
   Channel.connected_ im' = true /\ 0 <= Channel.socket_fd_ im' /\
   Channel.mutex_ im' = false) /\
  (fst (fst connecting) = Channel.Returns false ->
   Channel.connected_ im' = Channel.connected_ im /\ Channel.socket_fd_ im' < 0 /\
   Channel.mutex_ im' = false /\ Channel.last_error_ im' <> EmptyString) /\
  (Channel.mutex_ im = false -> Channel.connected_ im = true ->
   0 <= Channel.socket_fd_ im ->
   connecting = (Channel.Returns true, im, w) /\
   Channel.EnsureConnected strerror im w = (Channel.Returns true, im, w)).
Proof.
  cbv zeta.
  destruct (Channel.Connect strerror im w) as [[r im'] w'] eqn:E.
  pose proof (Connect_calls strerror im im' w w' r E) as (Hg & Hb & Hr).
  cbn [fst snd].
  split; [done|]. split; [done|]. split; [|split; [|split]].
  - destruct r as [ok|]; [|by destruct Hr]. destruct Hr as (Hm & _).
    split; [done|]. rewrite Hm. done.
  - intros ->. destruct Hr as (_ & Hm & Hc & Hfd). done.
  - intros ->. destruct Hr as (_ & Hm & Hc & Hfd).
    split; [done|]. split; [done|]. split; [done|].
    revert E. unfold Channel.Connect, Channel.locked.
    destruct (Channel.mutex_ im); [done|].
    unfold Channel.Connect_body, Channel.Connect_finish, Channel.close_socket,
      OS.call, OS.note.
    destruct im as [path timeout fd connected err mutex buffer]. cbn.
    destruct w as [script trace]; cbn. intros H.
    repeat
      match type of H with
      | context [if ?c then _ else _] => destruct c eqn:?; cbn in H
      | context [match ?s with [] => _ | _ :: _ => _ end] =>
          destruct s as [|? ?]; cbn in H
      end.
    all: injection H as <- <-; try discriminate; cbn; discriminate.
  - intros Hm Hc Hfd. unfold Channel.EnsureConnected.
    revert E. unfold Channel.Connect, Channel.locked, Channel.Connect_body.
    rewrite Hm. cbn [Channel.connected_ Channel.with_mutex Channel.socket_fd_].
    rewrite Hc, (proj2 (Z.leb_le _ _) Hfd). cbn [andb].
    intros [= <- <- <-]. destruct im. cbn in *. by subst.
Qed.

(** Descriptors in [Connect]. When the channel is not connected and the
    system grants a socket, a descriptor left from an earlier connection
    is closed before the new one is asked for; when [Connect] succeeds
    the new descriptor becomes the channel's and is not closed; when it
    fails the last thing it does is to close the new descriptor, and the
    channel is left with none. *)
Theorem Connect_closes_what_it_opened (strerror : Z -> string) (im : Channel.Impl)
    (w : OS.World) (a : OS.answer) (rest : list OS.answer) :
  Channel.mutex_ im = false ->
  Channel.connected_ im && (0 <=? Channel.socket_fd_ im) = false ->
  OS.script w = a :: rest -> 0 <= OS.ret a ->
  let connecting := Channel.Connect strerror im w in
  let im' := snd (fst connecting) in
  let stale :=
    if 0 <=? Channel.socket_fd_ im then [OS.sys_close (Channel.socket_fd_ im)] else [] in
  exists new,
    OS.trace (snd connecting) = OS.trace w ++ stale ++ OS.sys_socket :: new /\
    match fst (fst connecting) with
    | Channel.Returns true =>
        Channel.socket_fd_ im' = OS.ret a /\
        forallb (fun c => negb (OS.is_close c)) new = true
    | Channel.Returns false =>
        Channel.socket_fd_ im' = -1 /\ last new = Some (OS.sys_close (OS.ret a))
    | Channel.Deadlock => False
    end.
Proof.
  intros Hm Hc Hs Ha. cbv zeta.
  unfold Channel.Connect, Channel.locked. rewrite Hm.
  unfold Channel.Connect_body, Channel.Connect_finish, Channel.close_socket,
    OS.call, OS.note.
  destruct im as [path timeout fd connected err mutex buffer].
  destruct w as [script trace]. cbn in *. subst script. rewrite Hc.
  destruct (OS.ret a <? 0) eqn:Eneg; [lia|]. clear Hc Hm.
  destruct (0 <=? fd) eqn:Efd; cbn; rewrite ?Eneg; cbn.
  all: repeat
      match goal with
      | |- context [if ?c then _ else _] => destruct c eqn:?; cbn
      | |- context [match ?s with [] => _ | _ :: _ => _ end] =>
          destruct s as [|? ?]; cbn
      end.
  all: eexists; split; [rewrite <- ?app_assoc; cbn; reflexivity|].
  all: cbn; split; reflexivity.
Qed.

(** A channel with a stale descriptor, which finds no server. *)
Definition stale_channel : Channel.Impl :=
  Channel.with_fd 5 (Channel.Impl_new "/tmp/ipc_demo.sock" 5000).

Definition refusing_world : OS.World :=
  {| OS.script := [ {| OS.ret := 6; OS.errno := 0; OS.data := [] |};
                    {| OS.ret := -1; OS.errno := 111; OS.data := [] |} ];
     OS.trace := [] |}.

Lemma Connect_closes_what_it_opened_witness :
  exists new,
    OS.trace (snd (Channel.Connect (fun _ => "Connection refused"%string)
                     stale_channel refusing_world))
    = [] ++ [OS.sys_close 5] ++ OS.sys_socket :: new /\
    Channel.socket_fd_
      (snd (fst (Channel.Connect (fun _ => "Connection refused"%string)
                   stale_channel refusing_world))) = -1 /\
    last new = Some (OS.sys_close 6).
Proof.
  exact (Connect_closes_what_it_opened (fun _ => "Connection refused"%string)
           stale_channel refusing_world
           {| OS.ret := 6; OS.errno := 0; OS.data := [] |}
           [ {| OS.ret := -1; OS.errno := 111; OS.data := [] |} ]
           eq_refl eq_refl eq_refl ltac:(cbn; lia)).
Defined.

(** ** The send loop *)

(** What the peer takes: of the bytes offered to each [send], as many as
    the call returned. *)
Fixpoint accepted (answers : list OS.answer) (calls : list OS.syscall) : list byte :=
  match answers, calls with
  | a :: answers', OS.sys_send _ bytes :: calls' =>
      take (Z.to_nat (OS.ret a)) bytes ++ accepted answers' calls'
  | _, _ => []
  end.

(** Every call is a [send] on the descriptor [fd]. *)
Definition sends_on (fd : Z) (calls : list OS.syscall) : Prop :=
  Forall (fun c => exists bytes, c = OS.sys_send fd bytes) calls.

Lemma SendData_loop_delivers (strerror : Z -> string) (script : list OS.answer) :
  forall trace im data len total_sent im' w',
  0 <= total_sent <= len -> len <= Z.of_nat (length data) -> len < 2 ^ 63 ->
  Channel.SendData_loop strerror script trace im data len total_sent = (true, im', w') ->
  exists used new,
    script = used ++ OS.script w' /\ OS.trace w' = trace ++ new /\
    length used = length new /\ sends_on (Channel.socket_fd_ im) new /\
    accepted used new
    = take (Z.to_nat (len - total_sent)) (drop (Z.to_nat total_sent) data) /\
    im' = im.
Proof.
  induction script as [|a script IH]; intros trace im data len total_sent im' w'
    Ht Hlen Hmax H; cbn [Channel.SendData_loop] in H.
  - destruct (total_sent <? len) eqn:E; [done|]. injection H as <- <-.
    exists [], []. cbn [OS.script OS.trace accepted app length].
    rewrite app_nil_r. repeat split; try done; [constructor|].
    replace (len - total_sent) with 0 by lia. done.
  - destruct (total_sent <? len) eqn:E.
    2:{ injection H as <- <-. exists [], [].
        cbn [OS.script OS.trace accepted app length].
        rewrite app_nil_r. repeat split; try done; [constructor|].
        replace (len - total_sent) with 0 by lia. done. }
    cbv zeta in H. rewrite size_sub_small in H by lia.
    set (offered := take (Z.to_nat (len - total_sent)) (drop (Z.to_nat total_sent) data))
      in *.
    destruct (Z.min (OS.ret a) (len - total_sent) <? 0) eqn:Eneg.
    { destruct (OS.errno a =? OS.EINTR); [|done].
      apply IH in H as (used & new & -> & -> & Hl & Hs & Hacc & ->); try done.
      exists (a :: used), (OS.sys_send (Channel.socket_fd_ im) offered :: new).
      cbn [app length accepted]. rewrite <- app_assoc.
      repeat split; try done; [by rewrite Hl|constructor; [by eexists|done]|].
      replace (Z.to_nat (OS.ret a)) with 0%nat by lia. by rewrite take_0. }
    destruct (Z.min (OS.ret a) (len - total_sent) =? 0) eqn:Ezero; [done|].
    set (sent := Z.min (OS.ret a) (len - total_sent)) in *.
    rewrite size_add_small in H by lia.
    apply IH in H as (used & new & -> & -> & Hl & Hs & Hacc & ->); try lia.
    exists (a :: used), (OS.sys_send (Channel.socket_fd_ im) offered :: new).
    cbn [app length accepted]. rewrite <- app_assoc.
    repeat split; try done; [by rewrite Hl|constructor; [by eexists|done]|].
    rewrite Hacc.
    assert (Htake : take (Z.to_nat (OS.ret a)) offered = take (Z.to_nat sent) offered).
    { unfold offered. rewrite !take_take. f_equal. unfold sent. lia. }
    rewrite Htake. unfold offered. rewrite take_take.
    replace (Z.to_nat sent `min` Z.to_nat (len - total_sent))%nat with (Z.to_nat sent)
      by (unfold sent; lia).
    replace (Z.to_nat (total_sent + sent)) with (Z.to_nat total_sent + Z.to_nat sent)%nat
      by lia.
    rewrite <- drop_drop, take_take_drop. f_equal. unfold sent. lia.
Qed.

(** When [SendData] returns [true], the peer has taken the [len] bytes of
    the frame, each once and in order, however the kernel split them
    over the calls and however often a call was interrupted; every call
    was a [send] on the channel's descriptor, and the channel is as it
    was. *)
Theorem SendData_delivers_frame (strerror : Z -> string) (data : list byte) (len : Z)
    (im im' : Channel.Impl) (w w' : OS.World) :
  0 <= len <= Z.of_nat (length data) -> len < 2 ^ 63 ->
  Channel.SendData strerror data len im w = (true, im', w') ->
  exists used new,
    OS.script w = used ++ OS.script w' /\ OS.trace w' = OS.trace w ++ new /\
    length used = length new /\ sends_on (Channel.socket_fd_ im) new /\
    accepted used new = take (Z.to_nat len) data /\ im' = im.
Proof.
  intros Hlen Hmax H. unfold Channel.SendData in H.
  apply SendData_loop_delivers in H as (used & new & H1 & H2 & H3 & H4 & H5 & H6);
    try lia.
  exists used, new. rewrite Z.sub_0_r in H5. change (Z.to_nat 0) with 0%nat in H5.
  rewrite drop_0 in H5. done.
Qed.

(** A kernel that takes two bytes, is interrupted, and takes the rest. *)
Definition piecewise_world : OS.World :=
  {| OS.script := [ {| OS.ret := 2; OS.errno := 0; OS.data := [] |};
                    {| OS.ret := -1; OS.errno := OS.EINTR; OS.data := [] |};
                    {| OS.ret := 3; OS.errno := 0; OS.data := [] |} ];
     OS.trace := [] |}.

Lemma SendData_delivers_frame_witness :
  exists used new,
    OS.script piecewise_world = used ++ [] /\
    [OS.sys_send 7 [x01; x02; x03; x04; x05]; OS.sys_send 7 [x03; x04; x05];
     OS.sys_send 7 [x03; x04; x05]] = [] ++ new /\
    length used = length new /\ sends_on 7 new /\
    accepted used new = [x01; x02; x03; x04; x05] /\
    connected_channel = connected_channel.
Proof.
  exact (SendData_delivers_frame (fun _ => "error"%string) [x01; x02; x03; x04; x05] 5
           connected_channel connected_channel piecewise_world
           {| OS.script := [];
              OS.trace := [OS.sys_send 7 [x01; x02; x03; x04; x05];
                           OS.sys_send 7 [x03; x04; x05];
                           OS.sys_send 7 [x03; x04; x05]] |}
           ltac:(cbn; lia) ltac:(lia) eq_refl).
Defined.

(** ** The receive loops *)

(** What a receive loop may do to the region it fills from [received]
    on. *)
Definition filled (data : list byte) (max_len received : Z)
    (r : Channel.received_data) : Prop :=
  match r with
  | Channel.Received ok data' received' =>
      length data' = length data /\ received <= received' <= max_len /\
      drop (Z.to_nat received') data' = drop (Z.to_nat received') data /\
      take (Z.to_nat received) data' = take (Z.to_nat received) data
  | Channel.ReceivedUndefined => False
  end.

Lemma filled_step (data bytes : list byte) (received : Z) (k : nat) :
  0 <= received -> received + Z.of_nat (length bytes) <= Z.of_nat (length data) ->
  let data' := take (Z.to_nat received) data ++ bytes
               ++ drop (Z.to_nat received + length bytes) data in
  length data' = length data /\
  ((Z.to_nat received + length bytes <= k)%nat -> drop k data' = drop k data) /\
  take (Z.to_nat received) data' = take (Z.to_nat received) data.
Proof.
  intros Hr Hfit. cbv zeta. split; [|split].
  - rewrite !length_app, length_take, length_drop. lia.
  - intros Hk.
    rewrite drop_app_ge by (rewrite length_take; lia).
    rewrite length_take.
    rewrite drop_app_ge by lia.
    rewrite drop_drop. f_equal. lia.
  - rewrite take_app_le by (rewrite length_take; lia).
    rewrite take_take. f_equal. lia.
Qed.

Lemma filled_trans (data data1 : list byte) (max_len received received1 : Z)
    (r : Channel.received_data) :
  0 <= received <= received1 ->
  length data1 = length data ->
  drop (Z.to_nat received1) data1 = drop (Z.to_nat received1) data ->
  take (Z.to_nat received) data1 = take (Z.to_nat received) data ->
  filled data1 max_len received1 r -> filled data max_len received r.
Proof.
  intros Hr Hl Hd Ht. destruct r as [ok data' received'|]; [|done].
  intros (Hl' & Hr' & Hd' & Ht'). split; [congruence|]. split; [lia|]. split.
  - rewrite Hd'. replace (Z.to_nat received')
      with (Z.to_nat received1 + (Z.to_nat received' - Z.to_nat received1))%nat by lia.
    by rewrite <- !drop_drop, Hd.
  - rewrite <- Ht.
    replace (Z.to_nat received) with (Z.to_nat received `min` Z.to_nat received1)%nat
      by lia.
    by rewrite <- !take_take, Ht'.
Qed.

Section Receive.
Variable host : Host.
Variable strerror : Z -> string.

Lemma delivered_fits (a : OS.answer) (max_len received : Z) :
  0 <= received <= max_len -> max_len < 2 ^ 63 ->
  Z.of_nat (length (Channel.delivered a max_len received)) <= max_len - received.
Proof.
  intros Hr Hmax. unfold Channel.delivered.
  rewrite size_sub_small by lia. rewrite length_take. lia.
Qed.

Lemma ReceiveData_min_filled (script : list OS.answer) :
  forall trace im data max_len received r im' w',
  0 <= received <= max_len -> max_len <= Z.of_nat (length data) -> max_len < 2 ^ 63 ->
  Channel.ReceiveData_min strerror script trace im data max_len received = (r, im', w') ->
  filled data max_len received r /\
  match r with
  | Channel.Received true _ received' => Protocol.GetMinFrameSize <= received'
  | _ => True
  end.
Proof.
  assert (Hsame : forall data max_len received ok,
            0 <= received <= max_len ->
            filled data max_len received (Channel.Received ok data received)).
  { intros. split; [done|]. split; [lia|done]. }
  induction script as [|a script IH]; intros trace im data max_len received r im' w'
    Hr Hfit Hmax H; cbn [Channel.ReceiveData_min] in H.
  - destruct (received <? Protocol.GetMinFrameSize) eqn:E; injection H as <- <- <-.
    + split; [by apply Hsame|done].
    + split; [by apply Hsame|lia].
  - destruct (received <? Protocol.GetMinFrameSize) eqn:E.
    2:{ injection H as <- <- <-. split; [by apply Hsame|lia]. }
    cbv zeta in H.
    destruct (OS.ret a <? 0).
    { destruct (OS.errno a =? OS.EINTR); [by eapply IH|].
      destruct ((OS.errno a =? OS.EAGAIN) || (OS.errno a =? OS.EWOULDBLOCK));
        injection H as <- <- <-; (split; [by apply Hsame|done]). }
    pose proof (delivered_fits a max_len received Hr Hmax) as Hd.
    set (bytes := Channel.delivered a max_len received) in *.
    destruct (Z.of_nat (length bytes) =? 0) eqn:En.
    { injection H as <- <- <-. split; [by apply Hsame|done]. }
    rewrite mem_write_Some in H by lia.
    rewrite size_add_small in H by lia.
    destruct (filled_step data bytes received (Z.to_nat received + length bytes)
                ltac:(lia) ltac:(lia)) as (Hl & Hdrop & Htake).
    apply IH in H as [Hf Hmin]; [|lia|lia|done].
    split; [|done].
    eapply (filled_trans data _ max_len received (received + Z.of_nat (length bytes)));
      [lia|exact Hl| |exact Htake|exact Hf].
    replace (Z.to_nat (received + Z.of_nat (length bytes)))
      with (Z.to_nat received + length bytes)%nat by lia.
    by apply Hdrop.
Qed.

Lemma ReceiveData_rest_filled (script : list OS.answer) :
  forall trace im data max_len received frame_len r im' w',
  0 <= received <= max_len -> max_len <= Z.of_nat (length data) -> max_len < 2 ^ 63 ->
  Channel.ReceiveData_rest strerror script trace im data max_len received frame_len
  = (r, im', w') ->
  filled data max_len received r.
Proof.
  assert (Hsame : forall data max_len received ok,
            0 <= received <= max_len ->
            filled data max_len received (Channel.Received ok data received)).
  { intros. split; [done|]. split; [lia|done]. }
  induction script as [|a script IH];
    intros trace im data max_len received frame_len r im' w' Hr Hfit Hmax H;
    cbn [Channel.ReceiveData_rest] in H.
  - destruct ((received <? frame_len) && (received <? max_len));
      injection H as <- <- <-; by apply Hsame.
  - destruct ((received <? frame_len) && (received <? max_len)).
    2:{ injection H as <- <- <-. by apply Hsame. }
    cbv zeta in H.
    destruct (OS.ret a <? 0).
    { destruct (OS.errno a =? OS.EINTR); [by eapply IH|].
      injection H as <- <- <-. by apply Hsame. }
    pose proof (delivered_fits a max_len received Hr Hmax) as Hd.
    set (bytes := Channel.delivered a max_len received) in *.
    destruct (Z.of_nat (length bytes) =? 0) eqn:En.
    { injection H as <- <- <-. by apply Hsame. }
    rewrite mem_write_Some in H by lia.
    rewrite size_add_small in H by lia.
    destruct (filled_step data bytes received (Z.to_nat received + length bytes)
                ltac:(lia) ltac:(lia)) as (Hl & Hdrop & Htake).
    apply IH in H; [|lia|lia|done].
    eapply (filled_trans data _ max_len received (received + Z.of_nat (length bytes)));
      [lia|exact Hl| |exact Htake|exact H].
    replace (Z.to_nat (received + Z.of_nat (length bytes)))
      with (Z.to_nat received + length bytes)%nat by lia.
    by apply Hdrop.
Qed.

(** The length field of a response is read once eleven bytes are
    there. *)
Lemma response_length_read (data : list byte) (received : Z) :
  11 <= received <= Z.of_nat (length data) -> received < 2 ^ 63 ->
  fst ((GetByte host ;; GetInt host)
         {| buffer_ := data; length_ := received; position_ := 0 |})
  = Normal (frame_total_length data).
Proof.
  intros Hr Hmax.
  set (b := {| buffer_ := data; length_ := received; position_ := 0 |}).
  assert (Hwf : wf b) by (unfold wf, b; simpl; lia).
  assert (Hs : starts_with b ([nth 0 data x00] ++ take 4 (drop 1 data))).
  { unfold starts_with, b. cbn [buffer_ length_ position_].
    change (Z.to_nat 0) with 0%nat. rewrite drop_0, length_app, length_take, length_drop.
    cbn [length]. split; [lia|].
    do 5 (destruct data as [|? data]; [simpl in Hr; lia|]). reflexivity. }
  assert (Hreads : reads (GetByte host ;; GetInt host)
                     ([nth 0 data x00] ++ take 4 (drop 1 data)) (frame_total_length data)).
  { eapply reads_bind; [by apply reads_GetByte|].
    apply reads_GetInt. rewrite length_take, length_drop. lia. }
  by rewrite (Hreads b Hwf Hs).
Qed.

Lemma ReceiveData_filled (data : list byte) (max_len : Z) (im im' : Channel.Impl)
    (w w' : OS.World) (r : Channel.received_data) :
  0 <= max_len <= Z.of_nat (length data) -> max_len < 2 ^ 63 ->
  Channel.ReceiveData host strerror data max_len im w = (r, im', w') ->
  filled data max_len 0 r /\
  match r with
  | Channel.Received true _ received' => Protocol.GetMinFrameSize <= received'
  | _ => True
  end.
Proof.
  intros Hfit Hmax. unfold Channel.ReceiveData.
  destruct (Channel.ReceiveData_min _ _ _ _ _ _ _) as [[r1 im1] w1] eqn:E1.
  apply ReceiveData_min_filled in E1 as [Hf1 Hmin1]; [|lia|lia|done].
  destruct r1 as [[] data1 received1|].
  2,3: intros [= <- <- <-]; done.
  destruct Hf1 as (Hl1 & Hr1 & Hd1 & Ht1). unfold Protocol.GetMinFrameSize in *.
  unfold ByteBuffer.new. destruct (received1 =? 0) eqn:E0; [lia|].
  rewrite response_length_read by lia.
  intros H.
  apply ReceiveData_rest_filled in H as Hf2; [|lia|lia|done].
  split.
  - eapply (filled_trans data data1 max_len 0 received1); try done. lia.
  - destruct r as [[] data2 received2|]; try done.
    destruct Hf2 as (_ & Hr2 & _). lia.
Qed.

End Receive.

(** [ReceiveData] stays inside the region it is given. With room for
    [max_len] bytes at [data], it writes no byte outside the region and
    none at or behind the count it reports, which is at most [max_len];
    it returns [true] only with the eleven bytes of a minimal frame. *)
Theorem ReceiveData_stays_in_region (host : Host) (strerror : Z -> string)
    (data : list byte) (max_len : Z) (im : Channel.Impl) (w : OS.World) :
  0 <= max_len <= Z.of_nat (length data) -> max_len < 2 ^ 63 ->
  exists ok data' received,
    fst (fst (Channel.ReceiveData host strerror data max_len im w))
    = Channel.Received ok data' received /\
    length data' = length data /\ 0 <= received <= max_len /\
    drop (Z.to_nat received) data' = drop (Z.to_nat received) data /\
    (ok = true -> Protocol.GetMinFrameSize <= received).
Proof.
  intros Hfit Hmax.
  destruct (Channel.ReceiveData host strerror data max_len im w) as [[r im'] w'] eqn:E.
  apply ReceiveData_filled in E as [Hf Hmin]; [|done|done].
  destruct r as [ok data' received|]; [|done].
  destruct Hf as (Hl & Hr & Hd & _).
  exists ok, data', received. cbn [fst]. repeat split; try done; try lia.
  intros ->. exact Hmin.
Qed.

Lemma ReceiveData_stays_in_region_witness :
  exists ok data' received,
    fst (fst (Channel.ReceiveData LittleEndian (fun _ => "error"%string)
                (repeat x00 64) 64 connected_channel
                {| OS.script := [ {| OS.ret := 40; OS.errno := 0;
                                     OS.data := divide_by_zero_response LittleEndian |} ];
                   OS.trace := [] |}))
    = Channel.Received ok data' received /\
    length data' = length (repeat x00 64) /\ 0 <= received <= 64 /\
    drop (Z.to_nat received) data' = drop (Z.to_nat received) (repeat x00 64) /\
    (ok = true -> Protocol.GetMinFrameSize <= received).
Proof.
  apply ReceiveData_stays_in_region; [cbn; lia|lia].
Defined.

(** ** [ExecuteRPC] when the transfer fails *)

(** The first answer of the world fails a [send]: an error other than an
    interruption, a return of 0, or no answer at all. *)
Definition send_fails (w : OS.World) : Prop :=
  match OS.script w with
  | [] => True
  | a :: _ => OS.ret a <= 0 /\ (OS.ret a < 0 -> OS.errno a <> OS.EINTR)
  end.

(** The retry of [ExecuteRPC] never runs. When the first [send] of the
    frame fails, [ExecuteRPC] marks the channel disconnected and calls
    [Connect] while it still holds the lock that [Connect] takes: the
    call waits for ever on its own lock, after the one [send]. *)
Theorem reconnect_after_failed_send_deadlocks (host : Host) (strerror : Z -> string)
    (routine_id : Z) (payload response_buffer : list byte)
    (response_buffer_size response_len : Z) (im : Channel.Impl) (w : OS.World) :
  Channel.mutex_ im = false -> Channel.connected_ im = true ->
  0 <= Channel.socket_fd_ im ->
  Z.of_nat (length (Channel.buffer_ im)) = Protocol.MAX_PACKET_SIZE ->
  11 + Z.of_nat (length payload) <= Protocol.MAX_PACKET_SIZE ->
  send_fails w ->
  let called :=
    Channel.ExecuteRPC host strerror routine_id (Some payload)
      (Z.of_nat (length payload)) response_buffer response_buffer_size response_len
      im w in
  fst (fst called) = Channel.Deadlock /\
  Channel.connected_ (snd (fst called)) = false /\
  Channel.mutex_ (snd (fst called)) = true /\
  OS.trace (snd called)
  = OS.trace w
    ++ [OS.sys_send (Channel.socket_fd_ im)
          (frame_layout (11 + Z.of_nat (length payload)) routine_id payload)].
Proof.
  intros Hm Hc Hfd Hsize Hfit Hfail. cbv zeta.
  unfold Protocol.MAX_PACKET_SIZE in *.
  assert (Hscratch : scratch (Channel.buffer_ im))
    by (unfold scratch; rewrite Hsize; lia).
  pose proof (build_frame_fits host routine_id payload (Channel.buffer_ im)
                Hscratch ltac:(lia)) as Hbuild.
  unfold Channel.ExecuteRPC, Channel.EnsureConnected.
  rewrite Hc, (proj2 (Z.leb_le _ _) Hfd). cbn [andb]. rewrite Hm.
  cbn [Channel.buffer_ Channel.with_mutex]. rewrite Hbuild.
  unfold Channel.transmit, Channel.SendData.
  cbn [Channel.buffer_ Channel.with_buffer Channel.with_mutex].
  set (frame_len := 11 + Z.of_nat (length payload)) in *.
  assert (Hsub : size_sub frame_len 0 = frame_len).
  { unfold size_sub, SIZE_MOD. rewrite Z.sub_0_r. apply Z.mod_small. lia. }
  assert (Htake : take (Z.to_nat frame_len)
                    (frame_layout frame_len routine_id payload
                     ++ drop (11 + length payload) (Channel.buffer_ im))
                  = frame_layout frame_len routine_id payload).
  { apply take_app_length'. rewrite length_frame_layout. unfold frame_len. lia. }
  unfold send_fails in Hfail.
  destruct (OS.script w) as [|a rest]; cbn [Channel.SendData_loop].
  - destruct (0 <? frame_len) eqn:E; [|lia]. rewrite Hsub.
    change (drop (Z.to_nat 0) ?l) with l. rewrite Htake.
    unfold Channel.Connect, Channel.locked. cbn. done.
  - destruct Hfail as [Hret Herr].
    destruct (0 <? frame_len) eqn:E; [|lia]. cbv zeta. rewrite Hsub.
    change (drop (Z.to_nat 0) ?l) with l. rewrite Htake.
    destruct (Z.min (OS.ret a) frame_len <? 0) eqn:Eneg.
    + destruct (Z.eqb_spec (OS.errno a) OS.EINTR) as [Heq|Hne]; [lia|].
      unfold Channel.Connect, Channel.locked. cbn. done.
    + destruct (Z.min (OS.ret a) frame_len =? 0) eqn:Ezero; [|lia].
      unfold Channel.Connect, Channel.locked. cbn. done.
Qed.

Lemma reconnect_after_failed_send_deadlocks_witness :
  fst (fst (Channel.ExecuteRPC LittleEndian (fun _ => "Broken pipe"%string) 0x1000
              (Some [x04; x2a]) 2 [] 0 0 connected_channel
              {| OS.script := [ {| OS.ret := -1; OS.errno := OS.EPIPE; OS.data := [] |} ];
                 OS.trace := [] |}))
  = Channel.Deadlock.
Proof.
  refine (proj1 (reconnect_after_failed_send_deadlocks LittleEndian
                   (fun _ => "Broken pipe"%string) 0x1000 [x04; x2a] [] 0 0
                   connected_channel
                   {| OS.script := [ {| OS.ret := -1; OS.errno := OS.EPIPE;
                                        OS.data := [] |} ];
                      OS.trace := [] |} eq_refl eq_refl _ eq_refl _ _)).
  - vm_compute. discriminate.
  - vm_compute. discriminate.
  - split; [cbn; lia|]. intros _. vm_compute. discriminate.
Defined.

(** The world takes the whole frame with one [send] and then fails the
    [recv]: a time-out or another error that is not an interruption. *)
Definition receive_fails (frame_len : Z) (w : OS.World) : Prop :=
  match OS.script w with
  | a1 :: a2 :: _ =>
      frame_len <= OS.ret a1 /\ OS.ret a2 < 0 /\ OS.errno a2 <> OS.EINTR
  | _ => False
  end.

(** A failed receive. When the frame is sent and the [recv] of the
    response fails, [ExecuteRPC] returns [false] with the caller's
    response untouched, marks the channel disconnected and leaves
    [Failed to receive response] as the error, whatever the cause was;
    the descriptor is neither closed nor forgotten, and the lock is
    released. *)
Theorem failed_receive_disconnects (host : Host) (strerror : Z -> string)
    (routine_id : Z) (payload response_buffer : list byte)
    (response_buffer_size response_len : Z) (im : Channel.Impl) (w : OS.World) :
  Channel.mutex_ im = false -> Channel.connected_ im = true ->
  0 <= Channel.socket_fd_ im ->
  Z.of_nat (length (Channel.buffer_ im)) = Protocol.MAX_PACKET_SIZE ->
  11 + Z.of_nat (length payload) <= Protocol.MAX_PACKET_SIZE ->
  receive_fails (11 + Z.of_nat (length payload)) w ->
  let called :=
    Channel.ExecuteRPC host strerror routine_id (Some payload)
      (Z.of_nat (length payload)) response_buffer response_buffer_size response_len
      im w in
  let im' := snd (fst called) in
  fst (fst called) = Channel.Returns (Channel.RpcReturn false response_buffer 0) /\
  Channel.connected_ im' = false /\
  Channel.last_error_ im' = "Failed to receive response"%string /\
  Channel.socket_fd_ im' = Channel.socket_fd_ im /\
  Channel.mutex_ im' = false /\
  OS.trace (snd called)
  = OS.trace w
    ++ [OS.sys_send (Channel.socket_fd_ im)
          (frame_layout (11 + Z.of_nat (length payload)) routine_id payload);
        OS.sys_recv (Channel.socket_fd_ im) (size_sub response_buffer_size 0)].
Proof.
  intros Hm Hc Hfd Hsize Hfit Hfail. cbv zeta.
  unfold Protocol.MAX_PACKET_SIZE in *.
  assert (Hscratch : scratch (Channel.buffer_ im))
    by (unfold scratch; rewrite Hsize; lia).
  pose proof (build_frame_fits host routine_id payload (Channel.buffer_ im)
                Hscratch ltac:(lia)) as Hbuild.
  unfold Channel.ExecuteRPC, Channel.EnsureConnected.
  rewrite Hc, (proj2 (Z.leb_le _ _) Hfd). cbn [andb]. rewrite Hm.
  cbn [Channel.buffer_ Channel.with_mutex]. rewrite Hbuild.
  unfold Channel.transmit, Channel.SendData.
  cbn [Channel.buffer_ Channel.with_buffer Channel.with_mutex].
  set (frame_len := 11 + Z.of_nat (length payload)) in *.
  assert (Hsub : size_sub frame_len 0 = frame_len).
  { unfold size_sub, SIZE_MOD. rewrite Z.sub_0_r. apply Z.mod_small. lia. }
  assert (Htake : take (Z.to_nat frame_len)
                    (frame_layout frame_len routine_id payload
                     ++ drop (11 + length payload) (Channel.buffer_ im))
                  = frame_layout frame_len routine_id payload).
  { apply take_app_length'. rewrite length_frame_layout. unfold frame_len. lia. }
  unfold receive_fails in Hfail.
  destruct (OS.script w) as [|a1 [|a2 rest]]; try done.
  destruct Hfail as (Hsent & Hret & Herr).
  cbn [Channel.SendData_loop].
  destruct (0 <? frame_len) eqn:E; [|lia]. cbv zeta. rewrite Hsub.
  change (drop (Z.to_nat 0) ?l) with l. rewrite Htake.
  replace (Z.min (OS.ret a1) frame_len) with frame_len by lia.
  destruct (frame_len <? 0) eqn:Eneg; [lia|].
  destruct (frame_len =? 0) eqn:Ezero; [lia|].
  rewrite size_add_small by lia. rewrite Z.add_0_l.
  cbn [Channel.SendData_loop].
  destruct (frame_len <? frame_len) eqn:Edone; [lia|].
  unfold Channel.ReceiveData. cbn [OS.script OS.trace Channel.ReceiveData_min].
  change (0 <? Protocol.GetMinFrameSize) with true. cbv iota zeta.
  destruct (OS.ret a2 <? 0) eqn:Eret; [|lia].
  destruct (Z.eqb_spec (OS.errno a2) OS.EINTR) as [Heq|Hne]; [done|].
  cbn [Channel.socket_fd_ Channel.with_buffer Channel.with_mutex].
  destruct ((OS.errno a2 =? OS.EAGAIN) || (OS.errno a2 =? OS.EWOULDBLOCK));
    cbn; rewrite <- app_assoc; done.
Qed.

Lemma failed_receive_disconnects_witness :
  Channel.connected_
    (snd (fst (Channel.ExecuteRPC LittleEndian (fun _ => "error"%string) 0x1000
                 (Some [x04; x2a]) 2 [] 0 0 connected_channel
                 {| OS.script := [ {| OS.ret := 13; OS.errno := 0; OS.data := [] |};
                                   {| OS.ret := -1; OS.errno := OS.EAGAIN;
                                      OS.data := [] |} ];
                    OS.trace := [] |})))
  = false.
Proof.
  refine (proj1 (proj2 (failed_receive_disconnects LittleEndian
                   (fun _ => "error"%string) 0x1000 [x04; x2a] [] 0 0
                   connected_channel
                   {| OS.script := [ {| OS.ret := 13; OS.errno := 0; OS.data := [] |};
                                     {| OS.ret := -1; OS.errno := OS.EAGAIN;
                                        OS.data := [] |} ];
                      OS.trace := [] |} eq_refl eq_refl _ eq_refl _ _))).
  - vm_compute. discriminate.
  - vm_compute. discriminate.
  - split; [cbn; lia|]. split; [cbn; lia|]. vm_compute. discriminate.
Defined.

(** ** [ExecuteRPC] and the regions it is given *)

(** The response region is as large as it was; a call that returns
    [true] reports at least a minimal frame and no more than the region
    holds; there is no access outside a region and no exception. *)
Definition rpc_in_region (response_buffer : list byte) (response_buffer_size : Z)
    (r : Channel.completion Channel.rpc_result) : Prop :=
  match r with
  | Channel.Deadlock => True
  | Channel.Returns (Channel.RpcReturn ok response response_len) =>
      length response = length response_buffer /\
      (ok = true ->
       Protocol.GetMinFrameSize <= response_len <= response_buffer_size)
  | Channel.Returns (Channel.RpcThrow _) => False
  | Channel.Returns Channel.RpcUndefined => False
  end.

Lemma transmit_in_region (host : Host) (strerror : Z -> string) (frame_len : Z)
    (response_buffer : list byte) (response_buffer_size response_len : Z)
    (im im' : Channel.Impl) (w w' : OS.World)
    (r : Channel.completion Channel.rpc_result) :
  0 <= response_buffer_size <= Z.of_nat (length response_buffer) ->
  response_buffer_size < 2 ^ 63 ->
  Channel.transmit host strerror frame_len response_buffer response_buffer_size
    response_len im w = (r, im', w') ->
  rpc_in_region response_buffer response_buffer_size r.
Proof.
  intros Hfit Hmax. unfold Channel.transmit.
  assert (Hreceive : forall im1 w1,
    match Channel.ReceiveData host strerror response_buffer response_buffer_size im1 w1 with
    | (Channel.Received true response received, im, w) =>
        (Channel.Returns (Channel.RpcReturn true response received), im, w)
    | (Channel.Received false response received, im, w) =>
        (Channel.Returns (Channel.RpcReturn false response received),
         Channel.with_error "Failed to receive response"
           (Channel.with_connected false im), w)
    | (Channel.ReceivedUndefined, im, w) => (Channel.Returns Channel.RpcUndefined, im, w)
    end = (r, im', w') -> rpc_in_region response_buffer response_buffer_size r).
  { intros im1 w1 H.
    destruct (Channel.ReceiveData host strerror _ _ im1 w1) as [[rd im2] w2] eqn:E.
    apply ReceiveData_filled in E as [Hf Hmin]; [|done|done].
    destruct rd as [[] data' received|]; [| |done]; injection H as <- <- <-;
      destruct Hf as (Hl & Hr & _); split; try done.
    intros _. lia. }
  destruct (Channel.SendData strerror (Channel.buffer_ im) frame_len im w)
    as [[[] im1] w1]; [by apply Hreceive|].
  destruct (Channel.Connect strerror (Channel.with_connected false im1) w1)
    as [[[[]|] im2] w2].
  - destruct (Channel.SendData strerror (Channel.buffer_ im2) frame_len im2 w2)
      as [[[] im3] w3]; [by apply Hreceive|].
    intros [= <- <- <-]. done.
  - intros [= <- <- <-]. done.
  - intros [= <- <- <-]. done.
Qed.

(** An answer that says the call was interrupted by a signal. *)
Definition interrupted (a : OS.answer) : Prop :=
  OS.ret a < 0 /\ OS.errno a = OS.EINTR.

(** An interrupted [send] is repeated: each interruption costs one more
    call and nothing else, however many there are. *)
Lemma SendData_loop_interrupted (strerror : Z -> string) (interruptions : list OS.answer) :
  forall (script : list OS.answer) (trace : list OS.syscall) (im : Channel.Impl)
         (data : list byte) (len total_sent : Z),
  Forall interrupted interruptions ->
  0 <= total_sent < len -> len < SIZE_MOD ->
  Channel.SendData_loop strerror (interruptions ++ script) trace im data len total_sent
  = Channel.SendData_loop strerror script
      (trace ++ repeat
                  (OS.sys_send (Channel.socket_fd_ im)
                     (take (Z.to_nat (len - total_sent))
                        (drop (Z.to_nat total_sent) data)))
                  (length interruptions))
      im data len total_sent.
Proof.
  induction interruptions as [|a interruptions IH];
    intros script trace im data len total_sent Hi Ht Hlen.
  - cbn [app length repeat]. by rewrite app_nil_r.
  - apply Forall_cons in Hi as [[Hret Herrno] Hi].
    cbn [app length repeat Channel.SendData_loop].
    destruct (Z.ltb_spec total_sent len); [|lia].
    assert (Hsub : size_sub len total_sent = len - total_sent).
    { unfold size_sub. apply Z.mod_small. lia. }
    rewrite Hsub. cbv zeta.
    destruct (Z.ltb_spec (Z.min (OS.ret a) (len - total_sent)) 0); [|lia].
    rewrite Herrno, Z.eqb_refl.
    rewrite IH by done. by rewrite <- app_assoc.
Qed.

(** [ExecuteRPC] stays inside its regions. With the scratch buffer of
    8192 bytes, a request of [request_len] bytes (or none) and room for
    [response_buffer_size] bytes of response, a run of the call against
    any finite sequence of answers touches no memory outside these
    regions and lets no exception out; when the call has returned, the
    response region has kept its size, and a result of [true] reports
    between 11 and [response_buffer_size] bytes. That the call returns is
    not part of this: a [send] that a signal interrupts is issued again,
    without a bound on the number of times, and on a connected channel
    any number of interruptions of the first [send] costs that many
    more calls of it and changes nothing else. *)
Theorem ExecuteRPC_stays_in_regions (host : Host) (strerror : Z -> string)
    (routine_id : Z) (request_data : option (list byte)) (request_len : Z)
    (response_buffer : list byte) (response_buffer_size response_len : Z)
    (im : Channel.Impl) (w : OS.World) :
  Z.of_nat (length (Channel.buffer_ im)) = Protocol.MAX_PACKET_SIZE ->
  match request_data with
  | Some payload => request_len = Z.of_nat (length payload) /\ 10 + request_len < SIZE_MOD
  | None => True
  end ->
  0 <= response_buffer_size <= Z.of_nat (length response_buffer) ->
  response_buffer_size < 2 ^ 63 ->
  let run :=
    Channel.ExecuteRPC host strerror routine_id request_data request_len
      response_buffer response_buffer_size response_len im in
  fst (fst (run w)) <> Channel.Returns Channel.RpcUndefined /\
  (forall e, fst (fst (run w)) <> Channel.Returns (Channel.RpcThrow e)) /\
  (forall ok response n,
     fst (fst (run w)) = Channel.Returns (Channel.RpcReturn ok response n) ->
     length response = length response_buffer /\
     (ok = true -> Protocol.GetMinFrameSize <= n <= response_buffer_size)) /\
  (forall payload interruptions,
     request_data = Some payload ->
     11 + Z.of_nat (length payload) <= Protocol.MAX_PACKET_SIZE ->
     Channel.mutex_ im = false -> Channel.connected_ im = true ->
     0 <= Channel.socket_fd_ im ->
     Forall interrupted interruptions ->
     run {| OS.script := interruptions ++ OS.script w; OS.trace := OS.trace w |}
     = run {| OS.script := OS.script w;
              OS.trace :=
                OS.trace w
                ++ repeat
                     (OS.sys_send (Channel.socket_fd_ im)
                        (frame_layout (11 + Z.of_nat (length payload)) routine_id payload))
                     (length interruptions) |}).
Proof.
  intros Hsize Hreq Hfit Hmax. cbv zeta.
  assert (Hsafe :
    rpc_in_region response_buffer response_buffer_size
      (fst (fst (Channel.ExecuteRPC host strerror routine_id request_data request_len
                   response_buffer response_buffer_size response_len im w)))).
  { assert (Hbuild : forall buffer, length buffer = length (Channel.buffer_ im) ->
      exists r buffer',
        Channel.build_frame host routine_id request_data request_len buffer
        = (Normal r, buffer')).
    { intros buffer Hb. unfold Protocol.MAX_PACKET_SIZE in Hsize.
      assert (Hscratch : scratch buffer) by (unfold scratch; rewrite Hb, Hsize; lia).
      destruct request_data as [payload|].
      - destruct Hreq as [-> Hwrap].
        destruct (Z.lt_ge_cases (10 + Z.of_nat (length payload)) (Z.of_nat (length buffer)))
          as [Hlt|Hge].
        + rewrite build_frame_fits by done. by eexists _, _.
        + rewrite build_frame_too_large by (done || lia). by eexists _, _.
      - change (Channel.build_frame host routine_id None request_len buffer)
          with (Channel.build_frame host routine_id (Some [])
                  (Z.of_nat (length (@nil byte))) buffer).
        rewrite build_frame_fits; [by eexists _, _|done|].
        cbn [length]. rewrite Hb, Hsize. lia. }
    unfold Channel.ExecuteRPC.
    destruct (Channel.EnsureConnected strerror im w) as [[c im1] w1] eqn:E.
    assert (Hb1 : Channel.buffer_ im1 = Channel.buffer_ im).
    { unfold Channel.EnsureConnected in E.
      destruct (Channel.connected_ im && (0 <=? Channel.socket_fd_ im)).
      - by injection E as <- <- <-.
      - by apply Connect_calls in E as (_ & Hb & _). }
    destruct c as [[]|]; [|done|done].
    destruct (Channel.mutex_ im1); [done|].
    cbn [Channel.buffer_ Channel.with_mutex].
    destruct (Hbuild (Channel.buffer_ im1) ltac:(by rewrite Hb1)) as (r & buffer' & ->).
    destruct r as [err|frame_len]; [done|].
    destruct (Channel.transmit _ _ _ _ _ _ _ _) as [[r im2] w2] eqn:Et.
    apply transmit_in_region in Et; [|done|done].
    destruct r; done. }
  split; [|split; [|split]].
  - intros H. by rewrite H in Hsafe.
  - intros e H. by rewrite H in Hsafe.
  - intros ok response n H. by rewrite H in Hsafe.
  - intros payload interruptions -> Hframe Hm Hc Hfd Hi.
    destruct Hreq as [-> Hwrap]. unfold Protocol.MAX_PACKET_SIZE in *.
    assert (Hscratch : scratch (Channel.buffer_ im))
      by (unfold scratch; rewrite Hsize; lia).
    pose proof (build_frame_fits host routine_id payload (Channel.buffer_ im)
                  Hscratch ltac:(lia)) as Hbuild.
    unfold Channel.ExecuteRPC, Channel.EnsureConnected.
    rewrite Hc, (proj2 (Z.leb_le _ _) Hfd). cbn [andb]. rewrite Hm.
    cbn [Channel.buffer_ Channel.with_mutex]. rewrite Hbuild.
    unfold Channel.transmit, Channel.SendData. cbn [OS.script OS.trace].
    rewrite SendData_loop_interrupted by (done || unfold SIZE_MOD; lia).
    cbn [Channel.buffer_ Channel.with_buffer Channel.socket_fd_ Channel.with_mutex].
    rewrite Z.sub_0_r. change (Z.to_nat 0) with 0%nat. rewrite drop_0.
    rewrite take_app_length' by (rewrite length_frame_layout; lia).
    reflexivity.
Qed.

(** A [send] that a signal interrupts. *)
Definition interrupted_send : OS.answer :=
  {| OS.ret := -1; OS.errno := OS.EINTR; OS.data := [] |}.

Lemma ExecuteRPC_stays_in_regions_witness :
  Channel.ExecuteRPC LittleEndian (fun _ => "error"%string) 0x1000
    (Some (divide_by_zero_payload LittleEndian)) 17 blank_packet
    Protocol.MAX_PACKET_SIZE 0 connected_channel
    {| OS.script := [interrupted_send; interrupted_send]
                    ++ OS.script (answering_world LittleEndian);
       OS.trace := OS.trace (answering_world LittleEndian) |}
  = Channel.ExecuteRPC LittleEndian (fun _ => "error"%string) 0x1000
      (Some (divide_by_zero_payload LittleEndian)) 17 blank_packet
      Protocol.MAX_PACKET_SIZE 0 connected_channel
      {| OS.script := OS.script (answering_world LittleEndian);
         OS.trace :=
           OS.trace (answering_world LittleEndian)
           ++ repeat
                (OS.sys_send (Channel.socket_fd_ connected_channel)
                   (frame_layout
                      (11 + Z.of_nat (length (divide_by_zero_payload LittleEndian)))
                      0x1000 (divide_by_zero_payload LittleEndian)))
                (length [interrupted_send; interrupted_send]) |}.
Proof.
  apply (ExecuteRPC_stays_in_regions LittleEndian (fun _ => "error"%string) 0x1000
           (Some (divide_by_zero_payload LittleEndian)) 17 blank_packet
           Protocol.MAX_PACKET_SIZE 0 connected_channel (answering_world LittleEndian)).
  - reflexivity.
  - split; [reflexivity|vm_compute; reflexivity].
  - unfold blank_packet. rewrite repeat_length. vm_compute. split; discriminate.
  - vm_compute. reflexivity.
  - reflexivity.
  - vm_compute. discriminate.
  - reflexivity.
  - reflexivity.
  - vm_compute. discriminate.
  - repeat constructor; vm_compute; reflexivity.
Defined.
(* ================================================================== *)
(** * A call from the client to the service *)

(** The first answer of the world refuses a socket. *)
Definition socket_fails (w : OS.World) : Prop :=
  match OS.script w with
  | [] => False
  | a :: _ => OS.ret a < 0
  end.

(** A channel that a failed receive has left: not connected, with the
    descriptor of the lost connection; and a world that has no socket
    to give. *)
Definition lost_channel : Channel.Impl :=
  Channel.with_fd 7 (Channel.Impl_new "/tmp/ipc_demo.sock" 5000).

Definition no_socket_world : OS.World :=
  {| OS.script := [ {| OS.ret := -1; OS.errno := 24; OS.data := [] |} ];
     OS.trace := [] |}.

(** A client without a connection. When the channel is not connected
    and the system grants no socket, every operation of the client
    returns a failure that says [RPC failed: Failed to establish
    connection]: the cause [Connect] recorded is replaced by
    [ExecuteRPC]. The channel is left not connected and without a
    descriptor. The calls made are the [close] of the descriptor that
    an earlier connection has left, when there is one, and then the
    request for a socket. *)
Theorem Calculator_reports_connection_failure (host : Host) (strerror : Z -> string)
    (op : Calculator.Operation) (a b : Z) (response_data : list byte)
    (im : Channel.Impl) (w : OS.World) :
  Channel.mutex_ im = false -> Channel.connected_ im = false -> socket_fails w ->
  let called := Calculator.ExecuteOperation host strerror op a b response_data im w in
  let stale :=
    if 0 <=? Channel.socket_fd_ im then [OS.sys_close (Channel.socket_fd_ im)] else [] in
  fst (fst called)
  = Channel.Returns
      (Some (Calculator.failure "RPC failed: Failed to establish connection")) /\
  Channel.connected_ (snd (fst called)) = false /\
  Channel.socket_fd_ (snd (fst called)) < 0 /\
  OS.trace (snd called) = OS.trace w ++ stale ++ [OS.sys_socket].
Proof.
  intros Hm Hc Hw. cbv zeta. unfold Calculator.ExecuteOperation.
  rewrite build_request_ok.
  unfold Channel.ExecuteRPC, Channel.EnsureConnected, Channel.Connect, Channel.locked.
  rewrite Hc, Hm. cbn [andb].
  unfold Channel.Connect_body, Channel.close_socket.
  cbn [Channel.connected_ Channel.socket_fd_ Channel.with_mutex andb].
  rewrite Hc. cbn [andb].
  unfold socket_fails in Hw. unfold OS.call, OS.note.
  destruct (0 <=? Channel.socket_fd_ im) eqn:E; cbn [OS.script OS.trace];
    (destruct (OS.script w) as [|ans rest]; [done|]);
    cbn [OS.ret Channel.socket_fd_ Channel.with_fd];
    (destruct (OS.ret ans <? 0) eqn:Er; [|lia]); cbn.
  - rewrite <- app_assoc. repeat split; (done || lia).
  - repeat split; (done || lia).
Qed.

Lemma Calculator_reports_connection_failure_witness :
  OS.trace
    (snd (Calculator.ExecuteOperation LittleEndian (fun _ => "error"%string)
            Calculator.Add double_1 double_2 blank_packet lost_channel no_socket_world))
  = OS.trace no_socket_world
    ++ (if 0 <=? Channel.socket_fd_ lost_channel
        then [OS.sys_close (Channel.socket_fd_ lost_channel)] else [])
    ++ [OS.sys_socket].
Proof.
  apply (Calculator_reports_connection_failure LittleEndian (fun _ => "error"%string)
           Calculator.Add double_1 double_2 blank_packet lost_channel no_socket_world).
  - reflexivity.
  - reflexivity.
  - cbn. lia.
Defined.

(** ** A call that succeeds *)

Section Loops.
Variable strerror : Z -> string.

Lemma SendData_loop_done (script : list OS.answer) (trace : list OS.syscall)
    (im : Channel.Impl) (data : list byte) (len total_sent : Z) :
  len <= total_sent ->
  Channel.SendData_loop strerror script trace im data len total_sent
  = (true, im, {| OS.script := script; OS.trace := trace |}).
Proof.
  intros H. destruct script; cbn [Channel.SendData_loop];
    by destruct (total_sent <? len) eqn:E; [lia|].
Qed.

Lemma ReceiveData_min_done (script : list OS.answer) (trace : list OS.syscall)
    (im : Channel.Impl) (data : list byte) (max_len received : Z) :
  Protocol.GetMinFrameSize <= received ->
  Channel.ReceiveData_min strerror script trace im data max_len received
  = (Channel.Received true data received, im,
     {| OS.script := script; OS.trace := trace |}).
Proof.
  intros H. destruct script; cbn [Channel.ReceiveData_min];
    by destruct (received <? Protocol.GetMinFrameSize) eqn:E; [lia|].
Qed.

Lemma ReceiveData_rest_done (script : list OS.answer) (trace : list OS.syscall)
    (im : Channel.Impl) (data : list byte) (max_len received frame_len : Z) :
  frame_len <= received ->
  Channel.ReceiveData_rest strerror script trace im data max_len received frame_len
  = (Channel.Received true data received, im,
     {| OS.script := script; OS.trace := trace |}).
Proof.
  intros H. destruct script; cbn [Channel.ReceiveData_rest];
    by destruct (received <? frame_len) eqn:E; [lia|].
Qed.

(** One [send] that takes the whole frame. *)
Lemma SendData_at_once (data : list byte) (len : Z) (im : Channel.Impl)
    (a : OS.answer) (script : list OS.answer) (trace : list OS.syscall) :
  0 < len < 2 ^ 63 -> len <= OS.ret a ->
  Channel.SendData strerror data len im
    {| OS.script := a :: script; OS.trace := trace |}
  = (true, im,
     {| OS.script := script;
        OS.trace := trace ++ [OS.sys_send (Channel.socket_fd_ im)
                                (take (Z.to_nat len) data)] |}).
Proof.
  intros Hlen Hret. unfold Channel.SendData. cbn [OS.script OS.trace Channel.SendData_loop].
  destruct (0 <? len) eqn:E; [|lia]. cbv zeta.
  rewrite size_sub_small by lia. rewrite Z.sub_0_r.
  replace (Z.min (OS.ret a) len) with len by lia.
  destruct (len <? 0) eqn:E1; [lia|]. destruct (len =? 0) eqn:E2; [lia|].
  rewrite size_add_small by lia. rewrite Z.add_0_l.
  change (drop (Z.to_nat 0) data) with data.
  by rewrite SendData_loop_done by lia.
Qed.

(** One [recv] that delivers a whole frame into an empty region. *)
Lemma ReceiveData_at_once (host : Host) (data frame : list byte) (max_len : Z)
    (im : Channel.Impl) (a : OS.answer) (script : list OS.answer)
    (trace : list OS.syscall) :
  0 <= OS.ret a -> OS.data a = frame ->
  Protocol.GetMinFrameSize <= Z.of_nat (length frame) <= max_len ->
  max_len <= Z.of_nat (length data) -> max_len < 2 ^ 63 ->
  frame_total_length frame <= Z.of_nat (length frame) ->
  Channel.ReceiveData host strerror data max_len im
    {| OS.script := a :: script; OS.trace := trace |}
  = (Channel.Received true (frame ++ drop (length frame) data)
       (Z.of_nat (length frame)), im,
     {| OS.script := script;
        OS.trace := trace ++ [OS.sys_recv (Channel.socket_fd_ im) max_len] |}).
Proof.
  intros Hret Hdata Hlen Hfit Hmax Htotal. unfold Protocol.GetMinFrameSize in *.
  unfold Channel.ReceiveData. cbn [OS.script OS.trace Channel.ReceiveData_min].
  change (0 <? Protocol.GetMinFrameSize) with true. cbv iota zeta.
  destruct (OS.ret a <? 0) eqn:E; [lia|].
  unfold Channel.delivered. rewrite size_sub_small by lia. rewrite Z.sub_0_r, Hdata.
  rewrite take_ge by lia.
  destruct (Z.of_nat (length frame) =? 0) eqn:E0; [lia|].
  rewrite mem_write_Some by lia.
  change (Z.to_nat 0) with 0%nat. rewrite take_0. cbn [app plus].
  rewrite size_add_small by lia. rewrite Z.add_0_l.
  rewrite ReceiveData_min_done by (unfold Protocol.GetMinFrameSize; lia).
  unfold ByteBuffer.new. rewrite E0.
  rewrite response_length_read;
    [|rewrite length_app, length_drop; lia|lia].
  assert (Hsame : frame_total_length (frame ++ drop (length frame) data)
                  = frame_total_length frame).
  { unfold frame_total_length, uint32_at. f_equal.
    do 5 (destruct frame as [|? frame]; [simpl in Hlen; lia|]). reflexivity. }
  rewrite Hsame. cbn [OS.script OS.trace].
  by rewrite ReceiveData_rest_done by lia.
Qed.

End Loops.

Section Served.
Variable host : Host.
Variable strerror : Z -> string.

(** [ExecuteRPC] when the world takes the frame and delivers a
    response. *)
Lemma ExecuteRPC_served (routine_id : Z) (payload response_buffer response : list byte)
    (response_buffer_size response_len : Z) (im : Channel.Impl) (w : OS.World)
    (a1 a2 : OS.answer) (rest : list OS.answer) :
  Channel.mutex_ im = false -> Channel.connected_ im = true ->
  0 <= Channel.socket_fd_ im ->
  Z.of_nat (length (Channel.buffer_ im)) = Protocol.MAX_PACKET_SIZE ->
  11 + Z.of_nat (length payload) <= Protocol.MAX_PACKET_SIZE ->
  OS.script w = a1 :: a2 :: rest ->
  11 + Z.of_nat (length payload) <= OS.ret a1 ->
  0 <= OS.ret a2 -> OS.data a2 = response ->
  Protocol.GetMinFrameSize <= Z.of_nat (length response) <= response_buffer_size ->
  response_buffer_size <= Z.of_nat (length response_buffer) ->
  response_buffer_size < 2 ^ 63 ->
  frame_total_length response <= Z.of_nat (length response) ->
  Channel.ExecuteRPC host strerror routine_id (Some payload)
    (Z.of_nat (length payload)) response_buffer response_buffer_size response_len im w
  = (Channel.Returns
       (Channel.RpcReturn true (response ++ drop (length response) response_buffer)
          (Z.of_nat (length response))),
     Channel.with_buffer
       (frame_layout (11 + Z.of_nat (length payload)) routine_id payload
        ++ drop (11 + length payload) (Channel.buffer_ im)) im,
     {| OS.script := rest;
        OS.trace :=
          OS.trace w
          ++ [OS.sys_send (Channel.socket_fd_ im)
                (frame_layout (11 + Z.of_nat (length payload)) routine_id payload);
              OS.sys_recv (Channel.socket_fd_ im) response_buffer_size] |}).
Proof.
  intros Hm Hc Hfd Hsize Hfit Hscript Hsent Hret Hdata Hlen Hroom Hmax Htotal.
  unfold Protocol.MAX_PACKET_SIZE in *.
  assert (Hscratch : scratch (Channel.buffer_ im))
    by (unfold scratch; rewrite Hsize; lia).
  pose proof (build_frame_fits host routine_id payload (Channel.buffer_ im)
                Hscratch ltac:(lia)) as Hbuild.
  unfold Channel.ExecuteRPC, Channel.EnsureConnected.
  rewrite Hc, (proj2 (Z.leb_le _ _) Hfd). cbn [andb]. rewrite Hm.
  cbn [Channel.buffer_ Channel.with_mutex]. rewrite Hbuild.
  unfold Channel.transmit.
  cbn [Channel.buffer_ Channel.with_buffer Channel.with_mutex].
  destruct w as [script trace]. cbn [OS.script OS.trace] in *. subst script.
  rewrite SendData_at_once by lia.
  rewrite take_app_length' by (rewrite length_frame_layout; lia).
  rewrite (ReceiveData_at_once strerror host response_buffer response) by (done || lia).
  destruct im as [path timeout fd connected err mutex buffer].
  cbn [Channel.socket_path_ Channel.timeout_ms_ Channel.socket_fd_ Channel.connected_
       Channel.last_error_ Channel.mutex_ Channel.buffer_ Channel.with_mutex
       Channel.with_buffer] in *.
  subst mutex. by rewrite <- app_assoc.
Qed.

(** The fields of a request payload do not depend on what follows its
    seventeen bytes. *)
Lemma request_fields_app (payload rest : list byte) :
  length payload = 17%nat ->
  request_op (payload ++ rest) = request_op payload /\
  request_a host (payload ++ rest) = request_a host payload /\
  request_b host (payload ++ rest) = request_b host payload.
Proof.
  intros H. do 17 (destruct payload as [|? payload]; [simpl in H; lia|]).
  destruct payload; [|simpl in H; lia]. done.
Qed.

Lemma length_request_payload (op a b : Z) :
  length (request_payload host op a b) = 17%nat.
Proof.
  unfold request_payload. by rewrite !length_app, length_be_bytes, !length_object_bytes.
Qed.

End Served.

(** What the service gives for a call of the client, as the client
    reports it. *)
Definition reported (op : Calculator.Operation) (a b : Z) : Calculator.Result :=
  let '(status, result, text) := CalculatorService.ExecuteOperation (requested op) a b in
  match status with
  | CalculatorService.Success =>
      {| Calculator.success := true; Calculator.value := result;
         Calculator.error_message := EmptyString |}
  | _ => Calculator.failure text
  end.

(** The frame the client sends for [op a b], and the frame the service
    answers it with. *)
Definition call_frame (host : Host) (op : Calculator.Operation) (a b : Z) : list byte :=
  frame_layout 28 Calculator.REQUEST_ROUTINE_ID
    (request_payload host (Calculator.Operation_code op) a b).

Definition answer_frame (host : Host) (op : Calculator.Operation) (a b : Z) : list byte :=
  let '(status, result, text) := CalculatorService.ExecuteOperation (requested op) a b in
  response_frame host status result text.

Lemma length_answer_frame (host : Host) (op : Calculator.Operation) (a b : Z) :
  24 <= Z.of_nat (length (answer_frame host op a b)) <= 46 /\
  frame_total_length (answer_frame host op a b)
  = Z.of_nat (length (answer_frame host op a b)).
Proof.
  unfold answer_frame.
  assert (Htext : Z.of_nat (String.length
            (snd (CalculatorService.ExecuteOperation (requested op) a b))) <= 22).
  { unfold requested, CalculatorService.ExecuteOperation.
    destruct op; cbn [Calculator.Operation_code CalculatorService.Operation_of_byte
                      Z.eqb Pos.eqb].
    4: destruct (Double.abs_lt _ _).
    all: cbn [snd]; vm_compute; discriminate. }
  destruct (CalculatorService.ExecuteOperation (requested op) a b)
    as [[status result] text]. cbn [snd] in Htext.
  assert (Hlen : Z.of_nat (length (response_frame host status result text))
                 = 24 + Z.of_nat (String.length text)).
  { rewrite response_frame_layout, length_frame_layout.
    pose proof (length_response_payload host status result text). lia. }
  split; [lia|]. rewrite Hlen.
  unfold frame_total_length, uint32_at, response_frame.
  change ([byte_of_Z Protocol.START_BYTE] ++ ?l) with (byte_of_Z Protocol.START_BYTE :: l).
  cbn [drop]. rewrite drop_0.
  rewrite take_app_length' by (by rewrite length_be_bytes).
  apply be_value_be_bytes_4. lia.
Qed.

Lemma call_frame_parts (host : Host) (op : Calculator.Operation) (a b : Z) :
  length (call_frame host op a b) = 28%nat /\
  frame_start (call_frame host op a b) = Protocol.START_BYTE /\
  frame_version (call_frame host op a b) = Protocol.VERSION /\
  frame_routine_id (call_frame host op a b) = CalculatorService.GetRequestRoutineId /\
  drop 10 (call_frame host op a b)
  = request_payload host (Calculator.Operation_code op) a b
    ++ be_bytes 1 Protocol.END_BYTE.
Proof.
  unfold call_frame. split.
  { rewrite length_frame_layout, length_request_payload. done. }
  unfold frame_layout. generalize (request_payload host (Calculator.Operation_code op) a b).
  intros payload. repeat split.
Qed.

(** The server answers the client's request. For every operation and
    every pair of doubles, a server whose registry holds the calculator
    service answers the 28-byte frame of the client's call with one
    [send] of the frame that carries what the service's
    [ExecuteOperation] gives; the handler is looked up under the
    registry's lock and run on the 17 payload bytes outside it. *)
Theorem server_answers_calculator_request (host : Host) (s : UDSServer.t)
    (client_fd : Z) (op : Calculator.Operation) (a b : Z) (response : list byte)
    (w : OS.World) (ans : OS.answer) (rest : list OS.answer) :
  0 <= a < 2 ^ 64 -> 0 <= b < 2 ^ 64 ->
  ServiceManager.services_ (UDSServer.service_manager_ s)
    !! CalculatorService.GetRequestRoutineId
  = Some (ServiceManager.calculator host) ->
  Z.of_nat (length response) = Protocol.MAX_PACKET_SIZE ->
  OS.script w = ans :: rest -> 0 <= OS.ret ans ->
  UDSServer.ProcessClientRequest host s client_fd (call_frame host op a b) 28 response w
  = (Normal (Z.of_nat (length (answer_frame host op a b))),
     [(ServiceManager.ActFind CalculatorService.GetRequestRoutineId, true);
      (ServiceManager.ActExecute CalculatorService.GetRequestRoutineId
         (drop 10 (call_frame host op a b)) 17, false)],
     {| OS.script := rest;
        OS.trace := OS.trace w ++ [OS.sys_send client_fd (answer_frame host op a b)] |}).
Proof.
  intros Ha Hb Hreg Hresp Hscript Hret.
  destruct (call_frame_parts host op a b) as (Hlen & Hstart & Hversion & Hid & Hdrop).
  rewrite ProcessClientRequest_spec by (rewrite ?Hlen; lia).
  rewrite Hstart, Hversion, Hid, !Z.eqb_refl. cbn [negb orb].
  unfold ServiceManager.ExecuteService.
  cbn [ServiceManager.lock ServiceManager.unlock ServiceManager.services_
       ServiceManager.observe ServiceManager.mutex_].
  rewrite Hreg. cbn [ServiceManager.Execute ServiceManager.calculator].
  set (payload := request_payload host (Calculator.Operation_code op) a b) in *.
  pose proof (length_request_payload host (Calculator.Operation_code op) a b) as Hpl.
  fold payload in Hpl.
  rewrite <- Hresp. change (28 - 10 - 1) with 17.
  rewrite Execute_spec;
    [|rewrite Hdrop, length_app, Hpl, length_be_bytes; lia|lia
     |rewrite Hresp; unfold Protocol.MAX_PACKET_SIZE; lia].
  pose proof (length_answer_frame host op a b) as [Hal Htotal].
  unfold answer, answer_frame in *. cbn [Z.eqb Z.ltb Z.compare Pos.compare Pos.compare_cont].
  rewrite Hdrop.
  destruct (request_fields_app host payload (be_bytes 1 Protocol.END_BYTE) Hpl)
    as (-> & -> & ->).
  destruct (request_payload_fields host op a b Ha Hb) as (Hfo & Hfa & Hfb).
  fold payload in Hfo, Hfa, Hfb. rewrite Hfo, Hfa, Hfb. fold (requested op).
  destruct (CalculatorService.ExecuteOperation (requested op) a b)
    as [[status result] text]. cbn [fst snd].
  set (frame := response_frame host status result text) in *.
  assert (Hfl : Z.of_nat (length frame) = 24 + Z.of_nat (String.length text)).
  { unfold frame. rewrite response_frame_layout, length_frame_layout.
    pose proof (length_response_payload host status result text). lia. }
  rewrite <- Hfl.
  replace (24 + String.length text)%nat with (length frame) by lia.
  unfold UDSServer.send_response. cbn [app].
  destruct (0 <? Z.of_nat (length frame)) eqn:E; [|lia].
  rewrite mem_read_Some;
    [|lia|lia|rewrite length_app, length_drop; unfold Protocol.MAX_PACKET_SIZE in *; lia].
  change (Z.to_nat 0) with 0%nat. rewrite drop_0, Nat2Z.id, take_app_length.
  unfold OS.call. rewrite Hscript.
  destruct (OS.ret ans <? 0) eqn:Er; [lia|]. reflexivity.
Qed.

Lemma server_answers_calculator_request_witness :
  UDSServer.ProcessClientRequest LittleEndian (calculator_server LittleEndian) 9
    (call_frame LittleEndian Calculator.Add double_1 double_2) 28 blank_packet
    (one_answer 24)
  = (Normal (Z.of_nat (length (answer_frame LittleEndian Calculator.Add double_1 double_2))),
     [(ServiceManager.ActFind CalculatorService.GetRequestRoutineId, true);
      (ServiceManager.ActExecute CalculatorService.GetRequestRoutineId
         (drop 10 (call_frame LittleEndian Calculator.Add double_1 double_2)) 17, false)],
     {| OS.script := [];
        OS.trace :=
          [] ++ [OS.sys_send 9
                   (answer_frame LittleEndian Calculator.Add double_1 double_2)] |}).
Proof.
  apply (server_answers_calculator_request LittleEndian (calculator_server LittleEndian)
           9 Calculator.Add double_1 double_2 blank_packet (one_answer 24)
           {| OS.ret := 24; OS.errno := 0; OS.data := [] |} []).
  - unfold double_1. lia.
  - unfold double_2. lia.
  - reflexivity.
  - unfold blank_packet. by rewrite repeat_length.
  - reflexivity.
  - cbn. lia.
Defined.

(** A call of the client, end to end on the client's side. On a
    connected channel, when the world takes the request with one [send]
    and delivers the service's response frame with one [recv], every
    operation of the client returns exactly what the service's
    [ExecuteOperation] gives for the same operands; the only system
    calls are the [send] of the 28-byte request frame and the [recv]. *)
Theorem Calculator_call_returns_answer (host : Host) (strerror : Z -> string)
    (op : Calculator.Operation) (a b : Z) (response_data : list byte)
    (im : Channel.Impl) (w : OS.World) (a1 a2 : OS.answer) (rest : list OS.answer) :
  0 <= a < 2 ^ 64 -> 0 <= b < 2 ^ 64 ->
  Channel.mutex_ im = false -> Channel.connected_ im = true ->
  0 <= Channel.socket_fd_ im ->
  Z.of_nat (length (Channel.buffer_ im)) = Protocol.MAX_PACKET_SIZE ->
  Z.of_nat (length response_data) = Protocol.MAX_PACKET_SIZE ->
  OS.script w = a1 :: a2 :: rest -> 28 <= OS.ret a1 -> 0 <= OS.ret a2 ->
  OS.data a2 = answer_frame host op a b ->
  Calculator.ExecuteOperation host strerror op a b response_data im w
  = (Channel.Returns (Some (reported op a b)),
     Channel.with_buffer (call_frame host op a b ++ drop 28 (Channel.buffer_ im)) im,
     {| OS.script := rest;
        OS.trace :=
          OS.trace w
          ++ [OS.sys_send (Channel.socket_fd_ im) (call_frame host op a b);
              OS.sys_recv (Channel.socket_fd_ im) Protocol.MAX_PACKET_SIZE] |}).
Proof.
  intros Ha Hb Hm Hc Hfd Hsize Hresp Hscript Hsent Hret Hdata.
  unfold Calculator.ExecuteOperation. rewrite build_request_ok.
  set (payload := request_payload host (Calculator.Operation_code op) a b).
  pose proof (length_request_payload host (Calculator.Operation_code op) a b) as Hpl.
  fold payload in Hpl.
  pose proof (length_answer_frame host op a b) as [Hal Htotal].
  replace 17 with (Z.of_nat (length payload)) by lia.
  rewrite (ExecuteRPC_served host strerror Calculator.REQUEST_ROUTINE_ID payload
             response_data (answer_frame host op a b) Protocol.MAX_PACKET_SIZE 0
             im w a1 a2 rest Hm Hc Hfd Hsize);
    try done; try (unfold Protocol.MAX_PACKET_SIZE, Protocol.GetMinFrameSize in *; lia).
  rewrite Hpl. change (11 + Z.of_nat 17) with 28. change (11 + 17)%nat with 28%nat.
  fold (call_frame host op a b).
  f_equal. f_equal. f_equal.
  unfold reported, answer_frame in *.
  pose proof (ExecuteOperation_range (requested op) a b) as Hrange.
  destruct (CalculatorService.ExecuteOperation (requested op) a b)
    as [[status result] text]. cbn [fst snd] in Hrange.
  set (frame := response_frame host status result text) in *.
  assert (Hfl : Z.of_nat (length frame) = 24 + Z.of_nat (String.length text)).
  { unfold frame. rewrite response_frame_layout, length_frame_layout.
    pose proof (length_response_payload host status result text). lia. }
  rewrite Hfl. apply parse_response_frame; [done|lia].
Qed.

Lemma Calculator_call_returns_answer_witness :
  fst (fst (Calculator.ExecuteOperation LittleEndian (fun _ => "error"%string)
              Calculator.Divide double_42 Double.zero blank_packet connected_channel
              (answering_world LittleEndian)))
  = Channel.Returns (Some (reported Calculator.Divide double_42 Double.zero)).
Proof.
  rewrite (Calculator_call_returns_answer LittleEndian (fun _ => "error"%string)
             Calculator.Divide double_42 Double.zero blank_packet connected_channel
             (answering_world LittleEndian)
             {| OS.ret := 28; OS.errno := 0; OS.data := [] |}
             {| OS.ret := 40; OS.errno := 0;
                OS.data := divide_by_zero_response LittleEndian |} []);
    try reflexivity; try (unfold double_42, Double.zero; lia); try (cbn; lia).
Defined.

(* ================================================================== *)
(** * Further properties of the server *)

(** The calls that take the clients [fds] out of epoll and close them. *)
Definition closing (epoll_fd : Z) (fds : list Z) : list OS.syscall :=
  flat_map (fun fd => [OS.sys_epoll_ctl_del epoll_fd fd; OS.sys_close fd]) fds.

(** The call that closes [fd] if it is a descriptor. *)
Definition closing_if_open (fd : Z) : list OS.syscall :=
  if 0 <=? fd then [OS.sys_close fd] else [].

Lemma CloseAllClients_spec (s : UDSServer.t) (w : OS.World) :
  UDSServer.CloseAllClients s w
  = (UDSServer.set_clients ∅ s,
     {| OS.script := OS.script w;
        OS.trace := OS.trace w
                    ++ closing (UDSServer.epoll_fd_ s)
                         (map fst (map_to_list (UDSServer.clients_ s))) |}).
Proof.
  unfold UDSServer.CloseAllClients, UDSServer.set_clients. f_equal.
  generalize (map_to_list (UDSServer.clients_ s)). intros l. revert w.
  induction l as [|c l IH]; intros w; cbn [fold_left map closing flat_map].
  - rewrite app_nil_r. by destruct w.
  - rewrite IH. unfold OS.note. cbn [OS.script OS.trace]. f_equal.
    rewrite <- !app_assoc. reflexivity.
Qed.

Lemma HandleCleanup_spec (s : UDSServer.t) (w : OS.World) :
  UDSServer.HandleCleanup s w
  = ({| UDSServer.socket_path_ := UDSServer.socket_path_ s;
        UDSServer.service_manager_ := UDSServer.service_manager_ s;
        UDSServer.running_ := UDSServer.running_ s;
        UDSServer.server_thread_ := UDSServer.server_thread_ s;
        UDSServer.server_fd_ := -1; UDSServer.epoll_fd_ := -1;
        UDSServer.timer_fd_ := -1; UDSServer.clients_ := ∅ |},
     {| OS.script := OS.script w;
        OS.trace :=
          OS.trace w
          ++ closing (UDSServer.epoll_fd_ s)
               (map fst (map_to_list (UDSServer.clients_ s)))
          ++ closing_if_open (UDSServer.timer_fd_ s)
          ++ closing_if_open (UDSServer.epoll_fd_ s)
          ++ closing_if_open (UDSServer.server_fd_ s)
          ++ [OS.sys_unlink (UDSServer.socket_path_ s)] |}).
Proof.
  unfold UDSServer.HandleCleanup. rewrite CloseAllClients_spec.
  unfold UDSServer.set_clients, UDSServer.RemoveSocketFile, closing_if_open, OS.note.
  cbn [UDSServer.timer_fd_ UDSServer.epoll_fd_ UDSServer.server_fd_
       UDSServer.socket_path_ UDSServer.service_manager_ UDSServer.running_
       UDSServer.server_thread_ UDSServer.clients_].
  f_equal.
  destruct (0 <=? UDSServer.timer_fd_ s), (0 <=? UDSServer.epoll_fd_ s),
    (0 <=? UDSServer.server_fd_ s); cbn [OS.script OS.trace];
    f_equal; rewrite <- ?app_assoc; reflexivity.
Qed.

(** [HandleCleanup] closes everything the server holds. Every client is
    taken out of epoll and closed, in the order of the iteration and
    while the epoll descriptor is still open; then the timer, the epoll
    and the listening descriptor are closed, each only if it is one;
    the socket file is unlinked last. Afterwards the server has no
    client and no descriptor, and nothing else of it has changed; the
    result of a call decides nothing but a warning in the log when the
    file cannot be unlinked. A cleanup that runs once more, as
    the one at the end of [ServerThreadFunc] does when the loop has gone
    through the [Cleanup] state, closes nothing and only unlinks the
    socket file again. *)
Theorem HandleCleanup_closes_everything (s : UDSServer.t) (w : OS.World) :
  let cleaned := UDSServer.HandleCleanup s w in
  let s' := fst cleaned in
  UDSServer.GetClientCount s' = 0 /\
  s' = {| UDSServer.socket_path_ := UDSServer.socket_path_ s;
          UDSServer.service_manager_ := UDSServer.service_manager_ s;
          UDSServer.running_ := UDSServer.running_ s;
          UDSServer.server_thread_ := UDSServer.server_thread_ s;
          UDSServer.server_fd_ := -1; UDSServer.epoll_fd_ := -1;
          UDSServer.timer_fd_ := -1; UDSServer.clients_ := ∅ |} /\
  OS.script (snd cleaned) = OS.script w /\
  OS.trace (snd cleaned)
  = OS.trace w
    ++ closing (UDSServer.epoll_fd_ s) (map fst (map_to_list (UDSServer.clients_ s)))
    ++ closing_if_open (UDSServer.timer_fd_ s)
    ++ closing_if_open (UDSServer.epoll_fd_ s)
    ++ closing_if_open (UDSServer.server_fd_ s)
    ++ [OS.sys_unlink (UDSServer.socket_path_ s)] /\
  (forall fd, is_Some (UDSServer.clients_ s !! fd) ->
     In (OS.sys_epoll_ctl_del (UDSServer.epoll_fd_ s) fd) (OS.trace (snd cleaned)) /\
     In (OS.sys_close fd) (OS.trace (snd cleaned))) /\
  UDSServer.HandleCleanup s' (snd cleaned)
  = (s', OS.note (OS.sys_unlink (UDSServer.socket_path_ s)) (snd cleaned)).
Proof.
  cbv zeta. rewrite HandleCleanup_spec. cbn [fst snd OS.script OS.trace].
  split; [reflexivity|]. split; [reflexivity|]. split; [reflexivity|].
  split; [reflexivity|]. split.
  - intros fd [c Hc].
    assert (Hin : In fd (map fst (map_to_list (UDSServer.clients_ s)))).
    { apply in_map_iff. exists (fd, c). split; [done|].
      apply list_elem_of_In. by apply elem_of_map_to_list. }
    split; apply in_or_app; right; apply in_or_app; left;
      unfold closing; apply in_flat_map; exists fd; (split; [done|]).
    + by left.
    + right. by left.
  - rewrite HandleCleanup_spec.
    cbn [UDSServer.timer_fd_ UDSServer.epoll_fd_ UDSServer.server_fd_
         UDSServer.socket_path_ UDSServer.service_manager_ UDSServer.running_
         UDSServer.server_thread_ UDSServer.clients_ OS.trace OS.script].
    rewrite map_to_list_empty. unfold OS.note. cbn. reflexivity.
Qed.

Lemma NoDup_fst_filter {A B : Type} (f : A * B -> bool) (l : list (A * B)) :
  NoDup (map fst l) -> NoDup (map fst (List.filter f l)).
Proof.
  induction l as [|x l IH]; cbn [map List.filter]; [done|].
  intros Hnd. apply NoDup_cons in Hnd as [Hx Hl].
  destruct (f x); cbn [map]; [|by apply IH].
  apply NoDup_cons. split; [|by apply IH].
  intros Hin. apply Hx. apply list_elem_of_In in Hin. apply list_elem_of_In.
  apply in_map_iff in Hin as [y [Hy Hin]]. apply in_map_iff. exists y.
  split; [done|]. apply filter_In in Hin. tauto.
Qed.

Lemma inactive_clients_NoDup (now : Z) (s : UDSServer.t) :
  NoDup (UDSServer.inactive_clients now s).
Proof.
  unfold UDSServer.inactive_clients. apply NoDup_fst_filter.
  apply (NoDup_fst_map_to_list (UDSServer.clients_ s)).
Qed.

Lemma inactive_clients_spec (now : Z) (s : UDSServer.t) (fd : Z) :
  fd ∈ UDSServer.inactive_clients now s
  <-> exists c, UDSServer.clients_ s !! fd = Some c
                /\ Protocol.INACTIVITY_TIMEOUT_SEC < now - UDSServer.last_activity c.
Proof.
  unfold UDSServer.inactive_clients. rewrite list_elem_of_In, in_map_iff. split.
  - intros [[fd' c] [<- Hin]]. apply filter_In in Hin as [Hin Hidle].
    exists c. split; [|by apply Z.ltb_lt in Hidle].
    apply elem_of_map_to_list. by apply list_elem_of_In.
  - intros [c [Hc Hidle]]. exists (fd, c). split; [done|]. apply filter_In. split.
    + apply list_elem_of_In. by apply elem_of_map_to_list.
    + by apply Z.ltb_lt.
Qed.

(** Closing the registered clients [fds], one after the other. *)
Lemma HandleClientClose_each (fds : list Z) :
  forall (s : UDSServer.t) (w : OS.World),
    NoDup fds ->
    (forall fd, fd ∈ fds -> is_Some (UDSServer.clients_ s !! fd)) ->
    exists clients,
      fold_left (fun sw fd => UDSServer.HandleClientClose fd (fst sw) (snd sw))
        fds (s, w)
      = (UDSServer.set_clients clients s,
         {| OS.script := OS.script w;
            OS.trace := OS.trace w ++ closing (UDSServer.epoll_fd_ s) fds |})
      /\ forall fd, clients !! fd
                    = if decide (fd ∈ fds) then None else UDSServer.clients_ s !! fd.
Proof.
  induction fds as [|fd fds IH]; intros s w Hnd Hreg.
  - exists (UDSServer.clients_ s). cbn [fold_left closing flat_map].
    rewrite app_nil_r. split; [by destruct s, w|].
    intros fd. destruct (decide (fd ∈ [])) as [Hin|]; [|done]. by apply elem_of_nil in Hin.
  - apply NoDup_cons in Hnd as [Hfd Hnd].
    destruct (Hreg fd) as [c Hc]; [by left|].
    cbn [fold_left fst snd]. unfold UDSServer.HandleClientClose at 2. rewrite Hc.
    destruct (IH (UDSServer.set_clients (delete fd (UDSServer.clients_ s)) s)
                (OS.note (OS.sys_close fd)
                   (OS.note (OS.sys_epoll_ctl_del (UDSServer.epoll_fd_ s) fd) w)) Hnd)
      as [clients [Hfold Hlook]].
    { intros fd' Hin. cbn [UDSServer.set_clients UDSServer.clients_].
      rewrite lookup_delete_ne; [apply Hreg; by right|]. by intros ->. }
    exists clients. split.
    + rewrite Hfold. unfold OS.note, UDSServer.set_clients.
      cbn [OS.script OS.trace UDSServer.epoll_fd_ UDSServer.socket_path_
           UDSServer.service_manager_ UDSServer.running_ UDSServer.server_thread_
           UDSServer.server_fd_ UDSServer.timer_fd_ closing flat_map].
      f_equal. f_equal. rewrite <- !app_assoc. reflexivity.
    + intros fd'. rewrite Hlook. cbn [UDSServer.set_clients UDSServer.clients_].
      destruct (decide (fd' ∈ fds)) as [Hin|Hout].
      * rewrite decide_True; [done|by right].
      * destruct (decide (fd' = fd)) as [->|Hne].
        -- rewrite decide_True; [|by left]. by rewrite lookup_delete_eq.
        -- rewrite decide_False; [by rewrite lookup_delete_ne|].
           intros Hin. apply elem_of_cons in Hin as [?|?]; done.
Qed.

(** When the inactivity timer fires at time [now], the clients whose
    last activity lies more than [INACTIVITY_TIMEOUT_SEC] seconds back
    are taken out of epoll and closed, each once and in the order of the
    iteration, and are forgotten; every other client stays as it is, the
    rest of the server is unchanged and no result of a call is read. *)
Theorem HandleInactivityTimer_closes_idle_clients
    (now : Z) (s : UDSServer.t) (w : OS.World) :
  let after := UDSServer.HandleInactivityTimer now s w in
  (forall fd,
     UDSServer.clients_ (fst after) !! fd
     = match UDSServer.clients_ s !! fd with
       | Some c =>
           if Protocol.INACTIVITY_TIMEOUT_SEC <? now - UDSServer.last_activity c
           then None else Some c
       | None => None
       end) /\
  fst after = UDSServer.set_clients (UDSServer.clients_ (fst after)) s /\
  OS.trace (snd after)
  = OS.trace w ++ closing (UDSServer.epoll_fd_ s) (UDSServer.inactive_clients now s) /\
  OS.script (snd after) = OS.script w /\
  NoDup (UDSServer.inactive_clients now s) /\
  (UDSServer.GetClientCount (fst after) <= UDSServer.GetClientCount s).
Proof.
  cbv zeta. unfold UDSServer.HandleInactivityTimer.
  destruct (HandleClientClose_each (UDSServer.inactive_clients now s) s w
              (inactive_clients_NoDup now s)) as [clients [-> Hlook]].
  { intros fd Hin. apply inactive_clients_spec in Hin as [c [Hc _]]. by exists c. }
  cbn [fst snd OS.trace OS.script UDSServer.set_clients UDSServer.clients_].
  assert (Hsub : clients ⊆ UDSServer.clients_ s).
  { apply map_subseteq_spec. intros fd c. rewrite Hlook.
    by destruct (decide (fd ∈ UDSServer.inactive_clients now s)). }
  split; [|split; [reflexivity|split; [reflexivity|split; [reflexivity|split]]]].
  - intros fd. rewrite Hlook.
    destruct (decide (fd ∈ UDSServer.inactive_clients now s)) as [Hin|Hout].
    + apply inactive_clients_spec in Hin as [c [-> Hidle]].
      apply Z.ltb_lt in Hidle. by rewrite Hidle.
    + destruct (UDSServer.clients_ s !! fd) as [c|] eqn:Hc; [|done].
      destruct (Z.ltb_spec Protocol.INACTIVITY_TIMEOUT_SEC
                  (now - UDSServer.last_activity c)) as [Hidle|]; [|done].
      exfalso. apply Hout. apply inactive_clients_spec. by exists c.
  - apply inactive_clients_NoDup.
  - unfold UDSServer.GetClientCount. cbn [UDSServer.clients_].
    apply Nat2Z.inj_le. by apply map_subseteq_size.
Qed.

(** At most one call, a [send] to [client_fd], separates the world [w]
    from the one of [processed], whose result is not an exception. *)
Definition sends_at_most_once (client_fd : Z) (w : OS.World)
    (processed : outcome Z * list (ServiceManager.action * bool) * OS.World) : Prop :=
  (exists sent,
     OS.trace (snd processed) = OS.trace w ++ sent
     /\ (sent = [] \/ exists bytes, sent = [OS.sys_send client_fd bytes]))
  /\ (forall e, fst (fst processed) <> Throw e).

Lemma sends_at_most_once_none (client_fd : Z) (w : OS.World) (r : outcome Z)
    (log : list (ServiceManager.action * bool)) :
  (forall e, r <> Throw e) -> sends_at_most_once client_fd w (r, log, w).
Proof.
  intros Hr. split; [|done]. exists []. rewrite app_nil_r. split; [done|by left].
Qed.

(** The calls [ProcessClientRequest] makes: none, or one [send] to the
    client; and it lets no exception out. *)
Lemma ProcessClientRequest_calls (host : Host) (s : UDSServer.t) (client_fd : Z)
    (data : list byte) (len : Z) (response : list byte) (w : OS.World) :
  sends_at_most_once client_fd w
    (UDSServer.ProcessClientRequest host s client_fd data len response w).
Proof.
  unfold UDSServer.ProcessClientRequest.
  destruct (len <? Protocol.GetMinFrameSize); [by apply sends_at_most_once_none|].
  destruct (ByteBuffer.new (Some data) len) as [request|e|];
    [|by apply sends_at_most_once_none..].
  destruct (UDSServer.parse_frame host request) as [[[routine_id|]|e|] request'];
    [|by apply sends_at_most_once_none..].
  destruct (ServiceManager.ExecuteService _ _ _ _ _ _) as [[[n|e|] output] log];
    cbn [UDSServer.send_response]; [|by apply sends_at_most_once_none..].
  destruct (0 <? n); [|by apply sends_at_most_once_none].
  destruct (mem_read output 0 n) as [bytes|]; [|by apply sends_at_most_once_none].
  unfold OS.call.
  destruct (OS.script w) as [|a rest]; destruct (OS.ret _ <? 0);
    (split; [|done]); exists [OS.sys_send client_fd bytes];
    (split; [done|right; by exists bytes]).
Qed.

(** What [HandleClientData] does in each case. For a descriptor that is
    not a client it answers false with no call. Otherwise it calls
    [recv] once for at most [MAX_PACKET_SIZE] bytes, and then [send] on
    the same descriptor at most once. When [recv] fails the connection is
    kept exactly for [EAGAIN] and [EWOULDBLOCK]; when it delivers nothing
    the connection is dropped; in both cases the server is unchanged.
    When bytes arrive, the client's last activity becomes [now], no
    client is added or removed, and the answer is never false: a request
    that is refused, fails in its handler or cannot be answered does
    not end the connection. *)
Theorem HandleClientData_cases (host : Host) (s : UDSServer.t) (client_fd now : Z)
    (buffer response : list byte) (w : OS.World) :
  let handled := UDSServer.HandleClientData host s client_fd now buffer response w in
  let received := OS.call (OS.sys_recv client_fd Protocol.MAX_PACKET_SIZE) w in
  let a := fst received in
  (UDSServer.clients_ s !! client_fd = None -> handled = (Normal false, s, [], w)) /\
  (forall client, UDSServer.clients_ s !! client_fd = Some client ->
     (exists sent,
        OS.trace (snd handled)
        = OS.trace w ++ OS.sys_recv client_fd Protocol.MAX_PACKET_SIZE :: sent
        /\ (sent = [] \/ exists bytes, sent = [OS.sys_send client_fd bytes])) /\
     (OS.ret a < 0 ->
        handled
        = (Normal ((OS.errno a =? OS.EAGAIN) || (OS.errno a =? OS.EWOULDBLOCK)),
           s, [], snd received)) /\
     (0 <= OS.ret a -> OS.data a = [] ->
        handled = (Normal false, s, [], snd received)) /\
     (0 <= OS.ret a -> OS.data a <> [] ->
        fst (fst (fst handled)) <> Normal false /\
        snd (fst (fst handled))
        = UDSServer.set_clients
            (<[client_fd := {| UDSServer.fd := UDSServer.fd client;
                               UDSServer.last_activity := now;
                               UDSServer.recv_buffer := UDSServer.recv_buffer client |}]>
               (UDSServer.clients_ s)) s /\
        UDSServer.GetClientCount (snd (fst (fst handled))) = UDSServer.GetClientCount s)).
Proof.
  cbv zeta. unfold UDSServer.HandleClientData. split; [by intros ->|].
  intros client Hclient. rewrite Hclient.
  destruct (OS.call (OS.sys_recv client_fd Protocol.MAX_PACKET_SIZE) w) as [a w1] eqn:Hcall.
  assert (Htrace : OS.trace w1
                   = OS.trace w ++ [OS.sys_recv client_fd Protocol.MAX_PACKET_SIZE]).
  { unfold OS.call in Hcall. destruct (OS.script w); by injection Hcall as <- <-. }
  cbn [fst snd].
  destruct (Z.ltb_spec (OS.ret a) 0) as [Hneg|Hpos].
  { split; [|split; [|split]]; [|intros _|lia|lia].
    - exists []. split; [|by left].
      by destruct (negb (OS.errno a =? OS.EAGAIN) && negb (OS.errno a =? OS.EWOULDBLOCK)).
    - by destruct (OS.errno a =? OS.EAGAIN), (OS.errno a =? OS.EWOULDBLOCK). }
  destruct (OS.data a) as [|x rest] eqn:Hdata.
  { rewrite take_nil. cbn [length Z.of_nat Z.eqb].
    split; [|split; [|split]]; [|lia|done|done].
    exists []. split; [done|by left]. }
  set (received := take (Z.to_nat Protocol.MAX_PACKET_SIZE) (x :: rest)).
  assert (Hlen : (Z.of_nat (length received) =? 0) = false).
  { apply Z.eqb_neq. subst received. vm_compute Z.to_nat. cbn [take length]. lia. }
  rewrite Hlen.
  set (s1 := {| UDSServer.socket_path_ := _ |}).
  destruct (ProcessClientRequest_calls host s1 client_fd
              (received ++ drop (length received) buffer)
              (Z.of_nat (length received)) response w1) as [[sent [Hsent Hcases]] Hthrow].
  destruct (UDSServer.ProcessClientRequest host s1 client_fd _ _ response w1)
    as [[[n|e|] log] w2]; cbn [fst snd] in *.
  2: by specialize (Hthrow e).
  all: (split; [|split; [|split]]; [|lia|done|intros _ _]);
    [exists sent; split; [by rewrite Hsent, Htrace, <- app_assoc|done]
    |split; [done|split; [reflexivity|]];
     unfold UDSServer.GetClientCount; subst s1; cbn [UDSServer.clients_];
     f_equal; apply map_size_insert_Some; by exists client].
Qed.

Lemma HandleClientData_cases_witness :
  fst (fst (fst (UDSServer.HandleClientData LittleEndian
    (UDSServer.set_clients
       {[ 9 := {| UDSServer.fd := 9; UDSServer.last_activity := 100;
                  UDSServer.recv_buffer := [] |} ]}
       (calculator_server LittleEndian))
    9 160 blank_packet blank_packet
    {| OS.script := [ {| OS.ret := 3; OS.errno := 0; OS.data := [x00; x00; x00] |} ];
       OS.trace := [] |})))
  <> Normal false.
Proof.
  refine (proj1 (proj2 (proj2 (proj2 (proj2
    (HandleClientData_cases LittleEndian _ 9 160 blank_packet blank_packet _) _ _))) _ _)).
  - reflexivity.
  - cbn. lia.
  - discriminate.
Defined.
(** When a well-formed frame gets no response. A frame that passes the
    checks of [ProcessClientRequest] is answered with 0 and without any
    call when no handler is registered for its routine id, when the
    handler throws and when the handler writes nothing. When the handler
    writes [n] bytes they are sent with one [send] whose result is only
    tested for being negative: a failed [send] gives 0 although the
    handler ran, and a [send] that took fewer than [n] bytes still gives
    [n] and is not repeated. *)
Theorem ProcessClientRequest_without_response (host : Host) (s : UDSServer.t)
    (client_fd : Z) (data : list byte) (len : Z) (response : list byte)
    (w : OS.World) :
  11 <= len <= Z.of_nat (length data) -> len < 2 ^ 63 ->
  frame_start data = Protocol.START_BYTE ->
  frame_version data = Protocol.VERSION ->
  let processed :=
    UDSServer.ProcessClientRequest host s client_fd data len response w in
  let routine_id := frame_routine_id data in
  let find := (ServiceManager.ActFind routine_id, true) in
  let run := (ServiceManager.ActExecute routine_id (drop 10 data) (len - 11), false) in
  (ServiceManager.IsRoutinePresent routine_id (UDSServer.service_manager_ s) = false ->
     processed = (Normal 0, [find], w)) /\
  (forall service,
     ServiceManager.services_ (UDSServer.service_manager_ s) !! routine_id
     = Some service ->
     let ran := ServiceManager.Execute service (drop 10 data) (len - 11) response
                  Protocol.MAX_PACKET_SIZE in
     ((exists e, fst ran = Throw e) -> processed = (Normal 0, [find; run], w)) /\
     (forall n, fst ran = Normal n -> n <= 0 ->
        processed = (Normal 0, [find; run], w)) /\
     (forall n bytes, fst ran = Normal n -> 0 < n ->
        mem_read (snd ran) 0 n = Some bytes ->
        let sent := OS.call (OS.sys_send client_fd bytes) w in
        processed
        = (Normal (if OS.ret (fst sent) <? 0 then 0 else n), [find; run], snd sent))).
Proof.
  intros Hlen Hmax Hstart Hversion. cbv zeta.
  rewrite ProcessClientRequest_spec by lia.
  rewrite Hstart, Hversion, !Z.eqb_refl. cbn [negb orb].
  unfold ServiceManager.ExecuteService, ServiceManager.IsRoutinePresent.
  cbn [ServiceManager.lock ServiceManager.unlock ServiceManager.services_
       ServiceManager.observe ServiceManager.mutex_ app].
  replace (len - 10 - 1) with (len - 11) by lia.
  split.
  - intros Hnone. apply bool_decide_eq_false in Hnone.
    destruct (ServiceManager.services_ (UDSServer.service_manager_ s)
                !! frame_routine_id data) as [service|]; [|done].
    exfalso. apply Hnone. by eexists.
  - intros service ->.
    destruct (ServiceManager.Execute service (drop 10 data) (len - 11) response
                Protocol.MAX_PACKET_SIZE) as [[n|e|] output];
      cbn [fst snd UDSServer.send_response].
    + split; [by intros [e He]|]. split.
      * intros n' Hn Hle. injection Hn as ->.
        destruct (Z.ltb_spec 0 n'); [lia|done].
      * intros n' bytes Hn Hpos Hread. injection Hn as ->.
        destruct (Z.ltb_spec 0 n'); [|lia]. rewrite Hread.
        destruct (OS.call (OS.sys_send client_fd bytes) w) as [a w'].
        cbn [fst snd]. by destruct (OS.ret a <? 0).
    + split; [done|]. split; [by intros n Hn|by intros n bytes Hn].
    + split; [by intros [e He]|]. split; [by intros n Hn|by intros n bytes Hn].
Qed.

(** A server with an empty registry. *)
Definition bare_server : UDSServer.t :=
  {| UDSServer.socket_path_ := "/tmp/ipc_demo.sock";
     UDSServer.service_manager_ :=
       {| ServiceManager.services_ := ∅; ServiceManager.mutex_ := false |};
     UDSServer.running_ := true; UDSServer.server_thread_ := UDSServer.Running;
     UDSServer.server_fd_ := 3; UDSServer.epoll_fd_ := 4;
     UDSServer.timer_fd_ := 5; UDSServer.clients_ := ∅ |}.

Lemma ProcessClientRequest_without_response_witness :
  UDSServer.ProcessClientRequest LittleEndian bare_server 9
    (request_frame LittleEndian 28 1 double_1 double_2) 28 blank_packet
    {| OS.script := []; OS.trace := [] |}
  = (Normal 0,
     [(ServiceManager.ActFind
         (frame_routine_id (request_frame LittleEndian 28 1 double_1 double_2)), true)],
     {| OS.script := []; OS.trace := [] |}).
Proof.
  apply (ProcessClientRequest_without_response LittleEndian bare_server 9
           (request_frame LittleEndian 28 1 double_1 double_2) 28 blank_packet
           {| OS.script := []; OS.trace := [] |}).
  - vm_compute. split; discriminate.
  - reflexivity.
  - vm_compute. reflexivity.
  - vm_compute. reflexivity.
  - vm_compute. reflexivity.
Defined.

(** A calculator request: the start byte, four bytes of declared length,
    the routine id, the version, the 17 payload bytes and what follows
    them. *)
Definition calculator_request (first : byte) (declared payload tail : list byte)
    : list byte :=
  first :: declared
  ++ be_bytes 4 CalculatorService.GetRequestRoutineId
  ++ byte_of_Z Protocol.VERSION :: payload ++ tail.

Lemma calculator_request_parts (first : byte) (declared payload tail : list byte) :
  length declared = 4%nat ->
  frame_start (calculator_request first declared payload tail) = Z_of_byte first /\
  frame_version (calculator_request first declared payload tail) = Protocol.VERSION /\
  frame_routine_id (calculator_request first declared payload tail)
  = CalculatorService.GetRequestRoutineId /\
  drop 10 (calculator_request first declared payload tail) = payload ++ tail /\
  length (calculator_request first declared payload tail)
  = (10 + length payload + length tail)%nat.
Proof.
  intros H. do 4 (destruct declared as [|? declared]; [simpl in H; lia|]).
  destruct declared; [|simpl in H; lia].
  unfold calculator_request.
  do 4 (split; [reflexivity|]).
  cbn [app length]. rewrite !length_app, length_be_bytes. cbn [length]. rewrite length_app. lia.
Qed.

(** Neither the declared length nor the END byte of a request is looked
    at. For a server that holds the calculator service, two requests that
    agree on the start byte and on the 17 payload bytes get the same
    response sent and the same value returned, whatever four bytes stand
    in the length field and whatever bytes, in equal number and at least
    one, follow the payload where the END byte belongs. *)
Theorem frame_length_and_end_unchecked (host : Host) (s : UDSServer.t)
    (client_fd : Z) (first : byte) (declared declared' payload tail tail' : list byte)
    (response : list byte) (w : OS.World) :
  length declared = 4%nat -> length declared' = 4%nat ->
  length payload = 17%nat ->
  (1 <= length tail)%nat -> length tail' = length tail ->
  27 + Z.of_nat (length tail) <= Protocol.MAX_PACKET_SIZE ->
  ServiceManager.services_ (UDSServer.service_manager_ s)
    !! CalculatorService.GetRequestRoutineId
  = Some (ServiceManager.calculator host) ->
  Z.of_nat (length response) = Protocol.MAX_PACKET_SIZE ->
  let len := 27 + Z.of_nat (length tail) in
  let processed :=
    UDSServer.ProcessClientRequest host s client_fd
      (calculator_request first declared payload tail) len response w in
  let processed' :=
    UDSServer.ProcessClientRequest host s client_fd
      (calculator_request first declared' payload tail') len response w in
  fst (fst processed) = fst (fst processed') /\ snd processed = snd processed'.
Proof.
  intros Hd Hd' Hp Ht Ht' Hmax Hreg Hresp. cbv zeta.
  unfold Protocol.MAX_PACKET_SIZE in Hmax.
  destruct (calculator_request_parts first declared payload tail Hd)
    as (Hstart & Hversion & Hid & Hdrop & Hlen).
  destruct (calculator_request_parts first declared' payload tail' Hd')
    as (Hstart' & Hversion' & Hid' & Hdrop' & Hlen').
  rewrite !ProcessClientRequest_spec by (rewrite ?Hlen, ?Hlen', ?Hp, ?Ht'; lia).
  rewrite Hstart, Hstart', Hversion, Hversion', Hid, Hid', Hdrop, Hdrop'.
  destruct (negb (Z_of_byte first =? Protocol.START_BYTE)
            || negb (Protocol.VERSION =? Protocol.VERSION)); [done|].
  unfold ServiceManager.ExecuteService.
  cbn [ServiceManager.lock ServiceManager.unlock ServiceManager.services_
       ServiceManager.observe ServiceManager.mutex_].
  rewrite Hreg. cbn [ServiceManager.Execute ServiceManager.calculator].
  rewrite <- Hresp.
  rewrite !Execute_spec;
    [|rewrite length_app; lia|lia|rewrite Hresp; unfold Protocol.MAX_PACKET_SIZE; lia
     |rewrite length_app; lia|lia|rewrite Hresp; unfold Protocol.MAX_PACKET_SIZE; lia].
  assert (Hanswer : answer host (payload ++ tail) (27 + Z.of_nat (length tail) - 10 - 1)
                    = answer host (payload ++ tail') (27 + Z.of_nat (length tail) - 10 - 1)).
  { unfold answer.
    destruct (request_fields_app host payload tail Hp) as (-> & -> & ->).
    destruct (request_fields_app host payload tail' Hp) as (-> & -> & ->).
    reflexivity. }
  rewrite Hanswer. cbn [UDSServer.send_response].
  destruct (0 <? _); [|done].
  destruct (mem_read _ 0 _); [|done].
  destruct (OS.call _ w) as [a w']. by destruct (OS.ret a <? 0).
Qed.

Lemma frame_length_and_end_unchecked_witness :
  snd (UDSServer.ProcessClientRequest LittleEndian (calculator_server LittleEndian) 9
         (calculator_request x7e (be_bytes 4 28)
            (request_payload LittleEndian 1 double_1 double_2) [x7f])
         (27 + Z.of_nat (length [x7f])) blank_packet (one_answer 24))
  = snd (UDSServer.ProcessClientRequest LittleEndian (calculator_server LittleEndian) 9
           (calculator_request x7e (be_bytes 4 999)
              (request_payload LittleEndian 1 double_1 double_2) [x00])
           (27 + Z.of_nat (length [x7f])) blank_packet (one_answer 24)).
Proof.
  apply (frame_length_and_end_unchecked LittleEndian (calculator_server LittleEndian) 9
           x7e (be_bytes 4 28) (be_bytes 4 999)
           (request_payload LittleEndian 1 double_1 double_2) [x7f] [x00]
           blank_packet (one_answer 24)).
  - reflexivity.
  - reflexivity.
  - reflexivity.
  - simpl. lia.
  - reflexivity.
  - vm_compute. discriminate.
  - reflexivity.
  - reflexivity.
Defined.

(* ================================================================== *)
(** * The time service and its client *)

Lemma seq_assoc {A} (p q : M unit) (k : M A) (b : ByteBuffer.t) :
  (p ;; q ;; k) b = ((p ;; q) ;; k) b.
Proof.
  unfold bind. destruct (p b) as [[[]|e|] b1]; [|done..].
  by destruct (q b1) as [[[]|e|] b2].
Qed.

(** What follows the header in a response of the time service. *)
Definition time_payload (status : TimeService.Status) (timestamp : string)
    (unix_timestamp : Z) (error_msg : string) : list byte :=
  be_bytes 1 (TimeService.Status_code status) ++ wire_string timestamp
  ++ wire_long unix_timestamp ++ wire_string error_msg.

(** A response frame of the time service. *)
Definition time_frame (status : TimeService.Status) (timestamp : string)
    (unix_timestamp : Z) (error_msg : string) : list byte :=
  frame_layout
    (28 + Z.of_nat (String.length timestamp) + Z.of_nat (String.length error_msg))
    TimeService.GetResponseRoutineId
    (time_payload status timestamp unix_timestamp error_msg).

Lemma length_time_payload (status : TimeService.Status) (timestamp : string)
    (unix_timestamp : Z) (error_msg : string) :
  Z.of_nat (length (time_payload status timestamp unix_timestamp error_msg))
  = 17 + Z.of_nat (String.length timestamp) + Z.of_nat (String.length error_msg).
Proof.
  unfold time_payload, wire_long.
  rewrite !length_app, !length_be_bytes.
  pose proof (length_wire_string timestamp).
  pose proof (length_wire_string error_msg). lia.
Qed.

Lemma length_time_frame (status : TimeService.Status) (timestamp : string)
    (unix_timestamp : Z) (error_msg : string) :
  Z.of_nat (length (time_frame status timestamp unix_timestamp error_msg))
  = 28 + Z.of_nat (String.length timestamp) + Z.of_nat (String.length error_msg).
Proof.
  unfold time_frame. rewrite length_frame_layout.
  pose proof (length_time_payload status timestamp unix_timestamp error_msg). lia.
Qed.

Section TimeResponses.
Variable host : Host.

Lemma writes_time_payload (status : TimeService.Status) (timestamp : string)
    (unix_timestamp : Z) (error_msg : string) :
  Z.of_nat (String.length timestamp) < 2 ^ 32 ->
  Z.of_nat (String.length error_msg) < 2 ^ 32 ->
  writes (((PutByte host (TimeService.Status_code status) ;; PutString host timestamp) ;;
           PutLong host unix_timestamp) ;; PutString host error_msg)
    (((be_bytes 1 (TimeService.Status_code status) ++ wire_string timestamp)
      ++ wire_long unix_timestamp) ++ wire_string error_msg).
Proof.
  intros Ht He.
  apply writes_bind; [|by apply writes_PutString].
  apply writes_bind; [|by apply writes_PutLong].
  apply writes_bind; [apply writes_PutByte|by apply writes_PutString].
Qed.

(** [write_response] in a fresh buffer with room for the frame. *)
Lemma time_write_response_ok (status : TimeService.Status) (timestamp : string)
    (unix_timestamp : Z) (error_msg : string) (b0 : ByteBuffer.t) :
  wf b0 -> position_ b0 = 0 -> length_ b0 < 2 ^ 32 ->
  28 + Z.of_nat (String.length timestamp) + Z.of_nat (String.length error_msg)
  <= length_ b0 ->
  TimeService.write_response host status timestamp unix_timestamp error_msg b0
  = (Normal (28 + Z.of_nat (String.length timestamp)
             + Z.of_nat (String.length error_msg)),
     {| buffer_ :=
          time_frame status timestamp unix_timestamp error_msg
          ++ drop (28 + String.length timestamp + String.length error_msg) (buffer_ b0);
        length_ := length_ b0; position_ := 5 |}).
Proof.
  intros Hwf Hp Hmax Hfit. unfold TimeService.write_response.
  assert (Hr : remaining b0 = length_ b0) by (unfold remaining; lia).
  assert (Hh : length (frame_header_bytes TimeService.GetResponseRoutineId) = 10%nat)
    by (unfold frame_header_bytes; rewrite !length_app, !length_be_bytes; lia).
  rewrite header_then by (done || lia).
  set (hdr := frame_header_bytes TimeService.GetResponseRoutineId) in *.
  assert (Hwf1 : wf (write_at b0 hdr)) by (apply wf_write_at; [done|lia]).
  pose proof (length_time_payload status timestamp unix_timestamp error_msg) as Hlp.
  rewrite seq_assoc, seq_assoc, seq_assoc.
  rewrite (writes_then _ _ _ _
             (writes_time_payload status timestamp unix_timestamp error_msg
                ltac:(lia) ltac:(lia)) Hwf1).
  2: { rewrite remaining_write_at. unfold time_payload in Hlp.
       rewrite <- !app_assoc. lia. }
  rewrite <- !app_assoc.
  fold (time_payload status timestamp unix_timestamp error_msg).
  rewrite write_at_app by (done || lia).
  pose proof (finish_response host b0 TimeService.GetResponseRoutineId
                (time_payload status timestamp unix_timestamp error_msg)
                Hwf Hp Hmax ltac:(lia)) as Hfin.
  unfold Position in Hfin |- *. cbv zeta in Hfin |- *. fold hdr in Hfin.
  rewrite Hfin. unfold time_frame.
  replace (11 + Z.of_nat (length (time_payload status timestamp unix_timestamp error_msg)))
    with (28 + Z.of_nat (String.length timestamp) + Z.of_nat (String.length error_msg))
    by lia.
  replace (11 + length (time_payload status timestamp unix_timestamp error_msg))%nat
    with (28 + String.length timestamp + String.length error_msg)%nat by lia.
  reflexivity.
Qed.

End TimeResponses.
(** What [Execute] answers to a request region of [input_len] bytes when
    the clock gives [clock]. *)
Definition time_answer (clock : TimeService.clock_reading) (input : list byte)
    (input_len : Z) : TimeService.Status * string * Z * string :=
  if input_len =? 0 then
    (TimeService.InvalidInput, EmptyString, 0,
     "Exception: ByteBuffer: length must be > 0"%string)
  else
    match TimeService.Operation_of_byte (byte_at input 0) with
    | TimeService.GetTimestamp => TimeService.GetCurrentTimestamp clock
    | TimeService.Unnamed _ =>
        (TimeService.InvalidOperation, EmptyString, 0, "Invalid operation code"%string)
    end.

(** The frame of an answer, and its length. *)
Definition answer_time_frame (answer : TimeService.Status * string * Z * string)
    : list byte :=
  let '(status, timestamp, unix_timestamp, error_msg) := answer in
  time_frame status timestamp unix_timestamp error_msg.

Definition answer_size (answer : TimeService.Status * string * Z * string) : Z :=
  let '(status, timestamp, unix_timestamp, error_msg) := answer in
  28 + Z.of_nat (String.length timestamp) + Z.of_nat (String.length error_msg).

(** The answer as the client reports it. *)
Definition time_reported (answer : TimeService.Status * string * Z * string)
    : TimeClient.TimeResult :=
  let '(status, timestamp, unix_timestamp, error_msg) := answer in
  match status with
  | TimeService.Success =>
      {| TimeClient.success := true; TimeClient.timestamp := timestamp;
         TimeClient.unix_timestamp := unix_timestamp;
         TimeClient.error_message := EmptyString |}
  | _ => TimeClient.failure error_msg
  end.

Lemma to_int64_range (z : Z) : - 2 ^ 63 <= to_int64 z < 2 ^ 63.
Proof.
  unfold to_int64. pose proof (Z.mod_pos_bound (z + 2 ^ 63) (2 ^ 64) ltac:(lia)). lia.
Qed.

Lemma time_answer_range (clock : TimeService.clock_reading) (input : list byte)
    (input_len : Z) :
  - 2 ^ 63 <= snd (fst (time_answer clock input input_len)) < 2 ^ 63.
Proof.
  unfold time_answer. destruct (input_len =? 0); [cbn; lia|].
  destruct (TimeService.Operation_of_byte _); [|cbn; lia].
  destruct clock; cbn [TimeService.GetCurrentTimestamp fst snd]; [|lia].
  apply to_int64_range.
Qed.

Section TimeExecute.
Variable host : Host.

Lemma Time_Execute_spec (clock : TimeService.clock_reading) (input : list byte)
    (input_len : Z) (output : list byte) :
  0 <= input_len <= Z.of_nat (length input) -> input_len < 2 ^ 63 ->
  answer_size (time_answer clock input input_len) <= Z.of_nat (length output) < 2 ^ 32 ->
  TimeService.Execute host clock input input_len output (Z.of_nat (length output))
  = (Normal (answer_size (time_answer clock input input_len)),
     answer_time_frame (time_answer clock input input_len)
     ++ drop (Z.to_nat (answer_size (time_answer clock input input_len))) output).
Proof.
  intros Hin Hmax Hout.
  assert (Hwrite : forall status timestamp unix_timestamp error_msg,
    28 + Z.of_nat (String.length timestamp) + Z.of_nat (String.length error_msg)
    <= Z.of_nat (length output) ->
    CalculatorService.with_buffer output (Z.of_nat (length output))
      (TimeService.write_response host status timestamp unix_timestamp error_msg)
    = (Normal (28 + Z.of_nat (String.length timestamp)
               + Z.of_nat (String.length error_msg)),
       time_frame status timestamp unix_timestamp error_msg
       ++ drop (28 + String.length timestamp + String.length error_msg) output)).
  { intros status timestamp unix_timestamp error_msg Hfit.
    unfold CalculatorService.with_buffer, ByteBuffer.new.
    destruct (Z.of_nat (length output) =? 0) eqn:E0; [lia|].
    rewrite time_write_response_ok; [done|unfold wf; simpl; lia|done|simpl; lia|simpl; lia]. }
  unfold TimeService.Execute. cbv zeta.
  assert (Hparse :
    fst (CalculatorService.with_buffer input input_len (GetByte host))
    = if input_len =? 0
      then Throw (invalid_argument "ByteBuffer: length must be > 0")
      else Normal (byte_at input 0)).
  { unfold CalculatorService.with_buffer, ByteBuffer.new.
    destruct (input_len =? 0) eqn:E0; [done|].
    set (b := {| buffer_ := input; length_ := input_len; position_ := 0 |}).
    assert (Hwf : wf b) by (unfold wf, b; simpl; lia).
    assert (Hs : starts_with b [nth 0 input x00]).
    { unfold starts_with, b. cbn [buffer_ length_ position_ length].
      split; [lia|]. change (Z.to_nat 0) with 0%nat. rewrite drop_0.
      destruct input as [|x input]; [simpl in Hin; lia|done]. }
    rewrite (reads_GetByte host [nth 0 input x00] eq_refl b Hwf Hs).
    cbn [fst]. by rewrite be_value_singleton. }
  rewrite Hparse. unfold time_answer in *.
  destruct (input_len =? 0).
  - cbn [what String.append answer_size answer_time_frame] in *.
    rewrite Hwrite by exact (proj1 Hout).
    reflexivity.
  - destruct (match TimeService.Operation_of_byte (byte_at input 0) with
              | TimeService.GetTimestamp => TimeService.GetCurrentTimestamp clock
              | TimeService.Unnamed _ =>
                  (TimeService.InvalidOperation, EmptyString, 0,
                   "Invalid operation code"%string)
              end) as [[[status timestamp] unix_timestamp] error_msg].
    cbn [answer_size answer_time_frame] in *.
    rewrite Hwrite by exact (proj1 Hout).
    f_equal. f_equal. f_equal. lia.
Qed.

(** What the client reads from the bytes of a response of the service. *)
Lemma reads_time_response (status : TimeService.Status) (timestamp : string)
    (unix_timestamp : Z) (error_msg : string) (total_length : Z) :
  Z.of_nat (String.length timestamp) < 2 ^ 32 ->
  Z.of_nat (String.length error_msg) < 2 ^ 32 ->
  - 2 ^ 63 <= unix_timestamp < 2 ^ 63 ->
  reads (TimeClient.parse_response host)
    (be_bytes 1 Protocol.START_BYTE ++ be_bytes 4 total_length
     ++ be_bytes 4 TimeClient.RESPONSE_ROUTINE_ID ++ be_bytes 1 Protocol.VERSION
     ++ be_bytes 1 (TimeService.Status_code status) ++ wire_string timestamp
     ++ wire_long unix_timestamp ++ wire_string error_msg)
    (time_reported (status, timestamp, unix_timestamp, error_msg)).
Proof.
  intros Ht He Hu. unfold TimeClient.parse_response.
  eapply reads_bind; [apply reads_GetByte, length_be_bytes|].
  rewrite be_value_be_bytes. change (Protocol.START_BYTE mod 256 ^ Z.of_nat 1) with 0x7E.
  cbn [Z.eqb Protocol.START_BYTE Pos.eqb negb].
  eapply reads_bind; [apply reads_GetInt, length_be_bytes|].
  eapply reads_bind; [apply reads_GetInt, length_be_bytes|].
  rewrite be_value_be_bytes.
  change (TimeClient.RESPONSE_ROUTINE_ID mod 256 ^ Z.of_nat 4)
    with TimeClient.RESPONSE_ROUTINE_ID.
  rewrite Z.eqb_refl. cbn [negb].
  eapply reads_bind; [apply reads_GetByte, length_be_bytes|].
  eapply reads_bind; [apply reads_GetByte, length_be_bytes|].
  eapply reads_bind; [by apply reads_GetString|].
  unfold wire_long at 1. 
  eapply reads_bind; [apply reads_GetLong; apply length_be_bytes|].
  rewrite !be_value_be_bytes_4 by apply to_uint32_range.
  rewrite long_words by done.
  rewrite <- (app_nil_r (wire_string error_msg)).
  eapply reads_bind; [by apply reads_GetString|].
  rewrite be_value_be_bytes.
  destruct status; apply reads_ret.
Qed.

(** What the client makes of a response frame of the service. *)
Lemma parse_time_frame (answer : TimeService.Status * string * Z * string)
    (rest : list byte) :
  answer_size answer < 2 ^ 32 ->
  - 2 ^ 63 <= snd (fst answer) < 2 ^ 63 ->
  TimeClient.caught
    (fst (CalculatorService.with_buffer (answer_time_frame answer ++ rest)
            (answer_size answer) (TimeClient.parse_response host)))
    Some
  = Some (time_reported answer).
Proof.
  destruct answer as [[[status timestamp] unix_timestamp] error_msg].
  cbn [answer_size answer_time_frame fst snd]. intros Hsize Hu.
  unfold CalculatorService.with_buffer, ByteBuffer.new.
  set (n := 28 + Z.of_nat (String.length timestamp) + Z.of_nat (String.length error_msg)) in *.
  destruct (n =? 0) eqn:E0; [lia|].
  set (frame := time_frame status timestamp unix_timestamp error_msg).
  pose proof (length_time_frame status timestamp unix_timestamp error_msg) as Hlen.
  fold frame n in Hlen.
  set (b := {| buffer_ := frame ++ rest; length_ := n; position_ := 0 |}).
  assert (Hwf : wf b).
  { unfold wf, b. cbn [buffer_ length_ position_]. rewrite length_app. lia. }
  set (body := be_bytes 1 Protocol.START_BYTE ++ be_bytes 4 n
       ++ be_bytes 4 TimeClient.RESPONSE_ROUTINE_ID ++ be_bytes 1 Protocol.VERSION
       ++ be_bytes 1 (TimeService.Status_code status) ++ wire_string timestamp
       ++ wire_long unix_timestamp ++ wire_string error_msg).
  assert (Hframe : frame = body ++ be_bytes 1 Protocol.END_BYTE).
  { unfold frame, body, time_frame, frame_layout, time_payload.
    rewrite <- !app_assoc. reflexivity. }
  assert (Hs : starts_with b body).
  { assert (Hbl : Z.of_nat (length body) = n - 1).
    { rewrite Hframe, length_app, length_be_bytes in Hlen. lia. }
    unfold starts_with, b. cbn [buffer_ length_ position_].
    split; [lia|]. change (Z.to_nat 0) with 0%nat. rewrite drop_0.
    rewrite Hframe, <- app_assoc. by rewrite take_app_length. }
  rewrite (reads_time_response status timestamp unix_timestamp error_msg n
             ltac:(lia) ltac:(lia) Hu b Hwf Hs).
  reflexivity.
Qed.

End TimeExecute.
Lemma time_frame_total_length (answer : TimeService.Status * string * Z * string) :
  answer_size answer < 2 ^ 32 ->
  Z.of_nat (length (answer_time_frame answer)) = answer_size answer /\
  frame_total_length (answer_time_frame answer) = answer_size answer.
Proof.
  destruct answer as [[[status timestamp] unix_timestamp] error_msg].
  cbn [answer_size answer_time_frame]. intros Hsize.
  split; [apply length_time_frame|].
  unfold frame_total_length, uint32_at, time_frame, frame_layout.
  change (be_bytes 1 Protocol.START_BYTE ++ ?l) with (byte_of_Z Protocol.START_BYTE :: l).
  cbn [drop]. rewrite drop_0.
  rewrite take_app_length' by (by rewrite length_be_bytes).
  apply be_value_be_bytes_4. lia.
Qed.

Lemma time_build_request_ok (host : Host) :
  TimeClient.build_request host = (Normal 1, be_bytes 1 TimeClient.GetTimestamp).
Proof. by destruct host. Qed.

(** A call of the time client, end to end. The service answers the
    one-byte request of the client with a frame that carries what
    [GetCurrentTimestamp] gives, whatever follows the request byte in the
    region it is read from. On a connected channel whose frame is taken
    and on which that response arrives, [GetCurrentTime] sends the
    12-byte request frame with routine id 0x2000, receives once and
    returns the formatted time and the [time_t] value of the server's
    clock as a success, or the text of the failure when the clock failed. *)
Theorem TimeClient_call_returns_server_time (host : Host) (strerror : Z -> string)
    (clock : TimeService.clock_reading) (tail output response_data : list byte)
    (im : Channel.Impl) (w : OS.World) (a1 a2 : OS.answer) (rest : list OS.answer) :
  let answer := TimeService.GetCurrentTimestamp clock in
  Channel.mutex_ im = false -> Channel.connected_ im = true ->
  0 <= Channel.socket_fd_ im ->
  Z.of_nat (length (Channel.buffer_ im)) = Protocol.MAX_PACKET_SIZE ->
  Z.of_nat (length output) = Protocol.MAX_PACKET_SIZE ->
  Z.of_nat (length response_data) = Protocol.MAX_PACKET_SIZE ->
  answer_size answer <= Protocol.MAX_PACKET_SIZE ->
  OS.script w = a1 :: a2 :: rest ->
  12 <= OS.ret a1 -> 0 <= OS.ret a2 -> OS.data a2 = answer_time_frame answer ->
  TimeService.Execute host clock (be_bytes 1 TimeClient.GetTimestamp ++ tail) 1
    output Protocol.MAX_PACKET_SIZE
  = (Normal (answer_size answer),
     answer_time_frame answer ++ drop (Z.to_nat (answer_size answer)) output) /\
  fst (fst (TimeClient.GetCurrentTime host strerror response_data im w))
  = Channel.Returns (Some (time_reported answer)) /\
  snd (TimeClient.GetCurrentTime host strerror response_data im w)
  = {| OS.script := rest;
       OS.trace :=
         OS.trace w
         ++ [OS.sys_send (Channel.socket_fd_ im)
               (frame_layout 12 TimeClient.REQUEST_ROUTINE_ID
                  (be_bytes 1 TimeClient.GetTimestamp));
             OS.sys_recv (Channel.socket_fd_ im) Protocol.MAX_PACKET_SIZE] |}.
Proof.
  intros answer Hm Hc Hfd Hbuf Hout Hresp Hsize Hscript Hsent Hret Hdata.
  assert (Hanswer : time_answer clock (be_bytes 1 TimeClient.GetTimestamp ++ tail) 1
                    = answer) by reflexivity.
  pose proof (time_answer_range clock (be_bytes 1 TimeClient.GetTimestamp ++ tail) 1)
    as Hrange. rewrite Hanswer in Hrange.
  unfold Protocol.MAX_PACKET_SIZE in Hsize.
  destruct (time_frame_total_length answer ltac:(lia)) as [Hlen Htotal].
  assert (Hmin : 28 <= answer_size answer).
  { unfold answer_size. destruct answer as [[[status timestamp] unix_timestamp] error_msg].
    lia. }
  split.
  { rewrite <- Hout, <- Hanswer.
    apply Time_Execute_spec.
    - rewrite length_app, length_be_bytes. lia.
    - lia.
    - rewrite Hanswer, Hout. unfold Protocol.MAX_PACKET_SIZE. lia. }
  unfold TimeClient.GetCurrentTime. rewrite time_build_request_ok.
  pose proof (ExecuteRPC_served host strerror TimeClient.REQUEST_ROUTINE_ID
                (be_bytes 1 TimeClient.GetTimestamp) response_data
                (answer_time_frame answer) Protocol.MAX_PACKET_SIZE 0 im w a1 a2 rest
                Hm Hc Hfd Hbuf) as Hrpc.
  change (Z.of_nat (length (be_bytes 1 TimeClient.GetTimestamp))) with 1 in Hrpc.
  rewrite Hrpc; clear Hrpc;
    try (done || (unfold Protocol.MAX_PACKET_SIZE, Protocol.GetMinFrameSize in *; lia)).
  cbn [fst snd]. rewrite Hlen.
  rewrite (parse_time_frame host answer) by (done || lia).
  split; reflexivity.
Qed.

(** A reading of the clock, and a world in which the [send] of the
    12-byte request succeeds and the [recv] that follows delivers the
    service's response to it. *)
Definition morning : TimeService.clock_reading :=
  TimeService.Reading "2026-03-01 09:30:00.250" 1772357400.

Definition timed_world : OS.World :=
  {| OS.script :=
       [ {| OS.ret := 12; OS.errno := 0; OS.data := [] |};
         {| OS.ret := 51; OS.errno := 0;
            OS.data := answer_time_frame (TimeService.GetCurrentTimestamp morning) |} ];
     OS.trace := [] |}.

Lemma TimeClient_call_returns_server_time_witness :
  fst (fst (TimeClient.GetCurrentTime LittleEndian (fun _ => EmptyString) blank_packet
              connected_channel timed_world))
  = Channel.Returns (Some (time_reported (TimeService.GetCurrentTimestamp morning))).
Proof.
  apply (TimeClient_call_returns_server_time LittleEndian (fun _ => EmptyString)
           morning [x7f] blank_packet blank_packet connected_channel timed_world
           {| OS.ret := 12; OS.errno := 0; OS.data := [] |}
           {| OS.ret := 51; OS.errno := 0;
              OS.data := answer_time_frame (TimeService.GetCurrentTimestamp morning) |}
           []);
    try reflexivity; try (vm_compute; discriminate); cbn; lia.
Defined.
